(** * Lumix engine: entity/transform store and animation blend-tree runtime

    A shallow embedding of [src/engine/world.cpp], [src/animation/nodes.cpp]
    and the animator update and the animator registry of
    [src/animation/animation_module.cpp], with the properties stated about
    them.

    Conventions of the embedding.
    - C++ [int]/[i32]/[u32] values are [Z]; [float] and [double] values are
      IEEE-754 binary32/binary64 numbers ([spec_float] with the operations of
      the standard library at precision 24/53).
    - A Lumix [Array<T>] is a [list T]; [operator[]] takes an [int] index.
      The source does not check bounds in release builds; here a read outside
      the array yields a fixed default record and a write outside is dropped.
      Every theorem that needs an access to be in range says so.
    - Loops and recursions that walk linked entities take a [fuel] argument
      and return [None] when it runs out. *)

From Stdlib Require Import ZArith Bool String Lia SpecFloat.
From stdpp Require Import base option list gmap.
Local Open Scope Z_scope.

(** ** Arrays indexed by [int] *)

Section ZArray.
Context {A : Type}.

Definition zget (l : list A) (i : Z) : option A :=
  if decide (0 <= i) then l !! Z.to_nat i else None.

Definition zalter (f : A -> A) (i : Z) (l : list A) : list A :=
  if decide (0 <= i) then alter f (Z.to_nat i) l else l.

Definition zlen (l : list A) : Z := Z.of_nat (length l).

(** [Array::back] *)
Definition back (l : list A) : option A := last l.

(** [Array::pop] *)
Definition pop (l : list A) : list A := take (length l - 1)%nat l.

(** [Array::swapAndPop]: the last item overwrites item [i], then the array
    shrinks by one. *)
Definition swapAndPop (i : Z) (l : list A) : list A :=
  match back l with
  | Some x => pop (zalter (fun _ => x) i l)
  | None => l
  end.

End ZArray.

(** ** Floating point

    [float] is binary32 and [double] binary64; both are values of
    [spec_float], told apart by the operations applied to them. *)

Module F32.
Definition prec : Z := 24.
Definition emax : Z := 128.
Definition add := SFadd prec emax.
Definition sub := SFsub prec emax.
Definition mul := SFmul prec emax.
Definition div := SFdiv prec emax.
Definition sqrt := SFsqrt prec emax.
Definition neg := SFopp.
Definition ltb := SFltb.
Definition leb := SFleb.
Definition eqb := SFeqb.
Definition gtb (a b : spec_float) := SFltb b a.
Definition geb (a b : spec_float) := SFleb b a.
Definition of_Z (z : Z) : spec_float := binary_normalize prec emax z 0 false.
Definition zero : spec_float := S754_zero false.
Definition one : spec_float := Eval vm_compute in of_Z 1.
Definition two : spec_float := Eval vm_compute in of_Z 2.
Definition half : spec_float := Eval vm_compute in div one two.
(** conversion of a [double] to [float] (round to nearest even) *)
Definition of_double (d : spec_float) : spec_float :=
  match d with
  | S754_finite s m e => binary_round prec emax s m e
  | _ => d
  end.
(** [FLT_MAX] *)
Definition max_value : spec_float := Eval vm_compute in SFmax_float prec emax.
End F32.

Module F64.
Definition prec : Z := 53.
Definition emax : Z := 1024.
Definition add := SFadd prec emax.
Definition sub := SFsub prec emax.
Definition mul := SFmul prec emax.
Definition div := SFdiv prec emax.
Definition neg := SFopp.
Definition of_Z (z : Z) : spec_float := binary_normalize prec emax z 0 false.
Definition zero : spec_float := S754_zero false.
Definition one : spec_float := Eval vm_compute in of_Z 1.
Definition two : spec_float := Eval vm_compute in of_Z 2.
(** conversion of a [float] to [double]; it is exact *)
Definition of_float (f : spec_float) : spec_float :=
  match f with
  | S754_finite s m e => binary_round prec emax s m e
  | _ => f
  end.
End F64.

(** Truncation of a floating-point number toward zero, as the C++ cast to an
    integer type does for values in range. *)
Definition float_trunc (f : spec_float) : Z :=
  match f with
  | S754_finite s m e =>
      let a := match e with
               | Z0 => Zpos m
               | Zpos p => Z.shiftl (Zpos m) e
               | Zneg p => Z.shiftr (Zpos m) (Zpos p)
               end in
      if s then - a else a
  | _ => 0
  end.

(** ** Vectors, quaternions and transforms *)

Record Vec2 := mkVec2 { v2x : spec_float; v2y : spec_float }.
Record Vec3 := mkVec3 { v3x : spec_float; v3y : spec_float; v3z : spec_float }.
Record DVec3 := mkDVec3 { dx : spec_float; dy : spec_float; dz : spec_float }.
Record Quat := mkQuat { qx : spec_float; qy : spec_float; qz : spec_float; qw : spec_float }.

Record Transform := mkTransform { pos : DVec3; rot : Quat; scale : Vec3 }.

(** [LocalRigidTransform]: a position and a rotation in single precision *)
Record LocalRigidTransform := mkLocalRigidTransform { lpos : Vec3; lrot : Quat }.

Definition Quat_IDENTITY : Quat := mkQuat F32.zero F32.zero F32.zero F32.one.
Definition Vec3_ONE : Vec3 := mkVec3 F32.one F32.one F32.one.
Definition DVec3_ZERO : DVec3 := mkDVec3 F64.zero F64.zero F64.zero.
Definition Vec3_ZERO : Vec3 := mkVec3 F32.zero F32.zero F32.zero.

(** The value [{{0, 0, 0}, {0, 0, 0, 1}}]: no motion *)
Definition LocalRigidTransform_IDENTITY : LocalRigidTransform :=
  mkLocalRigidTransform Vec3_ZERO Quat_IDENTITY.

Module Math.
(** Modelled from the spec: [engine/math.h] (the operators of [DVec3],
    [Quat], [Vec2], [Vec3], [Transform] and [LocalRigidTransform]) is not among
    the sources.  The spec names the
    operations ("inverse(parent_world) * child_world", "rot.rotate(..)",
    "rot = root_motion.rot * rot"); they are given their usual
    rigid-transform-with-scale meaning, a child position being scaled,
    rotated and then translated by the parent. *)

Definition dadd (a b : DVec3) : DVec3 :=
  mkDVec3 (F64.add (dx a) (dx b)) (F64.add (dy a) (dy b)) (F64.add (dz a) (dz b)).

Definition dneg (a : DVec3) : DVec3 :=
  mkDVec3 (F64.neg (dx a)) (F64.neg (dy a)) (F64.neg (dz a)).

Definition dscale (a : DVec3) (k : spec_float) : DVec3 :=
  mkDVec3 (F64.mul (dx a) k) (F64.mul (dy a) k) (F64.mul (dz a) k).

Definition dmul_vec3 (a : DVec3) (s : Vec3) : DVec3 :=
  mkDVec3 (F64.mul (dx a) (F64.of_float (v3x s)))
          (F64.mul (dy a) (F64.of_float (v3y s)))
          (F64.mul (dz a) (F64.of_float (v3z s))).

Definition ddiv_vec3 (a : DVec3) (s : Vec3) : DVec3 :=
  mkDVec3 (F64.div (dx a) (F64.of_float (v3x s)))
          (F64.div (dy a) (F64.of_float (v3y s)))
          (F64.div (dz a) (F64.of_float (v3z s))).

Definition dcross (a b : DVec3) : DVec3 :=
  mkDVec3 (F64.sub (F64.mul (dy a) (dz b)) (F64.mul (dz a) (dy b)))
          (F64.sub (F64.mul (dz a) (dx b)) (F64.mul (dx a) (dz b)))
          (F64.sub (F64.mul (dx a) (dy b)) (F64.mul (dy a) (dx b))).

Definition vmul (a b : Vec3) : Vec3 :=
  mkVec3 (F32.mul (v3x a) (v3x b)) (F32.mul (v3y a) (v3y b)) (F32.mul (v3z a) (v3z b)).

Definition vrecip (a : Vec3) : Vec3 :=
  mkVec3 (F32.div F32.one (v3x a)) (F32.div F32.one (v3y a)) (F32.div F32.one (v3z a)).

Definition conjugated (q : Quat) : Quat :=
  mkQuat (F32.neg (qx q)) (F32.neg (qy q)) (F32.neg (qz q)) (qw q).

Definition qmul (a b : Quat) : Quat :=
  let m := F32.mul in
  mkQuat
    (F32.sub (F32.add (F32.add (m (qw a) (qx b)) (m (qw b) (qx a))) (m (qy a) (qz b))) (m (qy b) (qz a)))
    (F32.sub (F32.add (F32.add (m (qw a) (qy b)) (m (qw b) (qy a))) (m (qz a) (qx b))) (m (qz b) (qx a)))
    (F32.sub (F32.add (F32.add (m (qw a) (qz b)) (m (qw b) (qz a))) (m (qx a) (qy b))) (m (qx b) (qy a)))
    (F32.sub (F32.sub (F32.sub (m (qw a) (qw b)) (m (qx a) (qx b))) (m (qy a) (qy b))) (m (qz a) (qz b))).

(** rotation of a vector by a unit quaternion: v + 2w (q x v) + 2 q x (q x v) *)
Definition rotate (q : Quat) (v : DVec3) : DVec3 :=
  let qvec := mkDVec3 (F64.of_float (qx q)) (F64.of_float (qy q)) (F64.of_float (qz q)) in
  let uv := dcross qvec v in
  let uuv := dcross qvec uv in
  let uv := dscale uv (F64.mul F64.two (F64.of_float (qw q))) in
  let uuv := dscale uuv F64.two in
  dadd (dadd v uv) uuv.

(** [Transform::operator*] *)
Definition compose (a b : Transform) : Transform :=
  mkTransform (dadd (pos a) (rotate (rot a) (dmul_vec3 (pos b) (scale a))))
              (qmul (rot a) (rot b))
              (vmul (scale a) (scale b)).

(** [Transform::inverted] *)
Definition inverted (a : Transform) : Transform :=
  let r := conjugated (rot a) in
  mkTransform (rotate r (ddiv_vec3 (dneg (pos a)) (scale a))) r (vrecip (scale a)).
(** Single-precision vectors *)
Definition vadd (a b : Vec3) : Vec3 :=
  mkVec3 (F32.add (v3x a) (v3x b)) (F32.add (v3y a) (v3y b)) (F32.add (v3z a) (v3z b)).

Definition vneg (a : Vec3) : Vec3 :=
  mkVec3 (F32.neg (v3x a)) (F32.neg (v3y a)) (F32.neg (v3z a)).

Definition vscale (a : Vec3) (k : spec_float) : Vec3 :=
  mkVec3 (F32.mul (v3x a) k) (F32.mul (v3y a) k) (F32.mul (v3z a) k).

Definition vcross (a b : Vec3) : Vec3 :=
  mkVec3 (F32.sub (F32.mul (v3y a) (v3z b)) (F32.mul (v3z a) (v3y b)))
         (F32.sub (F32.mul (v3z a) (v3x b)) (F32.mul (v3x a) (v3z b)))
         (F32.sub (F32.mul (v3x a) (v3y b)) (F32.mul (v3y a) (v3x b))).

Definition rotate3 (q : Quat) (v : Vec3) : Vec3 :=
  let qvec := mkVec3 (qx q) (qy q) (qz q) in
  let uv := vcross qvec v in
  let uuv := vcross qvec uv in
  let uv := vscale uv (F32.mul F32.two (qw q)) in
  let uuv := vscale uuv F32.two in
  vadd (vadd v uv) uuv.

Definition lerp (a b t : spec_float) : spec_float :=
  F32.add (F32.mul a (F32.sub F32.one t)) (F32.mul b t).

Definition vlerp (a b : Vec3) (t : spec_float) : Vec3 :=
  mkVec3 (lerp (v3x a) (v3x b) t) (lerp (v3y a) (v3y b) t) (lerp (v3z a) (v3z b) t).

Definition qdot (a b : Quat) : spec_float :=
  F32.add (F32.add (F32.add (F32.mul (qx a) (qx b)) (F32.mul (qy a) (qy b)))
                   (F32.mul (qz a) (qz b)))
          (F32.mul (qw a) (qw b)).

(** normalized linear interpolation of rotations, along the shorter arc *)
Definition nlerp (a b : Quat) (t : spec_float) : Quat :=
  let inv := F32.sub F32.one t in
  let t := if F32.ltb (qdot a b) F32.zero then F32.neg t else t in
  let o := mkQuat (F32.add (F32.mul (qx a) inv) (F32.mul (qx b) t))
                  (F32.add (F32.mul (qy a) inv) (F32.mul (qy b) t))
                  (F32.add (F32.mul (qz a) inv) (F32.mul (qz b) t))
                  (F32.add (F32.mul (qw a) inv) (F32.mul (qw b) t)) in
  let l := F32.div F32.one (F32.sqrt (qdot o o)) in
  mkQuat (F32.mul (qx o) l) (F32.mul (qy o) l) (F32.mul (qz o) l) (F32.mul (qw o) l).

(** [LocalRigidTransform::operator*], [inverted] and [interpolate] *)
Definition lrt_mul (a b : LocalRigidTransform) : LocalRigidTransform :=
  mkLocalRigidTransform (vadd (rotate3 (lrot a) (lpos b)) (lpos a)) (qmul (lrot a) (lrot b)).

Definition lrt_inverted (a : LocalRigidTransform) : LocalRigidTransform :=
  let r := conjugated (lrot a) in
  mkLocalRigidTransform (rotate3 r (vneg (lpos a))) r.

Definition lrt_interpolate (a b : LocalRigidTransform) (t : spec_float) : LocalRigidTransform :=
  mkLocalRigidTransform (vlerp (lpos a) (lpos b) t) (nlerp (lrot a) (lrot b) t).

(** [fmodf(x, 1)]: the fractional part, with the sign of [x] *)
Definition fmod_one (x : spec_float) : spec_float :=
  match x with
  | S754_finite s m e =>
      if 0 <=? e then S754_zero s
      else match F32.sub x (F32.of_Z (float_trunc x)) with
           | S754_zero _ => S754_zero s
           | r => r
           end
  | S754_zero _ => x
  | _ => S754_nan
  end.

(** Componentwise operations on [Vec2] *)
Definition v2sub (a b : Vec2) : Vec2 := mkVec2 (F32.sub (v2x a) (v2x b)) (F32.sub (v2y a) (v2y b)).
Definition v2add (a b : Vec2) : Vec2 := mkVec2 (F32.add (v2x a) (v2x b)) (F32.add (v2y a) (v2y b)).
Definition v2scale (a : Vec2) (k : spec_float) : Vec2 := mkVec2 (F32.mul (v2x a) k) (F32.mul (v2y a) k).
Definition v2div (a : Vec2) (k : spec_float) : Vec2 := mkVec2 (F32.div (v2x a) k) (F32.div (v2y a) k).
Definition v2dot (a b : Vec2) : spec_float := F32.add (F32.mul (v2x a) (v2x b)) (F32.mul (v2y a) (v2y b)).
Definition v2ortho (a : Vec2) : Vec2 := mkVec2 (v2y a) (F32.neg (v2x a)).
Definition squaredLength (a : Vec2) : spec_float := v2dot a a.
Definition fmin (a b : spec_float) : spec_float := if F32.ltb a b then a else b.
Definition fmax (a b : spec_float) : spec_float := if F32.ltb a b then b else a.
Definition v2min (a b : Vec2) : Vec2 := mkVec2 (fmin (v2x a) (v2x b)) (fmin (v2y a) (v2y b)).
Definition v2max (a b : Vec2) : Vec2 := mkVec2 (fmax (v2x a) (v2x b)) (fmax (v2y a) (v2y b)).

End Math.

(** ** The entity/transform/hierarchy store ([src/engine/world.cpp]) *)

Module World.

(** [EntityPtr] and [EntityRef] are an [int] index; [INVALID_ENTITY] is -1
    and [EntityPtr::isValid] tests [index >= 0]. *)
Definition INVALID_ENTITY : Z := -1.
Definition isValid (e : Z) : bool := 0 <=? e.

(** [World::EntityData].  In the engine [prev]/[next] (links of the free
    list) share their storage with [components]; the code reads [prev] and
    [next] of free slots only and [components] of live entities only, so
    they are kept as separate fields. *)
Record EntityData := mkEntityData {
  hierarchy : Z;
  name : Z;
  partition : Z;
  components : Z;
  prev : Z;
  next : Z;
  valid : bool
}.

(** [World::Hierarchy] *)
Record Hierarchy := mkHierarchy {
  entity : Z;
  parent : Z;
  first_child : Z;
  next_sibling : Z;
  local_transform : Transform
}.

(** [World::EntityName] *)
Record EntityName := mkEntityName { name_entity : Z; name_str : string }.

(** Calls that leave the store: delegate notifications, the destroy
    callback of a component type and [logError]. *)
Inductive Event :=
| EntityCreated (e : Z)
| EntityDestroyed (e : Z)
| EntityMoved (e : Z)
| ComponentDestroyed (e : Z) (type : Z)
| LogError (msg : string).

Record World := mkWorld {
  m_entities : list EntityData;
  m_transforms : list Transform;
  m_hierarchy : list Hierarchy;
  m_names : list EntityName;
  m_first_free_slot : Z;
  m_active_partition : Z;
  m_trace : list Event
}.

(** What a read outside an array yields. *)
Definition no_entity : EntityData := mkEntityData (-1) (-1) 0 0 (-1) (-1) false.
Definition no_transform : Transform := mkTransform DVec3_ZERO Quat_IDENTITY Vec3_ONE.
Definition no_hierarchy : Hierarchy := mkHierarchy (-1) (-1) (-1) (-1) no_transform.
Definition no_name : EntityName := mkEntityName (-1) EmptyString.

(** Field updates *)
Definition set_hierarchy (v : Z) (d : EntityData) : EntityData :=
  mkEntityData v (name d) (partition d) (components d) (prev d) (next d) (valid d).
Definition set_name (v : Z) (d : EntityData) : EntityData :=
  mkEntityData (hierarchy d) v (partition d) (components d) (prev d) (next d) (valid d).
Definition set_components (v : Z) (d : EntityData) : EntityData :=
  mkEntityData (hierarchy d) (name d) (partition d) v (prev d) (next d) (valid d).
Definition set_prev (v : Z) (d : EntityData) : EntityData :=
  mkEntityData (hierarchy d) (name d) (partition d) (components d) v (next d) (valid d).
Definition set_next (v : Z) (d : EntityData) : EntityData :=
  mkEntityData (hierarchy d) (name d) (partition d) (components d) (prev d) v (valid d).
Definition set_valid (v : bool) (d : EntityData) : EntityData :=
  mkEntityData (hierarchy d) (name d) (partition d) (components d) (prev d) (next d) v.

Definition set_parent (v : Z) (h : Hierarchy) : Hierarchy :=
  mkHierarchy (entity h) v (first_child h) (next_sibling h) (local_transform h).
Definition set_first_child (v : Z) (h : Hierarchy) : Hierarchy :=
  mkHierarchy (entity h) (parent h) v (next_sibling h) (local_transform h).
Definition set_next_sibling (v : Z) (h : Hierarchy) : Hierarchy :=
  mkHierarchy (entity h) (parent h) (first_child h) v (local_transform h).
Definition set_local_transform (v : Transform) (h : Hierarchy) : Hierarchy :=
  mkHierarchy (entity h) (parent h) (first_child h) (next_sibling h) v.

Definition set_pos (v : DVec3) (t : Transform) : Transform := mkTransform v (rot t) (scale t).
Definition set_rot (v : Quat) (t : Transform) : Transform := mkTransform (pos t) v (scale t).
Definition set_scale (v : Vec3) (t : Transform) : Transform := mkTransform (pos t) (rot t) v.

Definition with_entities (f : list EntityData -> list EntityData) (w : World) : World :=
  mkWorld (f (m_entities w)) (m_transforms w) (m_hierarchy w) (m_names w)
          (m_first_free_slot w) (m_active_partition w) (m_trace w).
Definition with_transforms (f : list Transform -> list Transform) (w : World) : World :=
  mkWorld (m_entities w) (f (m_transforms w)) (m_hierarchy w) (m_names w)
          (m_first_free_slot w) (m_active_partition w) (m_trace w).
Definition with_hierarchy (f : list Hierarchy -> list Hierarchy) (w : World) : World :=
  mkWorld (m_entities w) (m_transforms w) (f (m_hierarchy w)) (m_names w)
          (m_first_free_slot w) (m_active_partition w) (m_trace w).
Definition with_names (f : list EntityName -> list EntityName) (w : World) : World :=
  mkWorld (m_entities w) (m_transforms w) (m_hierarchy w) (f (m_names w))
          (m_first_free_slot w) (m_active_partition w) (m_trace w).
Definition with_first_free_slot (v : Z) (w : World) : World :=
  mkWorld (m_entities w) (m_transforms w) (m_hierarchy w) (m_names w)
          v (m_active_partition w) (m_trace w).
Definition notify (ev : Event) (w : World) : World :=
  mkWorld (m_entities w) (m_transforms w) (m_hierarchy w) (m_names w)
          (m_first_free_slot w) (m_active_partition w) (m_trace w ++ [ev]).

(** [m_entities[i]], [m_hierarchy[i]], [m_transforms[i]] and their writes *)
Definition ent (w : World) (e : Z) : EntityData := default no_entity (zget (m_entities w) e).
Definition hier (w : World) (i : Z) : Hierarchy := default no_hierarchy (zget (m_hierarchy w) i).
Definition alter_entity (f : EntityData -> EntityData) (e : Z) : World -> World :=
  with_entities (zalter f e).
Definition alter_hier (f : Hierarchy -> Hierarchy) (i : Z) : World -> World :=
  with_hierarchy (zalter f i).
Definition alter_transform (f : Transform -> Transform) (e : Z) : World -> World :=
  with_transforms (zalter f e).

(** The world as [World::World] leaves it: no entity, the partition "main"
    (handle 0) active. *)
Definition empty_world : World := mkWorld [] [] [] [] (-1) 0 [].

Definition getTransform (w : World) (e : Z) : Transform :=
  default no_transform (zget (m_transforms w) e).
Definition getPosition (w : World) (e : Z) : DVec3 := pos (getTransform w e).
Definition getRotation (w : World) (e : Z) : Quat := rot (getTransform w e).
Definition getScale (w : World) (e : Z) : Vec3 := scale (getTransform w e).

Definition hasEntity (w : World) (e : Z) : bool :=
  (0 <=? e) && (e <? zlen (m_entities w)) && valid (ent w e).

Definition hasComponent (w : World) (e : Z) (component_type : Z) : bool :=
  negb (Z.land (components (ent w e)) (Z.shiftl 1 component_type) =? 0).

Definition getParent (w : World) (e : Z) : Z :=
  let idx := hierarchy (ent w e) in
  if idx <? 0 then INVALID_ENTITY else parent (hier w idx).

Definition getFirstChild (w : World) (e : Z) : Z :=
  let idx := hierarchy (ent w e) in
  if idx <? 0 then INVALID_ENTITY else first_child (hier w idx).

Definition getNextSibling (w : World) (e : Z) : Z :=
  let idx := hierarchy (ent w e) in
  if idx <? 0 then INVALID_ENTITY else next_sibling (hier w idx).

Definition getLocalTransform (w : World) (e : Z) : Transform :=
  let idx := hierarchy (ent w e) in
  if idx <? 0 then getTransform w e else local_transform (hier w idx).

(** [World::transformEntity]: the walk over the children is the second
    function; [child_idx] is the record the reference [child_h] denotes. *)
Fixpoint transformEntity (fuel : nat) (w : World) (e : Z) (update_local : bool)
    : option World :=
  match fuel with
  | O => None
  | S fuel =>
      let hierarchy_idx := hierarchy (ent w e) in
      let w := notify (EntityMoved e) w in
      if 0 <=? hierarchy_idx then
        let h := hier w hierarchy_idx in
        let my_transform := getTransform w e in
        let w :=
          if update_local && isValid (parent h) then
            let parent_tr := getTransform w (parent h) in
            alter_hier (set_local_transform (Math.compose (Math.inverted parent_tr) my_transform))
                       hierarchy_idx w
          else w in
        transformChildren fuel w my_transform (first_child h)
      else Some w
  end
with transformChildren (fuel : nat) (w : World) (my_transform : Transform) (child : Z)
    : option World :=
  match fuel with
  | O => None
  | S fuel =>
      if isValid child then
        let child_idx := hierarchy (ent w child) in
        let abs_tr := Math.compose my_transform (local_transform (hier w child_idx)) in
        let w := alter_transform (fun _ => abs_tr) child w in
        match transformEntity fuel w child false with
        | Some w => transformChildren fuel w my_transform (next_sibling (hier w child_idx))
        | None => None
        end
      else Some w
  end.

Definition setTransform (fuel : nat) (w : World) (e : Z) (t : Transform) : option World :=
  transformEntity fuel (alter_transform (fun _ => t) e w) e true.

Definition setPosition (fuel : nat) (w : World) (e : Z) (p : DVec3) : option World :=
  transformEntity fuel (alter_transform (set_pos p) e w) e true.

Definition setRotation (fuel : nat) (w : World) (e : Z) (r : Quat) : option World :=
  transformEntity fuel (alter_transform (set_rot r) e w) e true.

Definition setScale (fuel : nat) (w : World) (e : Z) (s : Vec3) : option World :=
  transformEntity fuel (alter_transform (set_scale s) e w) e true.

(** [World::createEntity] *)
Definition createEntity (w : World) (position : DVec3) (rotation : Quat) : World * Z :=
  let init (d : EntityData) :=
    mkEntityData (-1) (-1) (m_active_partition w) 0 (prev d) (next d) true in
  let tr := mkTransform position rotation Vec3_ONE in
  if 0 <=? m_first_free_slot w then
    let e := m_first_free_slot w in
    let data := ent w e in
    let w := if 0 <=? next data then alter_entity (set_prev (-1)) (next data) w else w in
    let w := with_first_free_slot (next data) w in
    let w := alter_transform (fun _ => tr) e w in
    let w := alter_entity init e w in
    (notify (EntityCreated e) w, e)
  else
    let e := zlen (m_entities w) in
    let w := with_entities (fun l => l ++ [init no_entity]) w in
    let w := with_transforms (fun l => l ++ [tr]) w in
    (notify (EntityCreated e) w, e).

(** [World::isDescendant].  [isDescendantFrom] is the range-for over
    [childrenOf(ancestor)] with the iterator at [e]; the iteration stops at
    [INVALID_ENTITY]. *)
Fixpoint isDescendantFrom (fuel : nat) (w : World) (e descendant : Z) : option bool :=
  match fuel with
  | O => None
  | S fuel =>
      if e =? INVALID_ENTITY then Some false
      else if e =? descendant then Some true
      else
        match isDescendantFrom fuel w (getFirstChild w e) descendant with
        | Some true => Some true
        | Some false => isDescendantFrom fuel w (getNextSibling w e) descendant
        | None => None
        end
  end.

Definition isDescendant (fuel : nat) (w : World) (ancestor descendant : Z) : option bool :=
  isDescendantFrom fuel w (getFirstChild w ancestor) descendant.

(** The lambda [collectGarbage] of [World::setParent] *)
Definition collectGarbage (w : World) (e : Z) : World :=
  let idx := hierarchy (ent w e) in
  let h := hier w idx in
  if isValid (parent h) then w
  else if isValid (first_child h) then w
  else
    let last := default no_hierarchy (back (m_hierarchy w)) in
    let w := alter_entity (set_hierarchy idx) (entity last) w in
    let w := alter_entity (set_hierarchy (-1)) e w in
    let w := alter_hier (fun _ => last) idx w in
    with_hierarchy pop w.

(** The pointer [EntityPtr* x] of [World::setParent]: the address of the
    [first_child] or of the [next_sibling] field of a hierarchy record. *)
Inductive Link := FirstChildOf (idx : Z) | NextSiblingOf (idx : Z).

Definition load (w : World) (x : Link) : Z :=
  match x with
  | FirstChildOf i => first_child (hier w i)
  | NextSiblingOf i => next_sibling (hier w i)
  end.

Definition store (x : Link) (v : Z) (w : World) : World :=
  match x with
  | FirstChildOf i => alter_hier (set_first_child v) i w
  | NextSiblingOf i => alter_hier (set_next_sibling v) i w
  end.

(** The [while (x->isValid())] loop of [World::setParent] *)
Fixpoint unlink (fuel : nat) (w : World) (x : Link) (child : Z) : option World :=
  match fuel with
  | O => None
  | S fuel =>
      let v := load w x in
      if isValid v then
        if v =? child then Some (store x (getNextSibling w child) w)
        else unlink fuel w (NextSiblingOf (hierarchy (ent w v))) child
      else Some w
  end.

(** The record that [m_hierarchy.emplace()] adds and [setParent] fills in.
    [setParent] assigns the entity and the three links and nothing else, so
    the local transform is what [emplace()] left: [Array::emplace], declared
    outside the sources, value-initializes the record, which leaves the
    transform all zeros. *)
Definition zero_transform : Transform :=
  mkTransform DVec3_ZERO (mkQuat F32.zero F32.zero F32.zero F32.zero) Vec3_ZERO.

Definition new_record (e : Z) : Hierarchy :=
  mkHierarchy e INVALID_ENTITY INVALID_ENTITY INVALID_ENTITY zero_transform.

(** [m_hierarchy.emplace()] for entity [e] *)
Definition emplace_record (e : Z) (w : World) : World :=
  let idx := zlen (m_hierarchy w) in
  let w := alter_entity (set_hierarchy idx) e w in
  with_hierarchy (fun l => l ++ [new_record e]) w.

Definition cycle_message : string := "Hierarchy can not contains a cycle.".

(** The first half of [World::setParent], up to the test
    [if (new_parent.isValid())]: the child leaves the sibling list of its
    old parent, or gets a fresh record when it had none and is about to get
    a parent. *)
Definition detachFromParent (fuel : nat) (w : World) (new_parent child : Z) : option World :=
  let child_idx := hierarchy (ent w child) in
  if 0 <=? child_idx then
    let old_parent := parent (hier w child_idx) in
    if isValid old_parent then
      match unlink fuel w (FirstChildOf (hierarchy (ent w old_parent))) child with
      | Some w =>
          let w := alter_hier (set_parent INVALID_ENTITY) child_idx w in
          let w := alter_hier (set_next_sibling INVALID_ENTITY) child_idx w in
          Some (collectGarbage w old_parent)
      | None => None
      end
    else Some w
  else if isValid new_parent then Some (emplace_record child w)
  else Some w.

(** The second half of [World::setParent]: the child becomes the first
    child of the new parent; without a new parent its record is collected
    if it is of no use. *)
Definition linkToParent (w : World) (new_parent child : Z) : World :=
  let child_idx := hierarchy (ent w child) in
  if isValid new_parent then
    let w := if hierarchy (ent w new_parent) <? 0 then emplace_record new_parent w else w in
    let new_parent_idx := hierarchy (ent w new_parent) in
    let w := alter_hier (set_parent new_parent) child_idx w in
    let parent_tr := getTransform w new_parent in
    let child_tr := getTransform w child in
    let w := alter_hier (set_local_transform
                           (Math.compose (Math.inverted parent_tr) child_tr))
                        child_idx w in
    let w := alter_hier (set_next_sibling (first_child (hier w new_parent_idx)))
                        child_idx w in
    alter_hier (set_first_child child) new_parent_idx w
  else
    if 0 <=? child_idx then collectGarbage w child else w.

(** [World::setParent] *)
Definition setParent (fuel : nat) (w : World) (new_parent child : Z) : option World :=
  match (if isValid new_parent then isDescendant fuel w child new_parent else Some false) with
  | None => None
  | Some true => Some (notify (LogError cycle_message) w)
  | Some false =>
      match detachFromParent fuel w new_parent child with
      | None => None
      | Some w => Some (linkToParent w new_parent child)
      end
  end.

(** [World::updateGlobalTransform] *)
Definition updateGlobalTransform (fuel : nat) (w : World) (e : Z) : option World :=
  let h := hier w (hierarchy (ent w e)) in
  let parent_tr := getTransform w (parent h) in
  setTransform fuel w e (Math.compose parent_tr (local_transform h)).

(** [World::setLocalPosition] *)
Definition setLocalPosition (fuel : nat) (w : World) (e : Z) (p : DVec3) : option World :=
  let hierarchy_idx := hierarchy (ent w e) in
  if hierarchy_idx <? 0 then setPosition fuel w e p
  else
    let w := alter_hier (fun h => set_local_transform (set_pos p (local_transform h)) h)
                        hierarchy_idx w in
    updateGlobalTransform fuel w e.

(** [World::setLocalTransform] *)
Definition setLocalTransform (fuel : nat) (w : World) (e : Z) (t : Transform) : option World :=
  let hierarchy_idx := hierarchy (ent w e) in
  if hierarchy_idx <? 0 then setTransform fuel w e t
  else updateGlobalTransform fuel (alter_hier (set_local_transform t) hierarchy_idx w) e.
(** [ComponentType::MAX_TYPES_COUNT]: the component mask is a [u64]. *)
Definition MAX_TYPES_COUNT : nat := 64.

(** [World::onComponentDestroyed] *)
Definition onComponentDestroyed (w : World) (e : Z) (type : Z) : World :=
  let mask := components (ent w e) in
  let mask := Z.land mask (Z.lnot (Z.shiftl 1 type)) in
  notify (ComponentDestroyed e type) (alter_entity (set_components mask) e w).

(** Modelled from the spec: the destroy callback that a scene registers for
    a component type is outside the sources; by the spec the "callback must
    clear that bit", which it does through [onComponentDestroyed]. *)
Definition destroy_method (w : World) (type : Z) (e : Z) : World :=
  onComponentDestroyed w e type.

(** The loop of [World::destroyEntity] over the component types, from type
    [i] on, [n] types left; [mask] is the local copy of the mask. *)
Fixpoint destroyComponents (n : nat) (i : Z) (mask : Z) (w : World) (e : Z) : World :=
  match n with
  | O => w
  | S n =>
      if Z.testbit mask i then
        let w := destroy_method w i e in
        destroyComponents n (i + 1) (components (ent w e)) w e
      else destroyComponents n (i + 1) mask w e
  end.

(** The first loop of [World::destroyEntity]: while the entity has a first
    child, the child is detached. *)
Fixpoint detachChildren (n fuel : nat) (w : World) (e : Z) : option World :=
  match n with
  | O => None
  | S n =>
      let child := getFirstChild w e in
      if isValid child then
        match setParent fuel w INVALID_ENTITY child with
        | Some w => detachChildren n fuel w e
        | None => None
        end
      else Some w
  end.

(** The end of [World::destroyEntity], after the components are gone: the
    slot is pushed on the free list, its name slot is recycled and the
    destruction is announced. *)
Definition releaseSlot (w : World) (e : Z) : World :=
  let w := alter_entity (set_next (m_first_free_slot w)) e w in
  let w := alter_entity (set_prev (-1)) e w in
  let w := alter_entity (set_hierarchy (-1)) e w in
  let w := alter_entity (set_valid false) e w in
  let w :=
    if 0 <=? m_first_free_slot w
    then alter_entity (set_prev e) (m_first_free_slot w) w else w in
  let w :=
    if 0 <=? name (ent w e) then
      let n := name (ent w e) in
      let last_name := default no_name (back (m_names w)) in
      let w := alter_entity (set_name n) (name_entity last_name) w in
      let w := with_names (swapAndPop n) w in
      alter_entity (set_name (-1)) e w
    else w in
  let w := with_first_free_slot e w in
  notify (EntityDestroyed e) w.

(** [World::destroyEntity] *)
Definition destroyEntity (fuel : nat) (w : World) (e : Z) : option World :=
  match detachChildren fuel fuel w e with
  | None => None
  | Some w =>
      match setParent fuel w INVALID_ENTITY e with
      | None => None
      | Some w =>
          let w := destroyComponents MAX_TYPES_COUNT 0 (components (ent w e)) w e in
          Some (releaseSlot w e)
      end
  end.

(** [World::setEntityName]; the names are strings, the fixed size of the
    name buffer is not modelled. *)
Definition setEntityName (w : World) (e : Z) (s : string) : World :=
  let name_idx := name (ent w e) in
  if name_idx <? 0 then
    match s with
    | EmptyString => w
    | _ =>
        let w := alter_entity (set_name (zlen (m_names w))) e w in
        with_names (fun l => l ++ [mkEntityName e s]) w
    end
  else with_names (zalter (fun n => mkEntityName (name_entity n) s) name_idx) w.

(** [World::getEntityName] *)
Definition getEntityName (w : World) (e : Z) : string :=
  let name_idx := name (ent w e) in
  if name_idx <? 0 then EmptyString
  else name_str (default no_name (zget (m_names w) name_idx)).

(** *** [EntityMap] *)

Definition EntityMap := list Z.

(** [EntityMap::get(EntityPtr)] *)
Definition EntityMap_get (m : EntityMap) (e : Z) : Z :=
  if isValid e && (e <? zlen m) then default INVALID_ENTITY (zget m e) else INVALID_ENTITY.

(** [EntityMap::get(EntityRef)] *)
Definition EntityMap_get_ref (m : EntityMap) (e : Z) : Z :=
  default INVALID_ENTITY (zget m e).

(** [EntityMap::set] *)
Definition EntityMap_set (m : EntityMap) (src dst : Z) : EntityMap :=
  let m := m ++ replicate (Z.to_nat (src + 1 - zlen m)) INVALID_ENTITY in
  zalter (fun _ => dst) src m.

(** *** Serialization

    A memory stream is the sequence of the scalars written to it: a cell is
    a 32-bit integer (its value read as unsigned), a [float], a [double] or
    a string.  Reading a cell as a scalar of another kind, or reading past
    the end, is an error of the model ([None]). *)

Inductive Cell :=
| CInt (v : Z)
| CFloat (f : spec_float)
| CDouble (f : spec_float)
| CString (s : string).

Definition Stream := list Cell.

Definition u32_of (v : Z) : Z := v mod 2 ^ 32.
Definition i32_of (v : Z) : Z := if v <? 2 ^ 31 then v else v - 2 ^ 32.

Definition write_u32 (v : Z) (s : Stream) : Stream := s ++ [CInt (u32_of v)].
Definition write_entity (e : Z) (s : Stream) : Stream := s ++ [CInt (u32_of e)].
Definition write_string (x : string) (s : Stream) : Stream := s ++ [CString x].
Definition write_dvec3 (v : DVec3) (s : Stream) : Stream :=
  s ++ [CDouble (dx v); CDouble (dy v); CDouble (dz v)].
Definition write_quat (q : Quat) (s : Stream) : Stream :=
  s ++ [CFloat (qx q); CFloat (qy q); CFloat (qz q); CFloat (qw q)].
Definition write_vec3 (v : Vec3) (s : Stream) : Stream :=
  s ++ [CFloat (v3x v); CFloat (v3y v); CFloat (v3z v)].

Definition Reader (A : Type) : Type := Stream -> option (A * Stream).

Definition rret {A} (a : A) : Reader A := fun s => Some (a, s).
Definition rbind {A B} (r : Reader A) (k : A -> Reader B) : Reader B :=
  fun s => match r s with Some (a, s) => k a s | None => None end.

Notation "'do' x <- r ; k" := (rbind r (fun x => k))
  (at level 10, x name, r at level 100, k at level 200).

Definition read_u32 : Reader Z :=
  fun s => match s with CInt v :: s => Some (v, s) | _ => None end.
Definition read_entity : Reader Z :=
  fun s => match s with CInt v :: s => Some (i32_of v, s) | _ => None end.
Definition read_float : Reader spec_float :=
  fun s => match s with CFloat f :: s => Some (f, s) | _ => None end.
Definition read_double : Reader spec_float :=
  fun s => match s with CDouble f :: s => Some (f, s) | _ => None end.
Definition read_string : Reader string :=
  fun s => match s with CString x :: s => Some (x, s) | _ => None end.
Definition read_dvec3 : Reader DVec3 :=
  do x <- read_double ; do y <- read_double ; do z <- read_double ; rret (mkDVec3 x y z).
Definition read_quat : Reader Quat :=
  do x <- read_float ; do y <- read_float ; do z <- read_float ; do w <- read_float ;
  rret (mkQuat x y z w).
Definition read_vec3 : Reader Vec3 :=
  do x <- read_float ; do y <- read_float ; do z <- read_float ; rret (mkVec3 x y z).

(** The entity loop of [World::serialize], from index [i] on *)
Fixpoint serialize_entities (es : list EntityData) (ts : list Transform) (i : Z)
    (s : Stream) : Stream :=
  match es with
  | [] => s
  | d :: es =>
      let t := default no_transform (head ts) in
      let s :=
        if valid d then
          write_vec3 (scale t) (write_quat (rot t) (write_dvec3 (pos t) (write_entity i s)))
        else s in
      serialize_entities es (tail ts) (i + 1) s
  end.

Definition serialize_name (s : Stream) (n : EntityName) : Stream :=
  write_string (name_str n) (write_entity (name_entity n) s).

Definition serialize_hierarchy (s : Stream) (h : Hierarchy) : Stream :=
  let s := write_entity (entity h) s in
  let s := write_entity (parent h) s in
  let s := write_entity (first_child h) s in
  let s := write_entity (next_sibling h) s in
  let s := write_dvec3 (pos (local_transform h)) s in
  let s := write_quat (rot (local_transform h)) s in
  write_vec3 (scale (local_transform h)) s.

(** [World::serialize] *)
Definition serialize (w : World) (s : Stream) : Stream :=
  let s := write_u32 (zlen (m_entities w)) s in
  let s := serialize_entities (m_entities w) (m_transforms w) 0 s in
  let s := write_entity INVALID_ENTITY s in
  let s := write_u32 (zlen (m_names w)) s in
  let s := foldl serialize_name s (m_names w) in
  let s := write_u32 (zlen (m_hierarchy w)) s in
  foldl serialize_hierarchy s (m_hierarchy w).

(** The scale of a transform as [World::deserialize] reads it: a [Vec3], or
    in the legacy format one [float] followed by a [float] of padding. *)
Definition read_scale (vec3_scale : bool) (old : Vec3) : Reader Vec3 :=
  if vec3_scale then read_vec3
  else do x <- read_float ; do _ <- read_float ; rret (mkVec3 x (v3y old) (v3z old)).

(** The first loop of [World::deserialize]; every round consumes a cell, so
    the length of the stream bounds the number of rounds. *)
Fixpoint deserialize_entities (n : nat) (vec3_scale : bool) (w : World) (m : EntityMap)
    : Reader (World * EntityMap) :=
  match n with
  | O => fun _ => None
  | S n =>
      do e <- read_entity ;
      if isValid e then
        let orig := e in
        let '(w, new_e) := createEntity w DVec3_ZERO Quat_IDENTITY in
        let m := EntityMap_set m orig new_e in
        do p <- read_dvec3 ;
        let w := alter_transform (set_pos p) new_e w in
        do r <- read_quat ;
        let w := alter_transform (set_rot r) new_e w in
        do sc <- read_scale vec3_scale (scale (getTransform w new_e)) ;
        let w := alter_transform (set_scale sc) new_e w in
        let w := alter_transform
                   (fun t => set_scale (mkVec3 (v3x (scale t)) (v3x (scale t)) (v3x (scale t))) t)
                   new_e w in
        deserialize_entities n vec3_scale w m
      else rret (w, m)
  end.

(** The loop of [World::deserialize] over the names *)
Fixpoint deserialize_names (count : nat) (w : World) (m : EntityMap) : Reader World :=
  match count with
  | O => rret w
  | S count =>
      do e <- read_entity ;
      let e := EntityMap_get_ref m e in
      do str <- read_string ;
      let w := with_names (fun l => l ++ [mkEntityName e str]) w in
      let w := alter_entity (set_name (zlen (m_names w) - 1)) e w in
      deserialize_names count w m
  end.

(** The loop of [World::deserialize] over the hierarchy records; [i] is the
    index of the record being read. *)
Fixpoint deserialize_hierarchy (count : nat) (i : Z) (vec3_scale : bool) (w : World)
    (m : EntityMap) : Reader World :=
  match count with
  | O => rret w
  | S count =>
      do e <- read_entity ;
      do p <- read_entity ;
      do fc <- read_entity ;
      do ns <- read_entity ;
      do lp <- read_dvec3 ;
      do lr <- read_quat ;
      do ls <- (if vec3_scale then read_vec3
                else do x <- read_float ; do _ <- read_float ; rret (mkVec3 x x x)) ;
      let h := mkHierarchy (EntityMap_get_ref m e) (EntityMap_get m p) (EntityMap_get m fc)
                           (EntityMap_get m ns) (mkTransform lp lr ls) in
      let w := with_hierarchy (fun l => l ++ [h]) w in
      let w := alter_entity (set_hierarchy i) (entity h) w in
      deserialize_hierarchy count (i + 1) vec3_scale w m
  end.

(** [World::deserialize] *)
Definition deserialize (w : World) (m : EntityMap) (vec3_scale : bool)
    : Reader (World * EntityMap) :=
  fun s =>
    (do to_reserve <- read_u32 ;
     do wm <- deserialize_entities (S (length s)) vec3_scale w m ;
     let '(w, m) := wm in
     do count <- read_u32 ;
     do w <- deserialize_names (Z.to_nat count) w m ;
     do count <- read_u32 ;
     let old_count := zlen (m_hierarchy w) in
     do w <- deserialize_hierarchy (Z.to_nat count) old_count vec3_scale w m ;
     rret (w, m)) s.

(** *** The hierarchy as a forest

    [hrec w e] is the hierarchy record of entity [e], if it has one. *)
Definition hrec (w : World) (e : Z) : option Hierarchy :=
  match zget (m_entities w) e with
  | Some d => if hierarchy d <? 0 then None else zget (m_hierarchy w) (hierarchy d)
  | None => None
  end.

(** Records and entities point at each other. *)
Definition index_ok (w : World) : Prop :=
  (forall i h, zget (m_hierarchy w) i = Some h ->
     exists d, zget (m_entities w) (entity h) = Some d /\ hierarchy d = i) /\
  (forall e d, zget (m_entities w) e = Some d -> 0 <= hierarchy d ->
     exists h, zget (m_hierarchy w) (hierarchy d) = Some h /\ entity h = e).

(** [chain L e cs]: following [next_sibling] from [e] visits exactly the
    entities [cs] and then reaches an invalid entity. *)
Inductive chain (L : Z -> option Hierarchy) : Z -> list Z -> Prop :=
| chain_end e : e < 0 -> chain L e []
| chain_step e h cs :
    0 <= e -> L e = Some h -> chain L (next_sibling h) cs -> chain L e (e :: cs).

(** The links form a forest of sibling lists: the list under the
    [first_child] of a record is finite, without repetition, and holds
    exactly the entities whose [parent] is that record's entity. *)
Definition forest (L : Z -> option Hierarchy) : Prop :=
  (forall e h, L e = Some h ->
     0 <= e /\ -1 <= parent h /\ -1 <= first_child h /\ -1 <= next_sibling h) /\
  (forall p h, L p = Some h ->
     exists cs, chain L (first_child h) cs /\ NoDup cs /\
       forall c, c ∈ cs -> exists hc, L c = Some hc /\ parent hc = p) /\
  (forall c hc, L c = Some hc -> 0 <= parent hc ->
     exists hp cs, L (parent hc) = Some hp /\ chain L (first_child hp) cs /\ c ∈ cs).

Definition wf_hierarchy (w : World) : Prop := index_ok w /\ forest (hrec w).

(** Pointwise update of a record map *)
Definition upd (L : Z -> option Hierarchy) (e : Z) (v : option Hierarchy)
    : Z -> option Hierarchy :=
  fun x => if decide (x = e) then v else L x.

(** The entities that the range [World::childrenOf] yields, the iterator
    being at [e]: [ChildrenRange::Iterator::operator++] follows
    [getNextSibling] until [INVALID_ENTITY]. *)
Fixpoint siblingsFrom (fuel : nat) (w : World) (e : Z) : option (list Z) :=
  match fuel with
  | O => None
  | S fuel =>
      if e =? INVALID_ENTITY then Some []
      else match siblingsFrom fuel w (getNextSibling w e) with
           | Some l => Some (e :: l)
           | None => None
           end
  end.

(** [World::childrenOf] *)
Definition childrenOf (fuel : nat) (w : World) (p : Z) : option (list Z) :=
  siblingsFrom fuel w (getFirstChild w p).

(** The free list starts inside [m_entities] (or is empty). *)
Definition free_slot_ok (w : World) : Prop :=
  m_first_free_slot w < zlen (m_entities w).

(** What the first half of [setParent] does to the record map when [c] is
    taken out of the sibling list of [q], [pre] being the siblings before
    [c] and [n] the sibling after it: the link that pointed to [c] is
    redirected to [n], then [c] loses its parent and its next sibling. *)
Definition unlinkL (L : Z -> option Hierarchy) (q : Z) (pre : list Z) (c n : Z)
    : Z -> option Hierarchy :=
  let L1 := match last pre with
            | None => upd L q (set_first_child n <$> L q)
            | Some pr => upd L pr (set_next_sibling n <$> L pr)
            end in
  upd L1 c ((fun h => set_next_sibling INVALID_ENTITY (set_parent INVALID_ENTITY h)) <$> L1 c).

(** [collectGarbage] on the record map *)
Definition gcL (L : Z -> option Hierarchy) (e : Z) : Z -> option Hierarchy :=
  match L e with
  | Some h => if isValid (parent h) || isValid (first_child h) then L else upd L e None
  | None => L
  end.

End World.

(** ** The blend-tree runtime ([src/animation/nodes.cpp])

    The nodes are embedded with their runtime streams, their root motion
    and the samples they ask of the animations.  The timeline events
    ([Node::emitEvents], written to [ctx.events]) touch neither of these and
    are left out. *)

Module Anim.

(** *** Time

    Modelled from the spec: the [Time] type ([animation.h]) is not among the
    sources.  By the spec it is "a fixed-point/integer-tick type (not
    floating seconds)"; the sources use its [raw()] value as a [u32].  It is
    an unsigned 32-bit count of ticks whose arithmetic wraps around.  The
    spec does not give the number of ticks to the second; it is 2^15 here,
    and the conversions go through [double] as those of the engine do. *)
Definition Time := Z.
Definition ONE_SECOND : Z := 32768.
Definition u32 (z : Z) : Z := z mod 2 ^ 32.
Definition Time_add (a b : Time) : Time := u32 (a + b).
Definition Time_sub (a b : Time) : Time := u32 (a - b).
Definition Time_mod (a b : Time) : Time := a mod b.
(** [Time::seconds] *)
Definition Time_seconds (t : Time) : spec_float :=
  F32.of_double (F64.div (F64.of_Z t) (F64.of_Z ONE_SECOND)).
(** [Time::fromSeconds] *)
Definition Time_fromSeconds (s : spec_float) : Time :=
  u32 (float_trunc (F32.mul s (F32.of_Z ONE_SECOND))).
(** [Time * float] and [Time / Time] *)
Definition Time_mul (t : Time) (f : spec_float) : Time :=
  u32 (float_trunc (F32.mul (F32.of_Z t) f)).
Definition Time_div (a b : Time) : spec_float :=
  F32.of_double (F64.div (F64.of_Z a) (F64.of_Z b)).
Definition Time_lerp (a b : Time) (t : spec_float) : Time :=
  Time_add (Time_mul a (F32.sub F32.one t)) (Time_mul b t).

(** *** The runtime streams

    [ctx.data] and [ctx.input_runtime] are sequences of 32-bit words: a
    [Time], a [u32] and a [float] take one word each, and so does the [bool]
    of a [RuntimeData] with its padding.  [input_runtime] is the part of the
    stream that has not been read yet. *)

Definition bits_of_float (f : spec_float) : Z :=
  match f with
  | S754_zero s => if s then 2 ^ 31 else 0
  | S754_infinity s => (if s then 2 ^ 31 else 0) + 2139095040
  | S754_nan => 2143289344
  | S754_finite s m e =>
      (if s then 2 ^ 31 else 0) +
      (if 2 ^ 23 <=? Zpos m then (e + 150) * 2 ^ 23 + (Zpos m - 2 ^ 23) else Zpos m)
  end.

Definition float_of_bits (w : Z) : spec_float :=
  let s := Z.testbit w 31 in
  let ex := (w / 2 ^ 23) mod 256 in
  let m := w mod 2 ^ 23 in
  if ex =? 255 then (if m =? 0 then S754_infinity s else S754_nan)
  else if ex =? 0 then
    match m with Zpos p => S754_finite s p (-149) | _ => S754_zero s end
  else
    match m + 2 ^ 23 with Zpos p => S754_finite s p (ex - 150) | _ => S754_nan end.

(** An [Animation] resource, as far as the nodes look at it: [isReady],
    [getLength] and [getRootMotion]. *)
Record Animation := mkAnimation {
  anim_ready : bool;
  anim_length : Time;
  anim_root_motion : Time -> LocalRigidTransform
}.

(** A value of the controller's input buffer *)
Inductive InputValue :=
| FloatInput (f : spec_float)
| BoolInput (b : bool)
| U32Input (v : Z).

Record RuntimeContext := mkRuntimeContext {
  data : list Z;
  input_runtime : list Z;
  inputs : list InputValue;
  animations : list (option Animation);
  time_delta : Time;
  model_ready : bool
}.

(** Modelled from the spec: a compiled [Condition] ([condition.h]) is "a
    compiled boolean expression over controller inputs". *)
Definition Condition := list InputValue -> bool.
Definition eval (c : Condition) (ctx : RuntimeContext) : bool := c (inputs ctx).

Definition with_data (d : list Z) (ctx : RuntimeContext) : RuntimeContext :=
  mkRuntimeContext d (input_runtime ctx) (inputs ctx) (animations ctx) (time_delta ctx)
                   (model_ready ctx).
Definition with_input_runtime (r : list Z) (ctx : RuntimeContext) : RuntimeContext :=
  mkRuntimeContext (data ctx) r (inputs ctx) (animations ctx) (time_delta ctx)
                   (model_ready ctx).

(** [ctx.input_runtime.read<T>()] for a one-word [T] *)
Definition read_word (ctx : RuntimeContext) : option (Z * RuntimeContext) :=
  match input_runtime ctx with
  | w :: r => Some (w, with_input_runtime r ctx)
  | [] => None
  end.
(** [ctx.input_runtime.skip(n * 4)] *)
Definition skip_words (n : nat) (ctx : RuntimeContext) : RuntimeContext :=
  with_input_runtime (drop n (input_runtime ctx)) ctx.
(** [ctx.input_runtime.getAs<T>()]: the word under the cursor, not consumed *)
Definition peek_word (ctx : RuntimeContext) : Z := default 0 (head (input_runtime ctx)).
(** [ctx.data.write(v)] *)
Definition write_word (w : Z) (ctx : RuntimeContext) : RuntimeContext :=
  with_data (data ctx ++ [w]) ctx.

Definition read_float (ctx : RuntimeContext) : option (spec_float * RuntimeContext) :=
  match read_word ctx with
  | Some (w, ctx) => Some (float_of_bits w, ctx)
  | None => None
  end.
Definition write_float (f : spec_float) (ctx : RuntimeContext) : RuntimeContext :=
  write_word (bits_of_float f) ctx.

(** [getInputValue] *)
Definition getInputValue (ctx : RuntimeContext) (idx : Z) : spec_float :=
  match zget (inputs ctx) idx with
  | Some (FloatInput f) => f
  | _ => F32.zero
  end.

(** [ctx.animations[slot]] *)
Definition animation_at (ctx : RuntimeContext) (slot : Z) : option Animation :=
  match zget (animations ctx) slot with
  | Some a => a
  | None => None
  end.

(** [getRootMotionEx] and [getRootMotion] *)
Definition getRootMotionEx (anim : Animation) (t0 t1 : Time) : LocalRigidTransform :=
  Math.lrt_mul (Math.lrt_inverted (anim_root_motion anim t0)) (anim_root_motion anim t1).

Definition getRootMotion (anim : Animation) (t0_abs t1_abs : Time) : LocalRigidTransform :=
  let t0 := Time_mod t0_abs (anim_length anim) in
  let t1 := Time_mod t1_abs (anim_length anim) in
  if t0 <=? t1 then getRootMotionEx anim t0 t1
  else Math.lrt_mul (getRootMotionEx anim t0 (anim_length anim)) (getRootMotionEx anim 0 t1).

(** What [Animation::getRelativePose] is asked to blend into the pose: the
    sampling itself belongs to the resource. *)
Record Sample := mkSample {
  sample_slot : Z;
  sample_time : Time;
  sample_weight : spec_float;
  sample_mask : Z
}.
Definition Pose := list Sample.

(** The two static [getPose] helpers *)
Definition samplePose (ctx : RuntimeContext) (time : Time) (weight : spec_float) (slot : Z)
    (pose : Pose) (mask_idx : Z) (looped : bool) : Pose :=
  match animation_at ctx slot with
  | None => pose
  | Some anim =>
      if negb (model_ready ctx) then pose
      else if negb (anim_ready anim) then pose
      else
        let anim_time := if looped then Time_mod time (anim_length anim)
                         else Z.min time (anim_length anim) in
        pose ++ [mkSample slot anim_time weight mask_idx]
  end.

Definition samplePoseRel (ctx : RuntimeContext) (rel_time : spec_float) (weight : spec_float)
    (slot : Z) (pose : Pose) (mask_idx : Z) (looped : bool) : Pose :=
  match animation_at ctx slot with
  | None => pose
  | Some anim =>
      if negb (model_ready ctx) then pose
      else if negb (anim_ready anim) then pose
      else samplePose ctx (Time_mul (anim_length anim) rel_time) weight slot pose mask_idx looped
  end.

(** The content of a local [LocalRigidTransform tmp] that a callee leaves
    unassigned is indeterminate in C++; here it is all zero. *)
Definition tmp_root_motion : LocalRigidTransform :=
  mkLocalRigidTransform Vec3_ZERO (mkQuat F32.zero F32.zero F32.zero F32.zero).

(** *** The interface [Node]

    The virtual functions of a node.  [update] gets the caller's
    [root_motion] and returns what the reference holds afterwards; reading
    past the end of [input_runtime] or using a child that does not exist
    gives [None]. *)
Record NodeOps := mkNodeOps {
  update : RuntimeContext -> LocalRigidTransform -> option (RuntimeContext * LocalRigidTransform);
  enter : RuntimeContext -> option RuntimeContext;
  skip : RuntimeContext -> option RuntimeContext;
  getPose : RuntimeContext -> spec_float -> Pose -> Z -> option (RuntimeContext * Pose);
  length : RuntimeContext -> Time;
  time : RuntimeContext -> Time
}.

Definition clamp01 (x : spec_float) : spec_float :=
  if F32.ltb x F32.zero then F32.zero else if F32.ltb F32.one x then F32.one else x.

(** *** [AnimationNode] *)

Definition LOOPED : Z := 1.

Definition AnimationNode_update (m_slot m_flags : Z) (ctx : RuntimeContext)
    (root_motion : LocalRigidTransform) : option (RuntimeContext * LocalRigidTransform) :=
  match read_word ctx with
  | None => None
  | Some (t, ctx) =>
      let prev_t := t in
      let t := Time_add t (time_delta ctx) in
      match animation_at ctx m_slot with
      | Some anim =>
          if anim_ready anim then
            let len := anim_length anim in
            let '(t, prev_t) :=
              if Z.land m_flags LOOPED =? 0 then (Z.min t len, Z.min prev_t len)
              else (t, prev_t) in
            Some (write_word t ctx, getRootMotion anim prev_t t)
          else Some (write_word t ctx, LocalRigidTransform_IDENTITY)
      | None => Some (write_word t ctx, LocalRigidTransform_IDENTITY)
      end
  end.

Definition AnimationNode_ops (m_slot m_flags : Z) : NodeOps :=
  mkNodeOps
    (AnimationNode_update m_slot m_flags)
    (fun ctx => Some (write_word 0 ctx))
    (fun ctx => Some (skip_words 1 ctx))
    (fun ctx weight pose mask =>
       match read_word ctx with
       | Some (t, ctx) =>
           Some (ctx, samplePose ctx t weight m_slot pose mask
                        (negb (Z.land m_flags LOOPED =? 0)))
       | None => None
       end)
    (fun ctx => match animation_at ctx m_slot with
                | Some anim => anim_length anim
                | None => 0
                end)
    (fun ctx => peek_word ctx).

(** *** [Blend1DNode] *)

Record Blend1DChild := mkBlend1DChild { b1_value : spec_float; b1_slot : Z }.

(** [Blend1DActivePair]: [pair_a] and [pair_b] are positions in
    [m_children], [pair_b = None] is the null pointer. *)
Record Blend1DActivePair := mkBlend1DActivePair {
  pair_a : Z;
  pair_b : option Z;
  pair_t : spec_float
}.

Definition child_value (children : list Blend1DChild) (i : Z) : spec_float :=
  match zget children i with Some c => b1_value c | None => F32.zero end.

(** The [for] loop of [getActivePair], from [i] on, [n] rounds left *)
Fixpoint findBracket (n : nat) (i : Z) (children : list Blend1DChild) (input_val : spec_float)
    : option Blend1DActivePair :=
  match n with
  | O => None
  | S n =>
      if F32.ltb input_val (child_value children i) then
        let w := F32.div (F32.sub input_val (child_value children (i - 1)))
                         (F32.sub (child_value children i) (child_value children (i - 1))) in
        Some (mkBlend1DActivePair (i - 1) (Some i) w)
      else findBracket n (i + 1) children input_val
  end.

(** [getActivePair] *)
Definition getActivePair (children : list Blend1DChild) (input_val : spec_float)
    : Blend1DActivePair :=
  let first := mkBlend1DActivePair 0 None F32.zero in
  if F32.gtb input_val (child_value children 0) then
    if F32.geb input_val (child_value children (zlen children - 1)) then
      mkBlend1DActivePair (zlen children - 1) None F32.zero
    else
      match findBracket (Nat.pred (List.length children)) 1 children input_val with
      | Some p => p
      | None => first
      end
  else first.

Definition child_slot1 (children : list Blend1DChild) (i : Z) : Z :=
  match zget children i with Some c => b1_slot c | None => 0 end.

Definition Blend1DNode_update (m_input_index : Z) (m_children : list Blend1DChild)
    (ctx : RuntimeContext) (root_motion : LocalRigidTransform)
    : option (RuntimeContext * LocalRigidTransform) :=
  match read_float ctx with
  | None => None
  | Some (relt0, ctx) =>
      let input_val := getInputValue ctx m_input_index in
      let pair := getActivePair m_children input_val in
      let anim_a := animation_at ctx (child_slot1 m_children (pair_a pair)) in
      let anim_b := match pair_b pair with
                    | Some b => animation_at ctx (child_slot1 m_children b)
                    | None => None
                    end in
      let wlen := match anim_a with
                  | Some a => Time_lerp (anim_length a)
                                (match anim_b with
                                 | Some b => anim_length b
                                 | None => anim_length a
                                 end) (pair_t pair)
                  | None => Time_fromSeconds F32.one
                  end in
      let relt := Math.fmod_one (F32.add relt0 (Time_div (time_delta ctx) wlen)) in
      let root_motion :=
        match anim_a with
        | Some a => getRootMotion a (Time_mul (anim_length a) relt0) (Time_mul (anim_length a) relt)
        | None => LocalRigidTransform_IDENTITY
        end in
      let root_motion :=
        match anim_b with
        | Some b =>
            if anim_ready b then
              Math.lrt_interpolate root_motion
                (getRootMotion b (Time_mul (anim_length b) relt0) (Time_mul (anim_length b) relt))
                (pair_t pair)
            else root_motion
        | None => root_motion
        end in
      Some (write_float relt ctx, root_motion)
  end.

Definition Blend1DNode_length (m_input_index : Z) (m_children : list Blend1DChild)
    (ctx : RuntimeContext) : Time :=
  let pair := getActivePair m_children (getInputValue ctx m_input_index) in
  match animation_at ctx (child_slot1 m_children (pair_a pair)) with
  | None => Time_fromSeconds F32.one
  | Some a =>
      if negb (anim_ready a) then Time_fromSeconds F32.one
      else
        match pair_b pair with
        | None => anim_length a
        | Some bi =>
            match animation_at ctx (child_slot1 m_children bi) with
            | None => anim_length a
            | Some b =>
                if negb (anim_ready b) then anim_length a
                else Time_lerp (anim_length a) (anim_length b) (pair_t pair)
            end
        end
  end.

Definition Blend1DNode_getPose (m_input_index : Z) (m_children : list Blend1DChild)
    (ctx : RuntimeContext) (weight : spec_float) (pose : Pose) (mask : Z)
    : option (RuntimeContext * Pose) :=
  match read_float ctx with
  | None => None
  | Some (t, ctx) =>
      match m_children with
      | [] => Some (ctx, pose)
      | [c] => Some (ctx, samplePoseRel ctx t weight (b1_slot c) pose mask true)
      | _ =>
          let pair := getActivePair m_children (getInputValue ctx m_input_index) in
          let pose := samplePoseRel ctx t weight (child_slot1 m_children (pair_a pair))
                                    pose mask true in
          match pair_b pair with
          | Some b =>
              Some (ctx, samplePoseRel ctx t (F32.mul weight (pair_t pair))
                                       (child_slot1 m_children b) pose mask true)
          | None => Some (ctx, pose)
          end
      end
  end.

Definition Blend1DNode_ops (m_input_index : Z) (m_children : list Blend1DChild) : NodeOps :=
  mkNodeOps
    (Blend1DNode_update m_input_index m_children)
    (fun ctx => Some (write_float F32.zero ctx))
    (fun ctx => Some (skip_words 1 ctx))
    (Blend1DNode_getPose m_input_index m_children)
    (Blend1DNode_length m_input_index m_children)
    (fun ctx => Time_mul (Blend1DNode_length m_input_index m_children ctx)
                         (float_of_bits (peek_word ctx))).

(** *** [Blend2DNode] *)

Record Blend2DChild := mkBlend2DChild { b2_value : Vec2; b2_slot : Z }.

Record Triangle := mkTriangle {
  tri_a : Z;
  tri_b : Z;
  tri_c : Z;
  circumcircle_center : Vec2
}.

(** [Blend2DActiveTrio]: the three children are positions in [m_children] *)
Record Blend2DActiveTrio := mkBlend2DActiveTrio {
  trio_a : Z;
  trio_b : Z;
  trio_c : Z;
  trio_ta : spec_float;
  trio_tb : spec_float;
  trio_tc : spec_float
}.

Definition value2 (children : list Blend2DChild) (i : Z) : Vec2 :=
  match zget children i with
  | Some c => b2_value c
  | None => mkVec2 F32.zero F32.zero
  end.

Definition child_slot2 (children : list Blend2DChild) (i : Z) : Z :=
  match zget children i with Some c => b2_slot c | None => 0 end.

(** [getBarycentric]: the flag and [uv] *)
Definition getBarycentric (p a b c : Vec2) : bool * Vec2 :=
  let ab := Math.v2sub b a in
  let ac := Math.v2sub c a in
  let ap := Math.v2sub p a in
  let d00 := Math.v2dot ab ab in
  let d01 := Math.v2dot ab ac in
  let d11 := Math.v2dot ac ac in
  let d20 := Math.v2dot ap ab in
  let d21 := Math.v2dot ap ac in
  let denom := F32.sub (F32.mul d00 d11) (F32.mul d01 d01) in
  let uvx := F32.div (F32.sub (F32.mul d11 d20) (F32.mul d01 d21)) denom in
  let uvy := F32.div (F32.sub (F32.mul d00 d21) (F32.mul d01 d20)) denom in
  (F32.geb uvx F32.zero && F32.geb uvy F32.zero && F32.leb (F32.add uvx uvy) F32.one,
   mkVec2 uvx uvy).

Fixpoint getActiveTrio (children : list Blend2DChild) (triangles : list Triangle)
    (input_val : Vec2) : Blend2DActiveTrio :=
  match triangles with
  | [] => mkBlend2DActiveTrio 0 0 0 F32.one F32.zero F32.zero
  | t :: rest =>
      let '(inside, uv) := getBarycentric input_val (value2 children (tri_a t))
                             (value2 children (tri_b t)) (value2 children (tri_c t)) in
      if inside then
        mkBlend2DActiveTrio (tri_a t) (tri_b t) (tri_c t)
          (F32.sub (F32.sub F32.one (v2x uv)) (v2y uv)) (v2x uv) (v2y uv)
      else getActiveTrio children rest input_val
  end.

Definition is_ready (a : option Animation) : bool :=
  match a with Some a => anim_ready a | None => false end.

Definition weighted_length (a b c : Animation) (trio : Blend2DActiveTrio) : Time :=
  Time_add (Time_add (Time_mul (anim_length a) (trio_ta trio))
                     (Time_mul (anim_length b) (trio_tb trio)))
           (Time_mul (anim_length c) (trio_tc trio)).

Definition Blend2DNode_update (m_x_input_index m_y_input_index : Z)
    (m_children : list Blend2DChild) (m_triangles : list Triangle)
    (ctx : RuntimeContext) (root_motion : LocalRigidTransform)
    : option (RuntimeContext * LocalRigidTransform) :=
  match read_float ctx with
  | None => None
  | Some (relt0, ctx) =>
      if 2 <? zlen m_children then
        let input_val := mkVec2 (getInputValue ctx m_x_input_index)
                                (getInputValue ctx m_y_input_index) in
        let trio := getActiveTrio m_children m_triangles input_val in
        match animation_at ctx (child_slot2 m_children (trio_a trio)),
              animation_at ctx (child_slot2 m_children (trio_b trio)),
              animation_at ctx (child_slot2 m_children (trio_c trio)) with
        | Some anim_a, Some anim_b, Some anim_c =>
            if anim_ready anim_a && anim_ready anim_b && anim_ready anim_c then
              let wlen := weighted_length anim_a anim_b anim_c trio in
              let relt := Math.fmod_one (F32.add relt0 (Time_div (time_delta ctx) wlen)) in
              let motion (anim : Animation) :=
                getRootMotion anim (Time_mul (anim_length anim) relt0)
                                   (Time_mul (anim_length anim) relt) in
              let root_motion := motion anim_a in
              let root_motion :=
                if F32.gtb (trio_tb trio) F32.zero then
                  Math.lrt_interpolate root_motion (motion anim_b)
                    (F32.div (trio_tb trio) (F32.add (trio_ta trio) (trio_tb trio)))
                else root_motion in
              let root_motion :=
                if F32.gtb (trio_tc trio) F32.zero then
                  Math.lrt_interpolate root_motion (motion anim_c) (trio_tc trio)
                else root_motion in
              Some (write_float relt ctx, root_motion)
            else Some (write_float relt0 ctx, root_motion)
        | _, _, _ => Some (write_float relt0 ctx, root_motion)
        end
      else Some (write_float relt0 ctx, root_motion)
  end.

Definition Blend2DNode_length (m_x_input_index m_y_input_index : Z)
    (m_children : list Blend2DChild) (m_triangles : list Triangle) (ctx : RuntimeContext)
    : Time :=
  if zlen m_children <? 3 then 1
  else
    let input_val := mkVec2 (getInputValue ctx m_x_input_index)
                            (getInputValue ctx m_y_input_index) in
    let trio := getActiveTrio m_children m_triangles input_val in
    match animation_at ctx (child_slot2 m_children (trio_a trio)),
          animation_at ctx (child_slot2 m_children (trio_b trio)),
          animation_at ctx (child_slot2 m_children (trio_c trio)) with
    | Some anim_a, Some anim_b, Some anim_c =>
        if anim_ready anim_a && anim_ready anim_b && anim_ready anim_c then
          weighted_length anim_a anim_b anim_c trio
        else Time_fromSeconds F32.one
    | _, _, _ => Time_fromSeconds F32.one
    end.

Definition Blend2DNode_getPose (m_x_input_index m_y_input_index : Z)
    (m_children : list Blend2DChild) (m_triangles : list Triangle)
    (ctx : RuntimeContext) (weight : spec_float) (pose : Pose) (mask : Z)
    : option (RuntimeContext * Pose) :=
  match read_float ctx with
  | None => None
  | Some (t, ctx) =>
      match m_children with
      | [] => Some (ctx, pose)
      | c :: _ =>
          if zlen m_children <? 3 then
            Some (ctx, samplePoseRel ctx t weight (b2_slot c) pose mask true)
          else
            let input_val := mkVec2 (getInputValue ctx m_x_input_index)
                                    (getInputValue ctx m_y_input_index) in
            let trio := getActiveTrio m_children m_triangles input_val in
            let pose := samplePoseRel ctx t weight (child_slot2 m_children (trio_a trio))
                                      pose mask true in
            let pose :=
              if F32.gtb (trio_tb trio) F32.zero then
                samplePoseRel ctx t (F32.mul weight (trio_tb trio))
                              (child_slot2 m_children (trio_b trio)) pose mask true
              else pose in
            let pose :=
              if F32.gtb (trio_tc trio) F32.zero then
                samplePoseRel ctx t (F32.mul weight (trio_tc trio))
                              (child_slot2 m_children (trio_c trio)) pose mask true
              else pose in
            Some (ctx, pose)
      end
  end.

Definition Blend2DNode_ops (m_x_input_index m_y_input_index : Z)
    (m_children : list Blend2DChild) (m_triangles : list Triangle) : NodeOps :=
  mkNodeOps
    (Blend2DNode_update m_x_input_index m_y_input_index m_children m_triangles)
    (fun ctx => Some (write_float F32.zero ctx))
    (fun ctx => Some (skip_words 1 ctx))
    (Blend2DNode_getPose m_x_input_index m_y_input_index m_children m_triangles)
    (Blend2DNode_length m_x_input_index m_y_input_index m_children m_triangles)
    (fun ctx => Time_mul (Blend2DNode_length m_x_input_index m_y_input_index
                                             m_children m_triangles ctx)
                         (float_of_bits (peek_word ctx))).

(** **** [Blend2DNode::dataChanged]: the Delaunay triangulation *)

Definition computeCircumcircleCenter (a b c : Vec2) : Vec2 :=
  let dab := Math.v2sub b a in
  let dac := Math.v2sub c a in
  let o := Math.v2div
             (Math.v2ortho (Math.v2sub (Math.v2scale dac (Math.squaredLength dab))
                                       (Math.v2scale dab (Math.squaredLength dac))))
             (F32.mul (F32.sub (F32.mul (v2x dab) (v2y dac)) (F32.mul (v2y dab) (v2x dac)))
                      F32.two) in
  Math.v2add o a.

Record Edge := mkEdge { edge_a : Z; edge_b : Z; edge_valid : bool }.

(** [Edge::operator==] *)
Definition Edge_eq (l r : Edge) : bool :=
  ((edge_a l =? edge_a r) && (edge_b l =? edge_b r)) ||
  ((edge_a l =? edge_b r) && (edge_b l =? edge_a r)).

Definition invalidate (e : Edge) : Edge := mkEdge (edge_a e) (edge_b e) false.

(** The lambda [pushTriangle] *)
Definition pushTriangle (children : list Blend2DChild) (a b c : Z) (triangles : list Triangle)
    : list Triangle :=
  triangles ++ [mkTriangle a b c
                  (computeCircumcircleCenter (value2 children a) (value2 children b)
                                             (value2 children c))].

(** The loop over [m_triangles] from [ti - 1] down to 0: a triangle whose
    circumcircle holds [p] gives its edges and is removed. *)
Fixpoint collectEdges (ti : nat) (children : list Blend2DChild) (p : Vec2)
    (triangles : list Triangle) (edges : list Edge) : list Triangle * list Edge :=
  match ti with
  | O => (triangles, edges)
  | S ti =>
      match zget triangles (Z.of_nat ti) with
      | None => collectEdges ti children p triangles edges
      | Some t =>
          let center := circumcircle_center t in
          if F32.gtb (Math.squaredLength (Math.v2sub p center))
                     (Math.squaredLength (Math.v2sub (value2 children (tri_a t)) center))
          then collectEdges ti children p triangles edges
          else
            collectEdges ti children p (swapAndPop (Z.of_nat ti) triangles)
              (edges ++ [mkEdge (tri_a t) (tri_b t) true; mkEdge (tri_b t) (tri_c t) true;
                         mkEdge (tri_c t) (tri_a t) true])
      end
  end.

(** The inner loop: [j] from [j - 1] down to 0 against the edge at [i] *)
Fixpoint markAgainst (j : nat) (i : Z) (edges : list Edge) : list Edge :=
  match j with
  | O => edges
  | S j =>
      match zget edges i, zget edges (Z.of_nat j) with
      | Some ei, Some ej =>
          if Edge_eq ei ej then
            markAgainst j i (zalter invalidate (Z.of_nat j) (zalter invalidate i edges))
          else markAgainst j i edges
      | _, _ => markAgainst j i edges
      end
  end.

(** The outer loop: [i] from [i] down to 1 *)
Fixpoint markDuplicates (i : nat) (edges : list Edge) : list Edge :=
  match i with
  | O => edges
  | S j => markDuplicates j (markAgainst i (Z.of_nat i) edges)
  end.

(** Inserting the child [ch] *)
Definition insertPoint (children : list Blend2DChild) (ch : Z) (triangles : list Triangle)
    : list Triangle :=
  let p := value2 children ch in
  let '(triangles, edges) :=
    collectEdges (List.length triangles) children p triangles [] in
  let edges := markDuplicates (Nat.pred (List.length edges)) edges in
  let edges := filter (fun e => edge_valid e = true) edges in
  fold_left (fun ts e => pushTriangle children (edge_a e) (edge_b e) ch ts) edges triangles.

(** The loop [for (ch = 1; ch < c; ++ch)], [n] rounds left *)
Fixpoint insertPoints (n : nat) (ch : Z) (children : list Blend2DChild)
    (triangles : list Triangle) : list Triangle :=
  match n with
  | O => triangles
  | S n => insertPoints n (ch + 1) children (insertPoint children ch triangles)
  end.

Definition bounds (children : list Blend2DChild) : Vec2 * Vec2 :=
  fold_left (fun '(mn, mx) i => (Math.v2min mn (b2_value i), Math.v2max mx (b2_value i)))
            children
            (mkVec2 F32.max_value F32.max_value,
             mkVec2 (F32.neg F32.max_value) (F32.neg F32.max_value)).

(** [dataChanged]: the new [m_children] and [m_triangles].  The three
    emplaced children have an unspecified [slot]; it is 0 here. *)
Definition dataChanged (m_children : list Blend2DChild)
    : list Blend2DChild * list Triangle :=
  if zlen m_children <? 3 then (m_children, [])
  else
    let '(mn, mx) := bounds m_children in
    let d := Math.v2sub mx mn in
    let dmax := Math.fmax (v2x d) (v2y d) in
    let mid := Math.v2scale (Math.v2add mx mn) F32.half in
    let far := F32.mul (F32.of_Z 20) dmax in
    let children :=
      m_children ++ [mkBlend2DChild (mkVec2 (F32.sub (v2x mid) far) (F32.sub (v2y mid) dmax)) 0] in
    let children :=
      children ++ [mkBlend2DChild (mkVec2 (v2x mid) (F32.add (v2y mid) far)) 0] in
    let children :=
      children ++ [mkBlend2DChild (mkVec2 (F32.add (v2x mid) far) (F32.sub (v2y mid) dmax)) 0] in
    let size := zlen children in
    let triangles := pushTriangle children (size - 1) (size - 2) 0 [] in
    let triangles := pushTriangle children (size - 2) (size - 3) 0 triangles in
    let triangles := pushTriangle children (size - 3) (size - 1) 0 triangles in
    let c := size - 3 in
    let triangles := insertPoints (Z.to_nat (c - 1)) 1 children triangles in
    let children := pop (pop (pop children)) in
    let s := zlen children in
    (children,
     filter (fun t => ((s <=? tri_a t) || (s <=? tri_b t) || (s <=? tri_c t)) = false)
            triangles).

(** A triangle all of whose vertices are children among the first [n] *)
Definition triangle_within (n : Z) (t : Triangle) : Prop :=
  (0 <= tri_a t < n) /\ (0 <= tri_b t < n) /\ (0 <= tri_c t < n).

Definition edge_within (n : Z) (e : Edge) : Prop :=
  (0 <= edge_a e < n) /\ (0 <= edge_b e < n).

(** *** [ConditionNode]

    [RuntimeData] is the pair of [t] and [is_true], two words. *)

Definition read_ConditionData (ctx : RuntimeContext) : option (Time * bool * RuntimeContext) :=
  match read_word ctx with
  | None => None
  | Some (t, ctx) =>
      match read_word ctx with
      | None => None
      | Some (b, ctx) => Some (t, negb (b =? 0), ctx)
      end
  end.

Definition write_ConditionData (t : Time) (is_true : bool) (ctx : RuntimeContext)
    : RuntimeContext :=
  write_word (if is_true then 1 else 0) (write_word t ctx).

Definition ConditionNode_update (m_condition : Condition) (m_blend_length : Time)
    (m_true_node m_false_node : option NodeOps)
    (ctx : RuntimeContext) (root_motion : LocalRigidTransform)
    : option (RuntimeContext * LocalRigidTransform) :=
  match m_true_node, m_false_node with
  | Some true_node, Some false_node =>
      match read_ConditionData ctx with
      | None => None
      | Some (t, data_is_true, ctx) =>
          let branch (b : bool) := if b then true_node else false_node in
          if t <? m_blend_length then
            let t := Time_add t (time_delta ctx) in
            if m_blend_length <=? t then
              match skip (branch (negb data_is_true)) ctx with
              | None => None
              | Some ctx =>
                  update (branch data_is_true) (write_ConditionData t data_is_true ctx)
                         root_motion
              end
            else
              match update (branch (negb data_is_true))
                           (write_ConditionData t data_is_true ctx) root_motion with
              | None => None
              | Some (ctx, root_motion) =>
                  match update (branch data_is_true) ctx tmp_root_motion with
                  | None => None
                  | Some (ctx, tmp) =>
                      Some (ctx, Math.lrt_interpolate root_motion tmp
                                   (F32.div (Time_seconds t) (Time_seconds m_blend_length)))
                  end
              end
          else
            let is_true := eval m_condition ctx in
            if negb (Bool.eqb data_is_true is_true) then
              if m_blend_length =? 0 then
                match skip (branch data_is_true) ctx with
                | None => None
                | Some ctx =>
                    match enter (branch is_true) (write_ConditionData t is_true ctx) with
                    | None => None
                    | Some ctx => Some (ctx, root_motion)
                    end
                end
              else
                match update (branch (negb is_true)) (write_ConditionData 0 is_true ctx)
                             root_motion with
                | None => None
                | Some (ctx, root_motion) =>
                    match enter (branch is_true) ctx with
                    | None => None
                    | Some ctx => Some (ctx, root_motion)
                    end
                end
            else
              update (branch data_is_true) (write_ConditionData t data_is_true ctx) root_motion
      end
  | _, _ => Some (ctx, root_motion)
  end.

Definition ConditionNode_enter (m_condition : Condition) (m_blend_length : Time)
    (m_true_node m_false_node : option NodeOps) (ctx : RuntimeContext)
    : option RuntimeContext :=
  match m_true_node, m_false_node with
  | Some true_node, Some false_node =>
      let is_true := eval m_condition ctx in
      enter (if is_true then true_node else false_node)
            (write_ConditionData m_blend_length is_true ctx)
  | _, _ => Some ctx
  end.

Definition ConditionNode_skip (m_true_node m_false_node : option NodeOps)
    (ctx : RuntimeContext) : option RuntimeContext :=
  match m_true_node, m_false_node with
  | Some true_node, Some false_node =>
      match read_ConditionData ctx with
      | None => None
      | Some (t, is_true, ctx) =>
          let running_child := if is_true then true_node else false_node in
          skip running_child ctx
      end
  | _, _ => Some ctx
  end.

Definition ConditionNode_getPose (m_blend_length : Time)
    (m_true_node m_false_node : option NodeOps)
    (ctx : RuntimeContext) (weight : spec_float) (pose : Pose) (mask : Z)
    : option (RuntimeContext * Pose) :=
  match m_true_node, m_false_node with
  | Some true_node, Some false_node =>
      match read_ConditionData ctx with
      | None => None
      | Some (data_t, is_true, ctx) =>
          let branch (b : bool) := if b then true_node else false_node in
          if data_t <? m_blend_length then
            match getPose (branch (negb is_true)) ctx weight pose mask with
            | None => None
            | Some (ctx, pose) =>
                let t := clamp01 (Time_div data_t m_blend_length) in
                getPose (branch is_true) ctx (F32.mul weight t) pose mask
            end
          else getPose (branch is_true) ctx weight pose mask
      end
  | _, _ => Some (ctx, pose)
  end.

Definition ConditionNode_ops (m_condition : Condition) (m_blend_length : Time)
    (m_true_node m_false_node : option NodeOps) : NodeOps :=
  mkNodeOps
    (ConditionNode_update m_condition m_blend_length m_true_node m_false_node)
    (ConditionNode_enter m_condition m_blend_length m_true_node m_false_node)
    (ConditionNode_skip m_true_node m_false_node)
    (ConditionNode_getPose m_blend_length m_true_node m_false_node)
    (fun _ => Time_fromSeconds F32.one)
    (fun _ => Time_fromSeconds F32.zero).

(** *** [LayersNode] *)

Record Layer := mkLayer { layer_mask : Z; layer_node : NodeOps }.

Fixpoint LayersNode_update_from (first : bool) (m_layers : list Layer)
    (ctx : RuntimeContext) (root_motion : LocalRigidTransform)
    : option (RuntimeContext * LocalRigidTransform) :=
  match m_layers with
  | [] => Some (ctx, root_motion)
  | layer :: rest =>
      match update (layer_node layer) ctx tmp_root_motion with
      | None => None
      | Some (ctx, tmp_rm) =>
          LayersNode_update_from false rest ctx (if first then tmp_rm else root_motion)
      end
  end.

Fixpoint LayersNode_enter (m_layers : list Layer) (ctx : RuntimeContext)
    : option RuntimeContext :=
  match m_layers with
  | [] => Some ctx
  | layer :: rest =>
      match enter (layer_node layer) ctx with
      | None => None
      | Some ctx => LayersNode_enter rest ctx
      end
  end.

Fixpoint LayersNode_skip (m_layers : list Layer) (ctx : RuntimeContext)
    : option RuntimeContext :=
  match m_layers with
  | [] => Some ctx
  | layer :: rest =>
      match skip (layer_node layer) ctx with
      | None => None
      | Some ctx => LayersNode_skip rest ctx
      end
  end.

Fixpoint LayersNode_getPose (m_layers : list Layer) (ctx : RuntimeContext)
    (weight : spec_float) (pose : Pose) (mask : Z) : option (RuntimeContext * Pose) :=
  match m_layers with
  | [] => Some (ctx, pose)
  | layer :: rest =>
      match getPose (layer_node layer) ctx weight pose (layer_mask layer) with
      | None => None
      | Some (ctx, pose) => LayersNode_getPose rest ctx weight pose mask
      end
  end.

Definition LayersNode_ops (m_layers : list Layer) : NodeOps :=
  mkNodeOps
    (LayersNode_update_from true m_layers)
    (LayersNode_enter m_layers)
    (LayersNode_skip m_layers)
    (LayersNode_getPose m_layers)
    (fun _ => Time_fromSeconds F32.one)
    (fun _ => 0).

(** *** The crossfade of [SelectNode] and [GroupNode]

    Both nodes keep [from], [to] and [t]; the group node keeps the
    [blend_length] of the running crossfade as a fourth word.  The part of
    [update] for [from != to], the functions [skip] and [getPose] are the
    same text in both, over the children's nodes. *)

Definition crossfade_update (nodes : list NodeOps) (from to t blend_length : Z)
    (write_data : Z -> Z -> Time -> RuntimeContext -> RuntimeContext)
    (ctx : RuntimeContext) (root_motion : LocalRigidTransform)
    : option (RuntimeContext * LocalRigidTransform) :=
  let t := Time_add t (time_delta ctx) in
  if blend_length <? t then
    match zget nodes from, zget nodes to with
    | Some from_node, Some to_node =>
        match skip from_node ctx with
        | None => None
        | Some ctx => update to_node (write_data to to 0 ctx) root_motion
        end
    | _, _ => None
    end
  else
    match zget nodes from, zget nodes to with
    | Some from_node, Some to_node =>
        match update from_node (write_data from to t ctx) root_motion with
        | None => None
        | Some (ctx, root_motion) =>
            match update to_node ctx tmp_root_motion with
            | None => None
            | Some (ctx, tmp) =>
                Some (ctx, Math.lrt_interpolate root_motion tmp
                             (F32.div (Time_seconds t) (Time_seconds blend_length)))
            end
        end
    | _, _ => None
    end.

(** [data.to = ...; data.t = Time(0); write; from->update; to->enter] *)
Definition start_crossfade (nodes : list NodeOps) (from to : Z)
    (write_data : Z -> Z -> Time -> RuntimeContext -> RuntimeContext)
    (ctx : RuntimeContext) (root_motion : LocalRigidTransform)
    : option (RuntimeContext * LocalRigidTransform) :=
  match zget nodes from, zget nodes to with
  | Some from_node, Some to_node =>
      match update from_node (write_data from to 0 ctx) root_motion with
      | None => None
      | Some (ctx, root_motion) =>
          match enter to_node ctx with
          | None => None
          | Some ctx => Some (ctx, root_motion)
          end
      end
  | _, _ => None
  end.

(** [data.t += ctx.time_delta; write; from->update] *)
Definition keep_playing (nodes : list NodeOps) (from to : Z) (t : Time)
    (write_data : Z -> Z -> Time -> RuntimeContext -> RuntimeContext)
    (ctx : RuntimeContext) (root_motion : LocalRigidTransform)
    : option (RuntimeContext * LocalRigidTransform) :=
  match zget nodes from with
  | Some from_node =>
      update from_node (write_data from to (Time_add t (time_delta ctx)) ctx) root_motion
  | None => None
  end.

Definition crossfade_skip (nodes : list NodeOps) (from to : Z) (ctx : RuntimeContext)
    : option RuntimeContext :=
  match zget nodes from with
  | None => None
  | Some from_node =>
      match skip from_node ctx with
      | None => None
      | Some ctx =>
          if from =? to then Some ctx
          else match zget nodes to with
               | Some to_node => skip to_node ctx
               | None => None
               end
      end
  end.

Definition crossfade_getPose (nodes : list NodeOps) (from to : Z) (t blend_length : Time)
    (ctx : RuntimeContext) (weight : spec_float) (pose : Pose) (mask : Z)
    : option (RuntimeContext * Pose) :=
  match zget nodes from with
  | None => None
  | Some from_node =>
      match getPose from_node ctx weight pose mask with
      | None => None
      | Some (ctx, pose) =>
          if from =? to then Some (ctx, pose)
          else
            match zget nodes to with
            | Some to_node =>
                let k := clamp01 (F32.div (Time_seconds t) (Time_seconds blend_length)) in
                getPose to_node ctx (F32.mul weight k) pose mask
            | None => None
            end
      end
  end.

(** *** [SelectNode] *)

Record SelectChild := mkSelectChild { max_value : spec_float; select_node : NodeOps }.

Definition read3 (ctx : RuntimeContext) : option (Z * Z * Z * RuntimeContext) :=
  match read_word ctx with
  | None => None
  | Some (a, ctx) =>
      match read_word ctx with
      | None => None
      | Some (b, ctx) =>
          match read_word ctx with
          | None => None
          | Some (c, ctx) => Some (a, b, c, ctx)
          end
      end
  end.

Definition write_SelectData (from to : Z) (t : Time) (ctx : RuntimeContext) : RuntimeContext :=
  write_word t (write_word to (write_word from ctx)).

Fixpoint getChildIndex_from (i : Z) (children : list SelectChild) (input_val : spec_float)
    : option Z :=
  match children with
  | [] => None
  | child :: rest =>
      if F32.leb input_val (max_value child) then Some i
      else getChildIndex_from (i + 1) rest input_val
  end.

Definition getChildIndex (m_children : list SelectChild) (input_val : spec_float) : Z :=
  match getChildIndex_from 0 m_children input_val with
  | Some i => i
  | None => u32 (zlen m_children - 1)
  end.

Definition SelectNode_update (m_blend_length : Time) (m_input_index : Z)
    (m_children : list SelectChild)
    (ctx : RuntimeContext) (root_motion : LocalRigidTransform)
    : option (RuntimeContext * LocalRigidTransform) :=
  match m_children with
  | [] => Some (ctx, root_motion)
  | _ =>
      match read3 ctx with
      | None => None
      | Some (from, to, t, ctx) =>
          let nodes := List.map select_node m_children in
          let child_idx := getChildIndex m_children (getInputValue ctx m_input_index) in
          if negb (from =? to) then
            crossfade_update nodes from to t m_blend_length write_SelectData ctx root_motion
          else if negb (child_idx =? from) then
            start_crossfade nodes from child_idx write_SelectData ctx root_motion
          else keep_playing nodes from to t write_SelectData ctx root_motion
      end
  end.

Definition SelectNode_enter (m_input_index : Z) (m_children : list SelectChild)
    (ctx : RuntimeContext) : option RuntimeContext :=
  match m_children with
  | [] => Some ctx
  | _ =>
      let from := getChildIndex m_children (getInputValue ctx m_input_index) in
      let ctx := write_SelectData from from 0 ctx in
      match zget m_children from with
      | Some child => enter (select_node child) ctx
      | None => Some ctx
      end
  end.

Definition SelectNode_skip (m_children : list SelectChild) (ctx : RuntimeContext)
    : option RuntimeContext :=
  match m_children with
  | [] => Some ctx
  | _ =>
      match read3 ctx with
      | None => None
      | Some (from, to, t, ctx) => crossfade_skip (List.map select_node m_children) from to ctx
      end
  end.

Definition SelectNode_getPose (m_blend_length : Time) (m_children : list SelectChild)
    (ctx : RuntimeContext) (weight : spec_float) (pose : Pose) (mask : Z)
    : option (RuntimeContext * Pose) :=
  match m_children with
  | [] => Some (ctx, pose)
  | _ =>
      match read3 ctx with
      | None => None
      | Some (from, to, t, ctx) =>
          crossfade_getPose (List.map select_node m_children) from to t m_blend_length
                            ctx weight pose mask
      end
  end.

Definition SelectNode_ops (m_blend_length : Time) (m_input_index : Z)
    (m_children : list SelectChild) : NodeOps :=
  mkNodeOps
    (SelectNode_update m_blend_length m_input_index m_children)
    (SelectNode_enter m_input_index m_children)
    (SelectNode_skip m_children)
    (SelectNode_getPose m_blend_length m_children)
    (fun _ => Time_fromSeconds F32.one)
    (fun _ => 0).

(** *** [GroupNode] *)

Definition SELECTABLE : Z := 1.
Definition ANY : Z := 4294967295.

Record GroupChild := mkGroupChild {
  child_flags : Z;
  child_condition : Condition;
  group_node : NodeOps
}.

Record Transition := mkTransition {
  tr_from : Z;
  tr_to : Z;
  tr_blend_length : Time;
  tr_exit_time : spec_float
}.

Definition read_GroupData (ctx : RuntimeContext) : option (Z * Z * Z * Z * RuntimeContext) :=
  match read3 ctx with
  | None => None
  | Some (from, to, t, ctx) =>
      match read_word ctx with
      | None => None
      | Some (blend_length, ctx) => Some (from, to, t, blend_length, ctx)
      end
  end.

Definition write_GroupData (blend_length : Time) (from to : Z) (t : Time)
    (ctx : RuntimeContext) : RuntimeContext :=
  write_word blend_length (write_SelectData from to t ctx).

(** [m_children[i].condition.eval(ctx)]; for a child that does not exist the
    source reads past the array, here the answer is [false]. *)
Definition guard (m_children : list GroupChild) (i : Z) (ctx : RuntimeContext) : bool :=
  match zget m_children i with
  | Some child => eval (child_condition child) ctx
  | None => false
  end.

Definition selectable (child : GroupChild) : bool :=
  negb (Z.land (child_flags child) SELECTABLE =? 0).

(** The body of [if (transition.exit_time >= 0)] up to its [continue]:
    whether the exit point [t] lies in the window of this tick. *)
Definition exitTimeReached (current : NodeOps) (ctx : RuntimeContext)
    (exit_time : spec_float) : bool :=
  let len := length current ctx in
  let beg := time current ctx in
  let end_ := Time_add beg (time_delta ctx) in
  let loop_start := Time_sub beg (Time_mod beg len) in
  let t := Time_add loop_start (Time_fromSeconds (F32.mul exit_time (Time_seconds len))) in
  negb ((t <? beg) || (end_ <=? t)).

(** How the loop over [m_transitions] ends: with a transition to take, with
    the [break] of a transition to anywhere, or at the end of the list, with
    the flag [waiting_for_exit_time]. *)
Inductive TransitionScan :=
| Fires (transition : Transition)
| GoAnywhere
| NoTransition (waiting_for_exit_time : bool).

Fixpoint scanTransitions (m_children : list GroupChild) (current : NodeOps)
    (ctx : RuntimeContext) (from to : Z) (transitions : list Transition)
    (waiting_for_exit_time : bool) : TransitionScan :=
  match transitions with
  | [] => NoTransition waiting_for_exit_time
  | transition :: rest =>
      let continue := scanTransitions m_children current ctx from to rest in
      if tr_to transition =? to then continue waiting_for_exit_time
      else if negb (tr_from transition =? from) && negb (tr_from transition =? ANY)
      then continue waiting_for_exit_time
      else if negb (tr_to transition =? ANY) && negb (guard m_children (tr_to transition) ctx)
      then continue waiting_for_exit_time
      else
        let gated := F32.geb (tr_exit_time transition) F32.zero in
        if gated && negb (exitTimeReached current ctx (tr_exit_time transition))
        then continue true
        else if tr_to transition =? ANY then GoAnywhere
        else Fires transition
  end.

(** The loop over the children after the transitions: the first selectable
    child other than [from] whose guard holds *)
Fixpoint firstSelectable (i : Z) (children : list GroupChild) (from : Z)
    (ctx : RuntimeContext) : option Z :=
  match children with
  | [] => None
  | child :: rest =>
      if i =? from then firstSelectable (i + 1) rest from ctx
      else if negb (selectable child) then firstSelectable (i + 1) rest from ctx
      else if negb (eval (child_condition child) ctx) then firstSelectable (i + 1) rest from ctx
      else Some i
  end.

Definition GroupNode_update (m_blend_length : Time) (m_children : list GroupChild)
    (m_transitions : list Transition)
    (ctx : RuntimeContext) (root_motion : LocalRigidTransform)
    : option (RuntimeContext * LocalRigidTransform) :=
  match read_GroupData ctx with
  | None => None
  | Some (from, to, t, blend_length, ctx) =>
      let nodes := List.map group_node m_children in
      match m_children with
      | [] => Some (write_GroupData blend_length from to t ctx, root_motion)
      | _ =>
          if negb (from =? to) then
            crossfade_update nodes from to t blend_length (write_GroupData blend_length)
                             ctx root_motion
          else
            match zget m_children from with
            | None => None
            | Some current =>
                let is_current_matching := eval (child_condition current) ctx in
                let is_selectable := selectable current in
                let stay :=
                  keep_playing nodes from to t (write_GroupData blend_length) ctx root_motion in
                if negb is_current_matching || negb is_selectable then
                  let fallback (can_go_anywhere waiting_for_exit_time : bool) :=
                    if (negb is_current_matching || can_go_anywhere)
                       && negb waiting_for_exit_time then
                      match firstSelectable 0 m_children from ctx with
                      | Some i =>
                          start_crossfade nodes from i (write_GroupData m_blend_length)
                                          ctx root_motion
                      | None => stay
                      end
                    else stay in
                  match scanTransitions m_children (group_node current) ctx from to
                                        m_transitions false with
                  | Fires transition =>
                      start_crossfade nodes from (tr_to transition)
                                      (write_GroupData (tr_blend_length transition))
                                      ctx root_motion
                  | GoAnywhere => fallback true false
                  | NoTransition waiting_for_exit_time => fallback false waiting_for_exit_time
                  end
                else stay
            end
      end
  end.

(** [GroupNode::enter]: the aggregate [{ i, i, Time(0) }] leaves
    [blend_length] to its default, 0 here. *)
Fixpoint firstMatching (i : Z) (children : list GroupChild) (ctx : RuntimeContext) : Z :=
  match children with
  | [] => 0
  | child :: rest =>
      if selectable child && eval (child_condition child) ctx then i
      else firstMatching (i + 1) rest ctx
  end.

Definition GroupNode_enter (m_children : list GroupChild) (ctx : RuntimeContext)
    : option RuntimeContext :=
  let from := firstMatching 0 m_children ctx in
  let ctx := write_GroupData 0 from from 0 ctx in
  match zget m_children from with
  | Some child => enter (group_node child) ctx
  | None => Some ctx
  end.

Definition GroupNode_skip (m_children : list GroupChild) (ctx : RuntimeContext)
    : option RuntimeContext :=
  match read_GroupData ctx with
  | None => None
  | Some (from, to, t, blend_length, ctx) =>
      crossfade_skip (List.map group_node m_children) from to ctx
  end.

Definition GroupNode_getPose (m_children : list GroupChild)
    (ctx : RuntimeContext) (weight : spec_float) (pose : Pose) (mask : Z)
    : option (RuntimeContext * Pose) :=
  match read_GroupData ctx with
  | None => None
  | Some (from, to, t, blend_length, ctx) =>
      match m_children with
      | [] => Some (ctx, pose)
      | _ =>
          crossfade_getPose (List.map group_node m_children) from to t blend_length
                            ctx weight pose mask
      end
  end.

Definition GroupNode_ops (m_blend_length : Time) (m_children : list GroupChild)
    (m_transitions : list Transition) : NodeOps :=
  mkNodeOps
    (GroupNode_update m_blend_length m_children m_transitions)
    (GroupNode_enter m_children)
    (GroupNode_skip m_children)
    (GroupNode_getPose m_children)
    (fun _ => Time_fromSeconds F32.one)
    (fun _ => 0).

(** *** The controller tree

    A node of a controller, with its configuration, and the virtual
    functions it answers to. *)
#[local] Unset Elimination Schemes.
Inductive Node :=
| AnimationNode (m_slot m_flags : Z)
| Blend1DNode (m_input_index : Z) (m_children : list Blend1DChild)
| Blend2DNode (m_x_input_index m_y_input_index : Z) (m_children : list Blend2DChild)
              (m_triangles : list Triangle)
| ConditionNode (m_condition : Condition) (m_blend_length : Time)
                (m_true_node m_false_node : option Node)
| LayersNode (m_layers : list (Z * Node))
| SelectNode (m_blend_length : Time) (m_input_index : Z)
             (m_children : list (spec_float * Node))
| GroupNode (m_blend_length : Time) (m_children : list (Z * Condition * Node))
            (m_transitions : list Transition).
#[local] Set Elimination Schemes.

Fixpoint ops (n : Node) : NodeOps :=
  match n with
  | AnimationNode m_slot m_flags => AnimationNode_ops m_slot m_flags
  | Blend1DNode m_input_index m_children => Blend1DNode_ops m_input_index m_children
  | Blend2DNode x y m_children m_triangles => Blend2DNode_ops x y m_children m_triangles
  | ConditionNode m_condition m_blend_length m_true_node m_false_node =>
      ConditionNode_ops m_condition m_blend_length
        (match m_true_node with Some c => Some (ops c) | None => None end)
        (match m_false_node with Some c => Some (ops c) | None => None end)
  | LayersNode m_layers =>
      LayersNode_ops (List.map (fun l => match l with (mask, c) => mkLayer mask (ops c) end)
                               m_layers)
  | SelectNode m_blend_length m_input_index m_children =>
      SelectNode_ops m_blend_length m_input_index
        (List.map (fun l => match l with (v, c) => mkSelectChild v (ops c) end) m_children)
  | GroupNode m_blend_length m_children m_transitions =>
      GroupNode_ops m_blend_length
        (List.map (fun l => match l with (f, g, c) => mkGroupChild f g (ops c) end) m_children)
        m_transitions
  end.

(** Modelled from the spec: the swap of the two streams between the passes
    ([Controller::update] and [evalBlendStack], not among the sources): the
    "input_runtime" is "a read cursor over the previous frame's data
    stream". *)
Definition rewind (ctx : RuntimeContext) : RuntimeContext :=
  with_input_runtime (data ctx) (with_data [] ctx).

End Anim.

(** ** The animation module ([src/animation/animation_module.cpp]) *)

Module AnimationModule.

(** [Animator::IK] *)
Record IK := mkIK { weight : spec_float; target : Vec3 }.

(** [setAnimatorIK] stores the weight clamped to [0, 1]. *)
Definition setIK (weight : spec_float) (target : Vec3) : IK :=
  mkIK (Anim.clamp01 weight) target.

Section Animator.

(** The pose of the renderer, its model and the controller's description
    of an IK chain, with the functions of the renderer and of the controller
    that [updateAnimator] calls; none of them is among the sources.
    [updateIK] stands for the solver of one chain. *)
Context {BonePose Model ControllerIK : Type}.
Variable model_isReady : Model -> bool.
Variable getRelativePose : Model -> BonePose -> BonePose.
Variable evalBlendStack : Anim.RuntimeContext -> BonePose -> BonePose.
Variable updateIK : ControllerIK -> IK -> BonePose -> Model -> BonePose.
Variable computeAbsolute : Model -> BonePose -> BonePose.

(** [anim::Controller], the resource of an animator *)
Record Controller := mkController {
  isReady : bool;
  createRuntime : Z -> Anim.RuntimeContext;
  m_root : Anim.NodeOps;
  m_ik : Z -> ControllerIK
}.

(** Modelled from the spec: [Controller::update] hands the data of the
    previous tick to the tree as [input_runtime] and lets the root node
    write the new data. *)
Definition Controller_update (c : Controller) (ctx : Anim.RuntimeContext)
    (root_motion : LocalRigidTransform)
    : option (Anim.RuntimeContext * LocalRigidTransform) :=
  Anim.update (m_root c) (Anim.rewind ctx) root_motion.

Record Animator := mkAnimator {
  entity : Z;
  resource : option Controller;
  default_set : Z;
  flags : Z;
  ctx : option Anim.RuntimeContext;
  root_motion : LocalRigidTransform;
  inverse_kinematics : list IK
}.

Definition USE_ROOT_MOTION : Z := 1.

(** A fresh animator: no resource, no runtime, identity root motion and
    four IK slots of weight 0 *)
Definition new_animator (e : Z) : Animator :=
  mkAnimator e None 0 0 None LocalRigidTransform_IDENTITY
             (repeat (mkIK F32.zero Vec3_ZERO) 4).

Definition with_ctx (c : Anim.RuntimeContext) (a : Animator) : Animator :=
  mkAnimator (entity a) (resource a) (default_set a) (flags a) (Some c) (root_motion a)
             (inverse_kinematics a).
Definition with_root_motion (rm : LocalRigidTransform) (a : Animator) : Animator :=
  mkAnimator (entity a) (resource a) (default_set a) (flags a) (ctx a) rm
             (inverse_kinematics a).

(** What the module reaches through [m_world] and [m_render_module]: the
    world, the model of a model instance and the pose that [lockPose]
    gives; [model_instance_type] is the index of the component type. *)
Record Scene := mkScene {
  m_world : World.World;
  model_instance_type : Z;
  getModelInstanceModel : Z -> option Model;
  lockPose : Z -> option BonePose
}.

(** [unlockPose(entity, true)] with the changed pose *)
Definition unlockPose (e : Z) (pose : BonePose) (s : Scene) : Scene :=
  mkScene (m_world s) (model_instance_type s) (getModelInstanceModel s)
          (fun e' => if e' =? e then Some pose else lockPose s e').

Definition with_world (w : World.World) (s : Scene) : Scene :=
  mkScene w (model_instance_type s) (getModelInstanceModel s) (lockPose s).

(** The loop over [animator.inverse_kinematics]; [idx] is the position of
    the slot [ik] in the array. *)
Fixpoint solveChains (res : Controller) (idx : Z) (iks : list IK) (pose : BonePose)
    (model : Model) : BonePose :=
  match iks with
  | [] => pose
  | ik :: rest =>
      if F32.eqb (weight ik) F32.zero then pose
      else solveChains res (idx + 1) rest (updateIK (m_ik res idx) ik pose model) model
  end.

(** The root motion applied to the transform of the entity *)
Definition applyRootMotion (tr : Transform) (rm : LocalRigidTransform) : Transform :=
  let d := Math.rotate3 (rot tr) (lpos rm) in
  mkTransform
    (Math.dadd (pos tr)
               (mkDVec3 (F64.of_float (v3x d)) (F64.of_float (v3y d)) (F64.of_float (v3z d))))
    (Math.qmul (lrot rm) (rot tr))
    (scale tr).

Definition with_frame (model : Model) (time_delta : spec_float) (c : Anim.RuntimeContext)
    : Anim.RuntimeContext :=
  Anim.mkRuntimeContext (Anim.data c) (Anim.input_runtime c) (Anim.inputs c)
    (Anim.animations c) (Anim.Time_fromSeconds time_delta) (model_isReady model).

(** [updateAnimator]: the scene and the animator after the call *)
Definition updateAnimator (fuel : nat) (s : Scene) (animator : Animator)
    (time_delta : spec_float) : option (Scene * Animator) :=
  match resource animator with
  | None => Some (s, animator)
  | Some res =>
      if negb (isReady res) then Some (s, animator)
      else
        let runtime := match ctx animator with
                       | Some c => c
                       | None => createRuntime res (default_set animator)
                       end in
        let animator := with_ctx runtime animator in
        let e := entity animator in
        if negb (World.hasComponent (m_world s) e (model_instance_type s))
        then Some (s, animator)
        else
          match getModelInstanceModel s e with
          | None => Some (s, animator)
          | Some model =>
              if negb (model_isReady model) then Some (s, animator)
              else
                match lockPose s e with
                | None => Some (s, animator)
                | Some pose =>
                    match Controller_update res (with_frame model time_delta runtime)
                                            (root_motion animator) with
                    | None => None
                    | Some (runtime, rm) =>
                        let animator := with_root_motion rm (with_ctx runtime animator) in
                        let pose := getRelativePose model pose in
                        let pose := evalBlendStack runtime pose in
                        let pose := solveChains res 0 (inverse_kinematics animator) pose model in
                        let pose := computeAbsolute model pose in
                        let s := unlockPose e pose s in
                        if negb (Z.land (flags animator) USE_ROOT_MOTION =? 0) then
                          let tr := applyRootMotion (World.getTransform (m_world s) e) rm in
                          match World.setTransform fuel (m_world s) e tr with
                          | Some w => Some (with_world w s, animator)
                          | None => None
                          end
                        else Some (s, animator)
                    end
                end
          end
  end.

End Animator.

End AnimationModule.

(** ** The order of the floating-point comparisons

    [SFcompare] orders the numbers by sign class, then by exponent, then by
    mantissa; [key] is that position, written so that the comparison of two
    numbers is the lexicographic comparison of their keys. *)

Module FloatOrder.

Definition key (f : spec_float) : Z * Z * Z :=
  match f with
  | S754_infinity true => (0, 0, 0)
  | S754_finite true m e => (1, - e, - Zpos m)
  | S754_zero _ => (2, 0, 0)
  | S754_finite false m e => (3, e, Zpos m)
  | S754_infinity false => (4, 0, 0)
  | S754_nan => (5, 0, 0)
  end.

Definition key_lt (a b : Z * Z * Z) : Prop :=
  a.1.1 < b.1.1 \/
  (a.1.1 = b.1.1 /\ (a.1.2 < b.1.2 \/ (a.1.2 = b.1.2 /\ a.2 < b.2))).

Definition is_number (f : spec_float) : bool :=
  match f with S754_nan => false | _ => true end.

End FloatOrder.

(** ** Controller trees and the streams of their nodes *)

Module AnimStreams.
Import Anim.

(** The nodes directly below a node *)
Definition children (n : Node) : list Node :=
  match n with
  | ConditionNode _ _ m_true_node m_false_node =>
      match m_true_node with Some c => [c] | None => [] end ++
      match m_false_node with Some c => [c] | None => [] end
  | LayersNode m_layers => List.map snd m_layers
  | SelectNode _ _ m_children => List.map snd m_children
  | GroupNode _ m_children _ => List.map snd m_children
  | _ => []
  end.

(** [all_nodes P n]: [P] holds of [n] and of every node below it. *)
Fixpoint all_nodes (P : Node -> bool) (n : Node) : bool :=
  P n &&
  match n with
  | ConditionNode _ _ m_true_node m_false_node =>
      match m_true_node with Some c => all_nodes P c | None => true end &&
      match m_false_node with Some c => all_nodes P c | None => true end
  | LayersNode m_layers =>
      forallb (fun l => match l with (_, c) => all_nodes P c end) m_layers
  | SelectNode _ _ m_children =>
      forallb (fun l => match l with (_, c) => all_nodes P c end) m_children
  | GroupNode _ m_children _ =>
      forallb (fun l => match l with (_, c) => all_nodes P c end) m_children
  | _ => true
  end.

(** The blend length of a condition node is a [Time], not negative, and
    the number of children of a select node is a [u32]. *)
Definition lengths_ok : Node -> bool :=
  all_nodes (fun n => match n with
                      | ConditionNode _ m_blend_length _ _ => 0 <=? m_blend_length
                      | SelectNode _ _ m_children => zlen m_children <? 2 ^ 32
                      | _ => true
                      end).

(** Every group node has a child ([GroupNode::skip] reads
    [m_children[data.from]] without a test). *)
Definition groups_inhabited : Node -> bool :=
  all_nodes (fun n => match n with
                      | GroupNode _ [] _ => false
                      | _ => true
                      end).

(** No condition node blends over time. *)
Definition instant_conditions : Node -> bool :=
  all_nodes (fun n => match n with
                      | ConditionNode _ m_blend_length _ _ => m_blend_length =? 0
                      | _ => true
                      end).

(** [skips o d]: on a stream that starts with [d], [skip] reads exactly [d]
    and changes nothing else; likewise [samples] for [getPose].  [updates]:
    [update] reads exactly [d] and appends to the data. *)
Definition skips (o : NodeOps) (d : list Z) : Prop :=
  forall ctx rest, input_runtime ctx = d ++ rest ->
    skip o ctx = Some (with_input_runtime rest ctx).

Definition samples (o : NodeOps) (d : list Z) : Prop :=
  forall ctx rest weight pose mask, input_runtime ctx = d ++ rest ->
    exists pose', getPose o ctx weight pose mask = Some (with_input_runtime rest ctx, pose').

Definition updates (o : NodeOps) (d : list Z) : Prop :=
  forall ctx rest root_motion, input_runtime ctx = d ++ rest ->
    exists d' root_motion',
      update o ctx root_motion
      = Some (with_data (data ctx ++ d') (with_input_runtime rest ctx), root_motion').

(** [reads G o d]: [getPose] reads exactly [d], and so do [skip] and
    [update] where [G] holds.  [enters]: [enter] appends such a [d] to the
    data; [writes]: so does every [update] that returns.  [skip_frame]: a
    [skip] that returns has moved the read cursor only. *)
Definition reads (G : Prop) (o : NodeOps) (d : list Z) : Prop :=
  samples o d /\ (G -> skips o d /\ updates o d).

Definition enters (G : Prop) (o : NodeOps) : Prop :=
  forall ctx, exists d,
    enter o ctx = Some (with_data (data ctx ++ d) ctx) /\ reads G o d.

Definition writes (G : Prop) (o : NodeOps) : Prop :=
  forall ctx root_motion ctx' root_motion',
    update o ctx root_motion = Some (ctx', root_motion') ->
    exists d rest,
      ctx' = with_data (data ctx ++ d) (with_input_runtime rest ctx) /\ reads G o d.

Definition skip_frame (o : NodeOps) : Prop :=
  forall ctx ctx', skip o ctx = Some ctx' -> exists rest, ctx' = with_input_runtime rest ctx.

(** The data of a select or group node behind its header: the data of the
    child [from], followed during a crossfade by the data of the child
    [to]; [P] is what holds of each part. *)
Definition fade_state (P : NodeOps -> list Z -> Prop) (nodes : list NodeOps)
    (from to : Z) (d : list Z) : Prop :=
  exists from_node, zget nodes from = Some from_node /\
    if from =? to then P from_node d
    else exists to_node d1 d2,
           zget nodes to = Some to_node /\ d = d1 ++ d2 /\ P from_node d1 /\ P to_node d2.

End AnimStreams.

(** ** More of [src/engine/world.cpp]: enumeration, components, the free list *)

Module WorldMore.
Import World.

(** The loop of [World::getFirstEntity] and [World::getNextEntity] over the
    slots [es], the first of which has the index [i] *)
Fixpoint firstValid (es : list EntityData) (i : Z) : Z :=
  match es with
  | [] => INVALID_ENTITY
  | d :: es => if valid d then i else firstValid es (i + 1)
  end.

(** [World::getFirstEntity] *)
Definition getFirstEntity (w : World) : Z := firstValid (m_entities w) 0.

(** [World::getNextEntity]; [entity] is an [EntityRef], not negative. *)
Definition getNextEntity (w : World) (entity : Z) : Z :=
  firstValid (drop (Z.to_nat (entity + 1)) (m_entities w)) (entity + 1).

(** [World::getComponentsMask] *)
Definition getComponentsMask (w : World) (e : Z) : Z := components (ent w e).

(** [World::onComponentCreated]; the delegate [m_component_added] has no
    event in the trace of the model.  The mask is a [u64] and the index of a
    component type is below [MAX_TYPES_COUNT]. *)
Definition onComponentCreated (w : World) (e : Z) (type : Z) : World :=
  alter_entity (fun d => set_components (Z.lor (components d) (Z.shiftl 1 type)) d) e w.

(** The loop of [World::getFirstComponent] and [World::getNextComponent]
    over the component types from [i] on, [n] types left: the type of the
    [ComponentUID] that is returned, -1 for [ComponentUID::INVALID]. *)
Fixpoint firstComponent (n : nat) (i : Z) (mask : Z) : Z :=
  match n with
  | O => -1
  | S n => if negb (Z.land mask (Z.shiftl 1 i) =? 0) then i
           else firstComponent n (i + 1) mask
  end.

(** [World::getFirstComponent] *)
Definition getFirstComponent (w : World) (e : Z) : Z :=
  firstComponent MAX_TYPES_COUNT 0 (components (ent w e)).

(** [World::getNextComponent] after the component of type [type] *)
Definition getNextComponent (w : World) (e : Z) (type : Z) : Z :=
  firstComponent (MAX_TYPES_COUNT - Z.to_nat (type + 1)) (type + 1) (components (ent w e)).

(** The loop over the children in [World::setTransformKeepChildren] *)
Fixpoint keepChildren (fuel : nat) (w : World) (my_transform : Transform) (child : Z)
    : option World :=
  match fuel with
  | O => None
  | S fuel =>
      if isValid child then
        let child_idx := hierarchy (ent w child) in
        let w := alter_hier (set_local_transform
                               (Math.compose (Math.inverted my_transform)
                                             (getTransform w child)))
                            child_idx w in
        keepChildren fuel w my_transform (next_sibling (hier w child_idx))
      else Some w
  end.

(** [World::setTransformKeepChildren] *)
Definition setTransformKeepChildren (fuel : nat) (w : World) (e : Z) (t : Transform)
    : option World :=
  let w := alter_transform (fun _ => t) e w in
  let hierarchy_idx := hierarchy (ent w e) in
  let w := notify (EntityMoved e) w in
  if 0 <=? hierarchy_idx then
    let h := hier w hierarchy_idx in
    let my_transform := getTransform w e in
    let w :=
      if isValid (parent h) then
        let parent_tr := getTransform w (parent h) in
        alter_hier (set_local_transform (Math.compose (Math.inverted parent_tr) my_transform))
                   hierarchy_idx w
      else w in
    keepChildren fuel w my_transform (first_child h)
  else Some w.

(** *** The free list

    What the free list reads of a slot: whether it is live, and its links *)
Definition slot (d : EntityData) : bool * Z * Z := (valid d, prev d, next d).

(** [free_chain es p e fs]: following [next] from the slot [e], whose
    predecessor is [p], visits the slots [fs], none of them live and each
    with its [prev] at the slot before it, and then reaches a negative
    index. *)
Inductive free_chain (es : list EntityData) : Z -> Z -> list Z -> Prop :=
| free_chain_end p e : e < 0 -> free_chain es p e []
| free_chain_step p e d fs :
    0 <= e -> zget es e = Some d -> valid d = false -> prev d = p ->
    free_chain es e (next d) fs -> free_chain es p e (e :: fs).

(** The free list holds every slot that is not live, once; the transforms
    are as many as the slots. *)
Definition free_list_ok (w : World) : Prop :=
  zlen (m_transforms w) = zlen (m_entities w) /\
  exists fs, free_chain (m_entities w) (-1) (m_first_free_slot w) fs /\ NoDup fs /\
             forall e d, zget (m_entities w) e = Some d -> valid d = false -> e ∈ fs.

(** What an operation on the hierarchy leaves alone: the transforms, the
    names, the free list and, of every slot, all but the index of its
    hierarchy record. *)
Definition core (d : EntityData) : EntityData := set_hierarchy 0 d.

Definition kept (w w' : World) : Prop :=
  m_transforms w' = m_transforms w /\ m_names w' = m_names w /\
  m_first_free_slot w' = m_first_free_slot w /\
  List.map core (m_entities w') = List.map core (m_entities w).

(** *** Written and read back

    [World::deserialize] creates the entities in the order in which they were
    written, so in a world without free slots a live entity lands at the
    number of live entities that stood below it. *)
Definition live_below (w : World) (e : Z) : Z :=
  zlen (filter (fun d => valid d = true) (take (Z.to_nat e) (m_entities w))).

(** What the entity loop of [World::deserialize] makes of a transform that
    was written: the scale is its first component, three times. *)
Definition read_back (t : Transform) : Transform :=
  mkTransform (pos t) (rot t) (mkVec3 (v3x (scale t)) (v3x (scale t)) (v3x (scale t))).

(** The values of an [i32] *)
Definition is_i32 (v : Z) : Prop := - 2 ^ 31 <= v < 2 ^ 31.

(** The name records belong to live entities, and a record and its entity
    point at each other; the number of records is a [u32]. *)
Definition names_ok (w : World) : Prop :=
  zlen (m_names w) < 2 ^ 32 /\
  (forall k n, zget (m_names w) k = Some n ->
     hasEntity w (name_entity n) = true /\ name (ent w (name_entity n)) = k) /\
  (forall e, hasEntity w e = true -> 0 <= name (ent w e) ->
     exists n, zget (m_names w) (name (ent w e)) = Some n /\ name_entity n = e).

(** The same for the hierarchy records, whose links are [i32] values. *)
Definition links_ok (w : World) : Prop :=
  zlen (m_hierarchy w) < 2 ^ 32 /\
  (forall k h, zget (m_hierarchy w) k = Some h ->
     hasEntity w (entity h) = true /\ hierarchy (ent w (entity h)) = k /\
     is_i32 (parent h) /\ is_i32 (first_child h) /\ is_i32 (next_sibling h)) /\
  (forall e, hasEntity w e = true -> 0 <= hierarchy (ent w e) ->
     exists h, zget (m_hierarchy w) (hierarchy (ent w e)) = Some h /\ entity h = e).

(** *** The life of an entity

    A slot that is not live has no hierarchy record. *)
Definition dead_unlinked (w : World) : Prop :=
  forall x, hasEntity w x = false -> hrec w x = None.

(** What [createEntity] and [destroyEntity] rely on, and keep: the free
    list holds exactly the slots that are not live, the hierarchy is well
    formed, and no slot that is not live has a record. *)
Definition lifecycle_inv (w : World) : Prop :=
  free_list_ok w /\ wf_hierarchy w /\ dead_unlinked w.

End WorldMore.

(** ** The animators of the animation module

    [m_animators] with [m_animator_map], as [createAnimator] and
    [destroyAnimator] of [src/animation/animation_module.cpp] keep them.  The
    [HashMap] is a finite map; what it does on [insert] of a key that is
    present and on [operator[]] of a key that is absent is not among the
    sources: the first is an overwrite here, the second fails. *)

Module AnimatorRegistry.
Import AnimationModule.

Section Registry.
Context {ControllerIK : Type}.
Let Animator := Animator (ControllerIK := ControllerIK).

Record Registry := mkRegistry {
  m_animators : list Animator;
  m_animator_map : gmap Z Z
}.

(** The index of the component type "animator" *)
Variable ANIMATOR_TYPE : Z.

(** [m_animators[m_animator_map[entity]]], the animator that the accessors
    of the module work on *)
Definition getAnimator (r : Registry) (e : Z) : option Animator :=
  match m_animator_map r !! e with
  | Some idx => zget (m_animators r) idx
  | None => None
  end.

(** [createAnimator] *)
Definition createAnimator (r : Registry) (w : World.World) (e : Z)
    : Registry * World.World :=
  let map := <[e := zlen (m_animators r)]> (m_animator_map r) in
  let animators := m_animators r ++ [new_animator e] in
  (mkRegistry animators map, WorldMore.onComponentCreated w e ANIMATOR_TYPE).

(** [setSource(animator, nullptr)]: the runtime goes with the resource; the
    reference count of the resource is not modelled. *)
Definition dropSource (a : Animator) : Animator :=
  match resource a with
  | None => a
  | Some _ =>
      mkAnimator (entity a) None (default_set a) (flags a) None (root_motion a)
                 (inverse_kinematics a)
  end.

(** [destroyAnimator] *)
Definition destroyAnimator (r : Registry) (w : World.World) (e : Z)
    : option (Registry * World.World) :=
  match m_animator_map r !! e with
  | None => None
  | Some idx =>
      let animators := zalter dropSource idx (m_animators r) in
      match back animators with
      | None => None
      | Some last =>
          let map := <[entity last := idx]> (m_animator_map r) in
          let map := delete e map in
          Some (mkRegistry (swapAndPop idx animators) map,
                World.onComponentDestroyed w e ANIMATOR_TYPE)
      end
  end.

(** [setAnimatorUseRootMotion] and [getAnimatorUseRootMotion]; the flags
    are a [u32]. *)
Definition setUseRootMotion (value : bool) (a : Animator) : Animator :=
  mkAnimator (entity a) (resource a) (default_set a)
             (if value then Z.lor (flags a) USE_ROOT_MOTION
              else Z.land (flags a) (Z.lnot USE_ROOT_MOTION))
             (ctx a) (root_motion a) (inverse_kinematics a).

Definition setAnimatorUseRootMotion (r : Registry) (e : Z) (value : bool) : option Registry :=
  match m_animator_map r !! e with
  | None => None
  | Some idx =>
      Some (mkRegistry (zalter (setUseRootMotion value) idx (m_animators r))
                       (m_animator_map r))
  end.

Definition getAnimatorUseRootMotion (r : Registry) (e : Z) : option bool :=
  match getAnimator r e with
  | Some a => Some (negb (Z.land (flags a) USE_ROOT_MOTION =? 0))
  | None => None
  end.

(** The map holds, for every animator, its place in the array, and nothing
    else. *)
Definition registry_ok (r : Registry) : Prop :=
  forall e idx, m_animator_map r !! e = Some idx <->
                entity <$> zget (m_animators r) idx = Some e.

End Registry.

End AnimatorRegistry.

(** ** Concrete worlds used by the examples *)

Module Examples.
Import World.

(** Three entities at the origin; entity 1 is the child of entity 0. *)
Definition family_world : World :=
  Eval vm_compute in
    let '(w, a) := createEntity empty_world DVec3_ZERO Quat_IDENTITY in
    let '(w, b) := createEntity w DVec3_ZERO Quat_IDENTITY in
    let '(w, c) := createEntity w DVec3_ZERO Quat_IDENTITY in
    default w (setParent 4 w a b).

Definition d_1_0_0 : DVec3 := mkDVec3 F64.one F64.zero F64.zero.
Definition d_5_0_0 : DVec3 := Eval vm_compute in mkDVec3 (F64.of_Z 5) F64.zero F64.zero.
Definition d_6_0_0 : DVec3 := Eval vm_compute in mkDVec3 (F64.of_Z 6) F64.zero F64.zero.

(** The scenario: A at the origin, B at [posB] with rotation [rotB];
    [setParent(A, B)], [setLocalPosition(B, {1,0,0})], then
    [setPosition(A, {5,0,0})].  The result is the position of B after the
    second and after the third call. *)
Definition parent_child_scenario (fuel : nat) (posB : DVec3) (rotB : Quat)
    : option (DVec3 * DVec3) :=
  let '(w, a) := createEntity empty_world DVec3_ZERO Quat_IDENTITY in
  let '(w, b) := createEntity w posB rotB in
  match setParent fuel w a b with
  | Some w =>
      match setLocalPosition fuel w b d_1_0_0 with
      | Some w1 =>
          match setPosition fuel w1 a d_5_0_0 with
          | Some w2 => Some (getPosition w1 b, getPosition w2 b)
          | None => None
          end
      | None => None
      end
  | None => None
  end.

(** One named entity with the scale (1, 2, 1/2). *)
Definition stretched_world : World :=
  Eval vm_compute in
    let '(w, a) := createEntity empty_world DVec3_ZERO Quat_IDENTITY in
    let w := alter_transform (set_scale (mkVec3 F32.one F32.two F32.half)) a w in
    setEntityName w a "root".

End Examples.

(** ** Concrete controllers used by the examples *)

Module AnimExamples.
Import Anim.

(** A one-dimensional blend of two clips at the values 0 and 1 *)
Definition unit_blend : list Blend1DChild :=
  [mkBlend1DChild F32.zero 0; mkBlend1DChild F32.one 1].

(** The first input of the controller, a [bool] *)
Definition flag_input : Condition :=
  fun inputs => match inputs with BoolInput b :: _ => b | _ => false end.

(** A condition node over two looped clips, crossfading for one second *)
Definition crossfade_tree : Node :=
  ConditionNode flag_input ONE_SECOND
    (Some (AnimationNode 0 LOOPED)) (Some (AnimationNode 1 LOOPED)).

(** A select node over [crossfade_tree] (for an input up to 0.5) and a
    third clip, crossfading for 500 ticks *)
Definition select_tree : Node :=
  SelectNode 500 1 [(F32.half, crossfade_tree); (F32.max_value, AnimationNode 2 LOOPED)].

(** The context of a tick of 1000 time units: the inputs [flag] and [v], no
    animation bound to the three slots, [previous] to read from. *)
Definition tick_context (flag : bool) (v : spec_float) (previous : list Z) : RuntimeContext :=
  mkRuntimeContext [] previous [BoolInput flag; FloatInput v] [None; None; None] 1000 true.

(** One tick of the tree under [node] over the data of the tick before *)
Definition tick (node : Node) (flag : bool) (v : spec_float) (previous : list Z)
    : option (list Z * list Z) :=
  match update (ops node) (tick_context flag v previous) LocalRigidTransform_IDENTITY with
  | Some (ctx, _) => Some (data ctx, input_runtime ctx)
  | None => None
  end.

(** The data that [node] writes when it is entered *)
Definition entered (node : Node) (flag : bool) (v : spec_float) : option (list Z) :=
  option_map data (enter (ops node) (tick_context flag v [])).

(** What [skip] and [getPose] leave of [previous] *)
Definition skipped (node : Node) (previous : list Z) : option (list Z) :=
  option_map input_runtime (skip (ops node) (tick_context true F32.zero previous)).

Definition sampled (node : Node) (previous : list Z) : option (list Z) :=
  match getPose (ops node) (tick_context true F32.zero previous) F32.one [] 0 with
  | Some (ctx, _) => Some (input_runtime ctx)
  | None => None
  end.

(** A ready clip of two seconds without root motion *)
Definition two_second_clip : Animation :=
  mkAnimation true (2 * ONE_SECOND) (fun _ => LocalRigidTransform_IDENTITY).

(** A group of two looped clips: the guard of the first fails, the guard of
    the second holds *)
Definition group_children : list GroupChild :=
  [mkGroupChild SELECTABLE (fun _ => false) (ops (AnimationNode 0 LOOPED));
   mkGroupChild SELECTABLE (fun _ => true) (ops (AnimationNode 1 LOOPED))].

(** From the first child to the second at half of the loop, blending for
    100 ticks *)
Definition gated_transition : Transition := mkTransition 0 1 100 F32.half.

(** A tick of 1000 time units of the group playing its first child, which
    stands at [beg] *)
Definition group_context (beg : Time) : RuntimeContext :=
  mkRuntimeContext [] [0; 0; beg; 0; beg] [] [Some two_second_clip; Some two_second_clip]
                   1000 true.

End AnimExamples.

(** ** A scene with one animated entity *)

Module ModuleExamples.
Import AnimationModule.

(** The pose as the list of what was done to it *)
Inductive PoseStep :=
| RelativePose
| BlendStack
| Chain (slot : Z)
| AbsolutePose.

(** A solver that records the chain it is given; the controller's
    description of the chain in a slot is the number of the slot. *)
Definition record_chain (res_ik : Z) (ik : IK) (pose : list PoseStep) (model : bool)
    : list PoseStep :=
  pose ++ [Chain res_ik].

Definition chains (res : Controller (ControllerIK := Z)) (iks : list IK)
    : list PoseStep :=
  solveChains record_chain res 0 iks [] true.

(** The animator update of a scene whose models are their own readiness
    flag and whose poses are traces *)
Definition update_traced :=
  updateAnimator (BonePose := list PoseStep) (Model := bool) (ControllerIK := Z)
    (fun model => model)
    (fun _ pose => pose ++ [RelativePose])
    (fun _ pose => pose ++ [BlendStack])
    record_chain
    (fun _ pose => pose ++ [AbsolutePose]).

(** A runtime context after the tree was entered with [data] *)
Definition runtime (data : list Z) : Anim.RuntimeContext :=
  Anim.mkRuntimeContext data [] [Anim.FloatInput F32.zero; Anim.FloatInput F32.zero]
                        [None; None; None] 0 true.

Definition controller (root : Anim.Node) : Controller (ControllerIK := Z) :=
  mkController true (fun _ => runtime [0]) (Anim.ops root) (fun idx => idx).

(** Entity 0 at the origin, with a model instance (component type 3), a
    ready model and a pose that can be locked *)
Definition scene : Scene (BonePose := list PoseStep) (Model := bool) :=
  mkScene
    (let '(w, e) := World.createEntity World.empty_world DVec3_ZERO Quat_IDENTITY in
     World.alter_entity (World.set_components 8) e w)
    3
    (fun e => if e =? 0 then Some true else None)
    (fun e => if e =? 0 then Some [] else None).

Definition v_1_0_0 : Vec3 := mkVec3 F32.one F32.zero F32.zero.

(** Weight 0 in the first slot, weight 1 in the second *)
Definition second_chain_only : list IK :=
  [mkIK F32.zero Vec3_ZERO; mkIK F32.one v_1_0_0; mkIK F32.zero Vec3_ZERO;
   mkIK F32.zero Vec3_ZERO].

(** Weight 1 in the first two slots, 0 in the third, 1 in the fourth *)
Definition two_leading_chains : list IK :=
  [mkIK F32.one v_1_0_0; mkIK F32.one v_1_0_0; mkIK F32.zero Vec3_ZERO;
   mkIK F32.one v_1_0_0].

(** An animator of entity 0 that plays one clip, with the IK slots [iks] *)
Definition clip_animator (iks : list IK) : Animator (ControllerIK := Z) :=
  mkAnimator 0 (Some (controller (Anim.AnimationNode 0 Anim.LOOPED))) 0 0
             (Some (runtime [0])) LocalRigidTransform_IDENTITY iks.

(** A two-dimensional blend of three clips, none of them bound *)
Definition blend2d_children : list Anim.Blend2DChild :=
  [Anim.mkBlend2DChild (mkVec2 F32.zero F32.zero) 0;
   Anim.mkBlend2DChild (mkVec2 F32.one F32.zero) 1;
   Anim.mkBlend2DChild (mkVec2 F32.zero F32.one) 2].

Definition blend2d_tree : Anim.Node :=
  Anim.Blend2DNode 0 1 blend2d_children (snd (Anim.dataChanged blend2d_children)).

(** The root motion of an earlier tick: one unit along x *)
Definition step_x : LocalRigidTransform := mkLocalRigidTransform v_1_0_0 Quat_IDENTITY.

(** An animator of entity 0 over [root] that applies its root motion and
    holds [step_x] from the tick before *)
Definition moving_animator (root : Anim.Node) : Animator (ControllerIK := Z) :=
  mkAnimator 0 (Some (controller root)) 0 USE_ROOT_MOTION
             (Some (runtime [0])) step_x (repeat (mkIK F32.zero Vec3_ZERO) 4).

(** An animator whose controller is not loaded *)
Definition idle_animator : Animator (ControllerIK := Z) :=
  mkAnimator 0 None 0 USE_ROOT_MOTION None step_x (repeat (mkIK F32.zero Vec3_ZERO) 4).

(** What a tick leaves: the pose of entity 0, its position and the root
    motion that the animator holds *)
Definition pose_after
    (r : option (Scene (BonePose := list PoseStep) (Model := bool)
                 * Animator (ControllerIK := Z))) : option (list PoseStep) :=
  match r with
  | Some (s, _) => lockPose s 0
  | None => None
  end.

Definition position_after
    (r : option (Scene (BonePose := list PoseStep) (Model := bool)
                 * Animator (ControllerIK := Z))) : option DVec3 :=
  match r with
  | Some (s, _) => Some (World.getPosition (m_world s) 0)
  | None => None
  end.

Definition root_motion_after
    (r : option (Scene (BonePose := list PoseStep) (Model := bool)
                 * Animator (ControllerIK := Z))) : option LocalRigidTransform :=
  match r with
  | Some (_, a) => Some (root_motion a)
  | None => None
  end.

End ModuleExamples.

(** ** A module with three animators *)

Module RegistryExamples.
Import AnimationModule AnimatorRegistry.

Definition empty_registry : Registry (ControllerIK := Z) := mkRegistry [] ∅.

(** The index of the component type "animator" in the examples *)
Definition ANIMATOR_TYPE : Z := 5.

(** Animators for the entities 0, 1 and 2 of [family_world], created in
    this order *)
Definition three_animators : Registry (ControllerIK := Z) :=
  let w := Examples.family_world in
  let r := fst (createAnimator ANIMATOR_TYPE empty_registry w 0) in
  let r := fst (createAnimator ANIMATOR_TYPE r w 1) in
  fst (createAnimator ANIMATOR_TYPE r w 2).

End RegistryExamples.

(** ** Trees and contexts for the streams of the animation nodes *)

Module StreamExamples.
Import Anim.

(** A condition node that switches between two looped clips at once *)
Definition switch_tree : Node :=
  ConditionNode AnimExamples.flag_input 0
    (Some (AnimationNode 0 LOOPED)) (Some (AnimationNode 1 LOOPED)).

(** A state machine over two layers: a select node while the flag is set, a
    blend of two clips otherwise, with a transition from the first state to
    the second; above it a clip for the bones of mask 2. *)
Definition state_tree : Node :=
  LayersNode
    [(1, GroupNode 200
           [(SELECTABLE, AnimExamples.flag_input,
             SelectNode 500 1 [(F32.half, switch_tree);
                               (F32.max_value, AnimationNode 2 LOOPED)]);
            (SELECTABLE, fun _ => true, Blend1DNode 1 AnimExamples.unit_blend)]
           [mkTransition 0 1 100 F32.half]);
     (2, AnimationNode 2 0)].

(** The context in which the tree is entered *)
Definition first_context : RuntimeContext := AnimExamples.tick_context true F32.zero [].

(** The read pass over what a write pass has left *)
Definition next_frame (flag : bool) (v : spec_float) (ctx : RuntimeContext) : RuntimeContext :=
  AnimExamples.tick_context flag v (data ctx).

Definition run (o : option (RuntimeContext * LocalRigidTransform))
    : RuntimeContext * LocalRigidTransform :=
  match o with
  | Some r => r
  | None => (first_context, LocalRigidTransform_IDENTITY)
  end.

(** [state_tree] one tick after it was entered, the flag now cleared *)
Definition state_before : RuntimeContext :=
  match enter (ops state_tree) first_context with
  | Some ctx => next_frame false F32.one ctx
  | None => first_context
  end.

Definition state_after : RuntimeContext * LocalRigidTransform :=
  run (update (ops state_tree) state_before LocalRigidTransform_IDENTITY).

(** ... and skipped in the tick after that *)
Definition state_read : RuntimeContext := next_frame false F32.one state_after.1.

Definition state_skipped : RuntimeContext :=
  match skip (ops state_tree) state_read with
  | Some ctx => ctx
  | None => first_context
  end.

(** [select_tree] of [AnimExamples] in the tick after its condition has
    changed: the condition node is in its crossfade, with the streams of
    both of its branches behind its header. *)
Definition fading_before : RuntimeContext :=
  match enter (ops AnimExamples.select_tree) first_context with
  | Some ctx =>
      next_frame false F32.zero
        (run (update (ops AnimExamples.select_tree) (next_frame false F32.zero ctx)
                     LocalRigidTransform_IDENTITY)).1
  | None => first_context
  end.

Definition fading_after : RuntimeContext * LocalRigidTransform :=
  run (update (ops AnimExamples.select_tree) fading_before LocalRigidTransform_IDENTITY).

End StreamExamples.

(** ** Worlds with a free slot *)

Module FreeSlotExamples.
Import World.

(** [family_world] after its entity 0, the parent of entity 1, is destroyed *)
Definition vacated_world : World :=
  Eval vm_compute in default Examples.family_world (destroyEntity 3 Examples.family_world 0).

(** Four entities: entity 2 is the child of entity 0, entity 1 is destroyed,
    the entities 3 and 0 are named, and entity 3 has the scale (1, 2, 1/2). *)
Definition sparse_world : World :=
  Eval vm_compute in
    let '(w, a) := createEntity empty_world DVec3_ZERO Quat_IDENTITY in
    let '(w, b) := createEntity w DVec3_ZERO Quat_IDENTITY in
    let '(w, c) := createEntity w Examples.d_1_0_0 Quat_IDENTITY in
    let '(w, d) := createEntity w Examples.d_5_0_0 Quat_IDENTITY in
    let w := default w (setParent 4 w a c) in
    let w := default w (destroyEntity 4 w b) in
    let w := setEntityName w d "leaf" in
    let w := alter_transform (set_scale (mkVec3 F32.one F32.two F32.half)) d w in
    setEntityName w a "root".

End FreeSlotExamples.

(** ** Worlds for [setParent] with the child as its own parent *)

Module CycleExamples.
Import World.

(** Two entities at the origin, no hierarchy record. *)
Definition pair_world : World :=
  Eval vm_compute in
    let '(w, a) := createEntity empty_world DVec3_ZERO Quat_IDENTITY in
    fst (createEntity w DVec3_ZERO Quat_IDENTITY).

(** [pair_world] after [setParent(0, 0)] *)
Definition self_parent_world : World :=
  Eval vm_compute in default pair_world (setParent 1 pair_world 0 0).

End CycleExamples.
(** ** Facts about arrays indexed by [int] *)

Section ZArrayFacts.
Context {A : Type}.
Implicit Types (l : list A) (i j : Z).

Lemma zget_Some l i x : zget l i = Some x -> 0 <= i < zlen l.
Proof.
  unfold zget, zlen. case_decide; [|done].
  intros Hl%lookup_lt_Some. lia.
Qed.

Lemma zget_is_Some l i : 0 <= i < zlen l -> is_Some (zget l i).
Proof.
  unfold zget, zlen. intros Hi. rewrite decide_True by lia.
  apply lookup_lt_is_Some. lia.
Qed.

Lemma zget_None l i : zget l i = None <-> i < 0 \/ zlen l <= i.
Proof.
  unfold zget, zlen. case_decide.
  - rewrite lookup_ge_None. lia.
  - split; [lia|done].
Qed.

Lemma zget_zalter_eq f l i : zget (zalter f i l) i = f <$> zget l i.
Proof.
  unfold zget, zalter. case_decide; [|done]. apply list_lookup_alter_eq.
Qed.

Lemma zget_zalter_ne f l i j : i <> j -> zget (zalter f i l) j = zget l j.
Proof.
  unfold zget, zalter. intros Hij.
  case_decide; [|done]. case_decide; [|done].
  apply list_lookup_alter_ne. lia.
Qed.

Lemma zlen_zalter f l i : zlen (zalter f i l) = zlen l.
Proof. unfold zlen, zalter. case_decide; [|done]. by rewrite length_alter. Qed.

Lemma zlen_app l1 l2 : zlen (l1 ++ l2) = zlen l1 + zlen l2.
Proof. unfold zlen. rewrite length_app. lia. Qed.

Lemma zlen_nonneg l : 0 <= zlen l.
Proof. unfold zlen. lia. Qed.

Lemma zget_app_l l1 l2 i : i < zlen l1 -> zget (l1 ++ l2) i = zget l1 i.
Proof.
  unfold zget, zlen. intros Hi. case_decide; [|done].
  apply lookup_app_l. lia.
Qed.

Lemma zget_app_new l x : zget (l ++ [x]) (zlen l) = Some x.
Proof.
  unfold zget, zlen. rewrite decide_True by lia.
  rewrite Nat2Z.id. by rewrite lookup_app_r, Nat.sub_diag.
Qed.

Lemma zlen_pop l : l <> [] -> zlen (pop l) = zlen l - 1.
Proof.
  unfold zlen, pop. intros Hl. rewrite length_take.
  destruct l; [done|]. simpl. lia.
Qed.

Lemma zget_pop l i : i < zlen l - 1 -> zget (pop l) i = zget l i.
Proof.
  unfold zget, zlen, pop. intros Hi. case_decide; [|done].
  apply lookup_take_lt. lia.
Qed.

Lemma zget_pop_ge l i : zlen l - 1 <= i -> zget (pop l) i = None.
Proof.
  intros Hi. apply zget_None. unfold zlen, pop in *.
  rewrite length_take. lia.
Qed.

Lemma back_zget l : back l = zget l (zlen l - 1).
Proof.
  unfold back, zget, zlen. destruct l as [|a l]; [done|].
  rewrite decide_True by (simpl; lia).
  rewrite last_lookup. f_equal. simpl. lia.
Qed.
End ZArrayFacts.

(** ** Facts about the entity store *)

Module WorldFacts.
Import World.

Lemma zlen_with_entities_alter f x w :
  zlen (m_entities (alter_entity f x w)) = zlen (m_entities w).
Proof. apply zlen_zalter. Qed.

Lemma ent_alter_entity_ne f x w e : x <> e -> ent (alter_entity f x w) e = ent w e.
Proof. intros Hne. unfold ent. simpl. by rewrite zget_zalter_ne. Qed.

Lemma ent_alter_entity_eq f w e :
  0 <= e < zlen (m_entities w) -> ent (alter_entity f e w) e = f (ent w e).
Proof.
  intros He. unfold ent. simpl. rewrite zget_zalter_eq.
  destruct (zget_is_Some (m_entities w) e He) as [d ->]. done.
Qed.

Lemma valid_ent_alter_entity f x w e :
  (forall d, valid (f d) = valid d) ->
  valid (ent (alter_entity f x w) e) = valid (ent w e).
Proof.
  intros Hf. destruct (decide (x = e)) as [->|Hne].
  - unfold ent. simpl. rewrite zget_zalter_eq.
    destruct (zget (m_entities w) e); simpl; auto.
  - by rewrite ent_alter_entity_ne.
Qed.

(** Creation marks the returned slot as live, whether the slot is taken
    from the free list or appended. *)
Lemma createEntity_live w p r :
  free_slot_ok w ->
  hasEntity (fst (createEntity w p r)) (snd (createEntity w p r)) = true.
Proof.
  unfold free_slot_ok, createEntity, hasEntity. intros Hfree.
  destruct (0 <=? m_first_free_slot w) eqn:Hslot; simpl.
  - apply Z.leb_le in Hslot.
    set (e := m_first_free_slot w) in *.
    set (w1 := if 0 <=? next (ent w e) then _ else w).
    assert (Hlen : zlen (m_entities w1) = zlen (m_entities w)).
    { unfold w1. destruct (0 <=? next (ent w e)); [apply zlen_zalter|done]. }
    rewrite !zlen_zalter. unfold ent. simpl. rewrite zget_zalter_eq.
    assert (He : 0 <= e < zlen (m_entities w1)) by lia.
    destruct (zget_is_Some (m_entities w1) e He) as [d ->]. simpl.
    rewrite Hlen, andb_true_r, andb_true_iff, Z.leb_le, Z.ltb_lt. lia.
  - unfold ent. simpl. rewrite zget_app_new. simpl. rewrite zlen_app.
    pose proof (zlen_nonneg (m_entities w)).
    rewrite andb_true_r, andb_true_iff, Z.leb_le, Z.ltb_lt.
    unfold zlen in *. simpl. lia.
Qed.

(** *** Records of entities *)

Lemma hrec_Some w e h :
  hrec w e = Some h <->
  exists d, zget (m_entities w) e = Some d /\ 0 <= hierarchy d /\
            zget (m_hierarchy w) (hierarchy d) = Some h.
Proof.
  unfold hrec. split.
  - destruct (zget (m_entities w) e) as [d|]; [|done].
    destruct (hierarchy d <? 0) eqn:Hneg; [done|].
    apply Z.ltb_ge in Hneg. eauto.
  - intros (d & -> & Hd & Hh). apply Z.ltb_ge in Hd. by rewrite Hd.
Qed.

Lemma hrec_idx w e h :
  hrec w e = Some h ->
  0 <= hierarchy (ent w e) /\ zget (m_hierarchy w) (hierarchy (ent w e)) = Some h.
Proof.
  intros (d & He & Hd & Hh)%hrec_Some. unfold ent. rewrite He. simpl. done.
Qed.

Lemma hrec_hier w e h : hrec w e = Some h -> hier w (hierarchy (ent w e)) = h.
Proof. intros [_ Hh]%hrec_idx. unfold hier. by rewrite Hh. Qed.

Lemma hrec_getters w e h :
  hrec w e = Some h ->
  getParent w e = parent h /\ getFirstChild w e = first_child h /\
  getNextSibling w e = next_sibling h.
Proof.
  intros Hr. pose proof (hrec_hier _ _ _ Hr) as Hh.
  destruct (hrec_idx _ _ _ Hr) as [Hi _].
  unfold getParent, getFirstChild, getNextSibling. rewrite Hh.
  apply Z.ltb_ge in Hi. by rewrite Hi.
Qed.

Lemma hrec_None_idx w e :
  index_ok w -> hrec w e = None -> hierarchy (ent w e) < 0.
Proof.
  intros [_ Hok] Hr. unfold hrec, ent in *.
  destruct (zget (m_entities w) e) as [d|] eqn:He; simpl; [|done].
  destruct (hierarchy d <? 0) eqn:Hneg; [by apply Z.ltb_lt|].
  apply Z.ltb_ge in Hneg. destruct (Hok e d He Hneg) as (h & Hh & _). congruence.
Qed.

Lemma hrec_None_getters w e :
  index_ok w -> hrec w e = None ->
  getParent w e = INVALID_ENTITY /\ getFirstChild w e = INVALID_ENTITY /\
  getNextSibling w e = INVALID_ENTITY.
Proof.
  intros Hok Hr. pose proof (hrec_None_idx _ _ Hok Hr) as Hi.
  unfold getParent, getFirstChild, getNextSibling.
  apply Z.ltb_lt in Hi. by rewrite Hi.
Qed.

Lemma hrec_entity w e h : index_ok w -> hrec w e = Some h -> entity h = e.
Proof.
  intros [_ Hok] (d & He & Hd & Hh)%hrec_Some.
  destruct (Hok e d He Hd) as (h' & Hh' & <-). congruence.
Qed.

Lemma hrec_in_range w e h : hrec w e = Some h -> 0 <= e < zlen (m_entities w).
Proof. intros (d & He & _)%hrec_Some. by apply zget_Some in He. Qed.

Lemma hrec_idx_inj w e1 e2 h1 :
  index_ok w -> hrec w e1 = Some h1 ->
  zget (m_entities w) e2 <> None ->
  hierarchy (ent w e2) = hierarchy (ent w e1) -> e2 = e1.
Proof.
  intros Hok Hr1 He2 Heq.
  destruct (hrec_idx _ _ _ Hr1) as [Hi1 Hh1].
  pose proof (hrec_entity _ _ _ Hok Hr1) as Hent.
  destruct Hok as [_ Hok]. unfold ent in Heq at 1.
  destruct (zget (m_entities w) e2) as [d2|] eqn:Hd2; [|done]. simpl in Heq.
  destruct (Hok e2 d2 Hd2) as (h & Hh & <-); [lia|]. congruence.
Qed.

(** Rewriting one record in place. *)
Lemma hrec_alter_hier w o ho f :
  index_ok w -> hrec w o = Some ho -> (forall h, entity (f h) = entity h) ->
  let w' := alter_hier f (hierarchy (ent w o)) w in
  index_ok w' /\ (forall x, hrec w' x = upd (hrec w) o (Some (f ho)) x).
Proof.
  intros Hok Ho Hf w'. destruct (hrec_idx _ _ _ Ho) as [Hio Hho].
  set (io := hierarchy (ent w o)) in *. split.
  - destruct Hok as [Hok1 Hok2]. split; simpl.
    + intros i h Hh. destruct (decide (io = i)) as [<-|Hne].
      * rewrite zget_zalter_eq, Hho in Hh. simpl in Hh. injection Hh as <-.
        rewrite Hf. by apply Hok1.
      * rewrite zget_zalter_ne in Hh by done. by apply Hok1.
    + intros e d He Hd. destruct (Hok2 e d He Hd) as (h & Hh & Hent).
      destruct (decide (io = hierarchy d)) as [Heq|Hne].
      * exists (f h). rewrite <- Heq, zget_zalter_eq. rewrite Heq, Hh. by rewrite Hf.
      * exists h. by rewrite zget_zalter_ne.
  - intros x. unfold upd. destruct (decide (x = o)) as [->|Hne].
    + apply hrec_Some. destruct (proj1 (hrec_Some _ _ _) Ho) as (d & He & Hd & Hh).
      exists d. simpl. split; [done|]. split; [done|].
      assert (hierarchy d = io) as -> by (unfold io, ent; by rewrite He).
      by rewrite zget_zalter_eq, Hho.
    + unfold hrec. simpl.
      destruct (zget (m_entities w) x) as [d|] eqn:He; [|done].
      destruct (hierarchy d <? 0) eqn:Hneg; [done|].
      rewrite zget_zalter_ne; [done|]. intros Heq. apply Hne.
      apply (hrec_idx_inj w o x ho); [done|done|congruence|].
      unfold ent at 1. rewrite He. simpl. by rewrite <- Heq.
Qed.

Lemma collectGarbage_keep w e h :
  hrec w e = Some h -> 0 <= parent h \/ 0 <= first_child h ->
  collectGarbage w e = w.
Proof.
  intros Hr Hlinks. unfold collectGarbage. rewrite (hrec_hier _ _ _ Hr).
  unfold isValid. destruct (0 <=? parent h) eqn:Hp; [done|].
  destruct (0 <=? first_child h) eqn:Hc; [done|].
  apply Z.leb_gt in Hp, Hc. lia.
Qed.

(** Removing a record that has neither parent nor child: the last record
    takes its place. *)
Lemma collectGarbage_remove w e h :
  index_ok w -> hrec w e = Some h -> parent h < 0 -> first_child h < 0 ->
  let w' := collectGarbage w e in
  index_ok w' /\ (forall x, hrec w' x = upd (hrec w) e None x).
Proof.
  intros Hok Hr Hp Hc. unfold collectGarbage. rewrite (hrec_hier _ _ _ Hr).
  unfold isValid. apply Z.leb_gt in Hp, Hc. rewrite Hp, Hc. clear Hp Hc.
  destruct (hrec_idx _ _ _ Hr) as [Hio Hh].
  pose proof (hrec_in_range _ _ _ Hr) as Herange.
  set (io := hierarchy (ent w e)) in *.
  set (n := zlen (m_hierarchy w)).
  pose proof (zget_Some _ _ _ Hh) as Hion. fold n in Hion.
  destruct (zget_is_Some (m_hierarchy w) (n - 1)) as [lst Hlst]; [lia|].
  rewrite back_zget. fold n. rewrite Hlst. simpl.
  destruct Hok as [Hok1 Hok2].
  destruct (Hok1 _ _ Hlst) as (dl & Hdl & Hdli).
  set (el := entity lst) in *.
  assert (Hel : el = e <-> io = n - 1).
  { split.
    - intros Heq. unfold io, ent. rewrite <- Heq, Hdl. simpl. done.
    - intros Heq. destruct (Hok1 _ _ Hh) as (d' & Hd' & Hd'i).
      destruct (proj1 (hrec_Some _ _ _) Hr) as (d & Hd & Hdi & Hdh).
      assert (hierarchy d = io) as Hdio by (unfold io, ent; by rewrite Hd).
      destruct (Hok2 _ _ Hd Hdi) as (h2 & Hh2 & Hent2).
      rewrite Hdio, Hh in Hh2. injection Hh2 as <-.
      unfold el. rewrite Heq in Hh. rewrite Hlst in Hh. injection Hh as ->. done. }
  assert (Hget : forall i, i < n - 1 -> i <> io ->
            zget (pop (zalter (fun _ => lst) io (m_hierarchy w))) i = zget (m_hierarchy w) i).
  { intros i Hi Hne. rewrite zget_pop by (rewrite zlen_zalter; fold n; lia).
    by rewrite zget_zalter_ne. }
  assert (Hgetio : io < n - 1 ->
            zget (pop (zalter (fun _ => lst) io (m_hierarchy w))) io = Some lst).
  { intros Hi. rewrite zget_pop by (rewrite zlen_zalter; fold n; lia).
    by rewrite zget_zalter_eq, Hh. }
  assert (Hgetge : forall i, n - 1 <= i ->
            zget (pop (zalter (fun _ => lst) io (m_hierarchy w))) i = None).
  { intros i Hi. apply zget_pop_ge. rewrite zlen_zalter. fold n. lia. }
  assert (Hents : forall x d, zget (m_entities w) x = Some d ->
            zget (zalter (set_hierarchy (-1)) e
                    (zalter (set_hierarchy io) el (m_entities w))) x
            = Some (if decide (x = e) then set_hierarchy (-1)
                                            (if decide (e = el) then set_hierarchy io d else d)
                    else if decide (x = el) then set_hierarchy io d else d)).
  { intros x d Hd. destruct (decide (x = e)) as [->|Hxe].
    - rewrite zget_zalter_eq. destruct (decide (e = el)) as [<-|Hne].
      + by rewrite zget_zalter_eq, Hd.
      + by rewrite zget_zalter_ne, Hd.
    - rewrite zget_zalter_ne by done. destruct (decide (x = el)) as [->|Hne].
      + by rewrite zget_zalter_eq, Hd.
      + by rewrite zget_zalter_ne, Hd. }
  split; [split|]; simpl.
  - intros i h' Hh'. destruct (decide (i < n - 1)) as [Hi|Hi];
      [|rewrite Hgetge in Hh' by lia; done].
    destruct (decide (i = io)) as [->|Hne].
    + rewrite Hgetio in Hh' by done. injection Hh' as <-.
      exists (set_hierarchy io dl). split; [|done]. fold el.
      rewrite (Hents _ _ Hdl).
      rewrite decide_False by (rewrite Hel; lia). by rewrite decide_True.
    + rewrite Hget in Hh' by done.
      destruct (Hok1 _ _ Hh') as (d & Hd & Hdi). exists d. split; [|done].
      rewrite (Hents _ _ Hd).
      destruct (proj1 (hrec_Some _ _ _) Hr) as (de & Hde & _ & _).
      rewrite decide_False; [rewrite decide_False; [done|]|].
      * intros Heq. rewrite Heq, Hdl in Hd. injection Hd as <-. lia.
      * intros Heq. rewrite Heq in Hd. unfold io, ent in Hne. rewrite Hd in Hne.
        simpl in Hne. lia.
  - intros x d' Hd' Hd'i.
    destruct (zget (m_entities w) x) as [d|] eqn:Hd.
    2:{ apply zget_None in Hd. apply zget_Some in Hd'. rewrite !zlen_zalter in Hd'. lia. }
    rewrite (Hents _ _ Hd) in Hd'. injection Hd' as <-.
    destruct (decide (x = e)) as [->|Hxe]; [simpl in Hd'i; lia|].
    destruct (decide (x = el)) as [->|Hxl].
    + simpl. exists lst. split; [|done]. apply Hgetio.
      assert (io <> n - 1) by (rewrite <- Hel; congruence). lia.
    + destruct (Hok2 _ _ Hd Hd'i) as (h' & Hh' & Hent). exists h'. split; [|done].
      pose proof (zget_Some _ _ _ Hh') as Hrange. fold n in Hrange.
      rewrite Hget; [done| |].
      * assert (hierarchy d <> n - 1); [|lia].
        intros Heq. rewrite Heq, Hlst in Hh'. injection Hh' as <-. done.
      * intros Heq. rewrite Heq, Hh in Hh'. injection Hh' as <-.
        apply Hxe. rewrite <- Hent.
        destruct (proj1 (hrec_Some _ _ _) Hr) as (de & Hde & Hdei & Hdeh).
        destruct (Hok2 _ _ Hde Hdei) as (h2 & Hh2 & <-). congruence.
  - intros x. unfold upd, hrec. simpl.
    destruct (zget (m_entities w) x) as [d|] eqn:Hd.
    2:{ destruct (decide (x = e)) as [->|_].
        - apply zget_None in Hd. lia.
        - replace (zget _ x) with (@None EntityData); [done|].
          symmetry. apply zget_None. rewrite !zlen_zalter. by apply zget_None. }
    rewrite (Hents _ _ Hd).
    destruct (decide (x = e)) as [->|Hxe]; [done|].
    destruct (decide (x = el)) as [->|Hxl].
    + simpl. rewrite Hdl in Hd. injection Hd as <-.
      assert (io <> n - 1) by (rewrite <- Hel; congruence).
      assert ((io <? 0) = false) as -> by (apply Z.ltb_ge; lia).
      assert ((hierarchy dl <? 0) = false) as -> by (apply Z.ltb_ge; lia).
      rewrite Hgetio by lia. by rewrite Hdli.
    + destruct (hierarchy d <? 0) eqn:Hneg; [done|]. apply Z.ltb_ge in Hneg.
      destruct (Hok2 _ _ Hd Hneg) as (h' & Hh' & Hent).
      pose proof (zget_Some _ _ _ Hh') as Hrange. fold n in Hrange.
      rewrite Hget; [done| |].
      * assert (hierarchy d <> n - 1); [|lia].
        intros Heq. rewrite Heq, Hlst in Hh'. injection Hh' as <-. done.
      * intros Heq. rewrite Heq, Hh in Hh'. injection Hh' as <-.
        apply Hxe. rewrite <- Hent.
        destruct (proj1 (hrec_Some _ _ _) Hr) as (de & Hde & Hdei & Hdeh).
        destruct (Hok2 _ _ Hde Hdei) as (h2 & Hh2 & <-). congruence.
Qed.

(** Appending a record for an entity that has none. *)
Lemma emplace_record_spec w e :
  index_ok w -> 0 <= e < zlen (m_entities w) -> hrec w e = None ->
  let w' := emplace_record e w in
  index_ok w' /\ (forall x, hrec w' x = upd (hrec w) e (Some (new_record e)) x).
Proof.
  intros Hok He Hr. pose proof (hrec_None_idx _ _ Hok Hr) as Hneg.
  destruct Hok as [Hok1 Hok2].
  destruct (zget_is_Some _ _ He) as [de Hde].
  assert (hierarchy de < 0) as Hdeneg by (unfold ent in Hneg; by rewrite Hde in Hneg).
  set (n := zlen (m_hierarchy w)).
  assert (Hents : forall x d, zget (m_entities w) x = Some d ->
            zget (zalter (set_hierarchy n) e (m_entities w)) x
            = Some (if decide (x = e) then set_hierarchy n d else d)).
  { intros x d Hd. destruct (decide (x = e)) as [->|Hne].
    - by rewrite zget_zalter_eq, Hd.
    - by rewrite zget_zalter_ne, Hd. }
  unfold emplace_record. fold n. split; [split|]; simpl.
  - intros i h Hh. destruct (decide (i < n)) as [Hi|Hi].
    + rewrite zget_app_l in Hh by done.
      destruct (Hok1 _ _ Hh) as (d & Hd & Hdi). exists d. split; [|done].
      rewrite (Hents _ _ Hd). rewrite decide_False; [done|].
      intros Heq. rewrite Heq, Hde in Hd. injection Hd as <-.
      apply zget_Some in Hh. lia.
    + assert (i = n) as ->.
      { apply zget_Some in Hh. rewrite zlen_app in Hh. fold n in Hh.
        unfold zlen in Hh. simpl in Hh. lia. }
      unfold n in Hh. rewrite zget_app_new in Hh. injection Hh as <-. simpl.
      exists (set_hierarchy n de). rewrite (Hents _ _ Hde). by rewrite decide_True.
  - intros x d' Hd' Hd'i.
    destruct (zget (m_entities w) x) as [d|] eqn:Hd.
    2:{ apply zget_None in Hd. apply zget_Some in Hd'. rewrite zlen_zalter in Hd'. lia. }
    rewrite (Hents _ _ Hd) in Hd'. injection Hd' as <-.
    destruct (decide (x = e)) as [->|Hne]; simpl.
    + exists (new_record e). unfold n. by rewrite zget_app_new.
    + destruct (Hok2 _ _ Hd Hd'i) as (h & Hh & Hent). exists h. split; [|done].
      rewrite zget_app_l; [done|]. apply zget_Some in Hh. lia.
  - intros x. unfold upd, hrec. simpl.
    destruct (zget (m_entities w) x) as [d|] eqn:Hd.
    2:{ destruct (decide (x = e)) as [->|_].
        - apply zget_None in Hd. lia.
        - replace (zget _ x) with (@None EntityData); [done|].
          symmetry. apply zget_None. rewrite zlen_zalter. by apply zget_None. }
    rewrite (Hents _ _ Hd). destruct (decide (x = e)) as [->|Hne]; simpl.
    + assert ((n <? 0) = false) as ->.
      { apply Z.ltb_ge. apply zlen_nonneg. }
      unfold n. by rewrite zget_app_new.
    + destruct (hierarchy d <? 0) eqn:Hdneg; [done|]. apply Z.ltb_ge in Hdneg.
      destruct (Hok2 _ _ Hd Hdneg) as (h & Hh & Hent).
      rewrite zget_app_l; [done|]. apply zget_Some in Hh. lia.
Qed.

(** *** Sibling chains *)

Section Chains.
Implicit Types (L : Z -> option Hierarchy) (cs : list Z).

Lemma chain_det L e cs1 cs2 : chain L e cs1 -> chain L e cs2 -> cs1 = cs2.
Proof.
  intros H1. revert cs2. induction H1 as [e He|e h cs He Hh _ IH]; intros cs2 H2.
  - inversion H2; subst; [done|lia].
  - inversion H2 as [|? h' cs' ? Hh' Hc']; subst; [lia|].
    f_equal. apply IH. congruence.
Qed.

Lemma chain_frame L L' e cs :
  chain L e cs ->
  (forall x, x ∈ cs -> next_sibling <$> L' x = next_sibling <$> L x) ->
  chain L' e cs.
Proof.
  induction 1 as [e He|e h cs He Hh _ IH]; intros Hf.
  - by constructor.
  - pose proof (Hf e ltac:(left)) as Hfe. rewrite Hh in Hfe. simpl in Hfe.
    destruct (L' e) as [h'|] eqn:Hh'; [|done]. simpl in Hfe. injection Hfe as Hn.
    apply chain_step with h'; [done|done|]. rewrite Hn. apply IH.
    intros x Hx. apply Hf. by right.
Qed.

Lemma chain_elem L e cs x : chain L e cs -> x ∈ cs -> 0 <= x /\ is_Some (L x).
Proof.
  induction 1 as [e He|e h cs He Hh _ IH]; intros Hx.
  - by apply elem_of_nil in Hx.
  - apply elem_of_cons in Hx as [->|Hx]; [eauto|auto].
Qed.

Lemma chain_head L e cs : chain L e cs -> 0 <= e -> exists cs', cs = e :: cs'.
Proof. destruct 1; [lia|eauto]. Qed.

Lemma chain_invalid L e cs : chain L e cs -> e < 0 -> cs = [].
Proof. destruct 1; [done|lia]. Qed.

(** The part of a chain after one of its members. *)
Lemma chain_split L e pre c post :
  chain L e (pre ++ c :: post) ->
  exists hc, L c = Some hc /\ chain L (next_sibling hc) post /\
    match last pre with
    | None => e = c
    | Some pr => exists hpr, L pr = Some hpr /\ next_sibling hpr = c
    end.
Proof.
  revert e. induction pre as [|a pre IH]; intros e Hc; simpl in Hc.
  - inversion Hc; subst. simpl. eauto 6.
  - inversion Hc as [|? ha ? ? Hha Hrest]; subst.
    destruct (IH _ Hrest) as (hc & Hhc & Hpost & Hlast).
    exists hc. split; [done|]. split; [done|].
    destruct pre as [|b pre].
    + simpl in *. subst. eauto.
    + rewrite last_cons_cons. destruct (last (b :: pre)) eqn:Hl; [done|].
      by apply last_None in Hl.
Qed.

(** Dropping the member [c]: its predecessor (if any) now points to the
    successor of [c]; all other [next_sibling] links are as before. *)
Lemma chain_bypass L L' e pre c post hc :
  chain L e (pre ++ c :: post) -> NoDup (pre ++ c :: post) ->
  L c = Some hc ->
  (forall x, x ∈ pre ++ post -> Some x <> last pre ->
     next_sibling <$> L' x = next_sibling <$> L x) ->
  (forall pr, last pre = Some pr ->
     next_sibling <$> L' pr = Some (next_sibling hc)) ->
  chain L' (match pre with [] => next_sibling hc | _ => e end) (pre ++ post).
Proof.
  revert e. induction pre as [|a pre IH]; intros e Hc Hnd Hhc Hframe Hpr; simpl in *.
  - inversion Hc as [|? h ? ? Hh Hrest]; subst.
    assert (h = hc) as -> by congruence.
    apply chain_frame with L; [done|]. intros x Hx. apply Hframe; done.
  - inversion Hc as [|? ha ? ? Hha Hrest]; subst.
    apply NoDup_cons in Hnd as [Hnotin Hnd].
    destruct pre as [|b pre].
    + simpl in *. inversion Hrest as [|? h ? ? Hh Hpost]; subst.
      assert (h = hc) as -> by congruence.
      pose proof (Hpr a eq_refl) as Ha.
      destruct (L' a) as [ha'|] eqn:Hha'; [|done]. simpl in Ha. injection Ha as Ha.
      apply chain_step with ha'; [done|done|]. rewrite Ha.
      apply chain_frame with L; [done|]. intros x Hx. apply Hframe.
      * by right.
      * intros [= ->]. apply Hnotin. by right.
    + assert (Ha : next_sibling <$> L' a = next_sibling <$> L a).
      { apply Hframe; [by left|].
        intros Heq. apply Hnotin.
        rewrite last_cons_cons in Heq.
        symmetry in Heq. apply last_Some in Heq as [l' Heq].
        rewrite Heq. rewrite <- app_assoc. apply elem_of_app. right. by left. }
      rewrite Hha in Ha. destruct (L' a) as [ha'|] eqn:Hha'; [|done].
      simpl in Ha. injection Ha as Ha.
      apply chain_step with ha'; [done|done|]. rewrite Ha.
      specialize (IH _ Hrest Hnd Hhc). simpl in IH. apply IH.
      * intros x Hx Hlast. apply Hframe; [by right|done].
      * intros pr Hlast. by apply Hpr.
Qed.

(** The records after [unlinkL], field by field. *)
Lemma unlinkL_desc L q pre c n x :
  c ∉ pre ->
  match L x with
  | None => unlinkL L q pre c n x = None
  | Some h =>
      exists h2, unlinkL L q pre c n x = Some h2 /\
        entity h2 = entity h /\
        local_transform h2 = local_transform h /\
        parent h2 = (if decide (x = c) then -1 else parent h) /\
        first_child h2 = (if decide (x = q /\ pre = []) then n else first_child h) /\
        next_sibling h2 = (if decide (x = c) then -1
                           else if decide (last pre = Some x) then n else next_sibling h)
  end.
Proof.
  intros Hc. unfold unlinkL, upd.
  assert (Hlc : last pre <> Some c).
  { intros Hl. apply Hc. apply last_Some in Hl as [l' ->].
    apply elem_of_app. right. by left. }
  destruct (last pre) as [pr|] eqn:Hl.
  - assert (pre <> []) as Hne by (by intros ->).
    destruct (decide (x = c)) as [->|Hxc].
    + rewrite decide_False by congruence.
      destruct (L c) as [h|]; simpl; [|done].
      eexists. split; [done|]. simpl.
      rewrite decide_False by (intros [? ?]; congruence). done.
    + destruct (decide (x = pr)) as [->|Hxp].
      * destruct (L pr) as [h|]; simpl; [|done].
        eexists. split; [done|]. simpl.
        rewrite decide_False by (intros [? ?]; congruence). by rewrite decide_True.
      * destruct (L x) as [h|]; simpl; [|done].
        eexists. split; [done|]. simpl.
        rewrite decide_False by (intros [? ?]; congruence).
        rewrite decide_False by congruence. done.
  - apply last_None in Hl as ->.
    destruct (decide (x = c)) as [->|Hxc].
    + destruct (decide (c = q)) as [->|Hcq].
      * destruct (L q) as [h|]; simpl; [|done].
        eexists. split; [done|]. simpl. by rewrite decide_True.
      * destruct (L c) as [h|]; simpl; [|done].
        eexists. split; [done|]. simpl. rewrite decide_False by (intros [? ?]; congruence). done.
    + destruct (decide (x = q)) as [->|Hxq].
      * destruct (L q) as [h|]; simpl; [|done].
        eexists. split; [done|]. simpl. by rewrite decide_True.
      * destruct (L x) as [h|]; simpl; [|done].
        eexists. split; [done|]. simpl. rewrite decide_False by (intros [? ?]; congruence). done.
Qed.

Lemma unlinkL_next L q pre c n x :
  c ∉ pre -> x <> c -> last pre <> Some x ->
  next_sibling <$> unlinkL L q pre c n x = next_sibling <$> L x.
Proof.
  intros Hc Hxc Hl. pose proof (unlinkL_desc L q pre c n x Hc) as D.
  destruct (L x) as [h|]; [|by rewrite D].
  destruct D as (h2 & -> & _ & _ & _ & _ & Hn). simpl. f_equal.
  rewrite Hn. rewrite decide_False by done. by rewrite decide_False.
Qed.

Lemma unlinkL_next_pred L q pre c n pr :
  c ∉ pre -> last pre = Some pr -> is_Some (L pr) ->
  next_sibling <$> unlinkL L q pre c n pr = Some n.
Proof.
  intros Hc Hl [h Hh]. pose proof (unlinkL_desc L q pre c n pr Hc) as D.
  rewrite Hh in D. destruct D as (h2 & -> & _ & _ & _ & _ & Hn). simpl. f_equal.
  rewrite Hn. rewrite decide_False; [by rewrite decide_True|].
  intros ->. apply Hc. apply last_Some in Hl as [l' ->].
  apply elem_of_app. right. by left.
Qed.

Lemma unlinkL_parent L q pre c n x :
  c ∉ pre -> x <> c -> parent <$> unlinkL L q pre c n x = parent <$> L x.
Proof.
  intros Hc Hxc. pose proof (unlinkL_desc L q pre c n x Hc) as D.
  destruct (L x) as [h|]; [|by rewrite D].
  destruct D as (h2 & -> & _ & _ & Hp & _). simpl. f_equal.
  rewrite Hp. by rewrite decide_False.
Qed.

Lemma forest_chain_det L p h cs :
  forest L -> L p = Some h -> chain L (first_child h) cs ->
  NoDup cs /\ forall c, c ∈ cs -> exists hc, L c = Some hc /\ parent hc = p.
Proof.
  intros (_ & HC2 & _) Hp Hcs. destruct (HC2 _ _ Hp) as (cs' & Hcs' & Hnd & Hpar).
  by rewrite (chain_det _ _ _ _ Hcs Hcs').
Qed.

(** The sibling lists after [unlinkL]: the list of [q] loses [c], the
    others are as before. *)
Lemma unlinkL_chain L q pre c post hc hq p h cs :
  forest L ->
  L c = Some hc -> parent hc = q -> L q = Some hq ->
  chain L (first_child hq) (pre ++ c :: post) ->
  L p = Some h -> chain L (first_child h) cs ->
  exists h2, unlinkL L q pre c (next_sibling hc) p = Some h2 /\
    chain (unlinkL L q pre c (next_sibling hc)) (first_child h2)
          (if decide (p = q) then pre ++ post else cs).
Proof.
  intros HF Hc Hpar Hq Hchq Hp Hchp.
  destruct (forest_chain_det _ _ _ _ HF Hq Hchq) as [Hnd Hmem].
  assert (Hcpre : c ∉ pre).
  { apply NoDup_app in Hnd as (_ & Hdisj & _). intros Hin.
    apply (Hdisj _ Hin). by left. }
  pose proof (unlinkL_desc L q pre c (next_sibling hc) p Hcpre) as D.
  rewrite Hp in D. destruct D as (h2 & Hh2 & _ & _ & _ & Hfc & _).
  exists h2. split; [done|]. rewrite Hfc.
  destruct (decide (p = q)) as [->|Hpq].
  - assert (h = hq) as -> by congruence.
    pose proof (chain_bypass L (unlinkL L q pre c (next_sibling hc))
                  _ pre c post hc Hchq Hnd Hc) as Hb.
    assert (Hstart : (if decide (q = q /\ pre = []) then next_sibling hc else first_child hq)
                     = match pre with [] => next_sibling hc | _ => first_child hq end).
    { destruct pre; [by rewrite decide_True|].
      rewrite decide_False; [done|]. by intros [_ ?]. }
    rewrite Hstart. apply Hb.
    + intros x Hx Hl. apply unlinkL_next; [done| |congruence].
      intros ->. apply NoDup_app in Hnd as (_ & Hdisj & Hnd2).
      apply NoDup_cons in Hnd2 as [Hnotin _].
      apply elem_of_app in Hx as [Hx|Hx]; [|done].
      apply (Hdisj _ Hx). by left.
    + intros pr Hl. apply unlinkL_next_pred; [done|done|].
      destruct (Hmem pr) as (hpr & Hhpr & _); [|eauto].
      apply last_Some in Hl as [l' ->]. apply elem_of_app. left.
      apply elem_of_app. right. by left.
  - rewrite decide_False by (by intros [? _]).
    destruct (forest_chain_det _ _ _ _ HF Hp Hchp) as [_ Hmemp].
    apply chain_frame with L; [done|]. intros x Hx.
    destruct (Hmemp x Hx) as (hx & Hhx & Hparx).
    apply unlinkL_next; [done| |].
    + intros ->. assert (hx = hc) by congruence. subst hx. congruence.
    + intros Hl. destruct (Hmem x) as (hx' & Hhx' & Hparx').
      { apply last_Some in Hl as [l' ->]. apply elem_of_app. left.
        apply elem_of_app. right. by left. }
      assert (hx' = hx) by congruence. subst hx'. congruence.
Qed.

(** [unlinkL] keeps the forest. *)
Lemma forest_unlinkL L q pre c post hc hq :
  forest L ->
  L c = Some hc -> parent hc = q -> L q = Some hq ->
  chain L (first_child hq) (pre ++ c :: post) ->
  forest (unlinkL L q pre c (next_sibling hc)).
Proof.
  intros HF Hc Hpar Hq Hchq.
  destruct (forest_chain_det _ _ _ _ HF Hq Hchq) as [Hnd Hmem].
  assert (Hcpre : c ∉ pre).
  { apply NoDup_app in Hnd as (_ & Hdisj & _). intros Hin.
    apply (Hdisj _ Hin). by left. }
  assert (Hcpost : c ∉ post).
  { apply NoDup_app in Hnd as (_ & _ & Hnd2). by apply NoDup_cons in Hnd2 as [? _]. }
  set (L2 := unlinkL L q pre c (next_sibling hc)).
  assert (Hdom : forall x h2, L2 x = Some h2 -> exists h, L x = Some h /\
            parent h2 = (if decide (x = c) then -1 else parent h)).
  { intros x h2 Hx. pose proof (unlinkL_desc L q pre c (next_sibling hc) x Hcpre) as D.
    fold L2 in D. destruct (L x) as [h|]; [|congruence].
    destruct D as (h2' & Hh2' & _ & _ & Hp & _). exists h. split; [done|]. congruence. }
  pose proof HF as HF0.
  destruct HF as (HB & HC2 & HC3). split; [|split].
  - intros x h2 Hx.
    pose proof (unlinkL_desc L q pre c (next_sibling hc) x Hcpre) as D. fold L2 in D.
    destruct (L x) as [h|] eqn:Hh; [|congruence].
    destruct D as (h2' & Hh2' & _ & _ & Hp & Hfc & Hn).
    assert (h2' = h2) by congruence. subst h2'.
    destruct (HB _ _ Hh) as (? & ? & ? & ?). destruct (HB _ _ Hc) as (? & ? & ? & ?).
    rewrite Hp, Hfc, Hn. repeat case_decide; lia.
  - intros p h2 Hp2. destruct (Hdom _ _ Hp2) as (h & Hp & _).
    destruct (HC2 _ _ Hp) as (cs & Hcs & Hndp & Hmemp).
    destruct (unlinkL_chain L q pre c post hc hq p h cs) as (h2' & Hh2' & Hch);
      [done..|].
    fold L2 in Hh2', Hch. assert (h2' = h2) by congruence. subst h2'.
    eexists. split; [exact Hch|].
    destruct (decide (p = q)) as [->|Hpq].
    + split.
      * apply NoDup_app in Hnd as (Hn1 & Hdisj & Hn2).
        apply NoDup_cons in Hn2 as [_ Hn2]. apply NoDup_app. repeat split; [done| |done].
        intros x Hx Hx'. apply (Hdisj _ Hx). by right.
      * intros x Hx. assert (x ∈ pre ++ c :: post) as Hx'.
        { apply elem_of_app in Hx as [?|?]; apply elem_of_app; [by left|right; by right]. }
        assert (x <> c) as Hxc.
        { intros ->. apply elem_of_app in Hx as [?|?]; done. }
        destruct (Hmem _ Hx') as (hx & Hhx & Hparx).
        pose proof (unlinkL_parent L q pre c (next_sibling hc) x Hcpre Hxc) as Hpp.
        fold L2 in Hpp. rewrite Hhx in Hpp. destruct (L2 x) as [hx2|]; [|done].
        simpl in Hpp. exists hx2. split; [done|]. congruence.
    + split; [done|]. intros x Hx. destruct (Hmemp _ Hx) as (hx & Hhx & Hparx).
      assert (x <> c) as Hxc.
      { intros ->. assert (hx = hc) by congruence. subst hx. congruence. }
      pose proof (unlinkL_parent L q pre c (next_sibling hc) x Hcpre Hxc) as Hpp.
      fold L2 in Hpp. rewrite Hhx in Hpp. destruct (L2 x) as [hx2|]; [|done].
      simpl in Hpp. exists hx2. split; [done|]. congruence.
  - intros x hx2 Hx2 Hpar2. destruct (Hdom _ _ Hx2) as (hx & Hhx & Hparx).
    destruct (decide (x = c)) as [->|Hxc]; [lia|].
    rewrite Hparx in *.
    destruct (HC3 _ _ Hhx Hpar2) as (hp & cs & Hhp & Hcs & Hxin).
    destruct (unlinkL_chain L q pre c post hc hq (parent hx) hp cs) as (hp2 & Hhp2 & Hch);
      [done..|].
    fold L2 in Hhp2, Hch. exists hp2. eexists. split; [done|]. split; [exact Hch|].
    destruct (decide (parent hx = q)) as [Heq|Hne]; [|done].
    rewrite Heq in *. assert (hp = hq) by congruence. subst hp.
    rewrite (chain_det _ _ _ _ Hcs Hchq) in Hxin.
    apply elem_of_app in Hxin as [?|Hxin]; apply elem_of_app; [by left|right].
    by apply elem_of_cons in Hxin as [?|?].
Qed.

(** Dropping a record without parent and without child keeps the forest. *)
Lemma forest_remove L e h :
  forest L -> L e = Some h -> parent h < 0 -> first_child h < 0 ->
  forest (upd L e None).
Proof.
  intros HF He Hp Hc. pose proof HF as (HB & HC2 & HC3).
  assert (Hnotin : forall p hp cs, L p = Some hp -> chain L (first_child hp) cs -> e ∉ cs).
  { intros p hp cs Hhp Hcs Hin.
    destruct (forest_chain_det L p hp cs) as [_ Hmem]; [done..|].
    destruct (Hmem _ Hin) as (he & Hhe & Hpar).
    assert (he = h) by congruence. subst he.
    destruct (HB _ _ Hhp) as (? & _). lia. }
  assert (Hframe : forall p hp cs, L p = Some hp -> chain L (first_child hp) cs ->
            chain (upd L e None) (first_child hp) cs).
  { intros p hp cs Hhp Hcs. apply chain_frame with L; [done|].
    intros x Hx. unfold upd. rewrite decide_False; [done|].
    intros ->. by apply (Hnotin _ _ _ Hhp Hcs). }
  split; [|split].
  - intros x hx. unfold upd. case_decide; [done|]. apply HB.
  - intros p hp. unfold upd at 1. case_decide as Hpe; [done|]. intros Hhp.
    destruct (HC2 _ _ Hhp) as (cs & Hcs & Hnd & Hmem).
    exists cs. split; [by eapply Hframe|]. split; [done|].
    intros c Hin. destruct (Hmem _ Hin) as (hc & Hhc & Hparc).
    exists hc. split; [|done]. unfold upd. rewrite decide_False; [done|].
    intros ->. by apply (Hnotin _ _ _ Hhp Hcs).
  - intros c hc. unfold upd at 1. case_decide as Hce; [done|]. intros Hhc Hparc.
    destruct (HC3 _ _ Hhc Hparc) as (hp & cs & Hhp & Hcs & Hin).
    assert (parent hc <> e) as Hne.
    { intros Heq. rewrite Heq in Hhp. assert (hp = h) by congruence. subst hp.
      apply chain_invalid in Hcs; [|done]. subst cs. by apply elem_of_nil in Hin. }
    exists hp, cs. unfold upd at 1. rewrite decide_False by done.
    split; [done|]. split; [by eapply Hframe|done].
Qed.

Lemma forest_gcL L e : forest L -> forest (gcL L e).
Proof.
  intros HF. unfold gcL. destruct (L e) as [h|] eqn:He; [|done].
  unfold isValid.
  destruct (0 <=? parent h) eqn:Hp; [done|].
  destruct (0 <=? first_child h) eqn:Hc; [done|]. simpl.
  apply Z.leb_gt in Hp, Hc. by eapply forest_remove.
Qed.

End Chains.

Lemma forest_ext (L L' : Z -> option Hierarchy) :
  (forall x, L x = L' x) -> forest L -> forest L'.
Proof.
  intros Hext (HB & HC2 & HC3).
  assert (Hch : forall s cs, chain L s cs -> chain L' s cs).
  { intros s cs Hc. apply chain_frame with L; [done|]. intros x _. by rewrite Hext. }
  split; [|split].
  - intros e h. rewrite <- Hext. apply HB.
  - intros p h. rewrite <- Hext. intros Hp.
    destruct (HC2 _ _ Hp) as (cs & Hcs & Hnd & Hmem). exists cs.
    split; [by apply Hch|]. split; [done|]. intros c Hc. rewrite <- Hext. by apply Hmem.
  - intros c hc. rewrite <- Hext. intros Hc Hp.
    destruct (HC3 _ _ Hc Hp) as (hp & cs & Hhp & Hcs & Hin).
    exists hp, cs. rewrite <- Hext. split; [done|]. split; [by apply Hch|done].
Qed.

Lemma chain_ext (L L' : Z -> option Hierarchy) s cs :
  (forall x, L x = L' x) -> chain L s cs -> chain L' s cs.
Proof. intros Hext Hc. apply chain_frame with L; [done|]. intros x _. by rewrite Hext. Qed.

(** Garbage collection leaves the sibling lists of all records alone. *)
Lemma chain_gcL L e p hp cs :
  forest L -> L p = Some hp -> chain L (first_child hp) cs ->
  chain (gcL L e) (first_child hp) cs.
Proof.
  intros HF Hp Hcs. unfold gcL. destruct (L e) as [h|] eqn:He; [|done].
  unfold isValid.
  destruct (0 <=? parent h) eqn:Hpar; [done|].
  destruct (0 <=? first_child h) eqn:Hfc; [done|]. simpl.
  apply Z.leb_gt in Hpar, Hfc.
  apply chain_frame with L; [done|]. intros x Hx. unfold upd.
  rewrite decide_False; [done|]. intros ->.
  destruct (forest_chain_det _ _ _ _ HF Hp Hcs) as [_ Hmem].
  destruct (Hmem _ Hx) as (he & Hhe & Hpe). assert (he = h) by congruence. subst he.
  destruct HF as (HB & _). destruct (HB _ _ Hp) as (? & _). lia.
Qed.

Lemma gcL_Some L e x h : gcL L e x = Some h -> L x = Some h.
Proof.
  unfold gcL. destruct (L e) as [he|]; [|done].
  destruct (isValid (parent he) || isValid (first_child he)); [done|].
  unfold upd. by case_decide.
Qed.

Lemma idx_nonneg_hrec w c :
  index_ok w -> 0 <= hierarchy (ent w c) -> is_Some (hrec w c).
Proof.
  intros [_ Hok] Hi. unfold ent in Hi.
  destruct (zget (m_entities w) c) as [d|] eqn:Hd; simpl in Hi; [|lia].
  destruct (Hok _ _ Hd Hi) as (h & Hh & _). exists h. apply hrec_Some. eauto.
Qed.

Lemma collectGarbage_gcL w e :
  index_ok w -> is_Some (hrec w e) ->
  let w' := collectGarbage w e in
  index_ok w' /\ (forall x, hrec w' x = gcL (hrec w) e x).
Proof.
  intros Hok [h Hh]. unfold gcL. rewrite Hh. unfold isValid.
  destruct (0 <=? parent h) eqn:Hp.
  { apply Z.leb_le in Hp. rewrite (collectGarbage_keep w e h) by auto. done. }
  destruct (0 <=? first_child h) eqn:Hc.
  { apply Z.leb_le in Hc. rewrite (collectGarbage_keep w e h) by auto. done. }
  apply Z.leb_gt in Hp, Hc. simpl. by apply collectGarbage_remove with h.
Qed.

Lemma collectGarbage_lengths w e :
  zlen (m_entities (collectGarbage w e)) = zlen (m_entities w) /\
  (length (m_hierarchy (collectGarbage w e)) <= length (m_hierarchy w))%nat.
Proof.
  unfold collectGarbage.
  destruct (isValid _); [done|]. destruct (isValid _); [done|]. simpl.
  rewrite !zlen_zalter. split; [done|].
  unfold pop. rewrite length_take. unfold zalter. case_decide; [|lia].
  rewrite length_alter. lia.
Qed.

(** *** The first half of [setParent] on well-indexed worlds *)

(** A chain is not longer than the array of records. *)
Lemma chain_length_le w s cs :
  index_ok w -> chain (hrec w) s cs -> NoDup cs ->
  (length cs <= length (m_hierarchy w))%nat.
Proof.
  intros Hok Hch Hnd.
  set (f := fun x => Z.to_nat (hierarchy (ent w x))).
  assert (Hnd' : NoDup (f <$> cs)).
  { apply NoDup_fmap_2_strong; [|done]. intros x y Hx Hy Hxy.
    destruct (chain_elem _ _ _ _ Hch Hx) as [_ [hx Hhx]].
    destruct (chain_elem _ _ _ _ Hch Hy) as [_ [hy Hhy]].
    destruct (hrec_idx _ _ _ Hhx) as [Hix _]. destruct (hrec_idx _ _ _ Hhy) as [Hiy _].
    apply (hrec_idx_inj w y x hy); [done|done| |unfold f in Hxy; lia].
    apply hrec_Some in Hhx as (d & -> & _). done. }
  assert (Hle : (length (f <$> cs) <= length (seq 0 (length (m_hierarchy w))))%nat).
  { apply submseteq_length, NoDup_submseteq; [done|].
    intros i (x & -> & Hx)%list_elem_of_fmap. apply elem_of_seq.
    destruct (chain_elem _ _ _ _ Hch Hx) as [_ [hx Hhx]].
    destruct (hrec_idx _ _ _ Hhx) as [Hix Hget]. apply zget_Some in Hget.
    unfold f, zlen in *. lia. }
  by rewrite length_fmap, length_seq in Hle.
Qed.

Lemma unlink_spec w c cs :
  index_ok w -> forall v x fuel,
  chain (hrec w) v cs -> c ∈ cs -> load w x = v -> (length cs <= fuel)%nat ->
  exists pre post, cs = pre ++ c :: post /\ (c ∉ pre) /\
    unlink fuel w x c =
      Some (store (match last pre with
                   | None => x
                   | Some pr => NextSiblingOf (hierarchy (ent w pr))
                   end) (getNextSibling w c) w).
Proof.
  intros Hok v x fuel Hch. revert x fuel.
  induction Hch as [e He|e h cs He Hh Hch IH]; intros x fuel Hin Hload Hfuel.
  - by apply elem_of_nil in Hin.
  - destruct fuel as [|fuel]; [simpl in Hfuel; lia|]. simpl in Hfuel. simpl.
    rewrite Hload. unfold isValid.
    assert ((0 <=? e) = true) as -> by (apply Z.leb_le; lia).
    destruct (e =? c) eqn:Hec.
    + apply Z.eqb_eq in Hec as ->. exists [], cs. simpl.
      split; [done|]. split; [apply not_elem_of_nil|done].
    + apply Z.eqb_neq in Hec. apply elem_of_cons in Hin as [?|Hin]; [congruence|].
      destruct (IH (NextSiblingOf (hierarchy (ent w e))) fuel Hin)
        as (pre & post & -> & Hpre & Hun).
      { simpl. by rewrite (hrec_hier _ _ _ Hh). }
      { lia. }
      exists (e :: pre), post. split; [done|]. split.
      { intros [?|?]%elem_of_cons; [congruence|done]. }
      rewrite Hun. destruct pre as [|b pre]; [done|].
      rewrite last_cons_cons. destruct (last (b :: pre)) eqn:Hl; [done|].
      by apply last_None in Hl.
Qed.

(** The state of [setParent] after the sibling list of the old parent has
    been relinked and the child's links cleared, before [collectGarbage]. *)
Lemma unlink_phase w c hc q hq cs fuel :
  index_ok w -> hrec w c = Some hc -> hrec w q = Some hq ->
  chain (hrec w) (first_child hq) cs -> c ∈ cs -> (length cs <= fuel)%nat ->
  exists pre post w1,
    cs = pre ++ c :: post /\ (c ∉ pre) /\
    unlink fuel w (FirstChildOf (hierarchy (ent w q))) c = Some w1 /\
    let w3 := alter_hier (set_next_sibling INVALID_ENTITY) (hierarchy (ent w c))
                (alter_hier (set_parent INVALID_ENTITY) (hierarchy (ent w c)) w1) in
    index_ok w3 /\ m_entities w3 = m_entities w /\
    zlen (m_hierarchy w3) = zlen (m_hierarchy w) /\
    forall x, hrec w3 x = unlinkL (hrec w) q pre c (next_sibling hc) x.
Proof.
  intros Hok Hc Hq Hch Hin Hfuel.
  destruct (unlink_spec w c cs Hok (first_child hq)
              (FirstChildOf (hierarchy (ent w q))) fuel Hch Hin)
    as (pre & post & -> & Hpre & Hun); [|done|].
  { simpl. by rewrite (hrec_hier _ _ _ Hq). }
  destruct (hrec_getters _ _ _ Hc) as (_ & _ & Hnext). rewrite Hnext in Hun.
  set (n := next_sibling hc) in *.
  set (L1 := match last pre with
             | None => upd (hrec w) q (set_first_child n <$> hrec w q)
             | Some pr => upd (hrec w) pr (set_next_sibling n <$> hrec w pr)
             end).
  set (w1 := store (match last pre with
                    | None => FirstChildOf (hierarchy (ent w q))
                    | Some pr => NextSiblingOf (hierarchy (ent w pr))
                    end) n w) in *.
  assert (Hw1 : index_ok w1 /\ m_entities w1 = m_entities w /\
                zlen (m_hierarchy w1) = zlen (m_hierarchy w) /\
                forall x, hrec w1 x = L1 x).
  { unfold w1, L1. destruct (last pre) as [pr|] eqn:Hl.
    - assert (pr ∈ pre ++ c :: post) as Hprin.
      { apply last_Some in Hl as [l' ->]. apply elem_of_app. left.
        apply elem_of_app. right. by left. }
      destruct (chain_elem _ _ _ _ Hch Hprin) as [_ [hpr Hhpr]].
      destruct (hrec_alter_hier w pr hpr (set_next_sibling n) Hok Hhpr) as [Hok1 Hrec1];
        [done|].
      simpl. split; [done|]. split; [done|]. split; [apply zlen_zalter|].
      intros x. rewrite Hrec1. by rewrite Hhpr.
    - destruct (hrec_alter_hier w q hq (set_first_child n) Hok Hq) as [Hok1 Hrec1];
        [done|].
      simpl. split; [done|]. split; [done|]. split; [apply zlen_zalter|].
      intros x. rewrite Hrec1. by rewrite Hq. }
  destruct Hw1 as (Hok1 & Hent1 & Hlen1 & Hrec1).
  exists pre, post, w1. split; [done|]. split; [done|]. split; [done|].
  assert (Hci : hierarchy (ent w c) = hierarchy (ent w1 c)).
  { unfold ent. by rewrite Hent1. }
  rewrite Hci.
  assert (exists hc1, hrec w1 c = Some hc1) as [hc1 Hhc1].
  { rewrite Hrec1. unfold L1, upd. destruct (last pre); case_decide; subst;
      rewrite ?Hc, ?Hq; simpl; eauto. }
  destruct (hrec_alter_hier w1 c hc1 (set_parent INVALID_ENTITY) Hok1 Hhc1) as [Hok2 Hrec2];
    [done|].
  set (w2 := alter_hier (set_parent INVALID_ENTITY) (hierarchy (ent w1 c)) w1) in *.
  assert (Hhc2 : hrec w2 c = Some (set_parent INVALID_ENTITY hc1)).
  { rewrite Hrec2. unfold upd. by rewrite decide_True. }
  destruct (hrec_alter_hier w2 c _ (set_next_sibling INVALID_ENTITY) Hok2 Hhc2)
    as [Hok3 Hrec3]; [done|].
  change (hierarchy (ent w2 c)) with (hierarchy (ent w1 c)) in *.
  simpl. split; [done|]. split; [done|].
  split; [by rewrite !zlen_zalter|].
  intros x. rewrite Hrec3. unfold upd. unfold unlinkL. fold n. fold L1. unfold upd.
  case_decide.
  - subst x. rewrite <- Hrec1, Hhc1. done.
  - rewrite Hrec2. unfold upd. rewrite decide_False by done. apply Hrec1.
Qed.

(** Detaching an entity from its parent keeps the hierarchy well formed;
    the sibling list that held it gets shorter, no list gets longer. *)
Lemma setParent_detach w c fuel :
  wf_hierarchy w -> (length (m_hierarchy w) <= fuel)%nat ->
  exists w', setParent fuel w INVALID_ENTITY c = Some w' /\
    wf_hierarchy w' /\
    zlen (m_entities w') = zlen (m_entities w) /\
    (length (m_hierarchy w') <= length (m_hierarchy w))%nat /\
    forall p hp cs hp',
      hrec w p = Some hp -> chain (hrec w) (first_child hp) cs ->
      hrec w' p = Some hp' ->
      exists cs', chain (hrec w') (first_child hp') cs' /\
        (length cs' <= length cs)%nat /\ (c ∈ cs -> (length cs' < length cs)%nat).
Proof.
  intros [Hok HF] Hfuel. unfold setParent, detachFromParent, linkToParent.
  change (isValid INVALID_ENTITY) with false. cbv iota.
  destruct (0 <=? hierarchy (ent w c)) eqn:Hidx.
  2:{ (* no record: nothing happens *)
      rewrite Hidx. exists w. split; [done|]. split; [done|]. split; [done|]. split; [done|].
      intros p hp cs hp' Hp Hcs Hp'. assert (hp' = hp) by congruence. subst hp'.
      exists cs. split; [done|]. split; [done|]. intros Hin.
      destruct (forest_chain_det _ _ _ _ HF Hp Hcs) as [_ Hmem].
      destruct (Hmem _ Hin) as (hc & Hhc & _). apply hrec_idx in Hhc as [Hi _].
      apply Z.leb_gt in Hidx. lia. }
  apply Z.leb_le in Hidx. destruct (idx_nonneg_hrec _ _ Hok Hidx) as [hc Hc].
  rewrite (hrec_hier _ _ _ Hc). unfold isValid at 1.
  destruct (0 <=? parent hc) eqn:Hpar.
  2:{ (* a root: only the garbage collection of the child *)
      apply Z.leb_le in Hidx. rewrite Hidx.
      destruct (collectGarbage_gcL w c Hok) as [Hok' Hrec']; [eauto|].
      destruct (collectGarbage_lengths w c) as [Hl1 Hl2].
      exists (collectGarbage w c). split; [done|]. split.
      { split; [done|]. apply forest_ext with (gcL (hrec w) c); [done|by apply forest_gcL]. }
      split; [done|]. split; [done|].
      intros p hp cs hp' Hp Hcs Hp'. rewrite Hrec' in Hp'. apply gcL_Some in Hp'.
      assert (hp' = hp) by congruence. subst hp'.
      exists cs. split.
      { apply chain_ext with (gcL (hrec w) c); [done|]. by apply chain_gcL with p. }
      split; [done|]. intros Hin.
      destruct (forest_chain_det _ _ _ _ HF Hp Hcs) as [_ Hmem].
      destruct (Hmem _ Hin) as (hc' & Hhc' & Hparc). assert (hc' = hc) by congruence.
      subst hc'. apply Z.leb_gt in Hpar. pose proof HF as (HB & _).
      destruct (HB _ _ Hp) as (? & _). lia. }
  apply Z.leb_le in Hpar. set (q := parent hc) in *.
  pose proof HF as (HB & HC2 & HC3).
  destruct (HC3 _ _ Hc Hpar) as (hq & csq & Hq & Hchq & Hinq). fold q in Hq.
  destruct (forest_chain_det _ _ _ _ HF Hq Hchq) as [Hndq Hmemq].
  destruct (unlink_phase w c hc q hq csq fuel Hok Hc Hq Hchq Hinq)
    as (pre & post & w1 & -> & Hpre & Hun & Hw3).
  { pose proof (chain_length_le _ _ _ Hok Hchq Hndq). lia. }
  rewrite Hun.
  set (w3 := alter_hier (set_next_sibling INVALID_ENTITY) (hierarchy (ent w c))
               (alter_hier (set_parent INVALID_ENTITY) (hierarchy (ent w c)) w1)) in *.
  destruct Hw3 as (Hok3 & Hent3 & Hlen3 & Hrec3).
  set (L2 := unlinkL (hrec w) q pre c (next_sibling hc)) in *.
  assert (HF2 : forest L2) by (by eapply forest_unlinkL).
  assert (HF3 : forest (hrec w3)).
  { apply forest_ext with L2; [|done]. intros x. by rewrite Hrec3. }
  assert (Hq3 : is_Some (hrec w3 q)).
  { rewrite Hrec3. pose proof (unlinkL_desc (hrec w) q pre c (next_sibling hc) q Hpre) as D.
    fold L2 in D. rewrite Hq in D. destruct D as (h2 & -> & _). eauto. }
  destruct (collectGarbage_gcL w3 q Hok3 Hq3) as [Hok4 Hrec4].
  destruct (collectGarbage_lengths w3 q) as [Hl4e Hl4h].
  set (w4 := collectGarbage w3 q) in *.
  assert (HF4 : forest (hrec w4)).
  { apply forest_ext with (gcL (hrec w3) q); [done|by apply forest_gcL]. }
  (* the lists of the records that survive the first garbage collection *)
  assert (Hlists : forall p hp cs hp4,
            hrec w p = Some hp -> chain (hrec w) (first_child hp) cs ->
            hrec w4 p = Some hp4 ->
            chain (hrec w4) (first_child hp4) (if decide (p = q) then pre ++ post else cs)).
  { intros p hp cs hp4 Hp Hcs Hp4. rewrite Hrec4 in Hp4. apply gcL_Some in Hp4.
    destruct (unlinkL_chain (hrec w) q pre c post hc hq p hp cs HF Hc eq_refl Hq Hchq Hp Hcs)
      as (h2 & Hh2 & Hch2).
    fold L2 in Hh2, Hch2. rewrite Hrec3 in Hp4. assert (h2 = hp4) by congruence. subst h2.
    apply chain_ext with (gcL (hrec w3) q); [done|].
    apply chain_gcL with p; [done|by rewrite Hrec3|].
    apply chain_ext with L2; [|done]. intros x. by rewrite Hrec3. }
  assert (Hmeasure : forall p hp cs,
            hrec w p = Some hp -> chain (hrec w) (first_child hp) cs ->
            let cs' := if decide (p = q) then pre ++ post else cs in
            (length cs' <= length cs)%nat /\ (c ∈ cs -> (length cs' < length cs)%nat)).
  { intros p hp cs Hp Hcs. simpl. destruct (decide (p = q)) as [->|Hpq].
    - assert (hp = hq) by congruence. subst hp.
      rewrite (chain_det _ _ _ _ Hcs Hchq). rewrite !length_app. simpl. lia.
    - split; [done|]. intros Hin.
      destruct (forest_chain_det _ _ _ _ HF Hp Hcs) as [_ Hmem].
      destruct (Hmem _ Hin) as (hc' & Hhc' & Hparc).
      assert (hc' = hc) by congruence. subst hc'. exfalso. apply Hpq. by rewrite <- Hparc. }
  destruct (0 <=? hierarchy (ent w4 c)) eqn:Hidx4.
  - apply Z.leb_le in Hidx4. pose proof (idx_nonneg_hrec _ _ Hok4 Hidx4) as Hc4.
    destruct (collectGarbage_gcL w4 c Hok4 Hc4) as [Hok5 Hrec5].
    destruct (collectGarbage_lengths w4 c) as [Hl5e Hl5h].
    exists (collectGarbage w4 c). split; [done|]. split.
    { split; [done|]. apply forest_ext with (gcL (hrec w4) c); [done|by apply forest_gcL]. }
    split; [congruence|]. split.
    { unfold zlen in Hlen3. lia. }
    intros p hp cs hp' Hp Hcs Hp'. rewrite Hrec5 in Hp'. apply gcL_Some in Hp'.
    eexists. split.
    { apply chain_ext with (gcL (hrec w4) c); [done|].
      apply chain_gcL with p; [done|done|]. by eapply Hlists. }
    by apply (Hmeasure p hp cs).
  - exists w4. split; [done|]. split; [done|]. split; [congruence|]. split.
    { unfold zlen in Hlen3. lia. }
    intros p hp cs hp' Hp Hcs Hp'. eexists. split; [by eapply Hlists|].
    by apply (Hmeasure p hp cs).
Qed.

Local Ltac same_world w :=
  exists w; split; [done|]; split; [try done; by split|]; split; [done|lia].

(** The first loop of [destroyEntity] ends: every round removes the first
    child from the list of the entity. *)
Lemma detachChildren_spec e fuel m :
  forall n w, (m < n)%nat ->
  wf_hierarchy w -> (length (m_hierarchy w) <= fuel)%nat ->
  (forall he cs, hrec w e = Some he -> chain (hrec w) (first_child he) cs ->
     (length cs <= m)%nat) ->
  exists w', detachChildren n fuel w e = Some w' /\ wf_hierarchy w' /\
    zlen (m_entities w') = zlen (m_entities w) /\
    (length (m_hierarchy w') <= length (m_hierarchy w))%nat.
Proof.
  induction m as [|m IH]; intros n w Hn Hwf Hfuel Hbound;
    (destruct n as [|n]; [lia|]); simpl; unfold isValid.
  - destruct (hrec w e) as [he|] eqn:He.
    + destruct (hrec_getters _ _ _ He) as (_ & -> & _).
      pose proof Hwf as [_ (_ & HC2 & _)].
      destruct (HC2 _ _ He) as (cs & Hcs & _).
      pose proof (Hbound _ _ eq_refl Hcs) as Hlen.
      destruct cs; [|simpl in Hlen; lia].
      inversion Hcs; subst.
      assert ((0 <=? first_child he) = false) as -> by (apply Z.leb_gt; lia).
      same_world w.
    + destruct Hwf as [Hok HF].
      destruct (hrec_None_getters _ _ Hok He) as (_ & -> & _). simpl.
      same_world w.
  - destruct (hrec w e) as [he|] eqn:He.
    2:{ destruct Hwf as [Hok HF].
        destruct (hrec_None_getters _ _ Hok He) as (_ & -> & _). simpl.
        same_world w. }
    destruct (hrec_getters _ _ _ He) as (_ & -> & _).
    destruct (0 <=? first_child he) eqn:Hfc; [|same_world w].
    apply Z.leb_le in Hfc.
    pose proof Hwf as [_ (_ & HC2 & _)].
    destruct (HC2 _ _ He) as (cs & Hcs & _).
    destruct (chain_head _ _ _ Hcs Hfc) as [rest ->].
    destruct (setParent_detach w (first_child he) fuel Hwf Hfuel)
      as (w1 & -> & Hwf1 & Hent1 & Hlen1 & Hlists).
    destruct (IH n w1) as (w' & -> & Hwf' & Hent' & Hlen'); [lia|done|lia| |].
    + intros he1 cs1 He1 Hcs1.
      destruct (Hlists e he _ he1 He Hcs He1) as (cs' & Hcs' & _ & Hlt).
      rewrite (chain_det _ _ _ _ Hcs1 Hcs').
      pose proof (Hbound _ _ eq_refl Hcs) as Hlen.
      specialize (Hlt ltac:(left)). lia.
    + exists w'. split; [done|]. split; [done|]. split; [congruence|lia].
Qed.

Lemma valid_after_set_valid w e :
  valid (ent (alter_entity (set_valid false) e w) e) = false.
Proof.
  unfold ent. simpl. rewrite zget_zalter_eq. by destruct (zget (m_entities w) e).
Qed.

Lemma releaseSlot_dead w e : hasEntity (releaseSlot w e) e = false.
Proof.
  unfold hasEntity. apply andb_false_intro2. unfold releaseSlot.
  set (w4 := alter_entity (set_hierarchy (-1)) e _).
  set (w5 := alter_entity (set_valid false) e w4).
  assert (H5 : valid (ent w5 e) = false) by apply valid_after_set_valid.
  clearbody w5. clear w4.
  set (w6 := if 0 <=? m_first_free_slot w5 then _ else w5).
  assert (H6 : valid (ent w6 e) = false).
  { unfold w6. destruct (0 <=? m_first_free_slot w5); [|exact H5].
    rewrite valid_ent_alter_entity; [exact H5|reflexivity]. }
  clearbody w6.
  destruct (0 <=? name (ent w6 e)); [|exact H6].
  change (valid (ent (alter_entity (set_name (-1)) e
            (with_names (swapAndPop (name (ent w6 e)))
               (alter_entity (set_name (name (ent w6 e)))
                  (name_entity (default no_name (back (m_names w6)))) w6))) e) = false).
  rewrite valid_ent_alter_entity by reflexivity.
  change (valid (ent (alter_entity (set_name (name (ent w6 e)))
                        (name_entity (default no_name (back (m_names w6)))) w6) e) = false).
  rewrite valid_ent_alter_entity by reflexivity. exact H6.
Qed.

(** Destruction of an entity ends and leaves its slot not live. *)
Lemma destroyEntity_dead w e fuel :
  wf_hierarchy w -> (length (m_hierarchy w) < fuel)%nat ->
  exists w', destroyEntity fuel w e = Some w' /\ hasEntity w' e = false.
Proof.
  intros Hwf Hfuel. unfold destroyEntity.
  destruct (detachChildren_spec e fuel (length (m_hierarchy w)) fuel w)
    as (w1 & -> & Hwf1 & Hent1 & Hlen1); [done|done|lia| |].
  { intros he cs He Hcs. destruct Hwf as [Hok HF].
    destruct (forest_chain_det _ _ _ _ HF He Hcs) as [Hnd _].
    by apply chain_length_le with (first_child he). }
  destruct (setParent_detach w1 e fuel Hwf1) as (w2 & -> & _); [lia|].
  eexists. split; [reflexivity|]. apply releaseSlot_dead.
Qed.

(** *** Giving an entity a parent *)

Lemma isDescendantFrom_false_children w p cs :
  forall s fuel, chain (hrec w) s cs -> isDescendantFrom fuel w s p = Some false ->
  forall x, x ∈ cs ->
  exists f', (f' < fuel)%nat /\ isDescendantFrom f' w (getFirstChild w x) p = Some false.
Proof.
  intros s fuel Hch. revert fuel.
  induction Hch as [e He|e h cs He Hh Hch IH]; intros fuel Hd x Hx.
  - by apply elem_of_nil in Hx.
  - destruct fuel as [|f]; [done|]. simpl in Hd.
    assert ((e =? INVALID_ENTITY) = false) as Hne
      by (apply Z.eqb_neq; unfold INVALID_ENTITY; lia).
    rewrite Hne in Hd. destruct (e =? p); [done|].
    destruct (isDescendantFrom f w (getFirstChild w e) p) as [[|]|] eqn:Hfc; [done| |done].
    destruct (hrec_getters _ _ _ Hh) as (_ & _ & Hn). rewrite Hn in Hd.
    apply elem_of_cons in Hx as [->|Hx].
    + exists f. split; [lia|done].
    + destruct (IH f Hd x Hx) as (f' & Hlt & Hf'). exists f'. split; [lia|done].
Qed.

(** When [isDescendant] answers "no" the entity is not its own parent
    (on such an entity the search would not end). *)
Lemma isDescendant_false_not_self_parent w e p fuel he :
  forest (hrec w) -> isDescendant fuel w e p = Some false ->
  hrec w e = Some he -> parent he <> e.
Proof.
  intros HF Hd He Hpar. pose proof HF as (HB & HC2 & HC3).
  destruct (HB _ _ He) as (He0 & _).
  destruct (HC3 e he He) as (hp & cs & Hp & Hcs & Hin); [lia|].
  rewrite Hpar in Hp. assert (hp = he) by congruence. subst hp.
  unfold isDescendant in Hd.
  destruct (hrec_getters _ _ _ He) as (_ & Hfc & _). rewrite Hfc in Hd.
  revert Hd. induction fuel as [fuel IH] using lt_wf_ind. intros Hd.
  destruct (isDescendantFrom_false_children w p cs _ _ Hcs Hd e Hin) as (f' & Hlt & Hf').
  rewrite Hfc in Hf'. by apply (IH f').
Qed.

Lemma forest_add_isolated L e :
  forest L -> L e = None -> 0 <= e -> forest (upd L e (Some (new_record e))).
Proof.
  intros HF He He0. pose proof HF as (HB & HC2 & HC3).
  assert (Hframe : forall s cs, chain L s cs -> chain (upd L e (Some (new_record e))) s cs).
  { intros s cs Hcs. apply chain_frame with L; [done|]. intros x Hx. unfold upd.
    rewrite decide_False; [done|]. intros ->.
    destruct (chain_elem _ _ _ _ Hcs Hx) as [_ [h Hh]]. congruence. }
  split; [|split].
  - intros x h. unfold upd. case_decide; [|apply HB]. intros [= <-]. subst. simpl.
    unfold INVALID_ENTITY. lia.
  - intros p h. unfold upd at 1. case_decide as Hpe.
    + intros [= <-]. exists []. split.
      { constructor. simpl. unfold INVALID_ENTITY. lia. }
      split; [constructor|]. intros c Hc. by apply elem_of_nil in Hc.
    + intros Hp. destruct (HC2 _ _ Hp) as (cs & Hcs & Hnd & Hmem). exists cs.
      split; [by apply Hframe|]. split; [done|].
      intros c Hc. destruct (Hmem _ Hc) as (hc & Hhc & Hpar). exists hc. split; [|done].
      unfold upd. rewrite decide_False; [done|]. congruence.
  - intros c hc. unfold upd at 1. case_decide as Hce.
    + intros [= <-]. simpl. unfold INVALID_ENTITY. lia.
    + intros Hc Hpar. destruct (HC3 _ _ Hc Hpar) as (hp & cs & Hp & Hcs & Hin).
      exists hp, cs. unfold upd at 1. rewrite decide_False by congruence.
      split; [done|]. split; [by apply Hframe|done].
Qed.

(** The range [childrenOf] yields the chain under the first child. *)
Lemma siblingsFrom_chain w cs :
  forall s fuel, chain (hrec w) s cs -> -1 <= s ->
  (forall x h, x ∈ cs -> hrec w x = Some h -> -1 <= next_sibling h) ->
  (length cs < fuel)%nat ->
  siblingsFrom fuel w s = Some cs.
Proof.
  intros s fuel Hch. revert fuel.
  induction Hch as [e He|e h cs He Hh Hch IH]; intros fuel Hs Hb Hfuel;
    (destruct fuel as [|fuel]; [simpl in Hfuel; lia|]); simpl.
  - assert (e = INVALID_ENTITY) as -> by (unfold INVALID_ENTITY; lia). done.
  - assert ((e =? INVALID_ENTITY) = false) as ->
      by (apply Z.eqb_neq; unfold INVALID_ENTITY; lia).
    destruct (hrec_getters _ _ _ Hh) as (_ & _ & ->).
    rewrite (IH fuel); [done| | |simpl in Hfuel; lia].
    + apply (Hb e h); [by left|done].
    + intros x hx Hx. apply Hb. by right.
Qed.

Lemma hrec_None_of_idx w e : hierarchy (ent w e) < 0 -> hrec w e = None.
Proof.
  unfold hrec, ent. destruct (zget (m_entities w) e) as [d|]; simpl; [|done].
  intros Hd. apply Z.ltb_lt in Hd. by rewrite Hd.
Qed.

Lemma hrec_alter_hier_at w o ho f i :
  index_ok w -> hrec w o = Some ho -> i = hierarchy (ent w o) ->
  (forall h, entity (f h) = entity h) ->
  index_ok (alter_hier f i w) /\
  (forall x, hrec (alter_hier f i w) x = upd (hrec w) o (Some (f ho)) x).
Proof. intros Hok Ho -> Hf. by apply hrec_alter_hier. Qed.

(** The first half of [setParent] when a parent is about to be given:
    afterwards the child has a record without parent. *)
Lemma detachFromParent_valid w p e fuel :
  wf_hierarchy w -> 0 <= p -> 0 <= e < zlen (m_entities w) ->
  (length (m_hierarchy w) <= fuel)%nat ->
  (forall he, hrec w e = Some he -> parent he <> e) ->
  exists wa hea, detachFromParent fuel w p e = Some wa /\
    index_ok wa /\ forest (hrec wa) /\
    zlen (m_entities wa) = zlen (m_entities w) /\
    (length (m_hierarchy wa) <= length (m_hierarchy w) + 1)%nat /\
    hrec wa e = Some hea /\ parent hea < 0.
Proof.
  intros [Hok HF] Hp He Hfuel Hself. unfold detachFromParent.
  assert (isValid p = true) as -> by (by apply Z.leb_le).
  destruct (0 <=? hierarchy (ent w e)) eqn:Hidx.
  2:{ apply Z.leb_gt in Hidx. pose proof (hrec_None_of_idx _ _ Hidx) as Hnone.
      destruct (emplace_record_spec w e Hok He Hnone) as [Hok' Hrec'].
      exists (emplace_record e w), (new_record e). split; [done|]. split; [done|].
      split.
      { apply forest_ext with (upd (hrec w) e (Some (new_record e))); [done|].
        apply forest_add_isolated; [done|done|lia]. }
      split; [apply zlen_zalter|]. split.
      { simpl. rewrite length_app. simpl. lia. }
      split; [|simpl; unfold INVALID_ENTITY; lia].
      rewrite Hrec'. unfold upd. by rewrite decide_True. }
  apply Z.leb_le in Hidx. destruct (idx_nonneg_hrec _ _ Hok Hidx) as [hc Hc].
  rewrite (hrec_hier _ _ _ Hc). unfold isValid.
  destruct (0 <=? parent hc) eqn:Hpar.
  2:{ apply Z.leb_gt in Hpar. exists w, hc. repeat (split; [done || lia|]). done. }
  apply Z.leb_le in Hpar. set (q := parent hc) in *.
  assert (Hqe : q <> e) by (by apply Hself).
  pose proof HF as (HB & HC2 & HC3).
  destruct (HC3 _ _ Hc Hpar) as (hq & csq & Hq & Hchq & Hinq). fold q in Hq.
  destruct (forest_chain_det _ _ _ _ HF Hq Hchq) as [Hndq Hmemq].
  destruct (unlink_phase w e hc q hq csq fuel Hok Hc Hq Hchq Hinq)
    as (pre & post & w1 & -> & Hpre & Hun & Hw3).
  { pose proof (chain_length_le _ _ _ Hok Hchq Hndq). lia. }
  rewrite Hun.
  set (w3 := alter_hier (set_next_sibling INVALID_ENTITY) (hierarchy (ent w e))
               (alter_hier (set_parent INVALID_ENTITY) (hierarchy (ent w e)) w1)) in *.
  destruct Hw3 as (Hok3 & Hent3 & Hlen3 & Hrec3).
  set (L2 := unlinkL (hrec w) q pre e (next_sibling hc)) in *.
  assert (HF2 : forest L2) by (by eapply forest_unlinkL).
  assert (HF3 : forest (hrec w3)).
  { apply forest_ext with L2; [|done]. intros x. by rewrite Hrec3. }
  assert (Hq3 : is_Some (hrec w3 q)).
  { rewrite Hrec3. pose proof (unlinkL_desc (hrec w) q pre e (next_sibling hc) q Hpre) as D.
    fold L2 in D. rewrite Hq in D. destruct D as (h2 & -> & _). eauto. }
  destruct (collectGarbage_gcL w3 q Hok3 Hq3) as [Hok4 Hrec4].
  destruct (collectGarbage_lengths w3 q) as [Hl4e Hl4h].
  pose proof (unlinkL_desc (hrec w) q pre e (next_sibling hc) e Hpre) as D.
  fold L2 in D. rewrite Hc in D. destruct D as (h2 & Hh2 & _ & _ & Hpar2 & _).
  rewrite decide_True in Hpar2 by done.
  exists (collectGarbage w3 q), h2. split; [done|]. split; [done|]. split.
  { apply forest_ext with (gcL (hrec w3) q); [done|by apply forest_gcL]. }
  split; [congruence|]. split.
  { unfold zlen in Hlen3. lia. }
  split; [|lia]. rewrite Hrec4. unfold gcL.
  destruct (hrec w3 q) as [hq3|]; [|by rewrite Hrec3].
  destruct (isValid (parent hq3) || isValid (first_child hq3)); [by rewrite Hrec3|].
  unfold upd. rewrite decide_False by done. by rewrite Hrec3.
Qed.

(** The second half of [setParent] with a parent: the child is linked in
    front of the former children of the parent. *)
Lemma linkToParent_valid w p e he :
  index_ok w -> forest (hrec w) -> hrec w e = Some he -> parent he < 0 ->
  0 <= p < zlen (m_entities w) ->
  let w' := linkToParent w p e in
  index_ok w' /\
  (length (m_hierarchy w') <= length (m_hierarchy w) + 1)%nat /\
  getParent w' e = p /\ getFirstChild w' p = e /\
  exists cs, chain (hrec w') e (e :: cs) /\ (e ∉ cs) /\ NoDup cs /\
    (forall x h, x ∈ e :: cs -> hrec w' x = Some h -> -1 <= next_sibling h).
Proof.
  intros Hok HF He Hpar Hp. unfold linkToParent.
  assert (isValid p = true) as -> by (apply Z.leb_le; lia).
  set (wb := if hierarchy (ent w p) <? 0 then emplace_record p w else w).
  assert (Hb : index_ok wb /\ forest (hrec wb) /\ hrec wb e = Some he /\
               is_Some (hrec wb p) /\ hierarchy (ent wb e) = hierarchy (ent w e) /\
               (length (m_hierarchy wb) <= length (m_hierarchy w) + 1)%nat).
  { unfold wb. destruct (hierarchy (ent w p) <? 0) eqn:Hpi.
    - apply Z.ltb_lt in Hpi. pose proof (hrec_None_of_idx _ _ Hpi) as Hnone.
      destruct (emplace_record_spec w p Hok Hp Hnone) as [Hok' Hrec'].
      assert (p <> e) as Hpe by congruence.
      split; [done|]. split.
      { apply forest_ext with (upd (hrec w) p (Some (new_record p))); [done|].
        apply forest_add_isolated; [done|done|lia]. }
      split. { rewrite Hrec'. unfold upd. by rewrite decide_False. }
      split. { rewrite Hrec'. unfold upd. rewrite decide_True by done. eauto. }
      split. { unfold emplace_record, ent. simpl. by rewrite zget_zalter_ne. }
      simpl. rewrite length_app. simpl. lia.
    - apply Z.ltb_ge in Hpi. split; [done|]. split; [done|]. split; [done|].
      split; [by apply idx_nonneg_hrec|]. split; [done|lia]. }
  destruct Hb as (Hokb & HFb & Heb & [hpb Hpb] & Hci & Hlenb). rewrite <- Hci.
  set (ci := hierarchy (ent wb e)). set (pi := hierarchy (ent wb p)).
  clearbody wb.
  pose proof HFb as (HBb & HC2b & HC3b).
  destruct (HC2b _ _ Hpb) as (cs & Hcs & Hnd & Hmem).
  assert (Hecs : e ∉ cs).
  { intros Hin. destruct (Hmem _ Hin) as (he' & Hhe' & Hpe').
    assert (he' = he) by congruence. subst he'. lia. }
  (* the four writes *)
  destruct (hrec_alter_hier_at wb e he (set_parent p) ci Hokb Heb eq_refl) as [Hok5 Hrec5];
    [done|].
  set (w5 := alter_hier (set_parent p) ci wb) in *.
  assert (He5 : hrec w5 e = Some (set_parent p he)).
  { rewrite Hrec5. unfold upd. by rewrite decide_True. }
  set (T := Math.compose (Math.inverted (getTransform w5 p)) (getTransform w5 e)).
  destruct (hrec_alter_hier_at w5 e _ (set_local_transform T) ci Hok5 He5 eq_refl)
    as [Hok6 Hrec6]; [done|].
  set (w6 := alter_hier (set_local_transform T) ci w5) in *.
  set (he6 := set_local_transform T (set_parent p he)) in *.
  assert (He6 : hrec w6 e = Some he6).
  { rewrite Hrec6. unfold upd. by rewrite decide_True. }
  assert (Hp6 : exists hp6, hrec w6 p = Some hp6 /\ first_child hp6 = first_child hpb /\
                            next_sibling hp6 = next_sibling hpb).
  { destruct (decide (p = e)) as [->|Hpe].
    - exists he6. split; [done|]. assert (hpb = he) by congruence. by subst hpb.
    - exists hpb. split; [|done]. rewrite Hrec6. unfold upd. rewrite decide_False by done.
      rewrite Hrec5. unfold upd. by rewrite decide_False. }
  destruct Hp6 as (hp6 & Hp6 & Hfc6 & Hns6).
  assert (Hhier6 : hier w6 pi = hp6) by exact (hrec_hier w6 p hp6 Hp6).
  rewrite Hhier6, Hfc6.
  set (fc := first_child hpb) in *.
  destruct (hrec_alter_hier_at w6 e _ (set_next_sibling fc) ci Hok6 He6 eq_refl)
    as [Hok7 Hrec7]; [done|].
  set (w7 := alter_hier (set_next_sibling fc) ci w6) in *.
  set (he7 := set_next_sibling fc he6) in *.
  assert (Hp7 : exists hp7, hrec w7 p = Some hp7 /\ parent hp7 = (if decide (p = e) then p else parent hpb)
                            /\ next_sibling hp7 = (if decide (p = e) then fc else next_sibling hpb)).
  { rewrite Hrec7. unfold upd. destruct (decide (p = e)) as [->|Hpe].
    - exists he7. done.
    - exists hp6. split; [done|]. split; [|done].
      rewrite Hrec6 in Hp6. unfold upd in Hp6. rewrite decide_False in Hp6 by done.
      rewrite Hrec5 in Hp6. unfold upd in Hp6. rewrite decide_False in Hp6 by done.
      congruence. }
  destruct Hp7 as (hp7 & Hp7 & Hpar7 & Hns7).
  destruct (hrec_alter_hier_at w7 p hp7 (set_first_child e) pi Hok7 Hp7 eq_refl)
    as [Hok8 Hrec8]; [done|].
  set (w8 := alter_hier (set_first_child e) pi w7) in *.
  assert (He8 : exists he8, hrec w8 e = Some he8 /\ parent he8 = p /\ next_sibling he8 = fc).
  { rewrite Hrec8. unfold upd. destruct (decide (e = p)) as [->|Hpe].
    - exists (set_first_child p hp7). split; [done|]. simpl.
      rewrite decide_True in Hpar7, Hns7 by done. done.
    - exists he7. split; [|done]. rewrite Hrec7. unfold upd. by rewrite decide_True. }
  destruct He8 as (he8 & He8 & Hpar8 & Hns8).
  assert (Hp8 : hrec w8 p = Some (set_first_child e hp7)).
  { rewrite Hrec8. unfold upd. by rewrite decide_True. }
  assert (Hframe : forall x, x ∈ cs -> next_sibling <$> hrec w8 x = next_sibling <$> hrec wb x).
  { intros x Hx. assert (x <> e) as Hxe by (intros ->; done).
    rewrite Hrec8. unfold upd. destruct (decide (x = p)) as [->|Hxp].
    - rewrite Hpb. simpl. rewrite decide_False in Hns7 by done. by rewrite Hns7.
    - rewrite Hrec7. unfold upd. rewrite decide_False by done.
      rewrite Hrec6. unfold upd. rewrite decide_False by done.
      rewrite Hrec5. unfold upd. by rewrite decide_False. }
  split; [done|]. split.
  { unfold w8, w7, w6, w5. simpl. unfold zalter. repeat case_decide;
      rewrite ?length_alter; lia. }
  split. { destruct (hrec_getters _ _ _ He8) as (-> & _). done. }
  split. { destruct (hrec_getters _ _ _ Hp8) as (_ & -> & _). done. }
  exists cs. split.
  { destruct (HBb _ _ Heb) as (He0 & _).
    apply chain_step with he8; [done|done|]. rewrite Hns8.
    by apply chain_frame with (hrec wb). }
  split; [done|]. split; [done|].
  intros x h [->|Hx]%elem_of_cons Hh.
  - assert (h = he8) by congruence. subst h. rewrite Hns8.
    destruct (HBb _ _ Hpb) as (_ & _ & ? & _). done.
  - pose proof (Hframe x Hx) as Hf. rewrite Hh in Hf.
    destruct (hrec wb x) as [hx|] eqn:Hhx; [|done]. simpl in Hf. injection Hf as ->.
    destruct (HBb _ _ Hhx) as (_ & _ & _ & ?). done.
Qed.

Lemma hasEntity_range w e : hasEntity w e = true -> 0 <= e < zlen (m_entities w).
Proof.
  unfold hasEntity. rewrite !andb_true_iff, Z.leb_le, Z.ltb_lt. tauto.
Qed.

(** [setParent] follows its guard.  For live entities [e] and [p] of a
    well-formed hierarchy: when [isDescendant(e, p)] answers false,
    [setParent(p, e)] makes [p] the parent of [e] and [e] occurs exactly
    once among the children of [p]; when it answers true, [setParent(p, e)]
    only logs an error: entities, transforms and hierarchy records stay as
    they were. *)
Lemma setParent_hierarchy w p e fuel :
  wf_hierarchy w -> hasEntity w e = true -> hasEntity w p = true ->
  (length (m_hierarchy w) + 3 < fuel)%nat ->
  (isDescendant fuel w e p = Some false ->
     exists w' cs, setParent fuel w p e = Some w' /\ getParent w' e = p /\
       childrenOf fuel w' p = Some cs /\ count_occ Z.eq_dec cs e = 1%nat) /\
  (isDescendant fuel w e p = Some true ->
     exists w', setParent fuel w p e = Some w' /\
       m_trace w' = m_trace w ++ [LogError cycle_message] /\
       m_hierarchy w' = m_hierarchy w /\ m_entities w' = m_entities w /\
       m_transforms w' = m_transforms w).
Proof.
  intros Hwf He Hp Hfuel. apply hasEntity_range in He, Hp.
  assert (isValid p = true) as Hvalid by (apply Z.leb_le; lia).
  split; intros Hd; unfold setParent; rewrite Hvalid, Hd.
  - destruct (detachFromParent_valid w p e fuel Hwf) as
      (wa & hea & -> & Hoka & HFa & Henta & Hlena & Hea & Hpara); [lia|done|lia| |].
    { intros he Hhe. destruct Hwf as [_ HF].
      by apply (isDescendant_false_not_self_parent w e p fuel). }
    destruct (linkToParent_valid wa p e hea Hoka HFa Hea Hpara) as
      (Hok' & Hlen' & Hpar' & Hfc' & cs & Hch & Hecs & Hnd & Hbound); [lia|].
    eexists. exists (e :: cs). split; [done|]. split; [done|]. split.
    + unfold childrenOf. rewrite Hfc'. apply siblingsFrom_chain; [done|lia|done|].
      assert (NoDup (e :: cs)) as Hnd' by (by apply NoDup_cons).
      pose proof (chain_length_le _ _ _ Hok' Hch Hnd'). lia.
    + simpl. destruct (Z.eq_dec e e) as [_|]; [|done]. f_equal.
      apply count_occ_not_In. by rewrite <- list_elem_of_In.
  - eexists. split; [done|]. done.
Qed.

End WorldFacts.

(** ** The entity store on concrete worlds *)

Module WorldExamples.
Import World Examples WorldFacts.

Local Ltac entity_cases e Hrange :=
  unfold zlen in Hrange; simpl in Hrange;
  let H := fresh in
  assert (H : e = 0 \/ e = 1 \/ e = 2) by lia;
  destruct H as [->|[->| ->]].

Lemma family_world_index_ok : index_ok family_world.
Proof.
  split.
  - intros i h Hh. pose proof (zget_Some _ _ _ Hh) as Hr.
    unfold zlen in Hr. simpl in Hr.
    assert (i = 0 \/ i = 1) as [->| ->] by lia;
      vm_compute in Hh; injection Hh as <-; simpl; eexists; split; reflexivity.
  - intros e d Hd Hi. pose proof (zget_Some _ _ _ Hd) as Hr.
    entity_cases e Hr; vm_compute in Hd; injection Hd as <-; simpl in Hi; try lia;
      simpl; eexists; split; reflexivity.
Qed.

Lemma family_world_forest : forest (hrec family_world).
Proof.
  assert (H1 : hrec family_world 1
               = Some (mkHierarchy 1 0 (-1) (-1) (local_transform (hier family_world 0)))).
  { reflexivity. }
  assert (Hch : chain (hrec family_world) 1 [1]).
  { eapply chain_step; [lia|exact H1|]. apply chain_end. simpl. lia. }
  split; [|split].
  - intros e h Hh. pose proof (hrec_in_range _ _ _ Hh) as Hr.
    entity_cases e Hr; vm_compute in Hh; try discriminate;
      injection Hh as <-; simpl; lia.
  - intros p h Hh. pose proof (hrec_in_range _ _ _ Hh) as Hr.
    entity_cases p Hr; vm_compute in Hh; try discriminate; injection Hh as <-; simpl.
    + exists [1]. split; [exact Hch|]. split; [apply NoDup_singleton|].
      intros c ->%list_elem_of_singleton. eexists. split; [exact H1|reflexivity].
    + exists []. split; [apply chain_end; lia|]. split; [apply NoDup_nil_2|].
      intros c Hc. by apply elem_of_nil in Hc.
  - intros c hc Hh Hpar. pose proof (hrec_in_range _ _ _ Hh) as Hr.
    entity_cases c Hr; vm_compute in Hh; try discriminate; injection Hh as <-;
      simpl in Hpar; try lia.
    simpl. eexists. exists [1]. split; [reflexivity|]. split; [exact Hch|].
    by apply list_elem_of_singleton.
Qed.

Lemma family_world_wf : wf_hierarchy family_world.
Proof. split; [apply family_world_index_ok|apply family_world_forest]. Qed.

(** Entity 1 moves from parent 0 to parent 2. *)
Lemma setParent_hierarchy_witness :
  exists w' cs, setParent 6 family_world 2 1 = Some w' /\ getParent w' 1 = 2 /\
    childrenOf 6 w' 2 = Some cs /\ count_occ Z.eq_dec cs 1 = 1%nat.
Proof.
  apply (proj1 (setParent_hierarchy family_world 2 1 6 family_world_wf
                  eq_refl eq_refl ltac:(simpl; lia))).
  vm_compute. reflexivity.
Defined.

(** C8.  In a fresh world, with A created at the origin with the identity
    rotation and B created at any position with any rotation: after
    [setParent(A, B)] and [setLocalPosition(B, {1,0,0})] the position of B
    is {1,0,0}, and after [setPosition(A, {5,0,0})] it is {6,0,0}. *)
Theorem parent_child_positions (posB : DVec3) (rotB : Quat) (n : nat) :
  parent_child_scenario (4 + n) posB rotB = Some (d_1_0_0, d_6_0_0).
Proof.
  destruct posB as [bx by_ bz], rotB as [rx ry rz rw].
  vm_compute. reflexivity.
Qed.

(** C2 fails on the code: the world with one entity of scale (1, 2, 1/2)
    is written and read back with [vec3_scale = true]; the entity comes back
    with the scale (1, 1, 1). *)
Theorem roundtrip_loses_scale :
  exists w' m rest,
    deserialize empty_world [] true (serialize stretched_world []) = Some (w', m, rest) /\
    rest = [] /\ EntityMap_get m 0 = 0 /\
    getEntityName w' 0 = getEntityName stretched_world 0 /\
    getPosition w' 0 = getPosition stretched_world 0 /\
    getScale stretched_world 0 = mkVec3 F32.one F32.two F32.half /\
    getScale w' 0 = mkVec3 F32.one F32.one F32.one.
Proof. do 3 eexists. vm_compute. repeat split. Qed.

End WorldExamples.

(** * The comparisons of floating-point numbers *)

Module FloatOrderFacts.
Import FloatOrder.

Lemma compare_key x y :
  is_number x = true -> is_number y = true ->
  (SFcompare x y = Some Lt <-> key_lt (key x) (key y)) /\
  (SFcompare x y = Some Gt <-> key_lt (key y) (key x)) /\
  (SFcompare x y = Some Eq <-> key x = key y).
Proof.
  intros Hx Hy. unfold key_lt.
  destruct x as [sx|sx| |sx mx ex]; try discriminate;
    destruct y as [sy|sy| |sy my ey]; try discriminate;
    try destruct sx; try destruct sy; simpl;
    try (repeat split; intros; try discriminate; try reflexivity; try lia; congruence).
  - change (Pos.compare_cont Eq mx my) with (Pos.compare mx my).
    destruct (Z.compare_spec ex ey); destruct (Pos.compare_spec mx my); simpl;
      repeat split; intros; try discriminate; try reflexivity; try lia; try congruence;
      match goal with H : (_, _, _) = (_, _, _) |- _ => injection H as ? ?; lia end.
  - change (Pos.compare_cont Eq mx my) with (Pos.compare mx my).
    destruct (Z.compare_spec ex ey); destruct (Pos.compare_spec mx my); simpl;
      repeat split; intros; try discriminate; try reflexivity; try lia; try congruence;
      match goal with H : (_, _, _) = (_, _, _) |- _ => injection H as ? ?; lia end.
Qed.

Lemma compare_number x y :
  is_number x = true -> is_number y = true -> exists c, SFcompare x y = Some c.
Proof.
  destruct x, y; try discriminate; intros _ _; simpl; eauto.
Qed.

Lemma ltb_key x y :
  is_number x = true -> is_number y = true ->
  (F32.ltb x y = true <-> key_lt (key x) (key y)).
Proof.
  intros Hx Hy. destruct (compare_key x y Hx Hy) as (Hlt & _ & _).
  unfold F32.ltb, SFltb. rewrite <- Hlt.
  destruct (SFcompare x y) as [[]|]; split; intros; congruence.
Qed.

Lemma leb_key x y :
  is_number x = true -> is_number y = true ->
  (F32.leb x y = true <-> ~ key_lt (key y) (key x)).
Proof.
  intros Hx Hy. destruct (compare_key x y Hx Hy) as (Hlt & Hgt & Heq).
  destruct (compare_number x y Hx Hy) as [c Hc].
  unfold F32.leb, SFleb. rewrite <- Hgt, Hc.
  destruct c; split; intros; congruence.
Qed.

Lemma key_lt_trans a b c : key_lt a b -> key_lt b c -> key_lt a c.
Proof. unfold key_lt. lia. Qed.

Lemma key_lt_irrefl a : ~ key_lt a a.
Proof. unfold key_lt. lia. Qed.

Lemma key_le_lt_trans a b c : ~ key_lt b a -> key_lt b c -> key_lt a c.
Proof. unfold key_lt. lia. Qed.

Lemma key_lt_le_trans a b c : key_lt a b -> ~ key_lt c b -> key_lt a c.
Proof. unfold key_lt. lia. Qed.

(** not [x > y] is [x <= y], and [x <= y] excludes [x > y] *)
Lemma gtb_false_leb x y :
  is_number x = true -> is_number y = true ->
  (F32.gtb x y = false <-> F32.leb x y = true).
Proof.
  intros Hx Hy. unfold F32.gtb. fold (F32.ltb y x).
  rewrite (leb_key x y Hx Hy), <- (ltb_key y x Hy Hx).
  destruct (F32.ltb y x); split; intros; congruence.
Qed.

Lemma geb_false_ltb x y :
  is_number x = true -> is_number y = true ->
  (F32.geb x y = false <-> F32.ltb x y = true).
Proof.
  intros Hx Hy. unfold F32.geb. fold (F32.leb y x).
  rewrite (ltb_key x y Hx Hy).
  pose proof (leb_key y x Hy Hx) as H.
  destruct (F32.leb y x); split; intros H1; try congruence.
  - destruct (proj1 H eq_refl H1).
  - destruct (decide (key_lt (key x) (key y))) as [|Hn]; [done|].
    apply H in Hn. congruence.
Qed.

End FloatOrderFacts.

(** * The blend nodes *)

Module Blend1DFacts.
Import Anim FloatOrder FloatOrderFacts.

Lemma child_value_number children i :
  (forall c, c ∈ children -> is_number (b1_value c) = true) ->
  is_number (child_value children i) = true.
Proof.
  intros H. unfold child_value. destruct (zget children i) as [c|] eqn:E; [|done].
  apply H. unfold zget in E. case_decide; [|done]. by eapply list_elem_of_lookup_2.
Qed.

(** The scan stops at the first position whose value lies above the input. *)
Lemma findBracket_first n : forall i children input_val,
  (exists k, i <= k < i + Z.of_nat n /\ F32.ltb input_val (child_value children k) = true) ->
  exists k, i <= k < i + Z.of_nat n /\
    F32.ltb input_val (child_value children k) = true /\
    (forall j, i <= j < k -> F32.ltb input_val (child_value children j) = false) /\
    findBracket n i children input_val =
      Some (mkBlend1DActivePair (k - 1) (Some k)
              (F32.div (F32.sub input_val (child_value children (k - 1)))
                       (F32.sub (child_value children k) (child_value children (k - 1))))).
Proof.
  induction n as [|n IH]; intros i children input_val (k & Hk & Hlt); [lia|].
  simpl. destruct (F32.ltb input_val (child_value children i)) eqn:E.
  - exists i. repeat split; try lia; try done; intros j Hj; lia.
  - destruct (IH (i + 1) children input_val) as (k' & Hk' & Hlt' & Hfirst & Hres).
    + exists k. split; [|done]. destruct (decide (k = i)) as [->|]; [congruence|lia].
    + exists k'. repeat split; try lia; try done.
      intros j Hj. destruct (decide (j = i)) as [->|]; [done|]. apply Hfirst. lia.
Qed.

(** C7: the active pair of a one-dimensional blend whose children are
    sorted ascending by value (all values and the input being numbers): the
    first child alone with weight 0 for an input at or below the first value,
    the last child alone for an input at or above the last value, otherwise
    the one pair of neighbours [i - 1], [i] whose values bracket the input,
    with the weight [(input - value[i-1]) / (value[i] - value[i-1])]; for the
    values 0 and 1 and the input 0.5 these are the two children with the
    weight 0.5. *)
Theorem getActivePair_brackets children input_val :
  children <> [] ->
  (forall c, c ∈ children -> is_number (b1_value c) = true) ->
  is_number input_val = true ->
  (forall i j, 0 <= i < j -> j < zlen children ->
     F32.ltb (child_value children i) (child_value children j) = true) ->
  let value := child_value children in
  let last := zlen children - 1 in
  (F32.leb input_val (value 0) = true ->
     getActivePair children input_val = mkBlend1DActivePair 0 None F32.zero) /\
  (F32.geb input_val (value last) = true ->
     getActivePair children input_val = mkBlend1DActivePair last None F32.zero) /\
  (F32.leb input_val (value 0) = false -> F32.geb input_val (value last) = false ->
     exists i, 1 <= i <= last /\
       F32.leb (value (i - 1)) input_val = true /\ F32.ltb input_val (value i) = true /\
       getActivePair children input_val =
         mkBlend1DActivePair (i - 1) (Some i)
           (F32.div (F32.sub input_val (value (i - 1))) (F32.sub (value i) (value (i - 1)))) /\
       (forall j, 1 <= j <= last -> F32.leb (value (j - 1)) input_val = true ->
          F32.ltb input_val (value j) = true -> j = i)) /\
  getActivePair AnimExamples.unit_blend F32.half = mkBlend1DActivePair 0 (Some 1) F32.half.
Proof.
  intros Hne Hnum Hin Hsorted value last.
  assert (Hv : forall i, is_number (value i) = true)
    by (intros i; by apply child_value_number).
  assert (Hlen : 1 <= zlen children).
  { unfold zlen. destruct children; [done|]. simpl. lia. }
  split; [|split; [|split; [|reflexivity]]].
  - intros Hle. unfold getActivePair. fold value.
    apply (gtb_false_leb _ _ Hin (Hv 0)) in Hle. by rewrite Hle.
  - intros Hge. unfold getActivePair. fold value last.
    destruct (F32.gtb input_val (value 0)) eqn:Hgt.
    + by rewrite Hge.
    + (* the input is at most the first value and at least the last one *)
      destruct (decide (last = 0)) as [->|Hlast]; [done|].
      exfalso.
      assert (Hs : F32.ltb (value 0) (value last) = true)
        by (apply Hsorted; unfold last; lia).
      apply (ltb_key _ _ (Hv 0) (Hv last)) in Hs.
      apply (gtb_false_leb _ _ Hin (Hv 0)), (leb_key _ _ Hin (Hv 0)) in Hgt.
      unfold F32.geb in Hge. fold (F32.leb (value last) input_val) in Hge.
      apply (leb_key _ _ (Hv last) Hin) in Hge.
      apply Hgt. by eapply key_lt_le_trans.
  - intros Hle Hge.
    assert (Hgt : F32.gtb input_val (value 0) = true).
    { destruct (F32.gtb input_val (value 0)) eqn:E; [done|].
      apply (gtb_false_leb _ _ Hin (Hv 0)) in E. congruence. }
    apply (geb_false_ltb _ _ Hin (Hv last)) in Hge as Hlt.
    assert (Hlast : 1 <= last).
    { destruct (decide (last = 0)) as [E|]; [|unfold last in *; lia].
      rewrite E in Hlt. unfold F32.gtb in Hgt. fold (F32.ltb (value 0) input_val) in Hgt.
      apply (ltb_key _ _ Hin (Hv 0)) in Hlt. apply (ltb_key _ _ (Hv 0) Hin) in Hgt.
      destruct (key_lt_irrefl (key input_val)). by eapply key_lt_trans. }
    destruct (findBracket_first (Nat.pred (List.length children)) 1 children input_val)
      as (k & Hk & Hltk & Hfirst & Hres).
    { exists last. split; [|done]. unfold last, zlen in *. lia. }
    assert (Hbelow : F32.leb (value (k - 1)) input_val = true).
    { destruct (decide (k = 1)) as [->|Hk1].
      - change (1 - 1) with 0. apply (leb_key _ _ (Hv 0) Hin).
        unfold F32.gtb in Hgt. fold (F32.ltb (value 0) input_val) in Hgt.
        apply (ltb_key _ _ (Hv 0) Hin) in Hgt. intros Hc.
        destruct (key_lt_irrefl (key input_val)). by eapply key_lt_trans.
      - apply (gtb_false_leb _ _ (Hv (k - 1)) Hin). unfold F32.gtb.
        apply Hfirst. lia. }
    exists k. split; [unfold last, zlen in *; lia|]. split; [done|]. split; [done|]. split.
    + unfold getActivePair. fold value last. rewrite Hgt, Hge, Hres. done.
    + intros j Hj Hjle Hjlt.
      destruct (Z.lt_trichotomy j k) as [Hc|[Hc|Hc]]; [|done|].
      * rewrite Hfirst in Hjlt by lia. done.
      * exfalso.
        apply (ltb_key _ _ Hin (Hv k)) in Hltk.
        apply (leb_key _ _ (Hv (j - 1)) Hin) in Hjle.
        destruct (decide (k = j - 1)) as [->|Hn]; [done|].
        assert (Hs : F32.ltb (value k) (value (j - 1)) = true)
          by (apply Hsorted; unfold last in *; lia).
        apply (ltb_key _ _ (Hv k) (Hv (j - 1))) in Hs.
        apply Hjle. by eapply key_lt_trans.
Qed.

Lemma getActivePair_brackets_witness :
  exists i, 1 <= i <= 1 /\
    F32.leb (child_value AnimExamples.unit_blend (i - 1)) F32.half = true /\
    F32.ltb F32.half (child_value AnimExamples.unit_blend i) = true /\
    getActivePair AnimExamples.unit_blend F32.half =
      mkBlend1DActivePair (i - 1) (Some i)
        (F32.div (F32.sub F32.half (child_value AnimExamples.unit_blend (i - 1)))
                 (F32.sub (child_value AnimExamples.unit_blend i)
                          (child_value AnimExamples.unit_blend (i - 1)))).
Proof.
  assert (Hnum : forall c, c ∈ AnimExamples.unit_blend -> is_number (b1_value c) = true).
  { intros c Hc. unfold AnimExamples.unit_blend in Hc.
    apply elem_of_cons in Hc as [->|Hc]; [reflexivity|].
    apply elem_of_cons in Hc as [->|Hc]; [reflexivity|].
    by apply elem_of_nil in Hc. }
  assert (Hsorted : forall i j, 0 <= i < j -> j < zlen AnimExamples.unit_blend ->
            F32.ltb (child_value AnimExamples.unit_blend i)
                    (child_value AnimExamples.unit_blend j) = true).
  { intros i j Hi Hj. change (zlen AnimExamples.unit_blend) with 2 in Hj.
    assert (i = 0) as -> by lia. assert (j = 1) as -> by lia. reflexivity. }
  destruct (getActivePair_brackets AnimExamples.unit_blend F32.half
              ltac:(discriminate) Hnum eq_refl Hsorted) as (_ & _ & H & _).
  destruct (H eq_refl eq_refl) as (i & Hi & Hle & Hlt & Hres & _).
  exists i. repeat split; try done; apply Hi.
Defined.

End Blend1DFacts.

Module Blend2DFacts.
Import Anim.

Lemma pop_snoc {A} (l : list A) x : pop (l ++ [x]) = l.
Proof.
  unfold pop. rewrite length_app. simpl.
  replace (List.length l + 1 - 1)%nat with (List.length l) by lia.
  by rewrite take_app_length.
Qed.

Lemma Forall_zalter {A} (P : A -> Prop) f i (l : list A) :
  Forall P l -> (forall x, P x -> P (f x)) -> Forall P (zalter f i l).
Proof.
  intros Hl Hf. unfold zalter. case_decide; [|done].
  apply Forall_alter; [done|]. intros x _. apply Hf.
Qed.

Lemma Forall_swapAndPop {A} (P : A -> Prop) i (l : list A) :
  Forall P l -> Forall P (swapAndPop i l).
Proof.
  intros Hl. unfold swapAndPop, back. destruct (last l) as [x|] eqn:E; [|done].
  unfold pop. apply Forall_take, Forall_zalter; [done|].
  intros _ _. rewrite Forall_forall in Hl. apply Hl.
  apply last_Some in E as [l' ->]. apply elem_of_app. right. by apply list_elem_of_singleton.
Qed.

Lemma Forall_zget {A} (P : A -> Prop) (l : list A) i x :
  Forall P l -> zget l i = Some x -> P x.
Proof.
  intros Hl E. unfold zget in E. case_decide; [|done].
  rewrite Forall_forall in Hl. apply Hl. by eapply list_elem_of_lookup_2.
Qed.

Lemma pushTriangle_within n children a b c ts :
  Forall (triangle_within n) ts -> 0 <= a < n -> 0 <= b < n -> 0 <= c < n ->
  Forall (triangle_within n) (pushTriangle children a b c ts).
Proof.
  intros Hts Ha Hb Hc. unfold pushTriangle. apply Forall_app. split; [done|].
  apply Forall_singleton. unfold triangle_within. simpl. lia.
Qed.

Lemma collectEdges_within n children p ti : forall ts es,
  Forall (triangle_within n) ts -> Forall (edge_within n) es ->
  Forall (triangle_within n) (fst (collectEdges ti children p ts es)) /\
  Forall (edge_within n) (snd (collectEdges ti children p ts es)).
Proof.
  induction ti as [|ti IH]; intros ts es Hts Hes; [done|].
  simpl. destruct (zget ts (Z.of_nat ti)) as [t|] eqn:E; [|by apply IH].
  destruct (F32.gtb _ _); [by apply IH|].
  destruct (Forall_zget _ _ _ _ Hts E) as (Ha & Hb & Hc).
  apply IH; [by apply Forall_swapAndPop|].
  apply Forall_app. split; [done|].
  repeat (apply Forall_cons; split; [unfold edge_within; simpl; lia|]). done.
Qed.

Lemma markAgainst_within n j : forall i es,
  Forall (edge_within n) es -> Forall (edge_within n) (markAgainst j i es).
Proof.
  induction j as [|j IH]; intros i es Hes; [done|].
  simpl. destruct (zget es i); [|by apply IH].
  destruct (zget es (Z.of_nat j)); [|by apply IH].
  destruct (Edge_eq _ _); [|by apply IH].
  apply IH. by do 2 (apply Forall_zalter; [|by intros []]).
Qed.

Lemma markDuplicates_within n i : forall es,
  Forall (edge_within n) es -> Forall (edge_within n) (markDuplicates i es).
Proof.
  induction i as [|i IH]; intros es Hes; [done|].
  change (markDuplicates (S i) es)
    with (markDuplicates i (markAgainst (S i) (Z.of_nat (S i)) es)).
  apply IH. by apply markAgainst_within.
Qed.

Lemma pushEdges_within n children ch es : forall ts,
  0 <= ch < n -> Forall (edge_within n) es -> Forall (triangle_within n) ts ->
  Forall (triangle_within n)
    (fold_left (fun ts e => pushTriangle children (edge_a e) (edge_b e) ch ts) es ts).
Proof.
  induction es as [|e es IH]; intros ts Hch Hes Hts; [done|].
  simpl. apply Forall_cons in Hes as [[Ha Hb] Hes].
  apply IH; [done..|]. by apply pushTriangle_within.
Qed.

Lemma insertPoint_within n children ch ts :
  0 <= ch < n -> Forall (triangle_within n) ts ->
  Forall (triangle_within n) (insertPoint children ch ts).
Proof.
  intros Hch Hts. unfold insertPoint.
  destruct (collectEdges_within n children (value2 children ch) (List.length ts) ts []
              Hts (Forall_nil_2 _)) as [H1 H2].
  destruct (collectEdges _ _ _ _ _) as [ts' es]. simpl in H1, H2.
  apply pushEdges_within; [done| |done].
  apply Forall_forall. intros e [_ He]%list_elem_of_filter. revert e He.
  apply Forall_forall. by apply markDuplicates_within.
Qed.

Lemma insertPoints_within n children k : forall ch ts,
  0 <= ch -> ch + Z.of_nat k <= n -> Forall (triangle_within n) ts ->
  Forall (triangle_within n) (insertPoints k ch children ts).
Proof.
  induction k as [|k IH]; intros ch ts Hch Hn Hts; [done|].
  simpl. apply IH; [lia..|]. apply insertPoint_within; [lia|done].
Qed.

(** C10: [dataChanged] gives back the children it was given, the three
    vertices of the bounding triangle are gone, and every triangle it leaves
    has its three indices below the number of children: the triangles refer
    to real children only. *)
Theorem dataChanged_real_vertices (m_children : list Blend2DChild) :
  fst (dataChanged m_children) = m_children /\
  Forall (triangle_within (zlen m_children)) (snd (dataChanged m_children)).
Proof.
  unfold dataChanged.
  destruct (zlen m_children <? 3) eqn:Hsize; [done|]. apply Z.ltb_ge in Hsize.
  destruct (bounds m_children) as [mn mx].
  cbv zeta. rewrite !pop_snoc. split; [done|].
  cbn [snd].
  match goal with |- Forall _ (filter _ (insertPoints ?k 1 ?cs ?ts)) =>
    assert (Hinv : Forall (triangle_within (zlen cs)) (insertPoints k 1 cs ts)) end.
  { assert (Hlen : forall (l : list Blend2DChild) x, zlen (l ++ [x]) = zlen l + 1)
      by (intros; unfold zlen; rewrite length_app; simpl; lia).
    apply insertPoints_within; [lia|rewrite !Hlen; lia|].
    rewrite !Hlen.
    repeat (apply pushTriangle_within; [|lia..]). done. }
  apply Forall_forall. intros t [Hin Ht]%list_elem_of_filter.
  rewrite Forall_forall in Hinv. destruct (Hinv t Ht) as (Ha & Hb & Hc).
  apply orb_false_iff in Hin as [Hin Hc']. apply orb_false_iff in Hin as [Ha' Hb'].
  apply Z.leb_gt in Ha', Hb', Hc'. unfold triangle_within. lia.
Qed.

End Blend2DFacts.

Module ConditionFacts.
Import Anim AnimExamples.

(** C1: the stream of a condition node in the middle of its crossfade
    holds the header and the data of both branches.  The state is reached by
    entering the node with the condition false and updating it once with the
    condition true.  The next [update] and [getPose] read all four words and
    stop at [rest], the data of the nodes that follow; [skip] reads the
    header and the data of one branch only and stops one word early.

    When a select node drops such a branch at the end of its own crossfade,
    the node after it is updated from the wrong word: the clip entered one
    tick of 1000 units before is written back at 2000, and one word of the
    stream stays unread. *)
Theorem condition_skip_misaligned (rest : list Z) :
  entered crossfade_tree false F32.zero = Some [32768; 0; 0] /\
  tick crossfade_tree true F32.zero [32768; 0; 0] = Some ([0; 1; 1000; 0], []) /\
  tick crossfade_tree true F32.zero ([0; 1; 1000; 0] ++ rest)
    = Some ([1000; 1; 2000; 1000], rest) /\
  sampled crossfade_tree ([0; 1; 1000; 0] ++ rest) = Some rest /\
  skipped crossfade_tree ([0; 1; 1000; 0] ++ rest) = Some (0 :: rest) /\
  entered select_tree false F32.zero = Some [0; 0; 0; 32768; 0; 0] /\
  tick select_tree true F32.zero [0; 0; 0; 32768; 0; 0]
    = Some ([0; 0; 1000; 0; 1; 1000; 0], []) /\
  tick select_tree true F32.one [0; 0; 1000; 0; 1; 1000; 0]
    = Some ([0; 1; 0; 1000; 1; 2000; 1000; 0], []) /\
  tick select_tree true F32.one [0; 1; 0; 1000; 1; 2000; 1000; 0]
    = Some ([1; 1; 0; 2000], [0]).
Proof.
  repeat (split; [vm_compute; reflexivity|]). vm_compute; reflexivity.
Qed.

End ConditionFacts.

(** * The animator update *)

Module AnimatorFacts.
Import Anim AnimationModule ModuleExamples.

Lemma read_word_frame ctx t ctx' :
  read_word ctx = Some (t, ctx') ->
  input_runtime ctx = t :: input_runtime ctx' /\ data ctx' = data ctx /\
  animations ctx' = animations ctx /\ inputs ctx' = inputs ctx /\
  time_delta ctx' = time_delta ctx /\ model_ready ctx' = model_ready ctx.
Proof.
  unfold read_word. destruct (input_runtime ctx) as [|w r] eqn:E; [done|].
  intros [= <- <-]. done.
Qed.

Lemma animation_at_frame ctx ctx' slot :
  animations ctx' = animations ctx -> animation_at ctx' slot = animation_at ctx slot.
Proof. unfold animation_at. by intros ->. Qed.

Section Chains.
Context {BonePose Model ControllerIK : Type}.
Variable updateIK : ControllerIK -> IK -> BonePose -> Model -> BonePose.
Variable res : Controller (ControllerIK := ControllerIK).
Variable model : Model.

(** The chains of the slots [n], [n + 1], ... solved one after the other *)
Lemma solveChains_prefix (k : nat) : forall (iks : list IK) (n : nat) (pose : BonePose),
  (forall i ik, (i < k)%nat -> iks !! i = Some ik -> F32.eqb (weight ik) F32.zero = false) ->
  (forall ik, iks !! k = Some ik -> F32.eqb (weight ik) F32.zero = true) ->
  solveChains updateIK res (Z.of_nat n) iks pose model =
  fold_left (fun p '(i, ik) => updateIK (m_ik res (Z.of_nat i)) ik p model)
            (imap (fun i ik => ((n + i)%nat, ik)) (take k iks)) pose.
Proof.
  induction k as [|k IH]; intros iks n pose Hbefore Hat.
  - rewrite take_0. simpl. destruct iks as [|ik iks]; [done|].
    simpl. by rewrite (Hat ik eq_refl).
  - destruct iks as [|ik iks]; [done|].
    simpl. rewrite (Hbefore 0%nat ik) by (done || lia).
    rewrite Nat.add_0_r.
    replace (Z.of_nat n + 1) with (Z.of_nat (S n)) by lia.
    rewrite (IH iks (S n)).
    + f_equal. apply imap_ext. intros i x _. simpl. f_equal. lia.
    + intros i ik' Hi Hl. apply (Hbefore (S i)); [lia|done].
    + intros ik' Hl. by apply Hat.
Qed.

End Chains.

(** C6, as the code has it: the IK slots are worked through in their
    order and the loop ends at the first slot whose weight is 0.  With [k]
    the number of slots before that one, the chains of the slots 0 to
    [k - 1] are solved, one after the other, and no other chain is. *)
Theorem solveChains_until_zero_weight {BonePose Model ControllerIK : Type}
    (updateIK : ControllerIK -> IK -> BonePose -> Model -> BonePose)
    (res : Controller (ControllerIK := ControllerIK)) (model : Model)
    (iks : list IK) (pose : BonePose) (k : nat) :
  (forall i ik, (i < k)%nat -> iks !! i = Some ik -> F32.eqb (weight ik) F32.zero = false) ->
  (forall ik, iks !! k = Some ik -> F32.eqb (weight ik) F32.zero = true) ->
  solveChains updateIK res 0 iks pose model =
  fold_left (fun p '(i, ik) => updateIK (m_ik res (Z.of_nat i)) ik p model)
            (imap pair (take k iks)) pose.
Proof.
  intros Hbefore Hat.
  exact (solveChains_prefix updateIK res model k iks 0 pose Hbefore Hat).
Qed.

Lemma solveChains_until_zero_weight_witness :
  chains (controller (AnimationNode 0 LOOPED)) two_leading_chains = [Chain 0; Chain 1].
Proof.
  unfold chains.
  rewrite (solveChains_until_zero_weight record_chain _ true two_leading_chains [] 2).
  - reflexivity.
  - intros i ik Hi Hl. destruct i as [|[|i]]; [| |lia]; injection Hl as <-; reflexivity.
  - intros ik Hl. injection Hl as <-. reflexivity.
Defined.

(** C6 fails as stated: the chain of the second slot has the weight 1 and
    is not solved, because the weight of the first slot is 0; the tick of
    the animator leaves the pose without it. *)
Lemma chain_behind_zero_weight_not_solved :
  (exists ik, second_chain_only !! 1%nat = Some ik /\ F32.gtb (weight ik) F32.zero = true) /\
  chains (controller (AnimationNode 0 LOOPED)) second_chain_only = [] /\
  pose_after (update_traced 3 scene (clip_animator second_chain_only) F32.one)
    = Some [RelativePose; BlendStack; AbsolutePose].
Proof.
  split; [eexists; split; reflexivity|]. split; [reflexivity|].
  vm_compute. reflexivity.
Qed.

(** C5, as the code has it: when a resource is missing or not ready, no
    update fails, and
    - the animation leaf advances its clock, reports the identity as root
      motion and samples nothing into the pose;
    - sampling an animation that is missing or not ready, or sampling for a
      model that is not ready, leaves the pose as it is;
    - the two-dimensional blend, when one of its three active animations is
      missing or not ready, writes its playback position back unchanged;
    - the update of an animator whose controller, model instance, model or
      pose is not available gives back the scene as it was, pose and world
      transform included, and the animator keeps the root motion it held. *)
Theorem missing_resources_early_return :
  (forall m_slot m_flags ctx rm t ctx' weight pose mask,
     read_word ctx = Some (t, ctx') ->
     is_ready (animation_at ctx m_slot) = false ->
     AnimationNode_update m_slot m_flags ctx rm
       = Some (write_word (Time_add t (time_delta ctx)) ctx', LocalRigidTransform_IDENTITY) /\
     getPose (AnimationNode_ops m_slot m_flags) ctx weight pose mask = Some (ctx', pose)) /\
  (forall ctx time rel_time weight slot pose mask looped,
     is_ready (animation_at ctx slot) = false \/ model_ready ctx = false ->
     samplePose ctx time weight slot pose mask looped = pose /\
     samplePoseRel ctx rel_time weight slot pose mask looped = pose) /\
  (forall x y children triangles ctx rm relt0 ctx',
     read_float ctx = Some (relt0, ctx') ->
     2 < zlen children ->
     (let trio := getActiveTrio children triangles
                    (mkVec2 (getInputValue ctx x) (getInputValue ctx y)) in
      is_ready (animation_at ctx (child_slot2 children (trio_a trio))) &&
      is_ready (animation_at ctx (child_slot2 children (trio_b trio))) &&
      is_ready (animation_at ctx (child_slot2 children (trio_c trio))) = false) ->
     option_map fst (Blend2DNode_update x y children triangles ctx rm)
       = Some (write_float relt0 ctx')) /\
  (forall (BonePose Model ControllerIK : Type) model_isReady getRelativePose evalBlendStack
          updateIK computeAbsolute fuel
          (s : Scene (BonePose := BonePose) (Model := Model))
          (animator : Animator (ControllerIK := ControllerIK)) time_delta,
     (resource animator = None \/
      (exists res, resource animator = Some res /\ isReady res = false) \/
      World.hasComponent (m_world s) (entity animator) (model_instance_type s) = false \/
      getModelInstanceModel s (entity animator) = None \/
      (exists model, getModelInstanceModel s (entity animator) = Some model /\
                     model_isReady model = false) \/
      lockPose s (entity animator) = None) ->
     exists animator',
       updateAnimator model_isReady getRelativePose evalBlendStack updateIK computeAbsolute
                      fuel s animator time_delta = Some (s, animator') /\
       root_motion animator' = root_motion animator /\
       entity animator' = entity animator /\
       flags animator' = flags animator /\
       inverse_kinematics animator' = inverse_kinematics animator).
Proof.
  assert (Hsample : forall ctx time rel_time weight slot pose mask looped,
     is_ready (animation_at ctx slot) = false \/ model_ready ctx = false ->
     samplePose ctx time weight slot pose mask looped = pose /\
     samplePoseRel ctx rel_time weight slot pose mask looped = pose).
  { intros ctx time rel_time weight slot pose mask looped H.
    unfold samplePoseRel, samplePose.
    destruct (animation_at ctx slot) as [anim|]; [|done].
    destruct (model_ready ctx); simpl; [|done].
    destruct H as [H|H]; [|done]. simpl in H. by rewrite H. }
  split; [|split; [exact Hsample|split]].
  - intros m_slot m_flags ctx rm t ctx' weight pose mask Hread Hnot.
    destruct (read_word_frame _ _ _ Hread) as (_ & _ & Hanims & _ & Hdt & _).
    split.
    + unfold AnimationNode_update. rewrite Hread.
      rewrite (animation_at_frame ctx ctx' m_slot Hanims), Hdt.
      destruct (animation_at ctx m_slot) as [anim|]; [|done].
      simpl in Hnot. by rewrite Hnot.
    + simpl. rewrite Hread. f_equal. f_equal.
      apply (Hsample ctx' t F32.zero). left.
      by rewrite (animation_at_frame ctx ctx' m_slot Hanims).
  - intros x y children triangles ctx rm relt0 ctx' Hread Hsize Hnot.
    unfold Blend2DNode_update. rewrite Hread.
    apply Z.ltb_lt in Hsize. rewrite Hsize.
    assert (Hw : exists w, read_word ctx = Some (w, ctx')).
    { unfold read_float in Hread. destruct (read_word ctx) as [[w c]|]; [|done].
      injection Hread as _ <-. by exists w. }
    destruct Hw as [w Hw].
    destruct (read_word_frame _ _ _ Hw) as (_ & _ & Hanims & Hinputs & _ & _).
    assert (Hin : forall i, getInputValue ctx' i = getInputValue ctx i)
      by (intros i; unfold getInputValue; by rewrite Hinputs).
    rewrite !Hin, !(animation_at_frame ctx ctx' _ Hanims).
    cbv zeta in Hnot.
    destruct (animation_at ctx (child_slot2 children (trio_a _))) as [a|]; [|done].
    destruct (animation_at ctx (child_slot2 children (trio_b _))) as [b|]; [|done].
    destruct (animation_at ctx (child_slot2 children (trio_c _))) as [c|]; [|done].
    simpl in Hnot. by rewrite Hnot.
  - intros BonePose Model ControllerIK model_isReady getRelativePose evalBlendStack
           updateIK computeAbsolute fuel s animator time_delta H.
    unfold updateAnimator.
    destruct (resource animator) as [res|] eqn:Hres; [|by eexists].
    destruct (isReady res) eqn:Hready; [|by eexists].
    simpl.
    destruct (World.hasComponent _ _ _) eqn:Hcomp; [|by eexists].
    destruct (getModelInstanceModel s (entity animator)) as [model|] eqn:Hmodel;
      [|by eexists].
    destruct (model_isReady model) eqn:Hmr; [|by eexists].
    destruct (lockPose s (entity animator)) as [pose|] eqn:Hpose; [|by eexists].
    exfalso.
    destruct H as [H|[(r & H & H')|[H|[H|[(m & H & H')|H]]]]]; congruence.
Qed.

Lemma missing_resources_early_return_witness :
  (AnimationNode_update 0 LOOPED (rewind (runtime [0])) step_x
     = Some (write_word (Time_add 0 0) (runtime []), LocalRigidTransform_IDENTITY)) /\
  (samplePose (runtime []) 0 F32.one 0 [] 0 true = []) /\
  (option_map fst
     (Blend2DNode_update 0 1 blend2d_children (snd (dataChanged blend2d_children))
                         (rewind (runtime [0])) step_x)
     = Some (write_float F32.zero (runtime []))) /\
  (exists animator',
     update_traced 3 scene idle_animator F32.one = Some (scene, animator') /\
     root_motion animator' = step_x).
Proof.
  destruct missing_resources_early_return as (Hleaf & Hsample & Hblend & Hmodule).
  split; [|split; [|split]].
  - exact (proj1 (Hleaf 0 LOOPED (rewind (runtime [0])) step_x 0 (runtime [])
                        F32.one [] 0 eq_refl eq_refl)).
  - exact (proj1 (Hsample (runtime []) 0 F32.zero F32.one 0 [] 0 true (or_introl eq_refl))).
  - exact (Hblend 0 1 blend2d_children (snd (dataChanged blend2d_children))
                  (rewind (runtime [0])) step_x F32.zero (runtime []) eq_refl eq_refl eq_refl).
  - destruct (Hmodule (list PoseStep) bool Z (fun model => model)
                (fun _ pose => pose ++ [RelativePose]) (fun _ pose => pose ++ [BlendStack])
                record_chain (fun _ pose => pose ++ [AbsolutePose])
                3%nat scene idle_animator F32.one (or_introl eq_refl))
      as (animator' & Hrun & Hrm & _).
    exists animator'. split; [exact Hrun|exact Hrm].
Defined.

(** C5 fails as stated.  An animator whose controller is gone keeps the
    root motion of its last tick, one unit along x, where the claim has the
    identity.  With no animation bound, the two-dimensional blend hands back
    the root motion it was given, where the animation leaf reports the
    identity; the entity of an animator over the blend, which applies its
    root motion, moves by the root motion of the tick before. *)
Lemma kept_root_motion_not_identity :
  step_x <> LocalRigidTransform_IDENTITY /\
  root_motion_after (update_traced 3 scene idle_animator F32.one) = Some step_x /\
  option_map snd (update (ops blend2d_tree) (rewind (runtime [0])) step_x) = Some step_x /\
  option_map snd (update (ops (AnimationNode 0 LOOPED)) (rewind (runtime [0])) step_x)
    = Some LocalRigidTransform_IDENTITY /\
  root_motion_after (update_traced 3 scene (moving_animator blend2d_tree) F32.one)
    = Some step_x /\
  position_after (update_traced 3 scene (moving_animator blend2d_tree) F32.one)
    = Some Examples.d_1_0_0 /\
  position_after (update_traced 3 scene (moving_animator (AnimationNode 0 LOOPED)) F32.one)
    = Some DVec3_ZERO.
Proof.
  split; [discriminate|].
  repeat (split; [vm_compute; reflexivity|]). vm_compute; reflexivity.
Qed.

End AnimatorFacts.

(** * The transitions of the group node *)

Module GroupFacts.
Import Anim.

(** The exit point of a gate of 0.5 on a loop of two seconds is the tick
    [ONE_SECOND] of the running loop; it is reached when it lies in
    [[beg, beg + time_delta)]. *)
Lemma exitTimeReached_half current ctx :
  length current ctx = 2 * ONE_SECOND ->
  0 <= time current ctx -> 0 <= time_delta ctx ->
  time current ctx + time_delta ctx < 2 ^ 32 ->
  let beg := time current ctx in
  let mark := beg - beg mod (2 * ONE_SECOND) + ONE_SECOND in
  exitTimeReached current ctx F32.half = true <-> beg <= mark < beg + time_delta ctx.
Proof.
  intros Hlen Hbeg Hdt Hend beg mark. unfold exitTimeReached. rewrite Hlen. fold beg.
  replace (Time_fromSeconds (F32.mul F32.half (Time_seconds (2 * ONE_SECOND))))
    with ONE_SECOND by (vm_compute; reflexivity).
  unfold Time_add, Time_sub, Time_mod, u32. fold beg in Hbeg, Hend. subst mark.
  change (2 * ONE_SECOND) with 65536. change ONE_SECOND with 32768.
  change (2 ^ 32) with 4294967296 in *.
  pose proof (Z.mod_pos_bound beg 65536 eq_refl) as Hm.
  pose proof (Z.div_mod beg 65536 ltac:(lia)) as Hd.
  assert (Hq : beg / 65536 < 65536) by (apply Z.div_lt_upper_bound; lia).
  assert (Hq0 : 0 <= beg / 65536) by (apply Z.div_pos; lia).
  rewrite (Z.mod_small (beg + time_delta ctx)) by lia.
  rewrite (Z.mod_small (beg - beg mod 65536)) by lia.
  rewrite (Z.mod_small (beg - beg mod 65536 + 32768)) by lia.
  rewrite negb_true_iff, orb_false_iff, Z.ltb_ge, Z.leb_gt. lia.
Qed.

Lemma read_GroupData_cons ctx a b c d rest :
  input_runtime ctx = a :: b :: c :: d :: rest ->
  read_GroupData ctx = Some (a, b, c, d, with_input_runtime rest ctx).
Proof.
  intros H. unfold read_GroupData, read3, read_word. rewrite H. reflexivity.
Qed.

(** Transitions that the loop passes by one of its first three tests *)
Lemma scanTransitions_passed m_children current ctx from pre : forall l waiting,
  Forall (fun p => tr_to p = from \/ (tr_from p <> from /\ tr_from p <> ANY) \/
                   (tr_to p <> ANY /\ guard m_children (tr_to p) ctx = false)) pre ->
  scanTransitions m_children current ctx from from (pre ++ l) waiting
  = scanTransitions m_children current ctx from from l waiting.
Proof.
  induction pre as [|p pre IH]; intros l waiting Hpre; [done|].
  apply Forall_cons in Hpre as [Hp Hpre].
  rewrite <- (IH l waiting Hpre). simpl.
  destruct (tr_to p =? from) eqn:E1; [done|].
  destruct (negb (tr_from p =? from) && negb (tr_from p =? ANY)) eqn:E2; [done|].
  destruct (negb (tr_to p =? ANY) && negb (guard m_children (tr_to p) ctx)) eqn:E3; [done|].
  exfalso. destruct Hp as [Hp|[[Hp1 Hp2]|[Hp1 Hp2]]].
  - apply Z.eqb_neq in E1. done.
  - apply Z.eqb_neq in Hp1, Hp2. by rewrite Hp1, Hp2 in E2.
  - apply Z.eqb_neq in Hp1. by rewrite Hp1, Hp2 in E3.
Qed.

(** C4: a group node that is not in a crossfade and whose current child
    fails its guard or is not selectable, with a transition out of that child
    gated at the exit time 0.5, the child being a loop of two seconds; the
    transitions before it in the list do not apply.  With [beg] the time of
    the child and [mark] the one-second point of its running loop: in a tick
    with [beg <= mark < beg + time_delta] the scan of the transitions ends
    with this transition and [update] starts the crossfade to its target; in
    every other tick the scan passes it, holding back the selection of
    another child, and with no transition after it [update] keeps the
    current child playing. *)
Theorem exit_time_gate_window
    (m_blend_length : Time) (m_children : list GroupChild)
    (pre post : list Transition) (tr : Transition)
    (ctx : RuntimeContext) (rm : LocalRigidTransform)
    (from t blend_length : Z) (rest : list Z) (current : GroupChild) :
  input_runtime ctx = from :: from :: t :: blend_length :: rest ->
  let ctx1 := with_input_runtime rest ctx in
  let node := group_node current in
  let beg := time node ctx1 in
  let mark := beg - beg mod (2 * ONE_SECOND) + ONE_SECOND in
  let nodes := List.map group_node m_children in
  zget m_children from = Some current ->
  (eval (child_condition current) ctx1 = false \/ selectable current = false) ->
  length node ctx1 = 2 * ONE_SECOND ->
  0 <= beg -> 0 <= time_delta ctx -> beg + time_delta ctx < 2 ^ 32 ->
  tr_exit_time tr = F32.half ->
  (tr_from tr = from \/ tr_from tr = ANY) -> tr_to tr <> from -> tr_to tr <> ANY ->
  guard m_children (tr_to tr) ctx1 = true ->
  Forall (fun p => tr_to p = from \/ (tr_from p <> from /\ tr_from p <> ANY) \/
                   (tr_to p <> ANY /\ guard m_children (tr_to p) ctx1 = false)) pre ->
  (beg <= mark < beg + time_delta ctx ->
     scanTransitions m_children node ctx1 from from (pre ++ tr :: post) false = Fires tr /\
     GroupNode_update m_blend_length m_children (pre ++ tr :: post) ctx rm
     = start_crossfade nodes from (tr_to tr) (write_GroupData (tr_blend_length tr)) ctx1 rm) /\
  (~ (beg <= mark < beg + time_delta ctx) ->
     scanTransitions m_children node ctx1 from from (pre ++ tr :: post) false
     = scanTransitions m_children node ctx1 from from post true /\
     (post = [] ->
      GroupNode_update m_blend_length m_children (pre ++ [tr]) ctx rm
      = keep_playing nodes from from t (write_GroupData blend_length) ctx1 rm)).
Proof.
  intros Hin ctx1 node beg mark nodes Hcur Hguard Hlen Hbeg Hdt Hend Hexit Hfrom Hto Hany
         Htarget Hpre.
  subst nodes.
  pose proof (exitTimeReached_half node ctx1 Hlen Hbeg Hdt Hend) as Hgate.
  cbv zeta in Hgate. fold beg in Hgate. fold mark in Hgate.
  assert (Hhead : forall waiting,
            scanTransitions m_children node ctx1 from from (tr :: post) waiting
            = if exitTimeReached node ctx1 F32.half then Fires tr
              else scanTransitions m_children node ctx1 from from post true).
  { intros waiting. simpl.
    apply Z.eqb_neq in Hto, Hany. rewrite Hto, Hany, Htarget, Hexit.
    replace (negb (tr_from tr =? from) && negb (tr_from tr =? ANY)) with false
      by (destruct Hfrom as [-> | ->]; rewrite Z.eqb_refl; simpl;
          [done|by rewrite andb_false_r]).
    simpl. by destruct (exitTimeReached node ctx1 F32.half). }
  assert (Hupd : forall l,
            GroupNode_update m_blend_length m_children l ctx rm
            = match scanTransitions m_children node ctx1 from from l false with
              | Fires transition =>
                  start_crossfade (List.map group_node m_children) from (tr_to transition)
                                  (write_GroupData (tr_blend_length transition)) ctx1 rm
              | GoAnywhere =>
                  match firstSelectable 0 m_children from ctx1 with
                  | Some i => start_crossfade (List.map group_node m_children) from i (write_GroupData m_blend_length)
                                              ctx1 rm
                  | None => keep_playing (List.map group_node m_children) from from t (write_GroupData blend_length)
                                         ctx1 rm
                  end
              | NoTransition waiting =>
                  if (negb (eval (child_condition current) ctx1) || false) && negb waiting
                  then match firstSelectable 0 m_children from ctx1 with
                       | Some i => start_crossfade (List.map group_node m_children) from i
                                     (write_GroupData m_blend_length) ctx1 rm
                       | None => keep_playing (List.map group_node m_children) from from t
                                   (write_GroupData blend_length) ctx1 rm
                       end
                  else keep_playing (List.map group_node m_children) from from t (write_GroupData blend_length) ctx1 rm
              end).
  { intros l. unfold GroupNode_update.
    rewrite (read_GroupData_cons ctx from from t blend_length rest Hin). fold ctx1.
    destruct m_children as [|c0 cs] eqn:Hcs.
    { unfold zget in Hcur. case_decide; done. }
    rewrite <- Hcs in *. rewrite Z.eqb_refl. cbn [negb]. rewrite Hcur. fold node.
    replace (negb (eval (child_condition current) ctx1) || negb (selectable current))
      with true by (destruct Hguard as [-> | ->]; [done|by rewrite orb_true_r]).
    destruct (scanTransitions m_children node ctx1 from from l false) as [tr'| |w];
      [done| |done].
    by destruct (eval (child_condition current) ctx1). }
  split.
  - intros Hwin. apply Hgate in Hwin.
    assert (Hscan : scanTransitions m_children node ctx1 from from (pre ++ tr :: post) false
                    = Fires tr).
    { rewrite (scanTransitions_passed _ _ _ _ _ _ _ Hpre), Hhead. by rewrite Hwin. }
    split; [done|]. by rewrite Hupd, Hscan.
  - intros Hout.
    assert (Hno : exitTimeReached node ctx1 F32.half = false).
    { destruct (exitTimeReached node ctx1 F32.half); [|done].
      destruct Hout. by apply Hgate. }
    assert (Hscan : forall post', 
               scanTransitions m_children node ctx1 from from (pre ++ tr :: post') false
               = scanTransitions m_children node ctx1 from from post' true).
    { intros post'. rewrite (scanTransitions_passed _ _ _ _ _ _ _ Hpre).
      assert (Hhead' : forall waiting,
            scanTransitions m_children node ctx1 from from (tr :: post') waiting
            = if exitTimeReached node ctx1 F32.half then Fires tr
              else scanTransitions m_children node ctx1 from from post' true).
      { intros waiting. simpl.
        apply Z.eqb_neq in Hto, Hany. rewrite Hto, Hany, Htarget, Hexit.
        replace (negb (tr_from tr =? from) && negb (tr_from tr =? ANY)) with false
          by (destruct Hfrom as [-> | ->]; rewrite Z.eqb_refl; simpl;
              [done|by rewrite andb_false_r]).
        simpl. by destruct (exitTimeReached node ctx1 F32.half). }
      by rewrite Hhead', Hno. }
    split; [apply Hscan|].
    intros _. rewrite Hupd, (Hscan []). simpl. by rewrite andb_false_r.
Qed.

Lemma exit_time_gate_window_witness :
  GroupNode_update 0 AnimExamples.group_children [AnimExamples.gated_transition]
                   (AnimExamples.group_context 32000) LocalRigidTransform_IDENTITY
  = start_crossfade (List.map group_node AnimExamples.group_children) 0 1
                    (write_GroupData 100)
                    (with_input_runtime [32000] (AnimExamples.group_context 32000))
                    LocalRigidTransform_IDENTITY /\
  GroupNode_update 0 AnimExamples.group_children [AnimExamples.gated_transition]
                   (AnimExamples.group_context 33000) LocalRigidTransform_IDENTITY
  = keep_playing (List.map group_node AnimExamples.group_children) 0 0 33000
                 (write_GroupData 0)
                 (with_input_runtime [33000] (AnimExamples.group_context 33000))
                 LocalRigidTransform_IDENTITY.
Proof.
  split.
  - refine (proj2 (proj1 (exit_time_gate_window 0 AnimExamples.group_children [] []
              AnimExamples.gated_transition (AnimExamples.group_context 32000)
              LocalRigidTransform_IDENTITY 0 32000 0 [32000]
              (mkGroupChild SELECTABLE (fun _ => false) (ops (AnimationNode 0 LOOPED)))
              eq_refl eq_refl (or_introl eq_refl) eq_refl _ _ _ eq_refl (or_introl eq_refl)
              _ _ eq_refl (Forall_nil_2 _)) _)); vm_compute; try split; congruence.
  - refine (proj2 (proj2 (exit_time_gate_window 0 AnimExamples.group_children [] []
              AnimExamples.gated_transition (AnimExamples.group_context 33000)
              LocalRigidTransform_IDENTITY 0 33000 0 [33000]
              (mkGroupChild SELECTABLE (fun _ => false) (ops (AnimationNode 0 LOOPED)))
              eq_refl eq_refl (or_introl eq_refl) eq_refl _ _ _ eq_refl (or_introl eq_refl)
              _ _ eq_refl (Forall_nil_2 _)) _) eq_refl); vm_compute; try congruence.
    intros [H _]. congruence.
Defined.

End GroupFacts.

(** * The streams of the blend tree *)

Module StreamFacts.
Import Anim AnimStreams.

Lemma ctx_eta ctx : with_input_runtime (input_runtime ctx) ctx = ctx.
Proof. by destruct ctx. Qed.

Lemma ctx_eta_data ctx rest :
  input_runtime ctx = rest ->
  ctx = with_data (data ctx ++ []) (with_input_runtime rest ctx).
Proof. intros <-. destruct ctx. simpl. by rewrite app_nil_r. Qed.

Lemma read_word_cons ctx w rest :
  input_runtime ctx = w :: rest -> read_word ctx = Some (w, with_input_runtime rest ctx).
Proof. intros H. unfold read_word. by rewrite H. Qed.

Lemma read_word_inv ctx w ctx' :
  read_word ctx = Some (w, ctx') ->
  exists rest, input_runtime ctx = w :: rest /\ ctx' = with_input_runtime rest ctx.
Proof.
  unfold read_word. destruct (input_runtime ctx) as [|x r] eqn:E; [done|].
  intros [= <- <-]. by exists r.
Qed.

(** *** The leaves: one word each *)

Lemma AnimationNode_reads G m_slot m_flags w : reads G (AnimationNode_ops m_slot m_flags) [w].
Proof.
  split; [|intros _; split].
  - intros ctx rest weight pose mask Hin. simpl.
    rewrite (read_word_cons ctx w rest Hin). eauto.
  - intros ctx rest Hin. simpl. unfold skip_words. by rewrite Hin.
  - intros ctx rest rm Hin. simpl. unfold AnimationNode_update.
    rewrite (read_word_cons ctx w rest Hin).
    destruct (animation_at _ m_slot) as [anim|]; [|by eexists _, _].
    destruct (anim_ready anim); [|by eexists _, _].
    destruct (Z.land m_flags LOOPED =? 0); by eexists _, _.
Qed.

Lemma AnimationNode_enters G m_slot m_flags : enters G (AnimationNode_ops m_slot m_flags).
Proof. intros ctx. exists [0]. split; [done|]. apply AnimationNode_reads. Qed.

Lemma AnimationNode_writes G m_slot m_flags : writes G (AnimationNode_ops m_slot m_flags).
Proof.
  intros ctx rm ctx' rm'. simpl. unfold AnimationNode_update.
  destruct (read_word ctx) as [[t ctx1]|] eqn:Hread; [|done].
  apply read_word_inv in Hread as (rest & Hin & ->).
  intros H.
  assert (exists t', ctx' = write_word t' (with_input_runtime rest ctx)) as [t' ->].
  { destruct (animation_at _ m_slot) as [anim|]; [|injection H as <- _; eauto].
    destruct (anim_ready anim); [|injection H as <- _; eauto].
    destruct (Z.land m_flags LOOPED =? 0); injection H as <- _; eauto. }
  exists [t'], rest. split; [done|]. apply AnimationNode_reads.
Qed.

Lemma leaf_skip_frame o :
  skip o = (fun ctx => Some (skip_words 1 ctx)) -> skip_frame o.
Proof. intros E ctx ctx'. rewrite E. intros [= <-]. by eexists. Qed.

Lemma read_float_cons ctx w rest :
  input_runtime ctx = w :: rest ->
  Anim.read_float ctx = Some (float_of_bits w, with_input_runtime rest ctx).
Proof. intros H. unfold Anim.read_float. by rewrite (read_word_cons ctx w rest H). Qed.

Lemma read_float_inv ctx f ctx' :
  Anim.read_float ctx = Some (f, ctx') ->
  exists w rest, input_runtime ctx = w :: rest /\ ctx' = with_input_runtime rest ctx.
Proof.
  unfold Anim.read_float. destruct (read_word ctx) as [[w c]|] eqn:E; [|done].
  intros [= _ <-]. apply read_word_inv in E as (rest & ? & ?). eauto.
Qed.

Lemma Blend1DNode_reads G m_input_index m_children w :
  reads G (Blend1DNode_ops m_input_index m_children) [w].
Proof.
  split; [|intros _; split].
  - intros ctx rest weight pose mask Hin. simpl. unfold Blend1DNode_getPose.
    rewrite (read_float_cons ctx w rest Hin).
    destruct m_children as [|c [|c' cs]]; [by eexists..|].
    destruct (pair_b _); by eexists.
  - intros ctx rest Hin. simpl. unfold skip_words. by rewrite Hin.
  - intros ctx rest rm Hin. simpl. unfold Blend1DNode_update.
    rewrite (read_float_cons ctx w rest Hin). by eexists _, _.
Qed.

Lemma Blend1DNode_enters G m_input_index m_children :
  enters G (Blend1DNode_ops m_input_index m_children).
Proof. intros ctx. eexists [_]. split; [done|]. apply Blend1DNode_reads. Qed.

Lemma Blend1DNode_writes G m_input_index m_children :
  writes G (Blend1DNode_ops m_input_index m_children).
Proof.
  intros ctx rm ctx' rm'. simpl. unfold Blend1DNode_update.
  destruct (Anim.read_float ctx) as [[t ctx1]|] eqn:Hread; [|done].
  apply read_float_inv in Hread as (w & rest & Hin & ->).
  intros [= <- _]. eexists [_], rest. split; [done|]. apply Blend1DNode_reads.
Qed.

Lemma Blend2DNode_reads G x y m_children m_triangles w :
  reads G (Blend2DNode_ops x y m_children m_triangles) [w].
Proof.
  split; [|intros _; split].
  - intros ctx rest weight pose mask Hin. simpl. unfold Blend2DNode_getPose.
    rewrite (read_float_cons ctx w rest Hin).
    destruct m_children as [|c cs]; [by eexists|].
    destruct (zlen (c :: cs) <? 3); by eexists.
  - intros ctx rest Hin. simpl. unfold skip_words. by rewrite Hin.
  - intros ctx rest rm Hin. simpl. unfold Blend2DNode_update.
    rewrite (read_float_cons ctx w rest Hin).
    destruct (2 <? zlen m_children); [|by eexists _, _].
    repeat (match goal with
            | |- context [match animation_at ?c ?i with _ => _ end] =>
                destruct (animation_at c i)
            end; [|by eexists _, _]).
    destruct (_ && _); by eexists _, _.
Qed.

Lemma Blend2DNode_enters G x y m_children m_triangles :
  enters G (Blend2DNode_ops x y m_children m_triangles).
Proof. intros ctx. eexists [_]. split; [done|]. apply Blend2DNode_reads. Qed.

Lemma Blend2DNode_writes G x y m_children m_triangles :
  writes G (Blend2DNode_ops x y m_children m_triangles).
Proof.
  intros ctx rm ctx' rm'. simpl. unfold Blend2DNode_update.
  destruct (Anim.read_float ctx) as [[t ctx1]|] eqn:Hread; [|done].
  apply read_float_inv in Hread as (w & rest & Hin & ->).
  intros H.
  assert (exists f, ctx' = write_float f (with_input_runtime rest ctx)) as [f ->].
  { destruct (2 <? zlen m_children); [|injection H as <- _; eauto].
    repeat (match type of H with
            | context [match animation_at ?c ?i with _ => _ end] =>
                destruct (animation_at c i)
            end; [|injection H as <- _; eauto]).
    destruct (_ && _); injection H as <- _; eauto. }
  eexists [_], rest. split; [done|]. apply Blend2DNode_reads.
Qed.

(** *** The condition node *)

Ltac same_context ctx :=
  destruct ctx;
  cbv [with_data with_input_runtime write_word write_float write_ConditionData
       write_SelectData write_GroupData data input_runtime inputs animations
       time_delta model_ready];
  cbn [app concat]; rewrite <- ?app_assoc, ?app_nil_r; cbn [app]; reflexivity.

Lemma read_ConditionData_cons ctx t w rest :
  input_runtime ctx = t :: w :: rest ->
  read_ConditionData ctx = Some (t, negb (w =? 0), with_input_runtime rest ctx).
Proof. intros H. unfold read_ConditionData, read_word. rewrite H. reflexivity. Qed.

Lemma read_ConditionData_inv ctx t b ctx' :
  read_ConditionData ctx = Some (t, b, ctx') ->
  exists w rest, input_runtime ctx = t :: w :: rest /\ b = negb (w =? 0) /\
                 ctx' = with_input_runtime rest ctx.
Proof.
  unfold read_ConditionData, read_word.
  destruct (input_runtime ctx) as [|x [|y r]] eqn:E; simpl; try done.
  intros [= <- <- <-]. by exists y, r.
Qed.

Lemma Time_add_nonneg a b : 0 <= Time_add a b.
Proof. unfold Time_add, u32. apply Z.mod_pos_bound. lia. Qed.

Section Condition.
Variables (G : Prop) (m_condition : Condition) (m_blend_length : Time).
Variables (true_node false_node : NodeOps).
Let node := ConditionNode_ops m_condition m_blend_length (Some true_node) (Some false_node).
Let branch (b : bool) := if b then true_node else false_node.

(** In the middle of a crossfade: the header, the branch that is left and
    the branch that is entered *)
Lemma Condition_fading_samples t (b : bool) d_old d_new :
  (t <? m_blend_length) = true ->
  samples (branch (negb b)) d_old -> samples (branch b) d_new ->
  samples node (t :: (if b then 1 else 0) :: d_old ++ d_new).
Proof.
  intros Hfade Hold Hnew ctx rest weight pose mask Hin. simpl.
  unfold ConditionNode_getPose.
  rewrite (read_ConditionData_cons ctx t _ ((d_old ++ d_new) ++ rest)) by exact Hin.
  replace (negb ((if b then 1 else 0) =? 0)) with b by (by destruct b).
  rewrite Hfade.
  destruct (Hold (with_input_runtime ((d_old ++ d_new) ++ rest) ctx) (d_new ++ rest)
              weight pose mask) as [p1 Hp1].
  { simpl. by rewrite <- app_assoc. }
  fold (branch (negb b)). rewrite Hp1.
  destruct (Hnew (with_input_runtime (d_new ++ rest)
                    (with_input_runtime ((d_old ++ d_new) ++ rest) ctx)) rest
              (F32.mul weight (clamp01 (Time_div t m_blend_length))) p1 mask eq_refl)
    as [p2 Hp2].
  fold (branch b). rewrite Hp2. by exists p2.
Qed.

(** Outside a crossfade: the header and the running branch *)
Lemma Condition_settled_reads t (b : bool) d :
  (t <? m_blend_length) = false ->
  enters G true_node -> enters G false_node ->
  reads G (branch b) d ->
  reads G node (t :: (if b then 1 else 0) :: d).
Proof.
  intros Hsettled Htrue Hfalse [Hsamples Hrest].
  assert (Henter : forall x, enters G (branch x)) by (by intros []).
  split; [|intros HG; destruct (Hrest HG) as [Hskips Hupdates]; split].
  - intros ctx rest weight pose mask Hin. simpl. unfold ConditionNode_getPose.
    rewrite (read_ConditionData_cons ctx t _ (d ++ rest)) by exact Hin.
    replace (negb ((if b then 1 else 0) =? 0)) with b by (by destruct b).
    rewrite Hsettled.
    destruct (Hsamples (with_input_runtime (d ++ rest) ctx) rest weight pose mask eq_refl)
      as [p Hp].
    fold (branch b). rewrite Hp. by exists p.
  - intros ctx rest Hin. simpl. unfold ConditionNode_skip.
    rewrite (read_ConditionData_cons ctx t _ (d ++ rest)) by exact Hin.
    replace (negb ((if b then 1 else 0) =? 0)) with b by (by destruct b).
    fold (branch b). by rewrite (Hskips (with_input_runtime (d ++ rest) ctx) rest eq_refl).
  - intros ctx rest rm Hin. simpl. unfold ConditionNode_update.
    rewrite (read_ConditionData_cons ctx t _ (d ++ rest)) by exact Hin.
    replace (negb ((if b then 1 else 0) =? 0)) with b by (by destruct b).
    rewrite Hsettled.
    set (ctx1 := with_input_runtime (d ++ rest) ctx).
    set (is_true := eval m_condition ctx1).
    destruct (negb (Bool.eqb b is_true)) eqn:Hchanged.
    + destruct (m_blend_length =? 0).
      * fold (branch b). rewrite (Hskips ctx1 rest eq_refl). fold (branch is_true).
        destruct (Henter is_true (write_ConditionData t is_true (with_input_runtime rest ctx1)))
          as (d2 & -> & _).
        eexists (_ :: _ :: d2), rm. do 2 f_equal. unfold ctx1. same_context ctx.
      * assert (negb is_true = b) as -> by (by destruct b, is_true).
        fold (branch b).
        destruct (Hupdates (write_ConditionData 0 is_true ctx1) rest rm eq_refl)
          as (d1 & rm1 & ->).
        fold (branch is_true).
        destruct (Henter is_true
                    (with_data (data (write_ConditionData 0 is_true ctx1) ++ d1)
                       (with_input_runtime rest (write_ConditionData 0 is_true ctx1))))
          as (d2 & -> & _).
        eexists (_ :: _ :: d1 ++ d2), rm1. do 2 f_equal. unfold ctx1. same_context ctx.
    + fold (branch b).
      destruct (Hupdates (write_ConditionData t b ctx1) rest rm eq_refl) as (d1 & rm1 & ->).
      eexists (_ :: _ :: d1), rm1. do 2 f_equal. unfold ctx1. same_context ctx.
Qed.

Lemma Condition_enters :
  enters G true_node -> enters G false_node -> enters G node.
Proof.
  intros Htrue Hfalse ctx. simpl. unfold ConditionNode_enter.
  set (is_true := eval m_condition ctx).
  assert (Henter : enters G (branch is_true)) by (by destruct is_true).
  fold (branch is_true).
  destruct (Henter (write_ConditionData m_blend_length is_true ctx)) as (d & -> & Hd).
  exists (m_blend_length :: (if is_true then 1 else 0) :: d). split.
  - f_equal. same_context ctx.
  - apply Condition_settled_reads; [apply Z.ltb_irrefl|done..].
Qed.

Lemma Condition_skip_frame :
  skip_frame true_node -> skip_frame false_node -> skip_frame node.
Proof.
  intros Htrue Hfalse ctx ctx'. simpl. unfold ConditionNode_skip.
  destruct (read_ConditionData ctx) as [[[t b] ctx1]|] eqn:Hread; [|done].
  apply read_ConditionData_inv in Hread as (w & rest & Hin & -> & ->).
  intros H.
  assert (Hf : skip_frame (branch (negb (w =? 0)))) by (by destruct (negb (w =? 0))).
  apply Hf in H as [rest' ->]. by exists rest'.
Qed.

Lemma Condition_writes :
  0 <= m_blend_length -> (G -> m_blend_length = 0) ->
  writes G true_node -> writes G false_node ->
  enters G true_node -> enters G false_node ->
  skip_frame true_node -> skip_frame false_node ->
  writes G node.
Proof.
  intros Hlen Hinstant Wtrue Wfalse Etrue Efalse Ftrue Ffalse.
  assert (W : forall x, writes G (branch x)) by (by intros []).
  assert (E : forall x, enters G (branch x)) by (by intros []).
  assert (F : forall x, skip_frame (branch x)) by (by intros []).
  intros ctx rm ctx' rm'. simpl. unfold ConditionNode_update.
  destruct (read_ConditionData ctx) as [[[t b0] ctx1]|] eqn:Hread; [|done].
  apply read_ConditionData_inv in Hread as (w & rest & Hin & -> & ->).
  set (b := negb (w =? 0)). set (ctx1 := with_input_runtime rest ctx).
  fold (branch b) (branch (negb b)).
  destruct (t <? m_blend_length) eqn:Hfade.
  - change (time_delta ctx1) with (time_delta ctx).
    set (t' := Time_add t (time_delta ctx)).
    destruct (m_blend_length <=? t') eqn:Hdone.
    + destruct (skip (branch (negb b)) ctx1) as [c2|] eqn:Hskip; [|done].
      apply F in Hskip as [r2 ->]. intros H.
      apply W in H as (d & rest' & -> & Hd).
      exists (t' :: (if b then 1 else 0) :: d), rest'. split.
      * unfold ctx1. same_context ctx.
      * apply Condition_settled_reads; [|done..]. apply Z.ltb_ge. by apply Z.leb_le.
    + destruct (update (branch (negb b)) _ rm) as [[c2 rm1]|] eqn:Hold; [|done].
      apply W in Hold as (d1 & r1 & -> & [Hs1 _]).
      destruct (update (branch b) _ tmp_root_motion) as [[c3 tmp]|] eqn:Hnew; [|done].
      apply W in Hnew as (d2 & r2 & -> & [Hs2 _]).
      intros [= <- _].
      exists (t' :: (if b then 1 else 0) :: d1 ++ d2), r2. split.
      * unfold ctx1. same_context ctx.
      * apply Z.leb_gt in Hdone. split.
        -- apply Condition_fading_samples; [by apply Z.ltb_lt|done..].
        -- intros HG. pose proof (Time_add_nonneg t (time_delta ctx)).
           rewrite (Hinstant HG) in Hdone. unfold t' in Hdone. lia.
  - fold (branch (eval m_condition ctx1)) (branch (negb (eval m_condition ctx1))).
    set (is_true := eval m_condition ctx1).
    destruct (negb (Bool.eqb b is_true)) eqn:Hchanged.
    + destruct (m_blend_length =? 0) eqn:Hzero.
      * destruct (skip (branch b) ctx1) as [c2|] eqn:Hskip; [|done].
        apply F in Hskip as [r2 ->].
        destruct (E is_true (write_ConditionData t is_true (with_input_runtime r2 ctx1)))
          as (d & -> & Hd).
        intros [= <- _].
        exists (t :: (if is_true then 1 else 0) :: d), r2. split.
        -- unfold ctx1. same_context ctx.
        -- by apply Condition_settled_reads.
      * destruct (update (branch (negb is_true)) _ rm) as [[c2 rm1]|] eqn:Hold; [|done].
        apply W in Hold as (d1 & r1 & -> & [Hs1 _]).
        match goal with |- context [enter (branch is_true) ?c] =>
          destruct (E is_true c) as (d2 & -> & [Hs2 _]) end.
        intros [= <- _].
        exists (0 :: (if is_true then 1 else 0) :: d1 ++ d2), r1. split.
        -- unfold ctx1. same_context ctx.
        -- apply Z.eqb_neq in Hzero. split.
           ++ apply Condition_fading_samples; [apply Z.ltb_lt; lia|done..].
           ++ intros HG. by apply Hinstant in HG.
    + intros H. apply W in H as (d & rest' & -> & Hd).
      exists (t :: (if b then 1 else 0) :: d), rest'. split.
      * unfold ctx1. same_context ctx.
      * by apply Condition_settled_reads.
Qed.

End Condition.

(** A condition node without one of its branches reads and writes nothing. *)
Lemma Condition_empty_reads G o d' :
  skip o = (fun ctx => Some ctx) ->
  (forall ctx weight pose mask, getPose o ctx weight pose mask = Some (ctx, pose)) ->
  (forall ctx rm, update o ctx rm = Some (ctx, rm)) ->
  d' = [] -> reads G o d'.
Proof.
  intros Hskip Hpose Hupdate ->. split; [|intros _; split].
  - intros ctx rest weight pose mask Hin. rewrite Hpose. exists pose.
    simpl in Hin. rewrite <- Hin. by rewrite ctx_eta.
  - intros ctx rest Hin. rewrite Hskip. simpl in Hin. rewrite <- Hin. by rewrite ctx_eta.
  - intros ctx rest rm Hin. rewrite Hupdate. exists [], rm. simpl in Hin.
    by rewrite <- (ctx_eta_data ctx rest).
Qed.

(** *** The layers node: the layers one after the other *)

Lemma Layers_samples m_layers ds :
  Forall2 (fun l d => samples (layer_node l) d) m_layers ds ->
  forall ctx rest weight pose mask, input_runtime ctx = concat ds ++ rest ->
    exists pose', LayersNode_getPose m_layers ctx weight pose mask
                  = Some (with_input_runtime rest ctx, pose').
Proof.
  induction 1 as [|l d ls ds Hl _ IH]; intros ctx rest weight pose mask Hin; simpl in *.
  - exists pose. by rewrite <- Hin, ctx_eta.
  - rewrite <- app_assoc in Hin.
    destruct (Hl ctx (concat ds ++ rest) weight pose (layer_mask l) Hin) as [p1 ->].
    destruct (IH (with_input_runtime (concat ds ++ rest) ctx) rest weight p1 mask eq_refl)
      as [p2 ->].
    by exists p2.
Qed.

Lemma Layers_skips m_layers ds :
  Forall2 (fun l d => skips (layer_node l) d) m_layers ds ->
  forall ctx rest, input_runtime ctx = concat ds ++ rest ->
    LayersNode_skip m_layers ctx = Some (with_input_runtime rest ctx).
Proof.
  induction 1 as [|l d ls ds Hl _ IH]; intros ctx rest Hin; simpl in *.
  - by rewrite <- Hin, ctx_eta.
  - rewrite <- app_assoc in Hin. rewrite (Hl ctx (concat ds ++ rest) Hin).
    by rewrite (IH (with_input_runtime (concat ds ++ rest) ctx) rest eq_refl).
Qed.

Lemma Layers_updates m_layers ds :
  Forall2 (fun l d => updates (layer_node l) d) m_layers ds ->
  forall first ctx rest rm, input_runtime ctx = concat ds ++ rest ->
    exists d' rm',
      LayersNode_update_from first m_layers ctx rm
      = Some (with_data (data ctx ++ d') (with_input_runtime rest ctx), rm').
Proof.
  induction 1 as [|l d ls ds Hl _ IH]; intros first ctx rest rm Hin; simpl in *.
  - exists [], rm. by rewrite <- (ctx_eta_data ctx rest).
  - rewrite <- app_assoc in Hin.
    destruct (Hl ctx (concat ds ++ rest) tmp_root_motion Hin) as (d1 & rm1 & ->).
    match goal with |- context [LayersNode_update_from false ls ?c ?r] =>
      destruct (IH false c rest r eq_refl) as (d2 & rm2 & ->) end.
    exists (d1 ++ d2), rm2. do 2 f_equal. same_context ctx.
Qed.

Lemma Layers_reads G m_layers ds :
  Forall2 (fun l d => reads G (layer_node l) d) m_layers ds ->
  reads G (LayersNode_ops m_layers) (concat ds).
Proof.
  intros H. split; [|intros HG; split].
  - intros ctx rest weight pose mask. apply Layers_samples.
    eapply Forall2_impl; [exact H|]. by intros l d [? _].
  - intros ctx rest. apply Layers_skips.
    eapply Forall2_impl; [exact H|]. intros l d [_ Hd]. by apply Hd.
  - intros ctx rest rm. apply Layers_updates.
    eapply Forall2_impl; [exact H|]. intros l d [_ Hd]. by apply Hd.
Qed.

Lemma Layers_enters G m_layers :
  Forall (fun l => enters G (layer_node l)) m_layers -> enters G (LayersNode_ops m_layers).
Proof.
  intros H.
  assert (Hgen : forall ctx, exists ds,
            LayersNode_enter m_layers ctx = Some (with_data (data ctx ++ concat ds) ctx) /\
            Forall2 (fun l d => reads G (layer_node l) d) m_layers ds).
  { induction H as [|l ls Hl _ IH]; intros ctx; simpl.
    - exists []. split; [|constructor]. simpl. f_equal. same_context ctx.
    - destruct (Hl ctx) as (d & -> & Hd).
      destruct (IH (with_data (data ctx ++ d) ctx)) as (ds & -> & Hds).
      exists (d :: ds). split; [|by constructor]. f_equal. same_context ctx. }
  intros ctx. destruct (Hgen ctx) as (ds & Hen & Hds).
  exists (concat ds). split; [exact Hen|by apply Layers_reads].
Qed.

Lemma Layers_writes G m_layers :
  Forall (fun l => writes G (layer_node l)) m_layers -> writes G (LayersNode_ops m_layers).
Proof.
  intros H.
  assert (Hgen : forall first ctx rm ctx' rm',
            LayersNode_update_from first m_layers ctx rm = Some (ctx', rm') ->
            exists ds rest,
              ctx' = with_data (data ctx ++ concat ds) (with_input_runtime rest ctx) /\
              Forall2 (fun l d => reads G (layer_node l) d) m_layers ds).
  { induction H as [|l ls Hl _ IH]; intros first ctx rm ctx' rm'; simpl.
    - intros [= <- _]. exists [], (input_runtime ctx). split; [|constructor].
      by apply ctx_eta_data.
    - destruct (update (layer_node l) ctx tmp_root_motion) as [[c1 tmp]|] eqn:Hu; [|done].
      apply Hl in Hu as (d & r1 & -> & Hd). intros Hrest.
      apply IH in Hrest as (ds & r2 & -> & Hds).
      exists (d :: ds), r2. split; [|by constructor]. same_context ctx. }
  intros ctx rm ctx' rm' Hu. apply Hgen in Hu as (ds & rest & -> & Hds).
  exists (concat ds), rest. split; [done|by apply Layers_reads].
Qed.

Lemma Layers_skip_frame m_layers :
  Forall (fun l => skip_frame (layer_node l)) m_layers -> skip_frame (LayersNode_ops m_layers).
Proof.
  intros H. simpl.
  induction H as [|l ls Hl _ IH]; intros ctx ctx'; simpl.
  - intros [= <-]. exists (input_runtime ctx). by rewrite ctx_eta.
  - destruct (skip (layer_node l) ctx) as [c1|] eqn:Hs; [|done].
    apply Hl in Hs as [r1 ->]. intros Hrest. apply IH in Hrest as [r2 ->]. by exists r2.
Qed.

(** *** The crossfade of the select and the group node *)

Lemma zget_Forall {A} (P : A -> Prop) (l : list A) i x :
  Forall P l -> zget l i = Some x -> P x.
Proof.
  intros Hl E. unfold zget in E. case_decide; [|done].
  rewrite Forall_forall in Hl. apply Hl. by eapply list_elem_of_lookup_2.
Qed.

Lemma zget_map {A B} (f : A -> B) (l : list A) i :
  zget (List.map f l) i = f <$> zget l i.
Proof.
  unfold zget. case_decide; [|done].
  change (List.map f l) with (f <$> l). by rewrite list_lookup_fmap.
Qed.

Lemma fade_state_impl (P Q : NodeOps -> list Z -> Prop) nodes from to d :
  (forall o x, P o x -> Q o x) -> fade_state P nodes from to d -> fade_state Q nodes from to d.
Proof.
  intros HPQ (fn & Hfn & H). exists fn. split; [done|].
  destruct (from =? to); [by apply HPQ|].
  destruct H as (tn & d1 & d2 & ? & ? & ? & ?). exists tn, d1, d2.
  repeat split; auto.
Qed.

Section Crossfade.
Variables (G : Prop) (nodes : list NodeOps).
Variable write_data : Z -> Z -> Time -> RuntimeContext -> RuntimeContext.
Variable header : Z -> Z -> Time -> list Z.
Hypothesis write_data_appends :
  forall a b c ctx, write_data a b c ctx = with_data (data ctx ++ header a b c) ctx.
Hypothesis Hframes : Forall skip_frame nodes.
Hypothesis Hwrites : Forall (writes G) nodes.
Hypothesis Henters : Forall (enters G) nodes.

Lemma crossfade_getPose_reads from to d :
  fade_state samples nodes from to d ->
  forall t blend_length ctx rest weight pose mask, input_runtime ctx = d ++ rest ->
    exists pose', crossfade_getPose nodes from to t blend_length ctx weight pose mask
                  = Some (with_input_runtime rest ctx, pose').
Proof.
  intros (fn & Hfn & H) t blend_length ctx rest weight pose mask Hin.
  unfold crossfade_getPose. rewrite Hfn.
  destruct (from =? to).
  - destruct (H ctx rest weight pose mask Hin) as [p ->]. by exists p.
  - destruct H as (tn & d1 & d2 & Htn & -> & H1 & H2). rewrite <- app_assoc in Hin.
    destruct (H1 ctx (d2 ++ rest) weight pose mask Hin) as [p1 ->]. rewrite Htn.
    match goal with |- context [getPose tn ?c ?w p1 mask] =>
      destruct (H2 c rest w p1 mask eq_refl) as [p2 ->] end.
    by exists p2.
Qed.

Lemma crossfade_skip_reads from to d :
  fade_state skips nodes from to d ->
  forall ctx rest, input_runtime ctx = d ++ rest ->
    crossfade_skip nodes from to ctx = Some (with_input_runtime rest ctx).
Proof.
  intros (fn & Hfn & H) ctx rest Hin. unfold crossfade_skip. rewrite Hfn.
  destruct (from =? to).
  - by rewrite (H ctx rest Hin).
  - destruct H as (tn & d1 & d2 & Htn & -> & H1 & H2). rewrite <- app_assoc in Hin.
    rewrite (H1 ctx (d2 ++ rest) Hin), Htn.
    by rewrite (H2 (with_input_runtime (d2 ++ rest) ctx) rest eq_refl).
Qed.

Lemma crossfade_skip_frame from to ctx ctx' :
  crossfade_skip nodes from to ctx = Some ctx' -> exists rest, ctx' = with_input_runtime rest ctx.
Proof.
  unfold crossfade_skip.
  destruct (zget nodes from) as [fn|] eqn:Hfn; [|done].
  destruct (skip fn ctx) as [c1|] eqn:Hs; [|done].
  apply (zget_Forall _ _ _ _ Hframes Hfn) in Hs as [r1 ->].
  destruct (from =? to); [intros [= <-]; by exists r1|].
  destruct (zget nodes to) as [tn|] eqn:Htn; [|done].
  intros Hs. apply (zget_Forall _ _ _ _ Hframes Htn) in Hs as [r2 ->]. by exists r2.
Qed.

(** The three ways of [update], on a stream that holds the data of the
    children *)
Lemma crossfade_update_exact from to t blend_length fn tn d1 d2 ctx rest rm :
  zget nodes from = Some fn -> zget nodes to = Some tn ->
  skips fn d1 -> updates fn d1 -> updates tn d2 ->
  input_runtime ctx = (d1 ++ d2) ++ rest ->
  exists d' rm',
    crossfade_update nodes from to t blend_length write_data ctx rm
    = Some (with_data (data ctx ++ d') (with_input_runtime rest ctx), rm').
Proof.
  intros Hfn Htn Hskip Hup1 Hup2 Hin. rewrite <- app_assoc in Hin.
  unfold crossfade_update. rewrite Hfn, Htn.
  destruct (blend_length <? Time_add t (time_delta ctx)).
  - rewrite (Hskip ctx (d2 ++ rest) Hin). rewrite write_data_appends.
    match goal with |- context [update tn ?c rm] =>
      destruct (Hup2 c rest rm eq_refl) as (d' & rm' & ->) end.
    exists (header to to 0 ++ d'), rm'. do 2 f_equal. same_context ctx.
  - rewrite write_data_appends.
    match goal with |- context [update fn ?c rm] =>
      destruct (Hup1 c (d2 ++ rest) rm Hin) as (d1' & rm1 & ->) end.
    match goal with |- context [update tn ?c tmp_root_motion] =>
      destruct (Hup2 c rest tmp_root_motion eq_refl) as (d2' & rm2 & ->) end.
    eexists (header from to (Time_add t (time_delta ctx)) ++ d1' ++ d2'), _.
    f_equal. apply pair_equal_spec. split; [same_context ctx|reflexivity].
Qed.

Lemma start_crossfade_exact from to fn tn d ctx rest rm :
  zget nodes from = Some fn -> zget nodes to = Some tn ->
  updates fn d -> input_runtime ctx = d ++ rest ->
  exists d' rm',
    start_crossfade nodes from to write_data ctx rm
    = Some (with_data (data ctx ++ d') (with_input_runtime rest ctx), rm').
Proof.
  intros Hfn Htn Hup Hin. unfold start_crossfade. rewrite Hfn, Htn, write_data_appends.
  match goal with |- context [update fn ?c rm] =>
    destruct (Hup c rest rm Hin) as (d1 & rm1 & ->) end.
  match goal with |- context [enter tn ?c] =>
    destruct (zget_Forall _ _ _ _ Henters Htn c) as (d2 & -> & _) end.
  exists (header from to 0 ++ d1 ++ d2), rm1. do 2 f_equal. same_context ctx.
Qed.

Lemma keep_playing_exact from to t fn d ctx rest rm :
  zget nodes from = Some fn -> updates fn d -> input_runtime ctx = d ++ rest ->
  exists d' rm',
    keep_playing nodes from to t write_data ctx rm
    = Some (with_data (data ctx ++ d') (with_input_runtime rest ctx), rm').
Proof.
  intros Hfn Hup Hin. unfold keep_playing. rewrite Hfn, write_data_appends.
  match goal with |- context [update fn ?c rm] =>
    destruct (Hup c rest rm Hin) as (d1 & rm1 & ->) end.
  exists (header from to (Time_add t (time_delta ctx)) ++ d1), rm1.
  do 2 f_equal. same_context ctx.
Qed.

(** What the three ways of [update] write *)
Lemma crossfade_update_writes from to t blend_length ctx rm ctx' rm' :
  (from =? to) = false ->
  crossfade_update nodes from to t blend_length write_data ctx rm = Some (ctx', rm') ->
  exists from' to' t' d rest,
    ctx' = with_data (data ctx ++ header from' to' t' ++ d) (with_input_runtime rest ctx) /\
    fade_state (reads G) nodes from' to' d.
Proof.
  intros Hne. unfold crossfade_update.
  destruct (blend_length <? Time_add t (time_delta ctx)).
  - destruct (zget nodes from) as [fn|] eqn:Hfn; [|done].
    destruct (zget nodes to) as [tn|] eqn:Htn; [|done].
    destruct (skip fn ctx) as [c1|] eqn:Hs; [|done].
    apply (zget_Forall _ _ _ _ Hframes Hfn) in Hs as [r1 ->].
    rewrite write_data_appends. intros Hu.
    apply (zget_Forall _ _ _ _ Hwrites Htn) in Hu as (d & rest & -> & Hd).
    exists to, to, 0, d, rest. split; [same_context ctx|].
    exists tn. split; [done|]. by rewrite Z.eqb_refl.
  - destruct (zget nodes from) as [fn|] eqn:Hfn; [|done].
    destruct (zget nodes to) as [tn|] eqn:Htn; [|done].
    rewrite write_data_appends.
    destruct (update fn _ rm) as [[c1 rm1]|] eqn:Hu1; [|done].
    apply (zget_Forall _ _ _ _ Hwrites Hfn) in Hu1 as (d1 & r1 & -> & Hd1).
    destruct (update tn _ tmp_root_motion) as [[c2 tmp]|] eqn:Hu2; [|done].
    apply (zget_Forall _ _ _ _ Hwrites Htn) in Hu2 as (d2 & r2 & -> & Hd2).
    intros [= <- _].
    exists from, to, (Time_add t (time_delta ctx)), (d1 ++ d2), r2.
    split; [same_context ctx|].
    exists fn. split; [done|]. rewrite Hne. by exists tn, d1, d2.
Qed.

Lemma start_crossfade_writes from to ctx rm ctx' rm' :
  (from =? to) = false ->
  start_crossfade nodes from to write_data ctx rm = Some (ctx', rm') ->
  exists d rest,
    ctx' = with_data (data ctx ++ header from to 0 ++ d) (with_input_runtime rest ctx) /\
    fade_state (reads G) nodes from to d.
Proof.
  intros Hne. unfold start_crossfade.
  destruct (zget nodes from) as [fn|] eqn:Hfn; [|done].
  destruct (zget nodes to) as [tn|] eqn:Htn; [|done].
  rewrite write_data_appends.
  destruct (update fn _ rm) as [[c1 rm1]|] eqn:Hu1; [|done].
  apply (zget_Forall _ _ _ _ Hwrites Hfn) in Hu1 as (d1 & r1 & -> & Hd1).
  match goal with |- context [enter tn ?c] =>
    destruct (zget_Forall _ _ _ _ Henters Htn c) as (d2 & -> & Hd2) end.
  intros [= <- _]. exists (d1 ++ d2), r1. split; [same_context ctx|].
  exists fn. split; [done|]. rewrite Hne. by exists tn, d1, d2.
Qed.

Lemma keep_playing_writes from t ctx rm ctx' rm' :
  keep_playing nodes from from t write_data ctx rm = Some (ctx', rm') ->
  exists d rest,
    ctx' = with_data (data ctx ++ header from from (Time_add t (time_delta ctx)) ++ d)
                     (with_input_runtime rest ctx) /\
    fade_state (reads G) nodes from from d.
Proof.
  unfold keep_playing.
  destruct (zget nodes from) as [fn|] eqn:Hfn; [|done].
  rewrite write_data_appends. intros Hu.
  apply (zget_Forall _ _ _ _ Hwrites Hfn) in Hu as (d & rest & -> & Hd).
  exists d, rest. split; [same_context ctx|].
  exists fn. split; [done|]. by rewrite Z.eqb_refl.
Qed.

End Crossfade.

End StreamFacts.


(** * The select node over the streams *)

Module SelectStreams.
Import Anim AnimStreams StreamFacts.

Lemma read3_cons ctx a b c rest :
  input_runtime ctx = a :: b :: c :: rest ->
  read3 ctx = Some (a, b, c, with_input_runtime rest ctx).
Proof. intros H. unfold read3, read_word. rewrite H. reflexivity. Qed.

Lemma read3_inv ctx a b c ctx' :
  read3 ctx = Some (a, b, c, ctx') ->
  exists rest, input_runtime ctx = a :: b :: c :: rest /\ ctx' = with_input_runtime rest ctx.
Proof.
  unfold read3, read_word.
  destruct (input_runtime ctx) as [|x [|y [|z r]]] eqn:E; simpl; try done.
  intros [= <- <- <- <-]. by exists r.
Qed.

Lemma getChildIndex_from_range m_children input_val : forall i k,
  getChildIndex_from i m_children input_val = Some k -> i <= k < i + zlen m_children.
Proof.
  induction m_children as [|c cs IH]; intros i k; simpl; [done|].
  assert (zlen (c :: cs) = 1 + zlen cs) as -> by (unfold zlen; simpl; lia).
  pose proof (zlen_nonneg cs).
  destruct (F32.leb input_val (max_value c)); [intros [= <-]; lia|].
  intros Hk. apply IH in Hk. lia.
Qed.

(** The selected index names a child. *)
Lemma getChildIndex_range m_children input_val :
  m_children <> [] -> zlen m_children < 2 ^ 32 ->
  0 <= getChildIndex m_children input_val < zlen m_children.
Proof.
  intros Hne Hlen. unfold getChildIndex.
  destruct (getChildIndex_from 0 m_children input_val) as [k|] eqn:E.
  - apply getChildIndex_from_range in E. lia.
  - assert (1 <= zlen m_children).
    { destruct m_children; [done|]. unfold zlen. simpl. lia. }
    unfold u32. rewrite Z.mod_small; lia.
Qed.

Lemma nonempty_match {A B} (l : list A) (x y : B) :
  l <> [] -> match l with [] => x | _ :: _ => y end = y.
Proof. by destruct l. Qed.

Lemma SelectData_appends a b c ctx :
  write_SelectData a b c ctx = with_data (data ctx ++ [a; b; c]) ctx.
Proof. same_context ctx. Qed.

Section Select.
Variables (G : Prop) (m_blend_length : Time) (m_input_index : Z).
Variable m_children : list SelectChild.
Let node := SelectNode_ops m_blend_length m_input_index m_children.
Let nodes := List.map select_node m_children.
Hypothesis Hne : m_children <> [].
Hypothesis Hsize : zlen m_children < 2 ^ 32.
Hypothesis Henters : Forall (enters G) nodes.

Lemma Select_child_at i : 0 <= i < zlen m_children -> is_Some (zget nodes i).
Proof.
  intros Hi. unfold nodes. rewrite zget_map.
  destruct (zget_is_Some m_children i Hi) as [c ->]. by eexists.
Qed.

Lemma Select_reads from to t d :
  fade_state (reads G) nodes from to d -> reads G node (from :: to :: t :: d).
Proof.
  intros Hstate. split; [|intros HG; split].
  - intros ctx rest weight pose mask Hin. simpl. unfold SelectNode_getPose.
    rewrite nonempty_match by exact Hne.
    rewrite (read3_cons ctx from to t (d ++ rest)) by exact Hin. fold nodes.
    assert (Hs : fade_state samples nodes from to d).
    { eapply fade_state_impl; [|exact Hstate]. by intros o x [? _]. }
    destruct (crossfade_getPose_reads nodes from to d Hs t m_blend_length
                (with_input_runtime (d ++ rest) ctx) rest weight pose mask eq_refl)
      as [p ->].
    exists p. do 2 f_equal.
  - intros ctx rest Hin. simpl. unfold SelectNode_skip.
    rewrite nonempty_match by exact Hne.
    rewrite (read3_cons ctx from to t (d ++ rest)) by exact Hin. fold nodes.
    assert (Hs : fade_state skips nodes from to d).
    { eapply fade_state_impl; [|exact Hstate]. intros o x [_ Hx]. by apply Hx. }
    rewrite (crossfade_skip_reads nodes from to d Hs
               (with_input_runtime (d ++ rest) ctx) rest eq_refl).
    f_equal.
  - intros ctx rest rm Hin. simpl. unfold SelectNode_update.
    rewrite nonempty_match by exact Hne.
    rewrite (read3_cons ctx from to t (d ++ rest)) by exact Hin.
    fold nodes. set (ctx1 := with_input_runtime (d ++ rest) ctx).
    set (child_idx := getChildIndex m_children _).
    destruct Hstate as (fn & Hfn & Hstate).
    destruct (from =? to) eqn:Hft; simpl.
    + destruct Hstate as [_ Hd]. destruct (Hd HG) as [_ Hup].
      destruct (negb (child_idx =? from)).
      * destruct (Select_child_at child_idx) as [tn Htn];
          [by apply getChildIndex_range|].
        destruct (start_crossfade_exact G nodes write_SelectData (fun a b c => [a; b; c])
                    SelectData_appends Henters from child_idx fn tn d ctx1 rest rm
                    Hfn Htn Hup eq_refl) as (d' & rm' & ->).
        exists d', rm'. do 2 f_equal.
      * destruct (keep_playing_exact nodes write_SelectData (fun a b c => [a; b; c])
                    SelectData_appends from to t fn d ctx1 rest rm Hfn Hup eq_refl)
          as (d' & rm' & ->).
        exists d', rm'. do 2 f_equal.
    + destruct Hstate as (tn & d1 & d2 & Htn & -> & [_ H1] & [_ H2]).
      destruct (H1 HG) as [Hsk1 Hup1]. destruct (H2 HG) as [_ Hup2].
      destruct (crossfade_update_exact nodes write_SelectData (fun a b c => [a; b; c])
                  SelectData_appends from to t m_blend_length fn tn d1 d2 ctx1 rest rm
                  Hfn Htn Hsk1 Hup1 Hup2 eq_refl) as (d' & rm' & ->).
      exists d', rm'. do 2 f_equal.
Qed.

Lemma Select_enters : enters G node.
Proof.
  intros ctx. simpl. unfold SelectNode_enter.
  rewrite nonempty_match by exact Hne.
  set (from := getChildIndex m_children _).
  assert (Hfrom : 0 <= from < zlen m_children) by (by apply getChildIndex_range).
  destruct (zget_is_Some m_children from Hfrom) as [child Hchild]. rewrite Hchild.
  assert (Hnode : zget nodes from = Some (select_node child)).
  { unfold nodes. by rewrite zget_map, Hchild. }
  destruct (zget_Forall _ _ _ _ Henters Hnode (write_SelectData from from 0 ctx))
    as (d & -> & Hd).
  exists (from :: from :: 0 :: d). split; [f_equal; same_context ctx|].
  apply Select_reads. exists (select_node child). split; [done|]. by rewrite Z.eqb_refl.
Qed.

Hypothesis Hframes : Forall skip_frame nodes.
Hypothesis Hwrites : Forall (writes G) nodes.

Lemma Select_writes : writes G node.
Proof.
  intros ctx rm ctx' rm'. simpl. unfold SelectNode_update.
  rewrite nonempty_match by exact Hne.
  destruct (read3 ctx) as [[[[from to] t] ctx1]|] eqn:Hread; [|done].
  apply read3_inv in Hread as (rest & Hin & ->).
  fold nodes. set (ctx1 := with_input_runtime rest ctx).
  set (child_idx := getChildIndex m_children _).
  destruct (from =? to) eqn:Hft; simpl.
  - apply Z.eqb_eq in Hft as <-.
    destruct (child_idx =? from) eqn:Hidx; simpl.
    + intros H.
      apply (keep_playing_writes G nodes write_SelectData (fun a b c => [a; b; c])
               SelectData_appends Hwrites) in H as (d & r & -> & Hd).
      exists (from :: from :: Time_add t (time_delta ctx1) :: d), r.
      split; [unfold ctx1; same_context ctx|]. by apply Select_reads.
    + intros H.
      apply (start_crossfade_writes G nodes write_SelectData (fun a b c => [a; b; c])
               SelectData_appends Hwrites Henters) in H as (d & r & -> & Hd);
        [|by rewrite Z.eqb_sym].
      exists (from :: child_idx :: 0 :: d), r.
      split; [unfold ctx1; same_context ctx|]. by apply Select_reads.
  - intros H.
    apply (crossfade_update_writes G nodes write_SelectData (fun a b c => [a; b; c])
             SelectData_appends Hframes Hwrites) in H
      as (from' & to' & t' & d & r & -> & Hd); [|done].
    exists (from' :: to' :: t' :: d), r.
    split; [unfold ctx1; same_context ctx|]. by apply Select_reads.
Qed.

Lemma Select_skip_frame : skip_frame node.
Proof.
  intros ctx ctx'. simpl. unfold SelectNode_skip.
  rewrite nonempty_match by exact Hne.
  destruct (read3 ctx) as [[[[from to] t] ctx1]|] eqn:Hread; [|done].
  apply read3_inv in Hread as (rest & Hin & ->). fold nodes.
  intros H. apply (crossfade_skip_frame nodes Hframes) in H as [r ->]. by exists r.
Qed.

End Select.

End SelectStreams.

(** * The group node over the streams *)

Module GroupStreams.
Import Anim AnimStreams StreamFacts SelectStreams.

Lemma read_GroupData_inv ctx a b c e ctx' :
  read_GroupData ctx = Some (a, b, c, e, ctx') ->
  exists rest, input_runtime ctx = a :: b :: c :: e :: rest /\
               ctx' = with_input_runtime rest ctx.
Proof.
  unfold read_GroupData, read3, read_word.
  destruct (input_runtime ctx) as [|x [|y [|z [|w r]]]] eqn:E; simpl; try done.
  intros [= <- <- <- <- <-]. by exists r.
Qed.

Lemma GroupData_appends blend_length a b c ctx :
  write_GroupData blend_length a b c ctx = with_data (data ctx ++ [a; b; c; blend_length]) ctx.
Proof. same_context ctx. Qed.

(** A transition that fires leads to another child than the current target,
    and to a child that exists: its guard was evaluated. *)
Lemma scanTransitions_fires m_children current ctx from to : forall trs waiting tr,
  scanTransitions m_children current ctx from to trs waiting = Fires tr ->
  (tr_to tr =? to) = false /\ guard m_children (tr_to tr) ctx = true.
Proof.
  induction trs as [|p trs IH]; intros waiting tr; simpl; [done|].
  destruct (tr_to p =? to) eqn:E1; [apply IH|].
  destruct (negb (tr_from p =? from) && negb (tr_from p =? ANY)); [apply IH|].
  destruct (tr_to p =? ANY) eqn:E3; simpl.
  - destruct (F32.geb (tr_exit_time p) F32.zero && _); [apply IH|done].
  - destruct (guard m_children (tr_to p) ctx) eqn:E4; simpl; [|apply IH].
    destruct (F32.geb (tr_exit_time p) F32.zero && _); [apply IH|].
    by intros [= <-].
Qed.

Lemma guard_child m_children i ctx :
  guard m_children i ctx = true -> is_Some (zget (List.map group_node m_children) i).
Proof.
  unfold guard. rewrite zget_map. destruct (zget m_children i); [by eexists|done].
Qed.

Lemma firstSelectable_range children from ctx : forall i k,
  firstSelectable i children from ctx = Some k ->
  i <= k < i + zlen children /\ (from =? k) = false.
Proof.
  induction children as [|c cs IH]; intros i k; simpl; [done|].
  assert (zlen (c :: cs) = 1 + zlen cs) as -> by (unfold zlen; simpl; lia).
  pose proof (zlen_nonneg cs) as Hnn.
  assert (Hrec : firstSelectable (i + 1) cs from ctx = Some k ->
                 i <= k < i + (1 + zlen cs) /\ (from =? k) = false).
  { intros Hk. apply IH in Hk. lia. }
  destruct (i =? from) eqn:E1; [done|].
  destruct (negb (selectable c)); [done|].
  destruct (negb (eval (child_condition c) ctx)); [done|].
  intros [= <-]. split; [lia|]. by rewrite Z.eqb_sym.
Qed.

Lemma firstMatching_range children ctx : forall i,
  firstMatching i children ctx = 0 \/
  i <= firstMatching i children ctx < i + zlen children.
Proof.
  induction children as [|c cs IH]; intros i; simpl; [by left|].
  assert (zlen (c :: cs) = 1 + zlen cs) as -> by (unfold zlen; simpl; lia).
  pose proof (zlen_nonneg cs) as Hnn.
  destruct (selectable c && eval (child_condition c) ctx); [right; lia|].
  destruct (IH (i + 1)) as [->|H]; [by left|right; lia].
Qed.

Section Group.
Variables (G : Prop) (m_blend_length : Time).
Variable m_children : list GroupChild.
Variable m_transitions : list Transition.
Let node := GroupNode_ops m_blend_length m_children m_transitions.
Let nodes := List.map group_node m_children.
Hypothesis Hne : m_children <> [].
Hypothesis Henters : Forall (enters G) nodes.

Lemma Group_child_at i : 0 <= i < zlen m_children -> is_Some (zget nodes i).
Proof.
  intros Hi. unfold nodes. rewrite zget_map.
  destruct (zget_is_Some m_children i Hi) as [c ->]. by eexists.
Qed.

Lemma Group_reads from to t blend_length d :
  fade_state (reads G) nodes from to d ->
  reads G node (from :: to :: t :: blend_length :: d).
Proof.
  intros Hstate. split; [|intros HG; split].
  - intros ctx rest weight pose mask Hin. simpl. unfold GroupNode_getPose.
    rewrite (GroupFacts.read_GroupData_cons ctx from to t blend_length (d ++ rest))
      by exact Hin.
    rewrite nonempty_match by exact Hne. fold nodes.
    assert (Hs : fade_state samples nodes from to d).
    { eapply fade_state_impl; [|exact Hstate]. by intros o x [? _]. }
    destruct (crossfade_getPose_reads nodes from to d Hs t blend_length
                (with_input_runtime (d ++ rest) ctx) rest weight pose mask eq_refl)
      as [p ->].
    exists p. do 2 f_equal.
  - intros ctx rest Hin. simpl. unfold GroupNode_skip.
    rewrite (GroupFacts.read_GroupData_cons ctx from to t blend_length (d ++ rest))
      by exact Hin.
    fold nodes.
    assert (Hs : fade_state skips nodes from to d).
    { eapply fade_state_impl; [|exact Hstate]. intros o x [_ Hx]. by apply Hx. }
    rewrite (crossfade_skip_reads nodes from to d Hs
               (with_input_runtime (d ++ rest) ctx) rest eq_refl).
    f_equal.
  - intros ctx rest rm Hin. simpl. unfold GroupNode_update.
    rewrite (GroupFacts.read_GroupData_cons ctx from to t blend_length (d ++ rest))
      by exact Hin.
    cbv zeta. rewrite nonempty_match by exact Hne.
    fold nodes. set (ctx1 := with_input_runtime (d ++ rest) ctx).
    destruct Hstate as (fn & Hfn & Hstate).
    destruct (from =? to) eqn:Hft; cbn [negb].
    + destruct Hstate as [_ Hd]. destruct (Hd HG) as [_ Hup].
      assert (Hstay : forall blend, exists d' rm',
                keep_playing nodes from to t (write_GroupData blend) ctx1 rm
                = Some (with_data (data ctx ++ d') (with_input_runtime rest ctx), rm')).
      { intros blend.
        destruct (keep_playing_exact nodes (write_GroupData blend)
                    (fun a b c => [a; b; c; blend]) (GroupData_appends blend)
                    from to t fn d ctx1 rest rm Hfn Hup eq_refl) as (d' & rm' & ->).
        exists d', rm'. do 2 f_equal. }
      assert (Hstart : forall i blend, is_Some (zget nodes i) -> exists d' rm',
                start_crossfade nodes from i (write_GroupData blend) ctx1 rm
                = Some (with_data (data ctx ++ d') (with_input_runtime rest ctx), rm')).
      { intros i blend [tn Htn].
        destruct (start_crossfade_exact G nodes (write_GroupData blend)
                    (fun a b c => [a; b; c; blend]) (GroupData_appends blend) Henters
                    from i fn tn d ctx1 rest rm Hfn Htn Hup eq_refl) as (d' & rm' & ->).
        exists d', rm'. do 2 f_equal. }
      assert (Hfallback : forall go : bool,
                exists d' rm',
                  (if go then
                     match firstSelectable 0 m_children from ctx1 with
                     | Some i => start_crossfade nodes from i (write_GroupData m_blend_length)
                                                 ctx1 rm
                     | None => keep_playing nodes from to t (write_GroupData blend_length)
                                            ctx1 rm
                     end
                   else keep_playing nodes from to t (write_GroupData blend_length) ctx1 rm)
                  = Some (with_data (data ctx ++ d') (with_input_runtime rest ctx), rm')).
      { intros [|]; [|apply Hstay].
        destruct (firstSelectable 0 m_children from ctx1) as [i|] eqn:Hi; [|apply Hstay].
        apply Hstart, Group_child_at. apply firstSelectable_range in Hi. lia. }
      unfold nodes in Hfn. rewrite zget_map in Hfn.
      destruct (zget m_children from) as [current|]; [|done]. fold nodes.
      destruct (negb (eval (child_condition current) ctx1) || negb (selectable current));
        [|apply Hstay].
      destruct (scanTransitions m_children (group_node current) ctx1 from to
                  m_transitions false) as [tr| |waiting] eqn:Hscan.
      * apply Hstart. apply scanTransitions_fires in Hscan as [_ Hguard].
        by apply guard_child in Hguard.
      * apply Hfallback.
      * apply Hfallback.
    + destruct Hstate as (tn & d1 & d2 & Htn & -> & [_ H1] & [_ H2]).
      destruct (H1 HG) as [Hsk1 Hup1]. destruct (H2 HG) as [_ Hup2].
      destruct (crossfade_update_exact nodes (write_GroupData blend_length)
                  (fun a b c => [a; b; c; blend_length]) (GroupData_appends blend_length)
                  from to t blend_length fn tn d1 d2 ctx1 rest rm
                  Hfn Htn Hsk1 Hup1 Hup2 eq_refl) as (d' & rm' & ->).
      exists d', rm'. do 2 f_equal.
Qed.

Lemma Group_enters : enters G node.
Proof.
  intros ctx. simpl. unfold GroupNode_enter.
  set (from := firstMatching 0 m_children ctx).
  assert (Hfrom : 0 <= from < zlen m_children).
  { assert (1 <= zlen m_children).
    { destruct m_children; [done|]. unfold zlen. simpl. lia. }
    destruct (firstMatching_range m_children ctx 0); unfold from; lia. }
  destruct (zget_is_Some m_children from Hfrom) as [child Hchild]. rewrite Hchild.
  assert (Hnode : zget nodes from = Some (group_node child)).
  { unfold nodes. by rewrite zget_map, Hchild. }
  destruct (zget_Forall _ _ _ _ Henters Hnode (write_GroupData 0 from from 0 ctx))
    as (d & -> & Hd).
  exists (from :: from :: 0 :: 0 :: d). split; [f_equal; same_context ctx|].
  apply Group_reads. exists (group_node child). split; [done|]. by rewrite Z.eqb_refl.
Qed.

Hypothesis Hframes : Forall skip_frame nodes.
Hypothesis Hwrites : Forall (writes G) nodes.

Lemma Group_writes : writes G node.
Proof.
  intros ctx rm ctx' rm'. simpl. unfold GroupNode_update.
  destruct (read_GroupData ctx) as [[[[[from to] t] blend_length] ctx1]|] eqn:Hread; [|done].
  apply read_GroupData_inv in Hread as (rest & Hin & ->).
  cbv zeta. rewrite nonempty_match by exact Hne.
  fold nodes. set (ctx1 := with_input_runtime rest ctx).
  destruct (from =? to) eqn:Hft; cbn [negb].
  - apply Z.eqb_eq in Hft as <-.
    assert (Hstay : keep_playing nodes from from t (write_GroupData blend_length) ctx1 rm
                    = Some (ctx', rm') ->
                    exists d r, ctx' = with_data (data ctx ++ d) (with_input_runtime r ctx) /\
                                reads G node d).
    { intros H.
      apply (keep_playing_writes G nodes (write_GroupData blend_length)
               (fun a b c => [a; b; c; blend_length]) (GroupData_appends blend_length)
               Hwrites) in H as (d & r & -> & Hd).
      exists (from :: from :: Time_add t (time_delta ctx1) :: blend_length :: d), r.
      split; [unfold ctx1; same_context ctx|]. by apply Group_reads. }
    assert (Hstart : forall i blend, (from =? i) = false ->
                     start_crossfade nodes from i (write_GroupData blend) ctx1 rm
                     = Some (ctx', rm') ->
                     exists d r, ctx' = with_data (data ctx ++ d) (with_input_runtime r ctx) /\
                                 reads G node d).
    { intros i blend Hi H.
      apply (start_crossfade_writes G nodes (write_GroupData blend)
               (fun a b c => [a; b; c; blend]) (GroupData_appends blend)
               Hwrites Henters) in H as (d & r & -> & Hd); [|exact Hi].
      exists (from :: i :: 0 :: blend :: d), r.
      split; [unfold ctx1; same_context ctx|]. by apply Group_reads. }
    assert (Hfallback : forall go : bool,
              (if go then
                 match firstSelectable 0 m_children from ctx1 with
                 | Some i => start_crossfade nodes from i (write_GroupData m_blend_length)
                                             ctx1 rm
                 | None => keep_playing nodes from from t (write_GroupData blend_length)
                                        ctx1 rm
                 end
               else keep_playing nodes from from t (write_GroupData blend_length) ctx1 rm)
              = Some (ctx', rm') ->
              exists d r, ctx' = with_data (data ctx ++ d) (with_input_runtime r ctx) /\
                          reads G node d).
    { intros [|]; [|apply Hstay].
      destruct (firstSelectable 0 m_children from ctx1) as [i|] eqn:Hi; [|apply Hstay].
      apply Hstart. by apply firstSelectable_range in Hi as [_ ?]. }
    destruct (zget m_children from) as [current|]; [|done].
    destruct (negb (eval (child_condition current) ctx1) || negb (selectable current));
      [|apply Hstay].
    destruct (scanTransitions m_children (group_node current) ctx1 from from
                m_transitions false) as [tr| |waiting] eqn:Hscan.
    + apply Hstart. apply scanTransitions_fires in Hscan as [Hto _].
      by rewrite Z.eqb_sym.
    + apply Hfallback.
    + apply Hfallback.
  - intros H.
    apply (crossfade_update_writes G nodes (write_GroupData blend_length)
             (fun a b c => [a; b; c; blend_length]) (GroupData_appends blend_length)
             Hframes Hwrites) in H
      as (from' & to' & t' & d & r & -> & Hd); [|done].
    exists (from' :: to' :: t' :: blend_length :: d), r.
    split; [unfold ctx1; same_context ctx|]. by apply Group_reads.
Qed.

End Group.

(** A group node with or without children leaves the rest of the context
    alone when it skips. *)
Lemma Group_skip_frame m_blend_length m_children m_transitions :
  Forall skip_frame (List.map group_node m_children) ->
  skip_frame (GroupNode_ops m_blend_length m_children m_transitions).
Proof.
  intros Hframes ctx ctx'. simpl. unfold GroupNode_skip.
  destruct (read_GroupData ctx) as [[[[[from to] t] blend_length] ctx1]|] eqn:Hread; [|done].
  apply read_GroupData_inv in Hread as (rest & Hin & ->).
  intros H. apply (crossfade_skip_frame _ Hframes) in H as [r ->]. by exists r.
Qed.

(** *** A group node without children

    [update] copies its four words and [getPose] reads them; [skip] has no
    child to skip. *)
Section EmptyGroup.
Variables (G : Prop) (m_blend_length : Time) (m_transitions : list Transition).
Let node := GroupNode_ops m_blend_length [] m_transitions.
Hypothesis HG : G -> False.

Lemma Group_empty_reads a b c e : reads G node [a; b; c; e].
Proof.
  split; [|done].
  intros ctx rest weight pose mask Hin. simpl. unfold GroupNode_getPose.
  rewrite (GroupFacts.read_GroupData_cons ctx a b c e rest) by exact Hin.
  by exists pose.
Qed.

Lemma Group_empty_enters : enters G node.
Proof.
  intros ctx. exists [0; 0; 0; 0]. split; [|apply Group_empty_reads].
  simpl. unfold GroupNode_enter. simpl. f_equal. same_context ctx.
Qed.

Lemma Group_empty_writes : writes G node.
Proof.
  intros ctx rm ctx' rm'. simpl. unfold GroupNode_update.
  destruct (read_GroupData ctx) as [[[[[from to] t] blend_length] ctx1]|] eqn:Hread; [|done].
  apply read_GroupData_inv in Hread as (rest & Hin & ->).
  intros [= <- <-]. exists [from; to; t; blend_length], rest.
  split; [same_context ctx|apply Group_empty_reads].
Qed.

End EmptyGroup.

End GroupStreams.

(** * The streams of a whole controller tree *)

Module TreeStreams.
Import Anim AnimStreams StreamFacts SelectStreams GroupStreams.

(** Induction over a tree: a property that holds of a node whenever it
    holds of the nodes directly below it holds of every node. *)
Lemma Node_children_ind (P : Node -> Prop) :
  (forall n, Forall P (children n) -> P n) -> forall n, P n.
Proof.
  intros H. fix IH 1. intros n. apply H. destruct n; simpl; try constructor.
  - destruct m_true_node as [c1|], m_false_node as [c2|]; simpl; repeat constructor;
      apply IH.
  - induction m_layers as [|[m c] l IHl]; constructor; [apply IH|exact IHl].
  - induction m_children as [|[v c] l IHl]; constructor; [apply IH|exact IHl].
  - induction m_children as [|[[f g] c] l IHl]; constructor; [apply IH|exact IHl].
Qed.

Lemma all_nodes_inv P n :
  all_nodes P n = true -> P n = true /\ Forall (fun c => all_nodes P c = true) (children n).
Proof.
  destruct n; simpl; rewrite andb_true_iff; intros [HP H]; (split; [exact HP|]);
    try constructor.
  - apply andb_true_iff in H as [H1 H2].
    destruct m_true_node, m_false_node; simpl in *; repeat constructor; assumption.
  - clear HP. induction m_layers as [|[m c] l IHl]; simpl in *; constructor;
      apply andb_true_iff in H as [? ?]; auto.
  - clear HP. induction m_children as [|[v c] l IHl]; simpl in *; constructor;
      apply andb_true_iff in H as [? ?]; auto.
  - clear HP. induction m_children as [|[[f g] c] l IHl]; simpl in *; constructor;
      apply andb_true_iff in H as [? ?]; auto.
Qed.

(** A node that reads and writes nothing: a condition node that lacks a
    branch, a select node without children. *)
Section Passive.
Variables (G : Prop) (o : NodeOps).
Hypothesis Hupdate : forall ctx rm, update o ctx rm = Some (ctx, rm).
Hypothesis Henter : forall ctx, enter o ctx = Some ctx.
Hypothesis Hskip : skip o = (fun ctx => Some ctx).
Hypothesis Hpose : forall ctx weight pose mask, getPose o ctx weight pose mask = Some (ctx, pose).

Lemma passive_enters : enters G o.
Proof.
  intros ctx. exists []. rewrite Henter. split.
  - f_equal. same_context ctx.
  - by apply Condition_empty_reads.
Qed.

Lemma passive_writes : writes G o.
Proof.
  intros ctx rm ctx' rm'. rewrite Hupdate. intros [= <- <-].
  exists [], (input_runtime ctx). split; [by apply ctx_eta_data|].
  by apply Condition_empty_reads.
Qed.

Lemma passive_skip_frame : skip_frame o.
Proof.
  intros ctx ctx'. rewrite Hskip. intros [= <-]. exists (input_runtime ctx).
  by rewrite ctx_eta.
Qed.

End Passive.

Lemma Forall_layers (R : NodeOps -> Prop) (l : list (Z * Node)) :
  Forall (fun c => R (ops c)) (List.map snd l) ->
  Forall (fun x => R (layer_node x))
         (List.map (fun p => match p with (mask, c) => mkLayer mask (ops c) end) l).
Proof.
  induction l as [|[m c] l IH]; simpl; intros H; [constructor|].
  apply Forall_cons in H as [? ?]. constructor; auto.
Qed.

Lemma Forall_select (R : NodeOps -> Prop) (l : list (spec_float * Node)) :
  Forall (fun c => R (ops c)) (List.map snd l) ->
  Forall R (List.map select_node
              (List.map (fun p => match p with (v, c) => mkSelectChild v (ops c) end) l)).
Proof.
  induction l as [|[m c] l IH]; simpl; intros H; [constructor|].
  apply Forall_cons in H as [? ?]. constructor; auto.
Qed.

Lemma Forall_group (R : NodeOps -> Prop) (l : list (Z * Condition * Node)) :
  Forall (fun c => R (ops c)) (List.map snd l) ->
  Forall R (List.map group_node
              (List.map (fun p => match p with (f, g, c) => mkGroupChild f g (ops c) end) l)).
Proof.
  induction l as [|[[f g] c] l IH]; simpl; intros H; [constructor|].
  apply Forall_cons in H as [? ?]. constructor; auto.
Qed.

Lemma zlen_map {A B} (f : A -> B) (l : list A) : zlen (List.map f l) = zlen l.
Proof. unfold zlen. by rewrite length_map. Qed.

Lemma map_nonempty {A B} (f : A -> B) (l : list A) : l <> [] -> List.map f l <> [].
Proof. by destruct l. Qed.

(** [skip] moves the read cursor and leaves the rest of the context alone. *)
Lemma tree_skip_frame : forall n, skip_frame (ops n).
Proof.
  induction n as [n IH] using Node_children_ind.
  assert (Hsk : Forall (fun c => skip_frame (ops c)) (children n)) by exact IH.
  destruct n; simpl in Hsk |- *; try (by apply leaf_skip_frame).
  - destruct m_true_node as [c1|], m_false_node as [c2|]; simpl in Hsk;
      try (by apply passive_skip_frame).
    apply Forall_cons in Hsk as [Hs1 Hsk]. apply Forall_cons in Hsk as [Hs2 _].
    by apply Condition_skip_frame.
  - apply Layers_skip_frame. by apply Forall_layers.
  - destruct (decide (m_children = [])) as [->|Hne]; [by apply passive_skip_frame|].
    apply Select_skip_frame; [by apply map_nonempty|by apply Forall_select].
  - apply Group_skip_frame. by apply Forall_group.
Qed.

(** Entering a tree writes a stream that its passes read. *)
Lemma tree_enters (G : Prop) : forall n,
  lengths_ok n = true -> (G -> groups_inhabited n = true) -> enters G (ops n).
Proof.
  induction n as [n IH] using Node_children_ind. intros Hlen Hgrp.
  apply all_nodes_inv in Hlen as [Hl Hls].
  assert (Hch : Forall (fun c => enters G (ops c)) (children n)).
  { rewrite Forall_forall in *. intros c Hc. apply IH; [done|by apply Hls|].
    intros g. destruct (all_nodes_inv _ _ (Hgrp g)) as [_ F].
    rewrite Forall_forall in F. by apply F. }
  destruct n; simpl in Hch, Hl |- *.
  - apply AnimationNode_enters.
  - apply Blend1DNode_enters.
  - apply Blend2DNode_enters.
  - destruct m_true_node as [c1|], m_false_node as [c2|]; simpl in Hch;
      try (by apply passive_enters).
    apply Forall_cons in Hch as [H1 Hch]. apply Forall_cons in Hch as [H2 _].
    by apply Condition_enters.
  - apply Layers_enters. by apply Forall_layers.
  - destruct (decide (m_children = [])) as [->|Hne]; [by apply passive_enters|].
    apply Select_enters.
    + by apply map_nonempty.
    + rewrite zlen_map. lia.
    + by apply Forall_select.
  - destruct (decide (m_children = [])) as [->|Hne].
    + apply Group_empty_enters. intros g. specialize (Hgrp g).
      by apply all_nodes_inv in Hgrp as [? _].
    + apply Group_enters; [by apply map_nonempty|by apply Forall_group].
Qed.

(** What [update] leaves in the stream, its passes read. *)
Lemma tree_writes (G : Prop) : forall n,
  lengths_ok n = true ->
  (G -> groups_inhabited n = true /\ instant_conditions n = true) ->
  writes G (ops n).
Proof.
  induction n as [n IH] using Node_children_ind. intros Hlen Hgrp.
  apply all_nodes_inv in Hlen as [Hl Hls].
  assert (Hsub : forall c, c ∈ children n ->
            lengths_ok c = true /\
            (G -> groups_inhabited c = true /\ instant_conditions c = true)).
  { intros c Hc. rewrite Forall_forall in Hls. split; [by apply Hls|].
    intros g. destruct (Hgrp g) as [H1 H2].
    apply all_nodes_inv in H1 as [_ F1]. apply all_nodes_inv in H2 as [_ F2].
    rewrite Forall_forall in F1, F2. split; [by apply F1|by apply F2]. }
  assert (Hen : Forall (fun c => enters G (ops c)) (children n)).
  { apply Forall_forall. intros c Hc. destruct (Hsub c Hc) as [H1 H2].
    apply tree_enters; [done|]. intros g. by destruct (H2 g). }
  assert (Hwr : Forall (fun c => writes G (ops c)) (children n)).
  { rewrite Forall_forall in *. intros c Hc. destruct (Hsub c Hc) as [H1 H2].
    by apply IH. }
  assert (Hsk : Forall (fun c => skip_frame (ops c)) (children n)).
  { apply Forall_forall. intros c _. apply tree_skip_frame. }
  destruct n; simpl in Hen, Hwr, Hsk, Hl |- *.
  - apply AnimationNode_writes.
  - apply Blend1DNode_writes.
  - apply Blend2DNode_writes.
  - destruct m_true_node as [c1|], m_false_node as [c2|]; simpl in Hen, Hwr, Hsk;
      try (by apply passive_writes).
    apply Forall_cons in Hen as [He1 Hen]. apply Forall_cons in Hen as [He2 _].
    apply Forall_cons in Hwr as [Hw1 Hwr]. apply Forall_cons in Hwr as [Hw2 _].
    apply Forall_cons in Hsk as [Hs1 Hsk]. apply Forall_cons in Hsk as [Hs2 _].
    apply Condition_writes; try done; [lia|].
    intros g. destruct (Hgrp g) as [_ H]. apply all_nodes_inv in H as [H _]. lia.
  - apply Layers_writes. by apply Forall_layers.
  - destruct (decide (m_children = [])) as [->|Hne]; [by apply passive_writes|].
    apply Select_writes;
      try (by apply map_nonempty); try (by apply Forall_select);
      rewrite zlen_map; lia.
  - destruct (decide (m_children = [])) as [->|Hne].
    + apply Group_empty_writes. intros g. destruct (Hgrp g) as [H _].
      by apply all_nodes_inv in H as [? _].
    + apply Group_writes; try (by apply map_nonempty); by apply Forall_group.
Qed.

(** X1: a tree in which every group node has a child is entered without
    fail, and the words that [enter] appends to the data stream are the words
    that [getPose], [skip] and [update] each read, no more and no fewer, when
    that stream is given to them as input. *)
Theorem enter_stream_is_read_by_every_pass (n : Node) (ctx : RuntimeContext) :
  lengths_ok n = true -> groups_inhabited n = true ->
  exists d, enter (ops n) ctx = Some (with_data (data ctx ++ d) ctx) /\
            samples (ops n) d /\ skips (ops n) d /\ updates (ops n) d.
Proof.
  intros Hlen Hgrp. destruct (tree_enters True n Hlen (fun _ => Hgrp) ctx) as (d & He & Hs & Hd).
  exists d. destruct (Hd I) as [? ?]. done.
Qed.

Lemma enter_stream_is_read_by_every_pass_witness :
  exists d, enter (ops StreamExamples.state_tree) StreamExamples.first_context
            = Some (with_data (data StreamExamples.first_context ++ d)
                              StreamExamples.first_context) /\
            samples (ops StreamExamples.state_tree) d /\
            skips (ops StreamExamples.state_tree) d /\
            updates (ops StreamExamples.state_tree) d.
Proof.
  apply (enter_stream_is_read_by_every_pass StreamExamples.state_tree
           StreamExamples.first_context); reflexivity.
Defined.

(** X2: in any state of any tree, the words that an [update] which returns
    has appended to the data stream are the words that [getPose] reads from
    it: [getPose] consumes them and nothing behind them. *)
Theorem update_stream_is_read_by_getPose (n : Node) (ctx ctx' : RuntimeContext)
    (root_motion root_motion' : LocalRigidTransform) :
  lengths_ok n = true ->
  update (ops n) ctx root_motion = Some (ctx', root_motion') ->
  exists d rest, ctx' = with_data (data ctx ++ d) (with_input_runtime rest ctx) /\
                 samples (ops n) d.
Proof.
  intros Hlen Hup.
  assert (Hw : writes False (ops n)) by (by apply tree_writes).
  apply Hw in Hup as (d & rest & -> & Hs & _). by exists d, rest.
Qed.

Lemma update_stream_is_read_by_getPose_witness :
  exists d rest,
    StreamExamples.fading_after.1
    = with_data (data StreamExamples.fading_before ++ d)
                (with_input_runtime rest StreamExamples.fading_before) /\
    samples (ops AnimExamples.select_tree) d.
Proof.
  apply (update_stream_is_read_by_getPose AnimExamples.select_tree
           StreamExamples.fading_before StreamExamples.fading_after.1
           LocalRigidTransform_IDENTITY StreamExamples.fading_after.2);
    [reflexivity|vm_compute; reflexivity].
Defined.

(** X3: in a tree whose group nodes have children and whose condition nodes
    switch without a blend, the words that an [update] which returns has
    appended to the data stream are the words that [skip] reads and that the
    next [update] reads, and that next [update] returns. *)
Theorem update_stream_is_read_by_next_update (n : Node) (ctx ctx' : RuntimeContext)
    (root_motion root_motion' : LocalRigidTransform) :
  lengths_ok n = true -> groups_inhabited n = true -> instant_conditions n = true ->
  update (ops n) ctx root_motion = Some (ctx', root_motion') ->
  exists d rest, ctx' = with_data (data ctx ++ d) (with_input_runtime rest ctx) /\
                 skips (ops n) d /\ updates (ops n) d.
Proof.
  intros Hlen Hgrp Hinst Hup.
  assert (Hw : writes True (ops n)) by (by apply tree_writes).
  apply Hw in Hup as (d & rest & -> & _ & Hd). exists d, rest. by destruct (Hd I).
Qed.

Lemma update_stream_is_read_by_next_update_witness :
  exists d rest,
    StreamExamples.state_after.1
    = with_data (data StreamExamples.state_before ++ d)
                (with_input_runtime rest StreamExamples.state_before) /\
    skips (ops StreamExamples.state_tree) d /\ updates (ops StreamExamples.state_tree) d.
Proof.
  apply (update_stream_is_read_by_next_update StreamExamples.state_tree
           StreamExamples.state_before StreamExamples.state_after.1
           LocalRigidTransform_IDENTITY StreamExamples.state_after.2);
    [reflexivity|reflexivity|reflexivity|vm_compute; reflexivity].
Defined.

(** X4: [skip] of any tree writes nothing: if it returns, the context differs
    from the one it was given in the read cursor alone. *)
Theorem skip_moves_the_cursor_only (n : Node) (ctx ctx' : RuntimeContext) :
  skip (ops n) ctx = Some ctx' ->
  data ctx' = data ctx /\ inputs ctx' = inputs ctx /\ animations ctx' = animations ctx /\
  time_delta ctx' = time_delta ctx /\ model_ready ctx' = model_ready ctx.
Proof. intros H. apply tree_skip_frame in H as [rest ->]. by destruct ctx. Qed.

Lemma skip_moves_the_cursor_only_witness :
  data StreamExamples.state_skipped = data StreamExamples.state_read /\
  inputs StreamExamples.state_skipped = inputs StreamExamples.state_read /\
  animations StreamExamples.state_skipped = animations StreamExamples.state_read /\
  time_delta StreamExamples.state_skipped = time_delta StreamExamples.state_read /\
  model_ready StreamExamples.state_skipped = model_ready StreamExamples.state_read.
Proof.
  apply (skip_moves_the_cursor_only StreamExamples.state_tree StreamExamples.state_read
           StreamExamples.state_skipped).
  vm_compute. reflexivity.
Defined.

End TreeStreams.

(** * The free list of the entity store *)

Module FreeListFacts.
Import World WorldMore.

Lemma zget_zalter {A} (f : A -> A) (l : list A) i j :
  zget (zalter f i l) j = if decide (i = j) then f <$> zget l j else zget l j.
Proof.
  case_decide as H; [subst; apply zget_zalter_eq|by apply zget_zalter_ne].
Qed.

(** Entities in a chain are slots. *)
Lemma free_chain_elem es p e fs x :
  free_chain es p e fs -> x ∈ fs -> exists d, zget es x = Some d /\ valid d = false.
Proof.
  induction 1 as [|p e d fs He Hd Hv Hp Hch IH]; [by intros ?%elem_of_nil|].
  intros [->|Hx]%elem_of_cons; eauto.
Qed.

(** A chain only depends on the slots it visits and on the [prev] of its
    first slot. *)
Lemma free_chain_ext es es' p e fs :
  free_chain es p e fs ->
  (forall x, x ∈ fs -> slot <$> zget es' x = slot <$> zget es x) ->
  free_chain es' p e fs.
Proof.
  induction 1 as [|p e d fs He Hd Hv Hp Hch IH]; intros Hsame; [by constructor|].
  pose proof (Hsame e ltac:(left)) as Hs. rewrite Hd in Hs.
  destruct (zget es' e) as [d'|] eqn:Hd'; [|done].
  injection Hs as Hs1 Hs2 Hs3.
  apply free_chain_step with d'; try done; try congruence.
  rewrite Hs3. apply IH. intros x Hx. apply Hsame. by right.
Qed.

(** The first slot of a chain may get another predecessor. *)
Lemma free_chain_rehead es p q e fs f :
  free_chain es p e fs -> e ∉ tail fs ->
  (forall d, valid (f d) = valid d /\ next (f d) = next d /\ prev (f d) = q) ->
  free_chain (zalter f e es) q e fs.
Proof.
  intros Hch Hnd Hf. destruct Hch as [p e He|p e d fs He Hd Hv Hp Hch]; [by constructor|].
  simpl in Hnd. destruct (Hf d) as (Hfv & Hfn & Hfp).
  apply free_chain_step with (f d); try done; try congruence.
  - by rewrite zget_zalter_eq, Hd.
  - rewrite Hfn. apply (free_chain_ext es); [done|].
    intros x Hx. rewrite zget_zalter_ne; [done|]. by intros <-.
Qed.

Lemma free_chain_head_range es p e fs :
  free_chain es p e fs -> e < zlen es.
Proof.
  destruct 1 as [p e He|p e d fs He Hd _ _ _]; [pose proof (zlen_nonneg es); lia|].
  apply zget_Some in Hd. lia.
Qed.

Lemma hasEntity_valid w e d :
  zget (m_entities w) e = Some d -> hasEntity w e = valid d.
Proof.
  intros Hd. pose proof (zget_Some _ _ _ Hd). unfold hasEntity, ent. rewrite Hd. simpl.
  assert ((0 <=? e) = true) as -> by (apply Z.leb_le; lia).
  assert ((e <? zlen (m_entities w)) = true) as -> by (apply Z.ltb_lt; lia). done.
Qed.

Lemma hasEntity_outside w e :
  zget (m_entities w) e = None -> hasEntity w e = false.
Proof.
  intros Hd. apply zget_None in Hd. unfold hasEntity.
  destruct (0 <=? e) eqn:H1; [|done]. destruct (e <? zlen (m_entities w)) eqn:H2; [|done].
  apply Z.leb_le in H1. apply Z.ltb_lt in H2. lia.
Qed.

(** Liveness is a matter of the slots. *)
Lemma hasEntity_slots w w' e :
  slot <$> zget (m_entities w') e = slot <$> zget (m_entities w) e ->
  hasEntity w' e = hasEntity w e.
Proof.
  destruct (zget (m_entities w) e) as [d|] eqn:Hd;
    destruct (zget (m_entities w') e) as [d'|] eqn:Hd'; try done.
  - intros [= Hv _ _]. by rewrite (hasEntity_valid _ _ _ Hd), (hasEntity_valid _ _ _ Hd').
  - intros _. by rewrite !hasEntity_outside.
Qed.

(** *** What the hierarchy operations keep *)

Lemma kept_refl w : kept w w.
Proof. by repeat split. Qed.

Lemma kept_trans w1 w2 w3 : kept w1 w2 -> kept w2 w3 -> kept w1 w3.
Proof.
  intros (H1 & H2 & H3 & H4) (K1 & K2 & K3 & K4). repeat split; congruence.
Qed.

Lemma map_zalter_same {A B} (g : A -> B) (f : A -> A) i (l : list A) :
  (forall d, g (f d) = g d) -> List.map g (zalter f i l) = List.map g l.
Proof.
  intros Hf. unfold zalter. case_decide; [|done].
  apply list_eq. intros k. rewrite !list_lookup_fmap.
  destruct (decide (k = Z.to_nat i)) as [->|Hne].
  - rewrite list_lookup_alter, decide_True by done.
    destruct (l !! Z.to_nat i); simpl; [by rewrite Hf|done].
  - by rewrite list_lookup_alter_ne.
Qed.

Lemma kept_set_hierarchy v e w : kept w (alter_entity (set_hierarchy v) e w).
Proof. repeat split. simpl. by apply map_zalter_same. Qed.

Lemma kept_alter_hier f i w : kept w (alter_hier f i w).
Proof. by repeat split. Qed.

Lemma kept_with_hierarchy f w : kept w (with_hierarchy f w).
Proof. by repeat split. Qed.

Lemma kept_notify ev w : kept w (notify ev w).
Proof. by repeat split. Qed.

Lemma kept_store x v w : kept w (store x v w).
Proof. destruct x; apply kept_alter_hier. Qed.

Lemma kept_unlink c : forall fuel w x w', unlink fuel w x c = Some w' -> kept w w'.
Proof.
  induction fuel as [|fuel IH]; intros w x w'; simpl; [done|].
  destruct (isValid (load w x)); [|intros [= <-]; apply kept_refl].
  destruct (load w x =? c); [intros [= <-]; apply kept_store|apply IH].
Qed.

Lemma kept_collectGarbage w e : kept w (collectGarbage w e).
Proof.
  unfold collectGarbage.
  destruct (isValid _); [apply kept_refl|]. destruct (isValid _); [apply kept_refl|].
  eapply kept_trans; [apply kept_set_hierarchy|].
  eapply kept_trans; [apply kept_set_hierarchy|].
  eapply kept_trans; [apply kept_alter_hier|]. apply kept_with_hierarchy.
Qed.

Lemma kept_emplace_record e w : kept w (emplace_record e w).
Proof.
  unfold emplace_record.
  eapply kept_trans; [apply kept_set_hierarchy|]. apply kept_with_hierarchy.
Qed.

Lemma kept_detachFromParent fuel w p c w' :
  detachFromParent fuel w p c = Some w' -> kept w w'.
Proof.
  unfold detachFromParent.
  destruct (0 <=? hierarchy (ent w c)).
  - destruct (isValid (parent _)); [|intros [= <-]; apply kept_refl].
    destruct (unlink _ _ _ _) as [w1|] eqn:Hun; [|done]. intros [= <-].
    eapply kept_trans; [by eapply kept_unlink|].
    eapply kept_trans; [apply kept_alter_hier|].
    eapply kept_trans; [apply kept_alter_hier|]. apply kept_collectGarbage.
  - destruct (isValid p); intros [= <-]; [apply kept_emplace_record|apply kept_refl].
Qed.

Lemma kept_linkToParent w p c : kept w (linkToParent w p c).
Proof.
  unfold linkToParent. destruct (isValid p).
  - set (w1 := if hierarchy (ent w p) <? 0 then emplace_record p w else w).
    assert (H1 : kept w w1).
    { unfold w1. destruct (_ <? 0); [apply kept_emplace_record|apply kept_refl]. }
    eapply kept_trans; [exact H1|].
    eapply kept_trans; [apply kept_alter_hier|].
    eapply kept_trans; [apply kept_alter_hier|].
    eapply kept_trans; [apply kept_alter_hier|]. apply kept_alter_hier.
  - destruct (0 <=? _); [apply kept_collectGarbage|apply kept_refl].
Qed.

Lemma kept_setParent fuel w p c w' : setParent fuel w p c = Some w' -> kept w w'.
Proof.
  unfold setParent.
  destruct (if isValid p then _ else _) as [[|]|]; [| |done].
  - intros [= <-]. apply kept_notify.
  - destruct (detachFromParent fuel w p c) as [w1|] eqn:Hd; [|done]. intros [= <-].
    eapply kept_trans; [by eapply kept_detachFromParent|]. apply kept_linkToParent.
Qed.

Lemma kept_detachChildren fuel e : forall n w w',
  detachChildren n fuel w e = Some w' -> kept w w'.
Proof.
  induction n as [|n IH]; intros w w'; simpl; [done|].
  destruct (isValid _); [|intros [= <-]; apply kept_refl].
  destruct (setParent _ _ _ _) as [w1|] eqn:Hs; [|done]. intros H.
  eapply kept_trans; [by eapply kept_setParent|by eapply IH].
Qed.

(** What is kept, seen through the getters *)
Lemma kept_core w w' x : kept w w' -> core (ent w' x) = core (ent w x).
Proof.
  intros (_ & _ & _ & H). unfold ent.
  assert (E : core <$> zget (m_entities w') x = core <$> zget (m_entities w) x).
  { assert (H' : core <$> m_entities w' = core <$> m_entities w) by exact H.
    unfold zget. case_decide; [|done]. by rewrite <- !list_lookup_fmap, H'. }
  destruct (zget (m_entities w') x), (zget (m_entities w) x); simpl in *; congruence.
Qed.

Lemma kept_zlen w w' : kept w w' -> zlen (m_entities w') = zlen (m_entities w).
Proof.
  intros (_ & _ & _ & H). unfold zlen.
  by rewrite <- (length_map core (m_entities w')), H, length_map.
Qed.

Lemma kept_slots w w' x :
  kept w w' -> slot <$> zget (m_entities w') x = slot <$> zget (m_entities w) x.
Proof.
  intros (_ & _ & _ & H).
  assert (E : core <$> zget (m_entities w') x = core <$> zget (m_entities w) x).
  { assert (H' : core <$> m_entities w' = core <$> m_entities w) by exact H.
    unfold zget. case_decide; [|done]. by rewrite <- !list_lookup_fmap, H'. }
  destruct (zget (m_entities w') x) as [[]|], (zget (m_entities w) x) as [[]|];
    simpl in *; try done.
  injection E as <- <- <- <- <- <-. done.
Qed.

(** The components of an entity are destroyed one by one: the slots keep
    their liveness and their links. *)
Lemma destroyComponents_slots e : forall n i mask w x,
  slot <$> zget (m_entities (destroyComponents n i mask w e)) x
  = slot <$> zget (m_entities w) x.
Proof.
  induction n as [|n IH]; intros i mask w x; simpl; [done|].
  destruct (Z.testbit mask i); [|apply IH].
  rewrite IH. unfold destroy_method, onComponentDestroyed. simpl.
  rewrite zget_zalter. case_decide; [|done]. by destruct (zget (m_entities w) x).
Qed.

Lemma destroyComponents_rest e : forall n i mask w,
  m_transforms (destroyComponents n i mask w e) = m_transforms w /\
  m_first_free_slot (destroyComponents n i mask w e) = m_first_free_slot w.
Proof.
  induction n as [|n IH]; intros i mask w; simpl; [done|].
  destruct (Z.testbit mask i); [|apply IH].
  destruct (IH (i + 1) (components (ent (destroy_method w i e) e)) (destroy_method w i e))
    as [-> ->]. done.
Qed.

Lemma slot_zalter_same f i (es : list EntityData) x :
  (forall d, slot (f d) = slot d) ->
  slot <$> zget (zalter f i es) x = slot <$> zget es x.
Proof.
  intros Hf. rewrite zget_zalter. case_decide; [|done].
  destruct (zget es x); simpl; [by rewrite Hf|done].
Qed.

(** The slots after [releaseSlot]: the released slot heads the free list,
    the former head points back at it. *)
Lemma releaseSlot_slots w e x :
  e <> m_first_free_slot w ->
  slot <$> zget (m_entities (releaseSlot w e)) x =
    if decide (x = e) then (fun _ => (false, -1, m_first_free_slot w)) <$> zget (m_entities w) x
    else if decide (x = m_first_free_slot w)
         then (fun d => (valid d, e, next d)) <$> zget (m_entities w) x
         else slot <$> zget (m_entities w) x.
Proof.
  intros Hne. unfold releaseSlot.
  set (w4 := alter_entity (set_valid false) e _).
  assert (H4 : slot <$> zget (m_entities w4) x
               = if decide (x = e)
                 then (fun _ => (false, -1, m_first_free_slot w)) <$> zget (m_entities w) x
                 else slot <$> zget (m_entities w) x).
  { unfold w4. simpl. rewrite !zget_zalter. case_decide as Hx.
    - subst x. rewrite decide_True by done. by destruct (zget (m_entities w) e).
    - by rewrite decide_False by congruence. }
  assert (Hf4 : m_first_free_slot w4 = m_first_free_slot w) by done.
  clearbody w4.
  set (w5 := if 0 <=? m_first_free_slot w4 then _ else w4).
  assert (H5 : slot <$> zget (m_entities w5) x
               = if decide (x = e)
                 then (fun _ => (false, -1, m_first_free_slot w)) <$> zget (m_entities w) x
                 else if decide (x = m_first_free_slot w)
                      then (fun d => (valid d, e, next d)) <$> zget (m_entities w) x
                      else slot <$> zget (m_entities w) x).
  { unfold w5. rewrite Hf4. destruct (0 <=? m_first_free_slot w) eqn:Hf.
    - simpl. rewrite zget_zalter. destruct (decide (m_first_free_slot w = x)) as [Hx|Hx].
      + subst x. rewrite (decide_False (P := m_first_free_slot w = e)) by congruence.
        rewrite decide_True by done.
        rewrite decide_False in H4 by congruence.
        destruct (zget (m_entities w4) (m_first_free_slot w)) as [d4|],
                 (zget (m_entities w) (m_first_free_slot w)) as [d|]; simpl in *; try done.
        injection H4 as Hv _ Hn. unfold slot, set_prev. simpl. by rewrite Hv, Hn.
      + rewrite H4. case_decide; [done|]. by rewrite decide_False by congruence.
    - rewrite H4. case_decide; [done|]. case_decide as Hx; [|done].
      apply Z.leb_gt in Hf. subst x.
      assert (zget (m_entities w) (m_first_free_slot w) = None) as ->; [|done].
      apply zget_None. lia. }
  clearbody w5. rewrite <- H5. clear.
  destruct (0 <=? name (ent w5 e)); [|done]. simpl.
  rewrite slot_zalter_same by done. by rewrite slot_zalter_same.
Qed.

Lemma releaseSlot_rest w e :
  m_first_free_slot (releaseSlot w e) = e /\
  m_transforms (releaseSlot w e) = m_transforms w /\
  zlen (m_entities (releaseSlot w e)) = zlen (m_entities w).
Proof.
  unfold releaseSlot.
  set (w4 := alter_entity (set_valid false) e _).
  assert (H4 : m_transforms w4 = m_transforms w /\
               zlen (m_entities w4) = zlen (m_entities w)).
  { unfold w4. simpl. by rewrite !zlen_zalter. }
  clearbody w4.
  set (w5 := if 0 <=? m_first_free_slot w4 then _ else w4).
  assert (H5 : m_transforms w5 = m_transforms w /\
               zlen (m_entities w5) = zlen (m_entities w)).
  { unfold w5. destruct (0 <=? m_first_free_slot w4); [|done]. simpl.
    by rewrite zlen_zalter. }
  clearbody w5.
  destruct (0 <=? name (ent w5 e)); [|done]. simpl. by rewrite !zlen_zalter.
Qed.

Lemma zlen_slots (es es' : list EntityData) :
  (forall x, slot <$> zget es' x = slot <$> zget es x) -> zlen es' = zlen es.
Proof.
  intros H. pose proof (zlen_nonneg es). pose proof (zlen_nonneg es').
  destruct (Z.lt_trichotomy (zlen es') (zlen es)) as [Hlt|[?|Hlt]]; [|done|].
  - specialize (H (zlen es')).
    destruct (zget_is_Some es (zlen es')) as [d Hd]; [lia|]. rewrite Hd in H.
    assert (zget es' (zlen es') = None) as Hn by (apply zget_None; lia).
    by rewrite Hn in H.
  - specialize (H (zlen es)).
    destruct (zget_is_Some es' (zlen es)) as [d Hd]; [lia|]. rewrite Hd in H.
    assert (zget es (zlen es) = None) as Hn by (apply zget_None; lia).
    by rewrite Hn in H.
Qed.

(** A slot that is released is pushed on the free list. *)
Lemma release_free_list w w1 e :
  free_list_ok w -> hasEntity w e = true ->
  (forall x, slot <$> zget (m_entities w1) x = slot <$> zget (m_entities w) x) ->
  m_transforms w1 = m_transforms w -> m_first_free_slot w1 = m_first_free_slot w ->
  hasEntity (releaseSlot w1 e) e = false /\
  (forall x, x <> e -> hasEntity (releaseSlot w1 e) x = hasEntity w x /\
                       getTransform (releaseSlot w1 e) x = getTransform w x) /\
  free_list_ok (releaseSlot w1 e) /\ m_first_free_slot (releaseSlot w1 e) = e.
Proof.
  intros (Hlen & fs & Hch & Hnd & Hall) He Hslots Htr Hfirst.
  assert (Hlen1 : zlen (m_entities w1) = zlen (m_entities w)) by (by apply zlen_slots).
  destruct (zget (m_entities w) e) as [d|] eqn:Hd;
    [|by rewrite hasEntity_outside in He].
  rewrite (hasEntity_valid _ _ _ Hd) in He.
  assert (Hefs : e ∉ fs).
  { intros Hin. destruct (free_chain_elem _ _ _ _ _ Hch Hin) as (d' & Hd' & Hv').
    congruence. }
  assert (Hne : e <> m_first_free_slot w1).
  { rewrite Hfirst. intros E. rewrite <- E in Hch.
    inversion Hch; subst; [apply zget_Some in Hd; lia|]. apply Hefs. by left. }
  pose proof (releaseSlot_rest w1 e) as (Hf' & Htr' & Hlen').
  pose proof (fun x => releaseSlot_slots w1 e x Hne) as Hr.
  revert Hf' Htr' Hlen' Hr. generalize (releaseSlot w1 e). intros w' Hf' Htr' Hlen' Hr.
  assert (Hs' : forall x, slot <$> zget (m_entities w') x =
            if decide (x = e) then (fun _ => (false, -1, m_first_free_slot w)) <$> zget (m_entities w) x
            else if decide (x = m_first_free_slot w)
                 then (fun d => (valid d, e, next d)) <$> zget (m_entities w) x
                 else slot <$> zget (m_entities w) x).
  { intros x. rewrite Hr, Hfirst. specialize (Hslots x).
    destruct (zget (m_entities w1) x) as [[]|], (zget (m_entities w) x) as [[]|];
      simpl in *; try done; injection Hslots as -> -> ->; done. }
  clear Hr.
  assert (Hvalid : forall x, x <> e ->
            valid <$> zget (m_entities w') x = valid <$> zget (m_entities w) x).
  { intros x Hx. specialize (Hs' x). rewrite decide_False in Hs' by done.
    destruct (zget (m_entities w') x) as [[]|], (zget (m_entities w) x) as [[]|];
      unfold slot in *; simpl in *; try done; repeat case_decide; simpl in *; congruence. }
  split.
  { specialize (Hs' e). rewrite decide_True, Hd in Hs' by done.
    destruct (zget (m_entities w') e) as [d'|] eqn:Hd'; [|done].
    rewrite (hasEntity_valid _ _ _ Hd'). by injection Hs' as ->. }
  split.
  { intros x Hx. split.
    - specialize (Hvalid x Hx).
      destruct (zget (m_entities w') x) as [d'|] eqn:Hd',
               (zget (m_entities w) x) as [d0|] eqn:Hd0; simpl in *; try done.
      + rewrite (hasEntity_valid _ _ _ Hd'), (hasEntity_valid _ _ _ Hd0). congruence.
      + by rewrite !hasEntity_outside.
    - unfold getTransform. by rewrite Htr', Htr. }
  split; [|exact Hf'].
  split; [rewrite Htr', Hlen', Htr, Hlen1; exact Hlen|].
  exists (e :: fs). rewrite Hf'. split; [|split].
  - pose proof (Hs' e) as Hse. rewrite decide_True, Hd in Hse by done.
    destruct (zget (m_entities w') e) as [d'|] eqn:Hd'; [|done].
    injection Hse as Hv' Hp' Hn'.
    apply free_chain_step with d'; try done; [apply zget_Some in Hd; lia|].
    rewrite Hn'. clear Hd' Hv' Hp' Hn' d'.
    destruct Hch as [p f Hf|p f df fs' Hf Hdf Hv Hp Hch']; [by constructor|].
    apply NoDup_cons in Hnd as [Hffs Hnd'].
    assert (Hfe : f <> e) by (intros ->; apply Hefs; by left).
    pose proof (Hs' f) as Hsf.
    rewrite decide_False, decide_True, Hdf in Hsf by done.
    destruct (zget (m_entities w') f) as [df'|] eqn:Hdf'; [|done].
    injection Hsf as Hv' Hp' Hn'.
    apply free_chain_step with df'; try done; try congruence.
    rewrite Hn'. apply (free_chain_ext (m_entities w)); [done|].
    intros x Hx. rewrite Hs'.
    rewrite decide_False by (intros ->; apply Hefs; by right).
    by rewrite decide_False by (by intros ->).
  - apply NoDup_cons. done.
  - intros x dx Hdx Hvx. destruct (decide (x = e)) as [->|Hxe]; [by left|]. right.
    specialize (Hvalid x Hxe). rewrite Hdx in Hvalid.
    destruct (zget (m_entities w) x) as [d0|] eqn:Hd0; [|done].
    apply (Hall x d0); [done|]. simpl in Hvalid. congruence.
Qed.

(** [destroyEntity] up to [releaseSlot] keeps the slots. *)
Lemma destroyEntity_inv fuel w e w' :
  destroyEntity fuel w e = Some w' ->
  exists w1, w' = releaseSlot w1 e /\
    (forall x, slot <$> zget (m_entities w1) x = slot <$> zget (m_entities w) x) /\
    m_transforms w1 = m_transforms w /\ m_first_free_slot w1 = m_first_free_slot w.
Proof.
  unfold destroyEntity.
  destruct (detachChildren fuel fuel w e) as [wa|] eqn:Ha; [|done].
  destruct (setParent fuel wa INVALID_ENTITY e) as [wb|] eqn:Hb; [|done].
  intros H. apply (inj Some) in H. subst w'. eexists. split; [reflexivity|].
  apply kept_detachChildren in Ha. apply kept_setParent in Hb.
  pose proof (kept_trans _ _ _ Ha Hb) as Hk.
  destruct (destroyComponents_rest e MAX_TYPES_COUNT 0 (components (ent wb e)) wb)
    as [Ht Hf].
  split; [|split].
  - intros x. rewrite destroyComponents_slots. by apply kept_slots.
  - rewrite Ht. by destruct Hk as (? & _).
  - rewrite Hf. by destruct Hk as (_ & _ & ? & _).
Qed.

Lemma destroyEntity_slots fuel w e w' :
  free_list_ok w -> hasEntity w e = true -> destroyEntity fuel w e = Some w' ->
  hasEntity w' e = false /\
  (forall x, x <> e -> hasEntity w' x = hasEntity w x /\
                       getTransform w' x = getTransform w x) /\
  free_list_ok w' /\ m_first_free_slot w' = e.
Proof.
  intros Hok He Hd. apply destroyEntity_inv in Hd as (w1 & -> & Hs & Ht & Hf).
  by apply release_free_list.
Qed.

(** The transforms, the liveness, the names and the components of the
    entities, after a change that is [kept] *)
Lemma kept_getters w w' x :
  kept w w' ->
  getTransform w' x = getTransform w x /\ hasEntity w' x = hasEntity w x /\
  getEntityName w' x = getEntityName w x /\
  getComponentsMask w' x = getComponentsMask w x.
Proof.
  intros Hk. pose proof (kept_core w w' x Hk) as Hc. pose proof (kept_zlen w w' Hk) as Hl.
  destruct Hk as (Ht & Hn & _ & _).
  unfold getTransform, hasEntity, getEntityName, getComponentsMask.
  rewrite Ht, Hn, Hl. unfold core, set_hierarchy in Hc.
  injection Hc as -> _ -> _ _ ->. done.
Qed.

(** [createEntity] takes the head of the free list, or a new slot when the
    list is empty, and leaves the free list in order. *)
Lemma createEntity_slots w position rotation :
  free_list_ok w ->
  let w' := fst (createEntity w position rotation) in
  let e := snd (createEntity w position rotation) in
  hasEntity w e = false /\ hasEntity w' e = true /\
  getTransform w' e = mkTransform position rotation Vec3_ONE /\
  (forall x, x <> e -> hasEntity w' x = hasEntity w x /\
                       getTransform w' x = getTransform w x) /\
  free_list_ok w'.
Proof.
  intros (Hlen & fs & Hch & Hnd & Hall) w' e.
  assert (Hlive : hasEntity w' e = true).
  { apply WorldFacts.createEntity_live. unfold free_slot_ok.
    by apply free_chain_head_range in Hch. }
  subst w' e. revert Hlive. unfold createEntity.
  destruct (0 <=? m_first_free_slot w) eqn:Hslot; cbn [fst snd]; intros Hlive.
  - apply Z.leb_le in Hslot. set (e := m_first_free_slot w) in *.
    inversion Hch as [|p e0 d fs' He Hd Hv Hp Hch' E1 E2 E3]; [lia|]. subst p e0 fs.
    apply NoDup_cons in Hnd as [Hefs Hnd'].
    assert (Hent : ent w e = d) by (unfold ent; by rewrite Hd).
    rewrite Hent in *.
    set (w1 := if 0 <=? next d then alter_entity (set_prev (-1)) (next d) w else w) in *.
    assert (Hch1 : free_chain (m_entities w1) (-1) (next d) fs').
    { unfold w1. destruct (0 <=? next d) eqn:Hn.
      - apply free_chain_rehead with e; [done| |done].
        destruct Hch' as [|? ? ? ? ? ? ? ? ?]; simpl; [apply not_elem_of_nil|].
        by apply NoDup_cons in Hnd' as [? _].
      - apply Z.leb_gt in Hn. inversion Hch'; [constructor; lia|lia]. }
    assert (Hv1 : forall x, (valid <$> zget (m_entities w1) x) = (valid <$> zget (m_entities w) x)).
    { intros x. unfold w1. destruct (0 <=? next d); [|done]. simpl.
      rewrite zget_zalter. case_decide; [|done]. by destruct (zget (m_entities w) x). }
    assert (Hlen1 : zlen (m_entities w1) = zlen (m_entities w)).
    { unfold w1. destruct (0 <=? next d); [apply zlen_zalter|done]. }
    assert (Htr1 : m_transforms w1 = m_transforms w).
    { unfold w1. by destruct (0 <=? next d). }
    split; [by rewrite (hasEntity_valid _ _ _ Hd)|]. split; [exact Hlive|]. split.
    { unfold getTransform. simpl. rewrite zget_zalter_eq, Htr1.
      apply zget_Some in Hd.
      destruct (zget_is_Some (m_transforms w) e) as [t ->]; [lia|done]. }
    split.
    { intros x Hx. split.
      - unfold hasEntity. simpl. rewrite zlen_zalter, Hlen1. f_equal.
        unfold ent. simpl. rewrite zget_zalter_ne by done.
        specialize (Hv1 x).
        destruct (zget (m_entities w1) x), (zget (m_entities w) x); simpl in *; congruence.
      - unfold getTransform. simpl. by rewrite zget_zalter_ne, Htr1. }
    split; [simpl; rewrite !zlen_zalter; congruence|]. simpl.
    exists fs'. split; [|split; [done|]].
    + apply (free_chain_ext (m_entities w1)); [done|].
      intros x Hx. rewrite zget_zalter_ne; [done|]. by intros <-.
    + intros x dx. rewrite zget_zalter. case_decide as Hxe.
      * subst x. destruct (zget (m_entities w1) e); [|done]. by intros [= <-].
      * intros Hdx Hvx. specialize (Hv1 x). rewrite Hdx in Hv1. simpl in Hv1.
        destruct (zget (m_entities w) x) as [d0|] eqn:Hd0; [|done].
        injection Hv1 as Hv1.
        assert (x ∈ e :: fs') as [?|?]%elem_of_cons by (apply (Hall x d0); congruence);
          done.
  - apply Z.leb_gt in Hslot.
    inversion Hch as [p e0 He E1 E2 E3|]; [subst p e0 fs|lia].
    split; [apply hasEntity_outside, zget_None; lia|]. split; [exact Hlive|]. split.
    { unfold getTransform. simpl. by rewrite <- Hlen, zget_app_new. }
    pose proof (zlen_nonneg (m_entities w)) as Hnn.
    split.
    { intros x Hx. split.
      - apply hasEntity_slots. simpl.
        destruct (decide (x < zlen (m_entities w))) as [Hlt|Hge].
        + by rewrite zget_app_l.
        + assert (zget (m_entities w) x = None) as -> by (apply zget_None; lia).
          assert (zget (m_entities w ++ [mkEntityData (-1) (-1) (m_active_partition w) 0
                                                      (-1) (-1) true]) x = None) as ->; [|done].
          apply zget_None. rewrite zlen_app. unfold zlen at 2. simpl. lia.
      - unfold getTransform. simpl.
        destruct (decide (x < zlen (m_transforms w))) as [Hlt|Hge].
        + by rewrite zget_app_l.
        + assert (zget (m_transforms w) x = None) as -> by (apply zget_None; lia).
          assert (zget (m_transforms w ++ [mkTransform position rotation Vec3_ONE]) x = None)
            as ->; [|done].
          apply zget_None. rewrite zlen_app. unfold zlen at 2. simpl. lia. }
    split; [simpl; rewrite !zlen_app; unfold zlen in *; simpl; lia|]. simpl.
    exists []. split; [constructor; lia|]. split; [constructor|].
    intros x dx Hdx Hvx.
    destruct (decide (x < zlen (m_entities w))) as [Hlt|Hge].
    + rewrite zget_app_l in Hdx by done. eauto.
    + pose proof (zget_Some _ _ _ Hdx) as Hr. rewrite zlen_app in Hr.
      unfold zlen at 2 in Hr. simpl in Hr.
      assert (x = zlen (m_entities w)) as -> by lia.
      rewrite zget_app_new in Hdx. by injection Hdx as <-.
Qed.

(** X5: in a world whose free list holds exactly the slots that are not
    live, [createEntity] returns an entity that was not live and is live
    afterwards, with the position and the rotation it was given and the
    scale 1; every other entity keeps its liveness and its transform, and
    the free list again holds exactly the slots that are not live. *)
Theorem createEntity_takes_a_dead_slot w position rotation :
  free_list_ok w ->
  let w' := fst (createEntity w position rotation) in
  let e := snd (createEntity w position rotation) in
  hasEntity w e = false /\ hasEntity w' e = true /\
  getTransform w' e = mkTransform position rotation Vec3_ONE /\
  (forall x, x <> e -> hasEntity w' x = hasEntity w x /\
                       getTransform w' x = getTransform w x) /\
  free_list_ok w'.
Proof.
  intros Hok w' e. subst w' e.
  destruct (createEntity_slots w position rotation Hok) as (Hdead & Hlive & Htr & Hrest & Hok').
  split; [exact Hdead|]. split; [exact Hlive|]. split; [exact Htr|].
  split; [exact Hrest|exact Hok'].
Qed.

(** X6: in a world with a well-formed hierarchy whose free list holds
    exactly the slots that are not live, [destroyEntity] of a live entity
    returns; afterwards the entity is not live, every other entity keeps its
    liveness and its transform, the free list holds exactly the slots that
    are not live, and the next [createEntity] returns the index of the
    destroyed entity. *)
Theorem destroyEntity_frees_the_slot fuel w e position rotation :
  free_list_ok w -> wf_hierarchy w -> hasEntity w e = true ->
  (length (m_hierarchy w) < fuel)%nat ->
  exists w', destroyEntity fuel w e = Some w' /\
    hasEntity w' e = false /\
    (forall x, x <> e -> hasEntity w' x = hasEntity w x /\
                         getTransform w' x = getTransform w x) /\
    free_list_ok w' /\
    snd (createEntity w' position rotation) = e.
Proof.
  intros Hok Hwf He Hfuel.
  destruct (WorldFacts.destroyEntity_dead w e fuel Hwf Hfuel) as (w' & Hd & _).
  exists w'. split; [exact Hd|].
  destruct (destroyEntity_slots fuel w e w' Hok He Hd) as (H1 & H2 & H3 & H4).
  split; [done|]. split; [done|]. split; [done|].
  unfold createEntity. rewrite H4.
  assert (0 <= e) as ->%Z.leb_le; [|done].
  unfold hasEntity in He. apply andb_true_iff in He as [He _].
  apply andb_true_iff in He as [He _]. by apply Z.leb_le.
Qed.

(** X7: [setParent], whatever it does to the hierarchy, changes no
    transform, no liveness, no name and no component mask. *)
Theorem setParent_changes_links_only fuel w new_parent child w' x :
  setParent fuel w new_parent child = Some w' ->
  getTransform w' x = getTransform w x /\ hasEntity w' x = hasEntity w x /\
  getEntityName w' x = getEntityName w x /\
  getComponentsMask w' x = getComponentsMask w x.
Proof. intros H. apply kept_getters. by eapply kept_setParent. Qed.

End FreeListFacts.

(** ** The free list on concrete worlds *)

Module FreeListExamples.
Import World WorldMore FreeListFacts.

Lemma family_world_free_list : free_list_ok Examples.family_world.
Proof.
  split; [reflexivity|]. exists []. split; [by constructor|]. split; [constructor|].
  intros e d Hd Hv. pose proof (zget_Some _ _ _ Hd) as Hr.
  unfold zlen in Hr. simpl in Hr.
  assert (e = 0 \/ e = 1 \/ e = 2) as [->|[->| ->]] by lia;
    vm_compute in Hd; injection Hd as <-; discriminate.
Qed.

Lemma vacated_world_destroyed :
  destroyEntity 3 Examples.family_world 0 = Some FreeSlotExamples.vacated_world.
Proof. vm_compute. reflexivity. Qed.

Lemma vacated_world_free_list : free_list_ok FreeSlotExamples.vacated_world.
Proof.
  apply (destroyEntity_slots 3 Examples.family_world 0);
    [apply family_world_free_list|reflexivity|apply vacated_world_destroyed].
Qed.

(** Slot 0 of [vacated_world] is taken again. *)
Lemma createEntity_takes_a_dead_slot_witness :
  let w' := fst (createEntity FreeSlotExamples.vacated_world DVec3_ZERO Quat_IDENTITY) in
  let e := snd (createEntity FreeSlotExamples.vacated_world DVec3_ZERO Quat_IDENTITY) in
  hasEntity FreeSlotExamples.vacated_world e = false /\ hasEntity w' e = true /\
  getTransform w' e = mkTransform DVec3_ZERO Quat_IDENTITY Vec3_ONE /\
  (forall x, x <> e -> hasEntity w' x = hasEntity FreeSlotExamples.vacated_world x /\
                       getTransform w' x = getTransform FreeSlotExamples.vacated_world x) /\
  free_list_ok w'.
Proof.
  apply (createEntity_takes_a_dead_slot FreeSlotExamples.vacated_world
           DVec3_ZERO Quat_IDENTITY).
  apply vacated_world_free_list.
Defined.

Lemma destroyEntity_frees_the_slot_witness :
  exists w', destroyEntity 3 Examples.family_world 0 = Some w' /\
    hasEntity w' 0 = false /\
    (forall x, x <> 0 ->
       hasEntity w' x = hasEntity Examples.family_world x /\
       getTransform w' x = getTransform Examples.family_world x) /\
    free_list_ok w' /\
    snd (createEntity w' DVec3_ZERO Quat_IDENTITY) = 0.
Proof.
  apply (destroyEntity_frees_the_slot 3 Examples.family_world 0 DVec3_ZERO Quat_IDENTITY);
    [apply family_world_free_list|apply WorldExamples.family_world_wf|reflexivity|
     simpl; lia].
Defined.

(** Entity 1 of [family_world] is moved under entity 2. *)
Lemma setParent_changes_links_only_witness :
  getTransform (default Examples.family_world (setParent 6 Examples.family_world 2 1)) 1
  = getTransform Examples.family_world 1 /\
  hasEntity (default Examples.family_world (setParent 6 Examples.family_world 2 1)) 1
  = hasEntity Examples.family_world 1 /\
  getEntityName (default Examples.family_world (setParent 6 Examples.family_world 2 1)) 1
  = getEntityName Examples.family_world 1 /\
  getComponentsMask (default Examples.family_world (setParent 6 Examples.family_world 2 1)) 1
  = getComponentsMask Examples.family_world 1.
Proof.
  apply (setParent_changes_links_only 6 Examples.family_world 2 1).
  vm_compute. reflexivity.
Defined.

End FreeListExamples.

(** * Enumeration of entities and components, the entity map *)

Module EnumFacts.
Import World WorldMore.

(** The scan of the slots from the index [i] on: [slots] is what the array
    holds from [i] on. *)
Lemma firstValid_spec w : forall slots i,
  0 <= i ->
  (forall x, i <= x -> zget (m_entities w) x = slots !! Z.to_nat (x - i)) ->
  let e := firstValid slots i in
  (e = INVALID_ENTITY /\ forall x, i <= x -> hasEntity w x = false) \/
  (i <= e /\ hasEntity w e = true /\ forall x, i <= x < e -> hasEntity w x = false).
Proof.
  induction slots as [|d slots IH]; intros i Hi Hsuf; simpl.
  - left. split; [done|]. intros x Hx. apply FreeListFacts.hasEntity_outside.
    by rewrite Hsuf.
  - assert (Hd : zget (m_entities w) i = Some d).
    { rewrite (Hsuf i) by lia. by rewrite Z.sub_diag. }
    destruct (valid d) eqn:Hv.
    + right. split; [lia|]. split; [|intros x; lia].
      by rewrite (FreeListFacts.hasEntity_valid _ _ _ Hd).
    + destruct (IH (i + 1)) as [[He Hall]|(Hle & He & Hall)]; [lia| | |].
      * intros x Hx. rewrite (Hsuf x) by lia.
        replace (Z.to_nat (x - i)) with (S (Z.to_nat (x - (i + 1)))) by lia. done.
      * left. split; [done|]. intros x Hx.
        destruct (decide (x = i)) as [->|Hne]; [|apply Hall; lia].
        by rewrite (FreeListFacts.hasEntity_valid _ _ _ Hd).
      * right. split; [lia|]. split; [done|]. intros x Hx.
        destruct (decide (x = i)) as [->|Hne]; [|apply Hall; lia].
        by rewrite (FreeListFacts.hasEntity_valid _ _ _ Hd).
Qed.

(** X8: [getFirstEntity] returns the live entity with the least index, and
    [getNextEntity] the live entity with the least index above the one it is
    given; each returns [INVALID_ENTITY] exactly when there is no such
    entity. *)
Theorem entities_are_enumerated_in_order w e0 :
  0 <= e0 ->
  let first := getFirstEntity w in
  let nxt := getNextEntity w e0 in
  ((first = INVALID_ENTITY /\ forall x, hasEntity w x = false) \/
   (0 <= first /\ hasEntity w first = true /\ forall x, x < first -> hasEntity w x = false)) /\
  ((nxt = INVALID_ENTITY /\ forall x, e0 < x -> hasEntity w x = false) \/
   (e0 < nxt /\ hasEntity w nxt = true /\ forall x, e0 < x < nxt -> hasEntity w x = false)).
Proof.
  intros He0. cbv zeta. unfold getFirstEntity, getNextEntity. split.
  - destruct (firstValid_spec w (m_entities w) 0) as [[He Hall]|(Hle & He & Hall)];
      [lia| | |].
    + intros x Hx. unfold zget. rewrite decide_True by lia. by rewrite Z.sub_0_r.
    + left. split; [done|]. intros x. destruct (decide (0 <= x)); [by apply Hall|].
      apply FreeListFacts.hasEntity_outside, zget_None. lia.
    + right. split; [done|]. split; [done|]. intros x Hx.
      destruct (decide (0 <= x)); [apply Hall; lia|].
      apply FreeListFacts.hasEntity_outside, zget_None. lia.
  - destruct (firstValid_spec w (drop (Z.to_nat (e0 + 1)) (m_entities w)) (e0 + 1))
      as [[He Hall]|(Hle & He & Hall)]; [lia| | |].
    + intros x Hx. unfold zget. rewrite decide_True by lia. rewrite lookup_drop.
      f_equal. lia.
    + left. split; [done|]. intros x Hx. apply Hall. lia.
    + right. split; [lia|]. split; [done|].
      intros x Hx. apply Hall. lia.
Qed.

Lemma entities_are_enumerated_in_order_witness :
  let first := getFirstEntity FreeSlotExamples.vacated_world in
  let nxt := getNextEntity FreeSlotExamples.vacated_world 1 in
  ((first = INVALID_ENTITY /\ forall x, hasEntity FreeSlotExamples.vacated_world x = false) \/
   (0 <= first /\ hasEntity FreeSlotExamples.vacated_world first = true /\
    forall x, x < first -> hasEntity FreeSlotExamples.vacated_world x = false)) /\
  ((nxt = INVALID_ENTITY /\
    forall x, 1 < x -> hasEntity FreeSlotExamples.vacated_world x = false) \/
   (1 < nxt /\ hasEntity FreeSlotExamples.vacated_world nxt = true /\
    forall x, 1 < x < nxt -> hasEntity FreeSlotExamples.vacated_world x = false)).
Proof. apply (entities_are_enumerated_in_order FreeSlotExamples.vacated_world 1). lia. Defined.

(** *** The component mask *)

Lemma land_bit_zero mask i :
  0 <= i -> (Z.land mask (Z.shiftl 1 i) =? 0) = negb (Z.testbit mask i).
Proof.
  intros Hi. destruct (Z.testbit mask i) eqn:Hb; simpl.
  - apply Z.eqb_neq. intros H0.
    assert (Z.testbit (Z.land mask (Z.shiftl 1 i)) i = false) as Hc
      by (rewrite H0; apply Z.bits_0).
    rewrite Z.land_spec, Hb, Z.shiftl_spec, Z.sub_diag in Hc by lia. done.
  - apply Z.eqb_eq, Z.bits_inj'. intros n Hn.
    rewrite Z.land_spec, Z.shiftl_spec, Z.bits_0 by lia.
    destruct (decide (n = i)) as [->|Hne]; [by rewrite Hb|].
    replace (Z.testbit 1 (n - i)) with false; [apply andb_false_r|].
    destruct (decide (n - i < 0)); [by rewrite Z.testbit_neg_r by lia|].
    symmetry. change 1 with (2 ^ 0). apply Z.pow2_bits_false. lia.
Qed.

Lemma hasComponent_testbit w e i :
  0 <= i -> hasComponent w e i = Z.testbit (components (ent w e)) i.
Proof. intros Hi. unfold hasComponent. by rewrite land_bit_zero, negb_involutive. Qed.

Lemma testbit_one_shift i n : 0 <= i -> 0 <= n -> Z.testbit (Z.shiftl 1 i) n = bool_decide (n = i).
Proof.
  intros Hi Hn. rewrite Z.shiftl_spec by lia. case_bool_decide as H.
  - subst. by rewrite Z.sub_diag.
  - destruct (decide (n - i < 0)); [by rewrite Z.testbit_neg_r by lia|].
    change 1 with (2 ^ 0). apply Z.pow2_bits_false. lia.
Qed.

(** X9: on an entity of the store and for the component types 0 to 63,
    after [onComponentCreated] of a type [hasComponent] holds for it, after
    [onComponentDestroyed] it does not, and neither changes [hasComponent]
    for another type or another entity. *)
Theorem component_mask_set_and_cleared w e type other x :
  0 <= e < zlen (m_entities w) -> 0 <= type < 64 -> 0 <= other < 64 ->
  hasComponent (onComponentCreated w e type) e type = true /\
  hasComponent (onComponentDestroyed w e type) e type = false /\
  (other <> type \/ x <> e ->
   hasComponent (onComponentCreated w e type) x other = hasComponent w x other /\
   hasComponent (onComponentDestroyed w e type) x other = hasComponent w x other).
Proof.
  intros He [Ht _] [Ho _].
  assert (Hc : ent (onComponentCreated w e type) e
               = set_components (Z.lor (components (ent w e)) (Z.shiftl 1 type)) (ent w e)).
  { unfold onComponentCreated. by rewrite WorldFacts.ent_alter_entity_eq. }
  assert (Hd : ent (onComponentDestroyed w e type) e
               = set_components (Z.land (components (ent w e)) (Z.lnot (Z.shiftl 1 type)))
                                (ent w e)).
  { unfold onComponentDestroyed, ent. simpl. rewrite zget_zalter_eq.
    destruct (zget_is_Some (m_entities w) e He) as [d ->]. done. }
  rewrite !hasComponent_testbit, Hc, Hd by done. simpl.
  rewrite Z.lor_spec, Z.land_spec, Z.lnot_spec, testbit_one_shift by done.
  rewrite bool_decide_true by done. split; [apply orb_true_r|]. split; [apply andb_false_r|].
  intros Hother. rewrite ?hasComponent_testbit by done.
  destruct (decide (x = e)) as [->|Hx].
  - rewrite Hc, Hd. simpl.
    rewrite Z.lor_spec, Z.land_spec, Z.lnot_spec, testbit_one_shift by done.
    rewrite bool_decide_false by (destruct Hother; congruence). simpl.
    by rewrite orb_false_r, andb_true_r.
  - unfold onComponentCreated, onComponentDestroyed.
    rewrite WorldFacts.ent_alter_entity_ne by done.
    unfold ent. simpl. by rewrite zget_zalter_ne.
Qed.

Lemma component_mask_set_and_cleared_witness :
  hasComponent (onComponentCreated Examples.family_world 1 3) 1 3 = true /\
  hasComponent (onComponentDestroyed Examples.family_world 1 3) 1 3 = false /\
  (5 <> 3 \/ 1 <> 1 ->
   hasComponent (onComponentCreated Examples.family_world 1 3) 1 5
   = hasComponent Examples.family_world 1 5 /\
   hasComponent (onComponentDestroyed Examples.family_world 1 3) 1 5
   = hasComponent Examples.family_world 1 5).
Proof.
  apply (component_mask_set_and_cleared Examples.family_world 1 3 5 1);
    [vm_compute; split; congruence|lia|lia].
Defined.

(** The scan of the component types from [i] on *)
Lemma firstComponent_spec mask : forall n i,
  0 <= i ->
  let t := firstComponent n i mask in
  (t = -1 /\ forall k, i <= k < i + Z.of_nat n -> Z.testbit mask k = false) \/
  (i <= t < i + Z.of_nat n /\ Z.testbit mask t = true /\
   forall k, i <= k < t -> Z.testbit mask k = false).
Proof.
  induction n as [|n IH]; intros i Hi; simpl.
  - left. split; [done|]. intros k. lia.
  - rewrite land_bit_zero, negb_involutive by done.
    destruct (Z.testbit mask i) eqn:Hb.
    + right. split; [lia|]. split; [done|]. intros k. lia.
    + destruct (IH (i + 1)) as [[Ht Hall]|(Hr & Ht & Hall)]; [lia| |].
      * left. split; [done|]. intros k Hk.
        destruct (decide (k = i)) as [->|]; [done|]. apply Hall. lia.
      * right. split; [lia|]. split; [done|]. intros k Hk.
        destruct (decide (k = i)) as [->|]; [done|]. apply Hall. lia.
Qed.

(** X10: [getFirstComponent] returns the least component type that the
    entity has, and [getNextComponent] the least one above the type it is
    given; each returns the invalid type -1 exactly when the entity has no
    such component among the 64 types. *)
Theorem components_are_enumerated_in_order w e type :
  0 <= type ->
  let first := getFirstComponent w e in
  let nxt := getNextComponent w e type in
  ((first = -1 /\ forall k, 0 <= k < 64 -> hasComponent w e k = false) \/
   (0 <= first < 64 /\ hasComponent w e first = true /\
    forall k, 0 <= k < first -> hasComponent w e k = false)) /\
  ((nxt = -1 /\ forall k, type < k < 64 -> hasComponent w e k = false) \/
   (type < nxt < 64 /\ hasComponent w e nxt = true /\
    forall k, type < k < nxt -> hasComponent w e k = false)).
Proof.
  intros Ht. cbv zeta. unfold getFirstComponent, getNextComponent, MAX_TYPES_COUNT. split.
  - destruct (firstComponent_spec (components (ent w e)) 64 0)
      as [[Hf Hall]|(Hr & Hf & Hall)]; [lia| |].
    + left. split; [done|]. intros k Hk. rewrite hasComponent_testbit by lia.
      apply Hall. lia.
    + right. split; [lia|].
      split; [by rewrite hasComponent_testbit by lia|].
      intros k Hk. rewrite hasComponent_testbit by lia. apply Hall. lia.
  - destruct (firstComponent_spec (components (ent w e))
                (64 - Z.to_nat (type + 1)) (type + 1))
      as [[Hf Hall]|(Hr & Hf & Hall)]; [lia| |].
    + left. split; [done|]. intros k Hk. rewrite hasComponent_testbit by lia.
      apply Hall. lia.
    + right. split; [lia|].
      split; [by rewrite hasComponent_testbit by lia|].
      intros k Hk. rewrite hasComponent_testbit by lia. apply Hall. lia.
Qed.

Lemma components_are_enumerated_in_order_witness :
  let w := onComponentCreated (onComponentCreated Examples.family_world 1 3) 1 40 in
  let first := getFirstComponent w 1 in
  let nxt := getNextComponent w 1 3 in
  ((first = -1 /\ forall k, 0 <= k < 64 -> hasComponent w 1 k = false) \/
   (0 <= first < 64 /\ hasComponent w 1 first = true /\
    forall k, 0 <= k < first -> hasComponent w 1 k = false)) /\
  ((nxt = -1 /\ forall k, 3 < k < 64 -> hasComponent w 1 k = false) \/
   (3 < nxt < 64 /\ hasComponent w 1 nxt = true /\
    forall k, 3 < k < nxt -> hasComponent w 1 k = false)).
Proof.
  apply (components_are_enumerated_in_order
           (onComponentCreated (onComponentCreated Examples.family_world 1 3) 1 40) 1 3).
  lia.
Defined.

(** *** [EntityMap] *)

Lemma zget_replicate {A} (n : nat) (x : A) i :
  zget (replicate n x) i = if decide (0 <= i < Z.of_nat n) then Some x else None.
Proof.
  unfold zget. case_decide as Hi.
  - case_decide as Hn.
    + apply lookup_replicate. split; [done|lia].
    + apply lookup_ge_None. rewrite length_replicate. lia.
  - rewrite decide_False by lia. done.
Qed.

Lemma EntityMap_set_grows (m : EntityMap) src dst :
  0 <= src ->
  zlen (EntityMap_set m src dst) = Z.max (zlen m) (src + 1) /\
  zget (EntityMap_set m src dst) src = Some dst.
Proof.
  intros Hsrc. unfold EntityMap_set.
  set (grown := m ++ replicate (Z.to_nat (src + 1 - zlen m)) INVALID_ENTITY).
  assert (Hlen : zlen grown = Z.max (zlen m) (src + 1)).
  { unfold grown. rewrite zlen_app. unfold zlen at 2. rewrite length_replicate.
    pose proof (zlen_nonneg m). lia. }
  rewrite zlen_zalter, zget_zalter_eq. split; [done|].
  destruct (zget_is_Some grown src) as [v ->]; [lia|done].
Qed.

Lemma EntityMap_get_other (m : EntityMap) src dst e :
  0 <= src -> e <> src ->
  EntityMap_get (EntityMap_set m src dst) e = EntityMap_get m e.
Proof.
  intros Hsrc Hne. destruct (EntityMap_set_grows m src dst Hsrc) as [Hlen _].
  unfold EntityMap_get. rewrite Hlen. unfold EntityMap_set.
  rewrite zget_zalter_ne by done. unfold isValid.
  destruct (0 <=? e) eqn:He; [|done]. simpl. apply Z.leb_le in He.
  destruct (decide (e < zlen m)) as [Hlt|Hge].
  - assert ((e <? Z.max (zlen m) (src + 1)) = true) as -> by (apply Z.ltb_lt; lia).
    assert ((e <? zlen m) = true) as -> by (apply Z.ltb_lt; lia).
    by rewrite zget_app_l.
  - assert ((e <? zlen m) = false) as -> by (apply Z.ltb_ge; lia).
    destruct (e <? Z.max (zlen m) (src + 1)); [|done].
    unfold zget. rewrite decide_True by lia.
    rewrite lookup_app_r by (unfold zlen in Hge; lia).
    destruct (replicate _ _ !! _) as [y|] eqn:Hy; [|done].
    by apply lookup_replicate in Hy as [-> _].
Qed.

(** X11: after [EntityMap::set(src, dst)], [get] returns [dst] for [src]
    and what it returned before for every other entity, [INVALID_ENTITY]
    where nothing was set. *)
Theorem EntityMap_set_then_get (m : EntityMap) src dst e :
  0 <= src ->
  EntityMap_get (EntityMap_set m src dst) src = dst /\
  EntityMap_get_ref (EntityMap_set m src dst) src = dst /\
  (e <> src -> EntityMap_get (EntityMap_set m src dst) e = EntityMap_get m e) /\
  EntityMap_get [] e = INVALID_ENTITY.
Proof.
  intros Hsrc. destruct (EntityMap_set_grows m src dst Hsrc) as [Hlen Hget].
  split; [|split; [|split]].
  - unfold EntityMap_get, isValid. rewrite Hlen, Hget.
    assert ((0 <=? src) = true) as -> by (apply Z.leb_le; lia).
    assert ((src <? Z.max (zlen m) (src + 1)) = true) as -> by (apply Z.ltb_lt; lia).
    done.
  - unfold EntityMap_get_ref. by rewrite Hget.
  - by apply EntityMap_get_other.
  - unfold EntityMap_get.
    assert (zget (@nil Z) e = None) as -> by (apply zget_None; unfold zlen; simpl; lia).
    by destruct (isValid e), (e <? zlen []).
Qed.

Lemma EntityMap_set_then_get_witness :
  EntityMap_get (EntityMap_set [7] 3 9) 3 = 9 /\
  EntityMap_get_ref (EntityMap_set [7] 3 9) 3 = 9 /\
  (2 <> 3 -> EntityMap_get (EntityMap_set [7] 3 9) 2 = EntityMap_get [7] 2) /\
  EntityMap_get [] 2 = INVALID_ENTITY.
Proof. apply (EntityMap_set_then_get [7] 3 9 2). lia. Defined.

End EnumFacts.

(** * The registry of the animators *)

Module RegistryFacts.
Import AnimationModule AnimatorRegistry.

Lemma zget_swapAndPop {A} (l : list A) idx i x :
  0 <= idx < zlen l -> back l = Some x ->
  zget (swapAndPop idx l) i =
    if decide (i < zlen l - 1) then (if decide (i = idx) then Some x else zget l i)
    else None.
Proof.
  intros Hidx Hback. unfold swapAndPop. rewrite Hback.
  case_decide as Hi.
  - rewrite zget_pop by (rewrite zlen_zalter; lia).
    case_decide as Hii.
    + subst i. rewrite zget_zalter_eq.
      destruct (zget_is_Some l idx Hidx) as [y ->]. done.
    + by rewrite zget_zalter_ne.
  - apply zget_pop_ge. rewrite zlen_zalter. lia.
Qed.

Lemma zlen_pop_swap {A} (l : list A) idx x :
  back l = Some x -> zlen (swapAndPop idx l) = zlen l - 1.
Proof.
  intros Hback. unfold swapAndPop. rewrite Hback.
  rewrite zlen_pop, zlen_zalter; [done|].
  intros Hnil. assert (zlen (zalter (fun _ => x) idx l) = 0) as Hz by (by rewrite Hnil).
  rewrite zlen_zalter in Hz. destruct l; [done|]. unfold zlen in Hz. simpl in Hz. lia.
Qed.

Section Registry.
Context {ControllerIK : Type}.
Variable ANIMATOR_TYPE : Z.
Let Registry := Registry (ControllerIK := ControllerIK).

Lemma entity_dropSource (a : Animator (ControllerIK := ControllerIK)) :
  entity (dropSource a) = entity a.
Proof. unfold dropSource. by destruct (resource a). Qed.

Lemma createAnimator_ok (r : Registry) w e :
  registry_ok r -> m_animator_map r !! e = None ->
  registry_ok (fst (createAnimator ANIMATOR_TYPE r w e)).
Proof.
  intros Hok Hnone. simpl.
  assert (Hrange : forall e' i, m_animator_map r !! e' = Some i -> i < zlen (m_animators r)).
  { intros e' i Hi. apply Hok in Hi.
    destruct (zget (m_animators r) i) eqn:Hz; [|done]. apply zget_Some in Hz. lia. }
  intros e' i. simpl. destruct (decide (e' = e)) as [->|Hne].
  - rewrite lookup_insert_eq. split.
    + intros [= <-]. by rewrite zget_app_new.
    + intros Hi. f_equal.
      destruct (decide (i < zlen (m_animators r))) as [Hlt|Hge].
      * rewrite zget_app_l in Hi by done. apply Hok in Hi. congruence.
      * destruct (zget (m_animators r ++ [new_animator e]) i) eqn:Hz; [|done].
        apply zget_Some in Hz. rewrite zlen_app in Hz. unfold zlen at 2 in Hz.
        simpl in Hz. lia.
  - rewrite lookup_insert_ne by done. split.
    + intros Hi. rewrite zget_app_l by (by eapply Hrange). by apply Hok.
    + intros Hi. apply Hok.
      destruct (decide (i < zlen (m_animators r))) as [Hlt|Hge];
        [by rewrite zget_app_l in Hi|].
      destruct (zget (m_animators r ++ [new_animator e]) i) eqn:Hz; [|done].
      pose proof (zget_Some _ _ _ Hz) as Hr. rewrite zlen_app in Hr.
      unfold zlen at 2 in Hr. simpl in Hr.
      assert (i = zlen (m_animators r)) as -> by lia.
      rewrite zget_app_new in Hz. injection Hz as <-. simpl in Hi. congruence.
Qed.

Lemma root_motion_bit f (value : bool) :
  negb (Z.land (if value then Z.lor f USE_ROOT_MOTION
                else Z.land f (Z.lnot USE_ROOT_MOTION)) USE_ROOT_MOTION =? 0) = value.
Proof.
  unfold USE_ROOT_MOTION. destruct value.
  - apply negb_true_iff, Z.eqb_neq. intros H0.
    assert (Z.testbit (Z.land (Z.lor f 1) 1) 0 = false) as Hb by (by rewrite H0).
    rewrite Z.land_spec, Z.lor_spec in Hb. simpl in Hb. by rewrite orb_true_r in Hb.
  - apply negb_false_iff, Z.eqb_eq.
    rewrite <- Z.land_assoc. replace (Z.land (Z.lnot 1) 1) with 0 by reflexivity.
    apply Z.land_0_r.
Qed.

(** X12: in a module whose map holds the place of every animator,
    [createAnimator] for an entity without animator keeps it so, the new
    animator (no resource, no runtime) is the animator of the entity, and
    the animator of every other entity is the same as before. *)
Theorem createAnimator_registers (r : Registry) w e :
  registry_ok r -> m_animator_map r !! e = None ->
  let r' := fst (createAnimator ANIMATOR_TYPE r w e) in
  registry_ok r' /\ getAnimator r' e = Some (new_animator e) /\
  forall e', e' <> e -> getAnimator r' e' = getAnimator r e'.
Proof.
  intros Hok Hnone. split; [by apply createAnimator_ok|]. simpl. split.
  - unfold getAnimator. simpl. by rewrite lookup_insert_eq, zget_app_new.
  - intros e' Hne. unfold getAnimator. simpl. rewrite lookup_insert_ne by done.
    destruct (m_animator_map r !! e') as [i|] eqn:Hi; [|done].
    rewrite zget_app_l; [done|]. apply Hok in Hi.
    destruct (zget (m_animators r) i) eqn:Hz; [|done]. apply zget_Some in Hz. lia.
Qed.

(** X13: in a module whose map holds the place of every animator,
    [destroyAnimator] of an entity that has an animator returns; afterwards
    the map again holds the place of every animator, the entity has none,
    there is one animator fewer, and the animator of every other entity is
    the same as before, also the one that was moved into the freed place. *)
Theorem destroyAnimator_unregisters (r : Registry) w e :
  registry_ok r -> is_Some (m_animator_map r !! e) ->
  exists r' w', destroyAnimator ANIMATOR_TYPE r w e = Some (r', w') /\
    registry_ok r' /\ getAnimator r' e = None /\
    zlen (m_animators r') = zlen (m_animators r) - 1 /\
    forall e', e' <> e -> getAnimator r' e' = getAnimator r e'.
Proof.
  intros Hok [idx Hidx]. unfold destroyAnimator. rewrite Hidx.
  set (animators := zalter dropSource idx (m_animators r)).
  assert (Hent : forall i, entity <$> zget animators i = entity <$> zget (m_animators r) i).
  { intros i. unfold animators. rewrite FreeListFacts.zget_zalter. case_decide; [|done].
    destruct (zget (m_animators r) i); simpl; [by rewrite entity_dropSource|done]. }
  assert (Hlen : zlen animators = zlen (m_animators r)) by apply zlen_zalter.
  assert (Hidx_range : 0 <= idx < zlen animators).
  { apply Hok in Hidx. destruct (zget (m_animators r) idx) eqn:Hz; [|done].
    apply zget_Some in Hz. lia. }
  destruct (back animators) as [last|] eqn:Hback.
  2:{ unfold back in Hback. apply last_None in Hback. rewrite Hback in Hidx_range.
      unfold zlen in Hidx_range. simpl in Hidx_range. lia. }
  assert (Hlast : zget animators (zlen animators - 1) = Some last)
    by (by rewrite <- back_zget).
  assert (Hlast_map : m_animator_map r !! entity last = Some (zlen animators - 1)).
  { apply Hok. rewrite <- Hent, Hlast. done. }
  assert (Hinj : forall e1 e2 i, m_animator_map r !! e1 = Some i ->
                                 m_animator_map r !! e2 = Some i -> e1 = e2).
  { intros e1 e2 i H1 H2. apply Hok in H1, H2. congruence. }
  eexists _, _. split; [reflexivity|]. simpl.
  assert (Hget : forall i, zget (swapAndPop idx animators) i =
            if decide (i < zlen animators - 1)
            then (if decide (i = idx) then Some last else zget animators i) else None)
    by (intros i; by apply zget_swapAndPop).
  split; [|split; [|split]].
  - intros e' i. simpl. rewrite Hget. destruct (decide (e' = e)) as [->|Hne].
    + rewrite lookup_delete_eq. split; [done|]. intros Hi. exfalso.
      case_decide as Hlt; [|done]. case_decide as Hii.
      * subst i. simpl in Hi. injection Hi as Hi.
        rewrite Hi in Hlast_map. assert (zlen animators - 1 = idx) by congruence. lia.
      * rewrite Hent in Hi. apply Hok in Hi. congruence.
    + rewrite lookup_delete_ne by done.
      destruct (decide (e' = entity last)) as [->|Hnl].
      * rewrite lookup_insert_eq. split.
        -- intros [= <-]. case_decide as Hlt.
           ++ by rewrite decide_True by done.
           ++ exfalso. assert (idx = zlen animators - 1) by lia.
              apply Hne. apply (Hinj _ _ idx); congruence.
        -- intros Hi. f_equal. case_decide as Hlt; [|done]. case_decide as Hii; [done|].
           rewrite Hent in Hi. apply Hok in Hi.
           rewrite Hlast_map in Hi. injection Hi as Hi. lia.
      * rewrite lookup_insert_ne by done. split.
        -- intros Hi. pose proof Hi as Hi'. apply Hok in Hi'. rewrite <- Hent in Hi'.
           assert (i <> idx) by (intros ->; apply Hne; by apply (Hinj _ _ idx)).
           assert (i <> zlen animators - 1).
           { intros ->. apply Hnl. by apply (Hinj _ _ (zlen animators - 1)). }
           destruct (zget animators i) eqn:Hz; [|done]. apply zget_Some in Hz.
           rewrite decide_True by lia. rewrite decide_False by done.
           destruct (zget animators i); done.
        -- intros Hi. case_decide as Hlt; [|done]. case_decide as Hii.
           ++ simpl in Hi. congruence.
           ++ rewrite Hent in Hi. by apply Hok.
  - unfold getAnimator. simpl. by rewrite lookup_delete_eq.
  - rewrite (zlen_pop_swap _ _ last) by done. lia.
  - intros e' Hne. unfold getAnimator. simpl. rewrite lookup_delete_ne by done.
    destruct (decide (e' = entity last)) as [->|Hnl].
    + rewrite lookup_insert_eq, Hlast_map, Hget.
      destruct (decide (idx < zlen animators - 1)) as [Hlt|Hge].
      * rewrite decide_True by done. rewrite <- Hlast.
        unfold animators at 1. apply zget_zalter_ne. lia.
      * exfalso. assert (idx = zlen animators - 1) by lia.
        apply Hne. apply (Hinj _ _ idx); congruence.
    + rewrite lookup_insert_ne by done.
      destruct (m_animator_map r !! e') as [i|] eqn:Hi; [|done].
      assert (i <> idx) by (intros ->; apply Hne; by apply (Hinj _ _ idx)).
      assert (i <> zlen animators - 1).
      { intros ->. apply Hnl. by apply (Hinj _ _ (zlen animators - 1)). }
      rewrite Hget. pose proof Hi as Hi'. apply Hok in Hi'.
      destruct (zget (m_animators r) i) eqn:Hz; [|done].
      pose proof (zget_Some _ _ _ Hz) as Hr.
      rewrite decide_True by lia. rewrite (decide_False (P := i = idx)) by done.
      unfold animators. by rewrite zget_zalter_ne by congruence.
Qed.

(** X14: [getAnimatorUseRootMotion] returns what [setAnimatorUseRootMotion]
    was given for the entity; the other bits of the flags of its animator,
    and the animators of the other entities, stay as they were. *)
Theorem use_root_motion_is_read_back (r : Registry) e e' value :
  registry_ok r -> is_Some (m_animator_map r !! e) ->
  exists r', setAnimatorUseRootMotion r e value = Some r' /\
    getAnimatorUseRootMotion r' e = Some value /\
    (forall a a' k, getAnimator r e = Some a -> getAnimator r' e = Some a' -> 0 < k ->
                    Z.testbit (flags a') k = Z.testbit (flags a) k) /\
    (e' <> e -> getAnimator r' e' = getAnimator r e').
Proof.
  intros Hok [idx Hidx]. unfold setAnimatorUseRootMotion. rewrite Hidx.
  eexists. split; [reflexivity|].
  pose proof Hidx as Hin. apply Hok in Hin.
  destruct (zget (m_animators r) idx) as [a0|] eqn:Ha0; [|done].
  assert (Hnew : getAnimator
             (mkRegistry (zalter (setUseRootMotion value) idx (m_animators r))
                         (m_animator_map r)) e = Some (setUseRootMotion value a0)).
  { unfold getAnimator. simpl. by rewrite Hidx, zget_zalter_eq, Ha0. }
  split; [|split].
  - unfold getAnimatorUseRootMotion. rewrite Hnew. simpl. by rewrite root_motion_bit.
  - intros a a' k Ha Ha' Hk. rewrite Hnew in Ha'. injection Ha' as <-.
    unfold getAnimator in Ha. rewrite Hidx, Ha0 in Ha. injection Ha as <-.
    simpl. unfold USE_ROOT_MOTION. destruct value.
    + rewrite Z.lor_spec. replace (Z.testbit 1 k) with false; [apply orb_false_r|].
      symmetry. change 1 with (2 ^ 0). apply Z.pow2_bits_false. lia.
    + rewrite Z.land_spec, Z.lnot_spec by lia.
      replace (Z.testbit 1 k) with false; [apply andb_true_r|].
      symmetry. change 1 with (2 ^ 0). apply Z.pow2_bits_false. lia.
  - intros Hne. unfold getAnimator. simpl.
    destruct (m_animator_map r !! e') as [i|] eqn:Hi; [|done].
    apply zget_zalter_ne. intros <-. apply Hne.
    apply Hok in Hi. rewrite Ha0 in Hi. simpl in Hi, Hin. congruence.
Qed.

End Registry.

Lemma empty_registry_ok : registry_ok RegistryExamples.empty_registry.
Proof.
  intros e idx. simpl. rewrite lookup_empty. split; [done|].
  unfold zget. case_decide; [|done]. by rewrite lookup_nil.
Qed.

Lemma three_animators_ok : registry_ok RegistryExamples.three_animators.
Proof.
  unfold RegistryExamples.three_animators. cbv zeta.
  apply createAnimator_ok; [|reflexivity].
  apply createAnimator_ok; [|reflexivity].
  apply createAnimator_ok; [apply empty_registry_ok|reflexivity].
Qed.

(** A fourth animator, for entity 7 *)
Lemma createAnimator_registers_witness :
  let r' := fst (createAnimator RegistryExamples.ANIMATOR_TYPE
                   RegistryExamples.three_animators Examples.family_world 7) in
  registry_ok r' /\ getAnimator r' 7 = Some (new_animator 7) /\
  forall e', e' <> 7 -> getAnimator r' e' = getAnimator RegistryExamples.three_animators e'.
Proof.
  apply (createAnimator_registers RegistryExamples.ANIMATOR_TYPE
           RegistryExamples.three_animators Examples.family_world 7);
    [apply three_animators_ok|reflexivity].
Defined.

(** The animator of entity 0 is destroyed; the one of entity 2 takes its
    place in the array. *)
Lemma destroyAnimator_unregisters_witness :
  exists r' w', destroyAnimator RegistryExamples.ANIMATOR_TYPE
                  RegistryExamples.three_animators Examples.family_world 0 = Some (r', w') /\
    registry_ok r' /\ getAnimator r' 0 = None /\
    zlen (m_animators r') = zlen (m_animators RegistryExamples.three_animators) - 1 /\
    forall e', e' <> 0 -> getAnimator r' e' = getAnimator RegistryExamples.three_animators e'.
Proof.
  apply (destroyAnimator_unregisters RegistryExamples.ANIMATOR_TYPE
           RegistryExamples.three_animators Examples.family_world 0);
    [apply three_animators_ok|by exists 0].
Defined.

Lemma use_root_motion_is_read_back_witness :
  exists r', setAnimatorUseRootMotion RegistryExamples.three_animators 1 true = Some r' /\
    getAnimatorUseRootMotion r' 1 = Some true /\
    (forall a a' k, getAnimator RegistryExamples.three_animators 1 = Some a ->
                    getAnimator r' 1 = Some a' -> 0 < k ->
                    Z.testbit (flags a') k = Z.testbit (flags a) k) /\
    (2 <> 1 -> getAnimator r' 2 = getAnimator RegistryExamples.three_animators 2).
Proof.
  apply (use_root_motion_is_read_back RegistryExamples.three_animators 1 2 true);
    [apply three_animators_ok|by exists 1].
Defined.

End RegistryFacts.

(** * Parents and children after an entity is detached or destroyed *)

Module HierarchyFacts.
Import World WorldMore WorldFacts.

Lemma getParent_hrec w x :
  index_ok w -> getParent w x = from_option parent INVALID_ENTITY (hrec w x).
Proof.
  intros Hok. destruct (hrec w x) as [h|] eqn:Hh.
  - by destruct (hrec_getters _ _ _ Hh) as (-> & _).
  - by destruct (hrec_None_getters _ _ Hok Hh) as (-> & _).
Qed.

Lemma getFirstChild_hrec w x :
  index_ok w -> getFirstChild w x = from_option first_child INVALID_ENTITY (hrec w x).
Proof.
  intros Hok. destruct (hrec w x) as [h|] eqn:Hh.
  - by destruct (hrec_getters _ _ _ Hh) as (_ & -> & _).
  - by destruct (hrec_None_getters _ _ Hok Hh) as (_ & -> & _).
Qed.

Lemma filter_ne_notin (c : Z) (cs : list Z) : c ∉ cs -> filter (fun x => x <> c) cs = cs.
Proof.
  induction cs as [|a cs IH]; intros Hc; [done|].
  apply not_elem_of_cons in Hc as [Hne Hc].
  rewrite filter_cons_True by congruence. by rewrite IH.
Qed.

Lemma filter_ne_split (c : Z) (pre post : list Z) :
  c ∉ pre -> c ∉ post -> filter (fun x => x <> c) (pre ++ c :: post) = pre ++ post.
Proof.
  intros Hpre Hpost. rewrite filter_app, filter_cons_False by (by intros H; apply H).
  by rewrite !filter_ne_notin.
Qed.

Lemma filter_ne_length (c : Z) (cs : list Z) :
  (length (filter (fun x => x <> c) cs) <= length cs)%nat.
Proof. apply length_filter. Qed.

(** *** Garbage collection on the record map *)

Lemma gcL_chain L e p hp cs :
  forest L -> L p = Some hp -> chain L (first_child hp) cs ->
  match gcL L e p with
  | Some hp' => chain (gcL L e) (first_child hp') cs
  | None => cs = []
  end.
Proof.
  intros HF Hp Hcs. destruct (gcL L e p) as [hp'|] eqn:Hg.
  - pose proof (gcL_Some _ _ _ _ Hg). assert (hp' = hp) by congruence. subst hp'.
    by apply chain_gcL with p.
  - unfold gcL in Hg. destruct (L e) as [h|] eqn:He; [|congruence].
    unfold isValid in Hg. destruct (0 <=? parent h); [simpl in Hg; congruence|].
    destruct (0 <=? first_child h) eqn:Hfc; [simpl in Hg; congruence|].
    simpl in Hg. unfold upd in Hg. case_decide; [subst p|congruence].
    assert (h = hp) by congruence. subst h. apply Z.leb_gt in Hfc.
    by eapply chain_invalid.
Qed.

Lemma gcL_parent L e x :
  forest L ->
  from_option parent INVALID_ENTITY (gcL L e x) = from_option parent INVALID_ENTITY (L x).
Proof.
  intros (HB & _). unfold gcL. destruct (L e) as [h|] eqn:He; [|done].
  unfold isValid. destruct (0 <=? parent h) eqn:Hp; [done|].
  destruct (0 <=? first_child h); [done|]. simpl. unfold upd.
  case_decide; [subst x|done]. rewrite He. simpl.
  destruct (HB _ _ He) as (_ & ? & _). apply Z.leb_gt in Hp.
  unfold INVALID_ENTITY. lia.
Qed.

Lemma gcL_None L e x : L x = None -> gcL L e x = None.
Proof.
  intros Hx. destruct (gcL L e x) as [h|] eqn:Hg; [|done].
  apply gcL_Some in Hg. congruence.
Qed.

Lemma gcL_other L e x : x <> e -> gcL L e x = L x.
Proof.
  intros Hne. unfold gcL. destruct (L e) as [h|]; [|done].
  destruct (isValid (parent h) || isValid (first_child h)); [done|].
  unfold upd. by rewrite decide_False.
Qed.

Lemma gcL_removed L e h :
  L e = Some h -> parent h < 0 -> first_child h < 0 -> gcL L e e = None.
Proof.
  intros He Hp Hc. unfold gcL, isValid. rewrite He.
  apply Z.leb_gt in Hp, Hc. rewrite Hp, Hc. simpl. unfold upd. by rewrite decide_True.
Qed.

(** The members of a sibling list have the owner of the list as parent. *)
Lemma chain_not_child L p hp cs c :
  forest L -> L p = Some hp -> chain L (first_child hp) cs ->
  from_option parent INVALID_ENTITY (L c) <> p -> c ∉ cs.
Proof.
  intros HF Hp Hcs Hne Hin.
  destruct (forest_chain_det _ _ _ _ HF Hp Hcs) as [_ Hmem].
  destruct (Hmem _ Hin) as (hc & Hhc & Hpar). rewrite Hhc in Hne. done.
Qed.

(** *** [setParent(INVALID_ENTITY, c)] on the record map *)

Lemma setParent_detach_view w c fuel :
  wf_hierarchy w -> (length (m_hierarchy w) <= fuel)%nat ->
  exists w', setParent fuel w INVALID_ENTITY c = Some w' /\ wf_hierarchy w' /\
    (length (m_hierarchy w') <= length (m_hierarchy w))%nat /\
    (forall x, from_option parent INVALID_ENTITY (hrec w' x)
               = if decide (x = c) then INVALID_ENTITY
                 else from_option parent INVALID_ENTITY (hrec w x)) /\
    (forall p hp cs, hrec w p = Some hp -> chain (hrec w) (first_child hp) cs ->
       match hrec w' p with
       | Some hp' => chain (hrec w') (first_child hp') (filter (fun x => x <> c) cs)
       | None => filter (fun x => x <> c) cs = []
       end) /\
    (forall p, hrec w p = None -> hrec w' p = None) /\
    (forall hc, hrec w c = Some hc -> first_child hc < 0 -> hrec w' c = None).
Proof.
  intros [Hok HF] Hfuel. unfold setParent, detachFromParent, linkToParent.
  change (isValid INVALID_ENTITY) with false. cbv iota.
  pose proof HF as (HB & HC2 & HC3).
  destruct (0 <=? hierarchy (ent w c)) eqn:Hidx.
  2:{ rewrite Hidx. apply Z.leb_gt in Hidx.
      pose proof (hrec_None_of_idx _ _ Hidx) as Hc.
      exists w. split; [done|]. split; [done|]. split; [done|]. split; [|split; [|split]].
      - intros x. case_decide; [subst x; by rewrite Hc|done].
      - intros p hp cs Hp Hcs. rewrite Hp. rewrite filter_ne_notin; [done|].
        intros Hin. destruct (chain_elem _ _ _ _ Hcs Hin) as [_ [h Hh]]. congruence.
      - done.
      - intros hc Hhc. congruence. }
  apply Z.leb_le in Hidx. destruct (idx_nonneg_hrec _ _ Hok Hidx) as [hc Hc].
  rewrite (hrec_hier _ _ _ Hc). unfold isValid at 1.
  destruct (0 <=? parent hc) eqn:Hpar.
  2:{ apply Z.leb_le in Hidx. rewrite Hidx. apply Z.leb_gt in Hpar.
      assert (Hparc : parent hc = INVALID_ENTITY).
      { destruct (HB _ _ Hc) as (_ & ? & _). unfold INVALID_ENTITY. lia. }
      destruct (collectGarbage_gcL w c Hok) as [Hok' Hrec']; [eauto|].
      destruct (collectGarbage_lengths w c) as [Hl1 Hl2].
      exists (collectGarbage w c). split; [done|]. split.
      { split; [done|]. apply forest_ext with (gcL (hrec w) c); [done|by apply forest_gcL]. }
      split; [done|]. split; [|split; [|split]].
      - intros x. rewrite Hrec', gcL_parent by done.
        case_decide; [subst x; by rewrite Hc|done].
      - intros p hp cs Hp Hcs.
        rewrite filter_ne_notin.
        2:{ apply (chain_not_child (hrec w) p hp); [done..|]. rewrite Hc. simpl.
            destruct (HB _ _ Hp) as (? & _). lia. }
        pose proof (gcL_chain (hrec w) c p hp cs HF Hp Hcs) as Hg.
        rewrite Hrec'. destruct (gcL (hrec w) c p) as [hp'|]; [|done].
        apply chain_ext with (gcL (hrec w) c); [done|done].
      - intros p Hp. rewrite Hrec'. by apply gcL_None.
      - intros hc' Hhc' Hfc. assert (hc' = hc) by congruence. subst hc'.
        rewrite Hrec'. by apply gcL_removed with hc. }
  apply Z.leb_le in Hpar. set (q := parent hc) in *.
  destruct (HC3 _ _ Hc Hpar) as (hq & csq & Hq & Hchq & Hinq). fold q in Hq.
  destruct (forest_chain_det _ _ _ _ HF Hq Hchq) as [Hndq Hmemq].
  destruct (unlink_phase w c hc q hq csq fuel Hok Hc Hq Hchq Hinq)
    as (pre & post & w1 & -> & Hpre & Hun & Hw3).
  { pose proof (chain_length_le _ _ _ Hok Hchq Hndq). lia. }
  rewrite Hun.
  set (w3 := alter_hier (set_next_sibling INVALID_ENTITY) (hierarchy (ent w c))
               (alter_hier (set_parent INVALID_ENTITY) (hierarchy (ent w c)) w1)) in *.
  destruct Hw3 as (Hok3 & Hent3 & Hlen3 & Hrec3).
  set (L2 := unlinkL (hrec w) q pre c (next_sibling hc)) in *.
  assert (Hpost : c ∉ post).
  { apply NoDup_app in Hndq as (_ & _ & Hnd2). by apply NoDup_cons in Hnd2 as [? _]. }
  assert (HF2 : forest L2) by (by eapply forest_unlinkL).
  assert (HF3 : forest (hrec w3)).
  { apply forest_ext with L2; [|done]. intros x. by rewrite Hrec3. }
  assert (Hq3 : is_Some (hrec w3 q)).
  { rewrite Hrec3. pose proof (unlinkL_desc (hrec w) q pre c (next_sibling hc) q Hpre) as D.
    fold L2 in D. rewrite Hq in D. destruct D as (h2 & -> & _). eauto. }
  destruct (collectGarbage_gcL w3 q Hok3 Hq3) as [Hok4 Hrec4].
  destruct (collectGarbage_lengths w3 q) as [Hl4e Hl4h].
  set (w4 := collectGarbage w3 q) in *.
  assert (HF4 : forest (hrec w4)).
  { apply forest_ext with (gcL (hrec w3) q); [done|by apply forest_gcL]. }
  (* the parents after the unlinking and the first garbage collection *)
  assert (Hpar3 : forall x, from_option parent INVALID_ENTITY (hrec w3 x)
                   = if decide (x = c) then INVALID_ENTITY
                     else from_option parent INVALID_ENTITY (hrec w x)).
  { intros x. rewrite Hrec3.
    pose proof (unlinkL_desc (hrec w) q pre c (next_sibling hc) x Hpre) as D. fold L2 in D.
    destruct (hrec w x) as [hx|] eqn:Hx.
    - destruct D as (h2 & -> & _ & _ & Hp2 & _). simpl. rewrite Hp2. by case_decide.
    - rewrite D. by case_decide. }
  assert (Hpar4 : forall x, from_option parent INVALID_ENTITY (hrec w4 x)
                   = if decide (x = c) then INVALID_ENTITY
                     else from_option parent INVALID_ENTITY (hrec w x)).
  { intros x. by rewrite Hrec4, gcL_parent, Hpar3. }
  (* the sibling lists *)
  assert (Hlist3 : forall p hp cs, hrec w p = Some hp -> chain (hrec w) (first_child hp) cs ->
            exists h3, hrec w3 p = Some h3 /\
              chain (hrec w3) (first_child h3) (filter (fun x => x <> c) cs)).
  { intros p hp cs Hp Hcs.
    destruct (unlinkL_chain (hrec w) q pre c post hc hq p hp cs HF Hc eq_refl Hq Hchq Hp Hcs)
      as (h2 & Hh2 & Hch2).
    fold L2 in Hh2, Hch2. exists h2. rewrite Hrec3. split; [done|].
    apply chain_ext with L2; [intros x; by rewrite Hrec3|].
    replace (filter (fun x => x <> c) cs) with (if decide (p = q) then pre ++ post else cs);
      [done|].
    case_decide as Hpq.
    - subst p. assert (hp = hq) by congruence. subst hp.
      rewrite (chain_det _ _ _ _ Hcs Hchq). by rewrite filter_ne_split.
    - symmetry. apply filter_ne_notin. apply (chain_not_child (hrec w) p hp); [done..|].
      rewrite Hc. simpl. fold q. congruence. }
  assert (Hlist4 : forall p hp cs, hrec w p = Some hp -> chain (hrec w) (first_child hp) cs ->
            match hrec w4 p with
            | Some hp' => chain (hrec w4) (first_child hp') (filter (fun x => x <> c) cs)
            | None => filter (fun x => x <> c) cs = []
            end).
  { intros p hp cs Hp Hcs. destruct (Hlist3 p hp cs Hp Hcs) as (h3 & Hh3 & Hch3).
    pose proof (gcL_chain (hrec w3) q p h3 _ HF3 Hh3 Hch3) as Hg.
    rewrite Hrec4. destruct (gcL (hrec w3) q p) as [hp'|]; [|done].
    by apply chain_ext with (gcL (hrec w3) q). }
  assert (Hnone4 : forall p, hrec w p = None -> hrec w4 p = None).
  { intros p Hp. rewrite Hrec4. apply gcL_None. rewrite Hrec3.
    pose proof (unlinkL_desc (hrec w) q pre c (next_sibling hc) p Hpre) as D.
    by rewrite Hp in D. }
  destruct (0 <=? hierarchy (ent w4 c)) eqn:Hidx4.
  - apply Z.leb_le in Hidx4. pose proof (idx_nonneg_hrec _ _ Hok4 Hidx4) as Hc4.
    destruct (collectGarbage_gcL w4 c Hok4 Hc4) as [Hok5 Hrec5].
    destruct (collectGarbage_lengths w4 c) as [Hl5e Hl5h].
    exists (collectGarbage w4 c). split; [done|]. split.
    { split; [done|]. apply forest_ext with (gcL (hrec w4) c); [done|by apply forest_gcL]. }
    split; [unfold zlen in Hlen3; lia|]. split; [|split; [|split]].
    + intros x. by rewrite Hrec5, gcL_parent, Hpar4.
    + intros p hp cs Hp Hcs. pose proof (Hlist4 p hp cs Hp Hcs) as H4.
      rewrite Hrec5. destruct (hrec w4 p) as [h4|] eqn:Hh4.
      * pose proof (gcL_chain (hrec w4) c p h4 _ HF4 Hh4 H4) as Hg.
        destruct (gcL (hrec w4) c p) as [hp'|]; [|done].
        by apply chain_ext with (gcL (hrec w4) c).
      * by rewrite gcL_None.
    + intros p Hp. rewrite Hrec5. apply gcL_None. by apply Hnone4.
    + intros hc' Hhc' Hfc. assert (hc' = hc) by congruence. subst hc'.
      rewrite Hrec5.
      assert (Hcq : c <> q).
      { intros Heq. rewrite <- Heq in Hq. assert (hq = hc) by congruence. subst hq.
        apply chain_invalid in Hchq; [|done]. by destruct pre. }
      pose proof (unlinkL_desc (hrec w) q pre c (next_sibling hc) c Hpre) as D.
      fold L2 in D. rewrite Hc in D. destruct D as (h2 & Hh2 & _ & _ & Hp2 & Hf2 & _).
      rewrite decide_True in Hp2 by done.
      rewrite decide_False in Hf2 by (by intros [? _]).
      apply gcL_removed with h2; [|lia|lia].
      by rewrite Hrec4, gcL_other, Hrec3.
  - exists w4. split; [done|]. split; [done|].
    split; [unfold zlen in Hlen3; lia|]. split; [done|]. split; [done|]. split; [done|].
    intros hc' Hhc' Hfc. assert (hc' = hc) by congruence. subst hc'. exfalso.
    assert (Hcq : c <> q).
    { intros Heq. rewrite <- Heq in Hq. assert (hq = hc) by congruence. subst hq.
      apply chain_invalid in Hchq; [|done]. by destruct pre. }
    pose proof (unlinkL_desc (hrec w) q pre c (next_sibling hc) c Hpre) as D.
    fold L2 in D. rewrite Hc in D. destruct D as (h2 & Hh2 & _).
    assert (Hc4 : hrec w4 c = Some h2) by (by rewrite Hrec4, gcL_other, Hrec3).
    apply hrec_idx in Hc4 as [? _]. apply Z.leb_gt in Hidx4. lia.
Qed.

(** *** The range [childrenOf] and the sibling lists *)

Lemma childrenOf_chain w p hp cs fuel :
  wf_hierarchy w -> hrec w p = Some hp -> chain (hrec w) (first_child hp) cs ->
  (length (m_hierarchy w) < fuel)%nat -> childrenOf fuel w p = Some cs.
Proof.
  intros [Hok HF] Hp Hcs Hfuel. unfold childrenOf.
  destruct (hrec_getters _ _ _ Hp) as (_ & -> & _).
  pose proof HF as (HB & _).
  destruct (forest_chain_det _ _ _ _ HF Hp Hcs) as [Hnd _].
  apply siblingsFrom_chain; [done| | |].
  - destruct (HB _ _ Hp) as (_ & _ & ? & _). lia.
  - intros x h _ Hx. destruct (HB _ _ Hx) as (_ & _ & _ & ?). lia.
  - pose proof (chain_length_le _ _ _ Hok Hcs Hnd). lia.
Qed.

Lemma childrenOf_none w p fuel :
  index_ok w -> hrec w p = None -> (0 < fuel)%nat -> childrenOf fuel w p = Some [].
Proof.
  intros Hok Hp Hfuel. unfold childrenOf.
  destruct (hrec_None_getters _ _ Hok Hp) as (_ & -> & _).
  destruct fuel; [lia|done].
Qed.

Lemma filter_ne_shorter (c : Z) (cs : list Z) :
  c ∈ cs -> (length (filter (fun x => x <> c) cs) < length cs)%nat.
Proof.
  induction cs as [|a cs IH]; [by intros ?%elem_of_nil|].
  intros Hin. destruct (decide (a = c)) as [->|Hne].
  - rewrite filter_cons_False by (by intros H; apply H). simpl.
    pose proof (filter_ne_length c cs). lia.
  - rewrite filter_cons_True by done. simpl.
    apply elem_of_cons in Hin as [?|Hin]; [congruence|]. specialize (IH Hin). lia.
Qed.

(** *** The first loop of [destroyEntity] *)

Lemma detachChildren_view e fuel : forall m n w,
  (m < n)%nat -> wf_hierarchy w -> 0 <= e ->
  (length (m_hierarchy w) <= fuel)%nat ->
  (forall he cs, hrec w e = Some he -> chain (hrec w) (first_child he) cs ->
     (length cs <= m)%nat) ->
  exists w', detachChildren n fuel w e = Some w' /\ wf_hierarchy w' /\
    (length (m_hierarchy w') <= length (m_hierarchy w))%nat /\
    (forall x, from_option parent INVALID_ENTITY (hrec w' x)
               = if decide (from_option parent INVALID_ENTITY (hrec w x) = e)
                 then INVALID_ENTITY
                 else from_option parent INVALID_ENTITY (hrec w x)) /\
    (forall p, hrec w p = None -> hrec w' p = None) /\
    (forall he', hrec w' e = Some he' -> first_child he' < 0).
Proof.
  assert (Hdone : forall w, wf_hierarchy w -> 0 <= e ->
            from_option first_child INVALID_ENTITY (hrec w e) < 0 ->
            forall x, from_option parent INVALID_ENTITY (hrec w x)
                      = if decide (from_option parent INVALID_ENTITY (hrec w x) = e)
                        then INVALID_ENTITY
                        else from_option parent INVALID_ENTITY (hrec w x)).
  { intros w [Hok HF] He Hfc x. case_decide as Hx; [|done]. exfalso.
    destruct (hrec w x) as [hx|] eqn:Hhx; simpl in Hx; [|unfold INVALID_ENTITY in Hx; lia].
    destruct HF as (_ & _ & HC3).
    destruct (HC3 x hx Hhx) as (hp & cs & Hhp & Hcs & Hin); [lia|].
    rewrite Hx in Hhp. rewrite Hhp in Hfc. simpl in Hfc.
    apply chain_invalid in Hcs; [|done]. subst cs. by apply elem_of_nil in Hin. }
  induction m as [|m IH]; intros n w Hn Hwf He Hfuel Hbound;
    (destruct n as [|n]; [lia|]); simpl; unfold isValid;
    pose proof Hwf as [Hok HF];
    rewrite (getFirstChild_hrec w e Hok).
  - destruct (0 <=? from_option first_child INVALID_ENTITY (hrec w e)) eqn:Hfc.
    + exfalso. apply Z.leb_le in Hfc.
      destruct (hrec w e) as [he|] eqn:Hhe; simpl in Hfc; [|unfold INVALID_ENTITY in Hfc; lia].
      pose proof HF as (_ & HC2 & _). destruct (HC2 _ _ Hhe) as (cs & Hcs & _).
      destruct (chain_head _ _ _ Hcs Hfc) as [rest ->].
      specialize (Hbound _ _ eq_refl Hcs). simpl in Hbound. lia.
    + apply Z.leb_gt in Hfc. exists w. split; [done|]. split; [done|]. split; [done|].
      split; [by apply Hdone|]. split; [done|].
      intros he' Hhe'. by rewrite Hhe' in Hfc.
  - destruct (0 <=? from_option first_child INVALID_ENTITY (hrec w e)) eqn:Hfc.
    2:{ apply Z.leb_gt in Hfc. exists w. split; [done|]. split; [done|]. split; [done|].
        split; [by apply Hdone|]. split; [done|].
        intros he' Hhe'. by rewrite Hhe' in Hfc. }
    apply Z.leb_le in Hfc.
    destruct (hrec w e) as [he|] eqn:Hhe; simpl in Hfc; [|unfold INVALID_ENTITY in Hfc; lia].
    simpl. set (c0 := first_child he) in *.
    pose proof HF as (_ & HC2 & _). destruct (HC2 _ _ Hhe) as (cs & Hcs & Hnd & Hmem).
    destruct (chain_head _ _ _ Hcs Hfc) as [rest ->].
    destruct (setParent_detach_view w c0 fuel Hwf Hfuel)
      as (w1 & -> & Hwf1 & Hlen1 & Hpar1 & Hlist1 & Hnone1 & _).
    destruct (IH n w1) as (w' & -> & Hwf' & Hlen' & Hpar' & Hnone' & Hleft);
      [lia|done|done|lia| |].
    { intros he1 cs1 He1 Hcs1. pose proof (Hlist1 e he _ Hhe Hcs) as H1.
      rewrite He1 in H1. rewrite (chain_det _ _ _ _ Hcs1 H1).
      pose proof (filter_ne_shorter c0 (c0 :: rest) ltac:(left)) as Hlt.
      pose proof (Hbound _ _ eq_refl Hcs). unfold c0 in *. lia. }
    exists w'. split; [done|]. split; [done|]. split; [lia|]. split; [|split; [|done]].
    + intros x. rewrite Hpar', Hpar1.
      destruct (decide (x = c0)) as [->|Hx].
      * rewrite decide_False by (unfold INVALID_ENTITY; lia).
        destruct (Hmem c0 ltac:(left)) as (hc & -> & Hpc). simpl.
        by rewrite decide_True.
      * done.
    + intros p Hp. apply Hnone'. by apply Hnone1.
Qed.

(** *** What the entities keep of their records *)

Lemma key_zalter (f : EntityData -> EntityData) i (es : list EntityData) x :
  (forall d, zget es i = Some d ->
     Z.max (-1) (hierarchy (f d)) = Z.max (-1) (hierarchy d)) ->
  (fun d => Z.max (-1) (hierarchy d)) <$> zget (zalter f i es) x
  = (fun d => Z.max (-1) (hierarchy d)) <$> zget es x.
Proof.
  intros Hf. rewrite FreeListFacts.zget_zalter. case_decide; [subst i|done].
  destruct (zget es x) as [d|] eqn:Hd; simpl; [|done]. by rewrite Hf.
Qed.

Lemma hrec_same_records w w' :
  m_hierarchy w' = m_hierarchy w ->
  (forall x, (fun d => Z.max (-1) (hierarchy d)) <$> zget (m_entities w') x
             = (fun d => Z.max (-1) (hierarchy d)) <$> zget (m_entities w) x) ->
  (forall x, hrec w' x = hrec w x) /\ (index_ok w -> index_ok w').
Proof.
  intros Hh Hk.
  assert (Hsame : forall x d', zget (m_entities w') x = Some d' ->
            exists d, zget (m_entities w) x = Some d /\
              (hierarchy d' <? 0) = (hierarchy d <? 0) /\
              (0 <= hierarchy d -> hierarchy d' = hierarchy d)).
  { intros x d' Hd'. specialize (Hk x). rewrite Hd' in Hk.
    destruct (zget (m_entities w) x) as [d|]; [|done]. simpl in Hk. injection Hk as Hk.
    exists d. split; [done|]. split; [|lia].
    destruct (hierarchy d' <? 0) eqn:H1, (hierarchy d <? 0) eqn:H2; try done;
      rewrite ?Z.ltb_lt, ?Z.ltb_ge in *; lia. }
  assert (Hrec : forall x, hrec w' x = hrec w x).
  { intros x. unfold hrec. rewrite Hh.
    destruct (zget (m_entities w') x) as [d'|] eqn:Hd'.
    - destruct (Hsame _ _ Hd') as (d & -> & Hneg & Heq). rewrite Hneg.
      destruct (hierarchy d <? 0) eqn:H2; [done|]. apply Z.ltb_ge in H2. by rewrite Heq.
    - specialize (Hk x). rewrite Hd' in Hk.
      by destruct (zget (m_entities w) x). }
  split; [done|]. intros [Hok1 Hok2]. split.
  - intros i h Hi. rewrite Hh in Hi. destruct (Hok1 _ _ Hi) as (d & Hd & Hdi).
    specialize (Hk (entity h)). rewrite Hd in Hk.
    destruct (zget (m_entities w') (entity h)) as [d'|]; [|done].
    simpl in Hk. injection Hk as Hk. exists d'. split; [done|].
    apply zget_Some in Hi. lia.
  - intros e d' Hd' Hdi. destruct (Hsame _ _ Hd') as (d & Hd & Hneg & Heq).
    assert (0 <= hierarchy d) as Hd0.
    { destruct (hierarchy d <? 0) eqn:H2; [|by apply Z.ltb_ge].
      rewrite ?H2 in Hneg. apply Z.ltb_lt in Hneg. lia. }
    destruct (Hok2 _ _ Hd Hd0) as (h & Hhh & Hent). exists h.
    rewrite Hh, Heq by done. done.
Qed.

Lemma destroyComponents_records e : forall n i mask w,
  m_hierarchy (destroyComponents n i mask w e) = m_hierarchy w /\
  forall x, (fun d => Z.max (-1) (hierarchy d))
              <$> zget (m_entities (destroyComponents n i mask w e)) x
            = (fun d => Z.max (-1) (hierarchy d)) <$> zget (m_entities w) x.
Proof.
  induction n as [|n IH]; intros i mask w; simpl; [done|].
  destruct (Z.testbit mask i); [|apply IH].
  destruct (IH (i + 1) (components (ent (destroy_method w i e) e)) (destroy_method w i e))
    as [-> Hk].
  split; [done|]. intros x. rewrite Hk. unfold destroy_method, onComponentDestroyed. simpl.
  by apply key_zalter.
Qed.

Lemma releaseSlot_records w e :
  hierarchy (ent w e) < 0 ->
  m_hierarchy (releaseSlot w e) = m_hierarchy w /\
  forall x, (fun d => Z.max (-1) (hierarchy d)) <$> zget (m_entities (releaseSlot w e)) x
            = (fun d => Z.max (-1) (hierarchy d)) <$> zget (m_entities w) x.
Proof.
  intros Hneg. unfold releaseSlot.
  set (w2 := alter_entity (set_prev (-1)) e _).
  assert (H2 : m_hierarchy w2 = m_hierarchy w /\ ent w2 e = set_prev (-1)
                 (set_next (m_first_free_slot w) (ent w e)) \/
               m_hierarchy w2 = m_hierarchy w /\ zget (m_entities w) e = None).
  { destruct (zget (m_entities w) e) as [d|] eqn:Hd; [left|right; done].
    split; [done|]. unfold w2, ent. simpl. by rewrite !zget_zalter_eq, Hd. }
  assert (K2 : forall x, (fun d => Z.max (-1) (hierarchy d)) <$> zget (m_entities w2) x
                         = (fun d => Z.max (-1) (hierarchy d)) <$> zget (m_entities w) x).
  { intros x. unfold w2. simpl. rewrite key_zalter by done. by rewrite key_zalter. }
  assert (Hh2 : m_hierarchy w2 = m_hierarchy w) by (by destruct H2 as [[? _]|[? _]]).
  assert (Hneg2 : forall d, zget (m_entities w2) e = Some d -> hierarchy d < 0).
  { intros d Hd. specialize (K2 e). rewrite Hd in K2. unfold ent in Hneg.
    destruct (zget (m_entities w) e) as [d0|]; [|done]. simpl in *.
    injection K2 as K2. lia. }
  clear H2. clearbody w2.
  set (w4 := alter_entity (set_valid false) e _).
  assert (K4 : forall x, (fun d => Z.max (-1) (hierarchy d)) <$> zget (m_entities w4) x
                         = (fun d => Z.max (-1) (hierarchy d)) <$> zget (m_entities w) x).
  { intros x. unfold w4. simpl. rewrite key_zalter by done.
    rewrite key_zalter; [done|]. intros d Hd. simpl. specialize (Hneg2 d Hd). lia. }
  assert (Hh4 : m_hierarchy w4 = m_hierarchy w) by done.
  clearbody w4.
  set (w5 := if 0 <=? m_first_free_slot w4 then _ else w4).
  assert (K5 : forall x, (fun d => Z.max (-1) (hierarchy d)) <$> zget (m_entities w5) x
                         = (fun d => Z.max (-1) (hierarchy d)) <$> zget (m_entities w) x).
  { intros x. unfold w5. destruct (0 <=? m_first_free_slot w4); [|done].
    simpl. by rewrite key_zalter. }
  assert (Hh5 : m_hierarchy w5 = m_hierarchy w).
  { unfold w5. by destruct (0 <=? m_first_free_slot w4). }
  clearbody w5.
  destruct (0 <=? name (ent w5 e)); [|done]. simpl. split; [done|].
  intros x. rewrite key_zalter by done. by rewrite key_zalter.
Qed.

(** X15: in a well-formed hierarchy [setParent(INVALID_ENTITY, c)] returns
    and keeps the hierarchy well formed; afterwards [c] has no parent, every
    other entity has the parent it had, and the children of every entity
    are the children it had, in their order, without [c]. *)
Theorem setParent_invalid_detaches w c fuel :
  wf_hierarchy w -> (length (m_hierarchy w) < fuel)%nat ->
  exists w', setParent fuel w INVALID_ENTITY c = Some w' /\ wf_hierarchy w' /\
    getParent w' c = INVALID_ENTITY /\
    (forall x, x <> c -> getParent w' x = getParent w x) /\
    (forall p, exists cs, childrenOf fuel w p = Some cs /\
                          childrenOf fuel w' p = Some (filter (fun x => x <> c) cs)).
Proof.
  intros Hwf Hfuel.
  destruct (setParent_detach_view w c fuel Hwf) as
    (w' & Hset & Hwf' & Hlen & Hpar & Hlist & Hnone & _); [lia|].
  exists w'. split; [done|]. split; [done|].
  pose proof Hwf as [Hok HF]. pose proof Hwf' as [Hok' HF'].
  split; [|split].
  - rewrite (getParent_hrec _ _ Hok'), Hpar. by rewrite decide_True.
  - intros x Hx. rewrite (getParent_hrec _ _ Hok'), (getParent_hrec _ _ Hok), Hpar.
    by rewrite decide_False.
  - intros p. destruct (hrec w p) as [hp|] eqn:Hp.
    + destruct HF as (_ & HC2 & _). destruct (HC2 _ _ Hp) as (cs & Hcs & _).
      exists cs. split; [by apply childrenOf_chain with hp|].
      specialize (Hlist p hp cs Hp Hcs).
      destruct (hrec w' p) as [hp'|] eqn:Hp'.
      * apply childrenOf_chain with hp'; [done..|lia].
      * rewrite Hlist. apply childrenOf_none; [done|done|lia].
    + exists []. split; [apply childrenOf_none; [done|done|lia]|].
      apply childrenOf_none; [done|by apply Hnone|lia].
Qed.

(** [destroyEntity] on the record map: the entity and the slots that had no
    record have none afterwards, and the entities that had the destroyed one
    as parent have no parent. *)
Lemma destroyEntity_view w e fuel :
  wf_hierarchy w -> hasEntity w e = true -> (length (m_hierarchy w) < fuel)%nat ->
  exists w', destroyEntity fuel w e = Some w' /\ wf_hierarchy w' /\
    hrec w' e = None /\
    (forall x, hrec w x = None -> hrec w' x = None) /\
    (forall x, x <> e ->
       from_option parent INVALID_ENTITY (hrec w' x)
       = if decide (from_option parent INVALID_ENTITY (hrec w x) = e)
         then INVALID_ENTITY
         else from_option parent INVALID_ENTITY (hrec w x)).
Proof.
  intros Hwf Hlive Hfuel. pose proof Hwf as [Hok HF].
  assert (He : 0 <= e).
  { unfold hasEntity in Hlive. apply andb_true_iff in Hlive as [Hlive _].
    apply andb_true_iff in Hlive as [Hlive _]. by apply Z.leb_le. }
  unfold destroyEntity.
  destruct (detachChildren_view e fuel (length (m_hierarchy w)) fuel w)
    as (w1 & -> & Hwf1 & Hlen1 & Hpar1 & Hnone1 & Hleft1); [lia|done|done|lia| |].
  { intros he cs Hhe Hcs. destruct (forest_chain_det _ _ _ _ HF Hhe Hcs) as [Hnd _].
    by apply chain_length_le with (first_child he). }
  destruct (setParent_detach_view w1 e fuel Hwf1) as
    (w2 & -> & Hwf2 & Hlen2 & Hpar2 & _ & Hnone2 & Hgone2); [lia|].
  pose proof Hwf2 as [Hok2 HF2].
  assert (He2 : hrec w2 e = None).
  { destruct (hrec w1 e) as [he1|] eqn:Hhe1; [|by apply Hnone2].
    apply (Hgone2 he1); [done|]. by apply Hleft1. }
  set (w3 := destroyComponents MAX_TYPES_COUNT 0 (components (ent w2 e)) w2 e).
  destruct (destroyComponents_records e MAX_TYPES_COUNT 0 (components (ent w2 e)) w2)
    as [Hh3 Hk3]. fold w3 in Hh3, Hk3.
  destruct (hrec_same_records w2 w3 Hh3 Hk3) as [Hrec3 Hok3]. specialize (Hok3 Hok2).
  assert (Hneg3 : hierarchy (ent w3 e) < 0).
  { apply hrec_None_idx; [done|]. by rewrite Hrec3. }
  destruct (releaseSlot_records w3 e Hneg3) as [Hh4 Hk4].
  destruct (hrec_same_records w3 (releaseSlot w3 e) Hh4 Hk4) as [Hrec4 Hok4].
  specialize (Hok4 Hok3).
  clearbody w3. revert Hrec4 Hok4. generalize (releaseSlot w3 e). intros w4 Hrec4 Hok4.
  assert (Hrec : forall x, hrec w4 x = hrec w2 x) by (intros x; by rewrite Hrec4, Hrec3).
  exists w4. split; [done|]. split; [|split; [|split]].
  - split; [done|]. apply forest_ext with (hrec w2); [done|done].
  - by rewrite Hrec.
  - intros x Hx. rewrite Hrec. by apply Hnone2, Hnone1.
  - intros x Hx. rewrite Hrec, Hpar2. rewrite decide_False by done. apply Hpar1.
Qed.

(** X16: in a well-formed hierarchy [destroyEntity] of a live entity returns
    and keeps the hierarchy well formed; afterwards the entity has neither
    parent nor child, the entities that had it as parent have none, and every
    other entity has the parent it had. *)
Theorem destroyEntity_orphans_children w e fuel :
  wf_hierarchy w -> hasEntity w e = true -> (length (m_hierarchy w) < fuel)%nat ->
  exists w', destroyEntity fuel w e = Some w' /\ wf_hierarchy w' /\
    getParent w' e = INVALID_ENTITY /\ getFirstChild w' e = INVALID_ENTITY /\
    forall x, x <> e ->
      getParent w' x = if decide (getParent w x = e) then INVALID_ENTITY else getParent w x.
Proof.
  intros Hwf Hlive Hfuel. pose proof Hwf as [Hok _].
  destruct (destroyEntity_view w e fuel Hwf Hlive Hfuel)
    as (w' & Hrun & Hwf' & He' & _ & Hpar).
  pose proof Hwf' as [Hok' _].
  exists w'. split; [exact Hrun|]. split; [exact Hwf'|]. split; [|split].
  - by rewrite (getParent_hrec _ _ Hok'), He'.
  - by rewrite (getFirstChild_hrec _ _ Hok'), He'.
  - intros x Hx. rewrite (getParent_hrec _ _ Hok'), (getParent_hrec _ _ Hok).
    by apply Hpar.
Qed.

End HierarchyFacts.

(** ** Detaching and destroying on a concrete world *)

Module HierarchyExamples.
Import World WorldMore HierarchyFacts.

(** Entity 1 of [family_world] leaves its parent, entity 0. *)
Lemma setParent_invalid_detaches_witness :
  exists w', setParent 4 Examples.family_world INVALID_ENTITY 1 = Some w' /\
    wf_hierarchy w' /\ getParent w' 1 = INVALID_ENTITY /\
    (forall x, x <> 1 -> getParent w' x = getParent Examples.family_world x) /\
    (forall p, exists cs, childrenOf 4 Examples.family_world p = Some cs /\
                          childrenOf 4 w' p = Some (filter (fun x => x <> 1) cs)).
Proof.
  apply (setParent_invalid_detaches Examples.family_world 1 4);
    [apply WorldExamples.family_world_wf|simpl; lia].
Defined.

(** Entity 0 of [family_world], the parent of entity 1, is destroyed. *)
Lemma destroyEntity_orphans_children_witness :
  exists w', destroyEntity 3 Examples.family_world 0 = Some w' /\ wf_hierarchy w' /\
    getParent w' 0 = INVALID_ENTITY /\ getFirstChild w' 0 = INVALID_ENTITY /\
    forall x, x <> 0 ->
      getParent w' x = if decide (getParent Examples.family_world x = 0)
                       then INVALID_ENTITY else getParent Examples.family_world x.
Proof.
  apply (destroyEntity_orphans_children Examples.family_world 0 3);
    [apply WorldExamples.family_world_wf|reflexivity|simpl; lia].
Defined.

End HierarchyExamples.

(** * Writing a world and reading it back *)

Module SerializeFacts.
Import World WorldMore.

Lemma i32_of_u32_of i : is_i32 i -> i32_of (u32_of i) = i.
Proof.
  unfold is_i32, i32_of, u32_of. intros Hi.
  destruct (decide (0 <= i)) as [Hpos|Hneg].
  - rewrite Z.mod_small by lia.
    assert ((i <? 2 ^ 31) = true) as -> by (apply Z.ltb_lt; lia). done.
  - assert (i mod 2 ^ 32 = i + 2 ^ 32) as ->.
    { symmetry. apply Z.mod_unique with (q := -1); lia. }
    assert ((i + 2 ^ 32 <? 2 ^ 31) = false) as -> by (apply Z.ltb_ge; lia). lia.
Qed.

Lemma u32_of_count (n : Z) : 0 <= n < 2 ^ 32 -> u32_of n = n.
Proof. intros Hn. unfold u32_of. by rewrite Z.mod_small. Qed.

(** The cells of one entity *)
Lemma entity_cells i t s :
  write_vec3 (scale t) (write_quat (rot t) (write_dvec3 (pos t) (write_entity i s)))
  = s ++ [CInt (u32_of i);
          CDouble (dx (pos t)); CDouble (dy (pos t)); CDouble (dz (pos t));
          CFloat (qx (rot t)); CFloat (qy (rot t)); CFloat (qz (rot t)); CFloat (qw (rot t));
          CFloat (v3x (scale t)); CFloat (v3y (scale t)); CFloat (v3z (scale t))].
Proof.
  unfold write_vec3, write_quat, write_dvec3, write_entity.
  by rewrite <- !app_assoc.
Qed.

Lemma serialize_entities_app es : forall ts i s,
  serialize_entities es ts i s = s ++ serialize_entities es ts i [].
Proof.
  induction es as [|d es IH]; intros ts i s; simpl; [by rewrite app_nil_r|].
  destruct (valid d); [|apply IH].
  rewrite !entity_cells. rewrite (IH _ _ (s ++ _)), (IH _ _ ([] ++ _)).
  by rewrite <- app_assoc.
Qed.

(** One round of the first loop of [deserialize]: an entity is created and
    gets the position, the rotation and the first component of the scale
    that were written. *)
Lemma deserialize_entities_round fuel w m i t tail :
  0 <= i < 2 ^ 31 ->
  deserialize_entities (S fuel) true w m
    (CInt (u32_of i) ::
     CDouble (dx (pos t)) :: CDouble (dy (pos t)) :: CDouble (dz (pos t)) ::
     CFloat (qx (rot t)) :: CFloat (qy (rot t)) :: CFloat (qz (rot t)) :: CFloat (qw (rot t)) ::
     CFloat (v3x (scale t)) :: CFloat (v3y (scale t)) :: CFloat (v3z (scale t)) :: tail)
  = let new_e := snd (createEntity w DVec3_ZERO Quat_IDENTITY) in
    deserialize_entities fuel true
      (alter_transform (fun _ => read_back t)
         new_e (fst (createEntity w DVec3_ZERO Quat_IDENTITY)))
      (EntityMap_set m i new_e) tail.
Proof.
  intros Hi. cbn [deserialize_entities]. unfold rbind at 1. cbn [read_entity].
  rewrite i32_of_u32_of by (unfold is_i32; lia). unfold isValid.
  assert ((0 <=? i) = true) as -> by (apply Z.leb_le; lia).
  destruct (createEntity w DVec3_ZERO Quat_IDENTITY) as [w1 new_e] eqn:Hc. cbn [fst snd].
  unfold rbind, read_dvec3, read_quat, read_scale, read_vec3, rbind, read_double,
    read_float, rret. cbn [fst snd].
  f_equal. unfold alter_transform, with_transforms, getTransform. cbn.
  f_equal. unfold zalter. case_decide; [|done].
  rewrite !list_alter_alter_eq. apply list_eq. intros k.
  rewrite !list_lookup_alter. case_decide; [|done].
  destruct (m_transforms w1 !! _) as [[p r s]|]; [|done]. cbn.
  by destruct t as [[] [] []].
Qed.

Lemma createEntity_appends w p r :
  m_first_free_slot w < 0 ->
  createEntity w p r =
    (notify (EntityCreated (zlen (m_entities w)))
       (with_transforms (fun l => l ++ [mkTransform p r Vec3_ONE])
          (with_entities
             (fun l => l ++ [mkEntityData (-1) (-1) (m_active_partition w) 0 (-1) (-1) true])
             w)),
     zlen (m_entities w)).
Proof.
  intros Hfree. unfold createEntity.
  assert ((0 <=? m_first_free_slot w) = false) as -> by (apply Z.leb_gt; lia). done.
Qed.

Lemma zalter_new {A} (f : A -> A) (l : list A) x : zalter f (zlen l) (l ++ [x]) = l ++ [f x].
Proof.
  unfold zalter, zlen. rewrite decide_True by lia. rewrite Nat2Z.id.
  apply list_eq. intros k. destruct (decide (k = length l)) as [->|Hk].
  - rewrite list_lookup_alter, decide_True by done.
    by rewrite !lookup_app_r, Nat.sub_diag by lia.
  - rewrite list_lookup_alter_ne by done.
    destruct (decide (k < length l)%nat).
    + by rewrite !lookup_app_l by lia.
    + rewrite !lookup_app_r by lia. destruct (k - length l)%nat eqn:E; [lia|done].
Qed.

Lemma EntityMap_get_same (m : EntityMap) src dst :
  0 <= src -> EntityMap_get (EntityMap_set m src dst) src = dst.
Proof.
  intros Hsrc. destruct (EnumFacts.EntityMap_set_grows m src dst Hsrc) as [Hlen Hget].
  unfold EntityMap_get, isValid. rewrite Hlen, Hget.
  assert ((0 <=? src) = true) as -> by (apply Z.leb_le; lia).
  assert ((src <? Z.max (zlen m) (src + 1)) = true) as -> by (apply Z.ltb_lt; lia).
  done.
Qed.

Local Notation "'live'" := (fun d : EntityData => valid d = true).

(** The first loop of [deserialize] on what the entity loop of [serialize]
    wrote, in a world without free slots: the live entities are appended in
    their order, with the transforms read back, and the map sends each one
    to its new index. *)
Lemma deserialize_entities_loop es : forall ts i wa ma fuel rest,
  0 <= i -> i + zlen es <= 2 ^ 31 ->
  m_first_free_slot wa < 0 ->
  zlen (m_transforms wa) = zlen (m_entities wa) ->
  (length (filter live es) < fuel)%nat ->
  exists wa' ma' new,
    deserialize_entities fuel true wa ma
      (serialize_entities es ts i [] ++ CInt (u32_of INVALID_ENTITY) :: rest)
    = Some ((wa', ma'), rest) /\
    m_entities wa' = m_entities wa ++
      replicate (length (filter live es))
        (mkEntityData (-1) (-1) (m_active_partition wa) 0 (-1) (-1) true) /\
    m_transforms wa' = m_transforms wa ++ new /\
    length new = length (filter live es) /\
    m_names wa' = m_names wa /\ m_hierarchy wa' = m_hierarchy wa /\
    m_first_free_slot wa' = m_first_free_slot wa /\
    m_active_partition wa' = m_active_partition wa /\
    (forall j, (forall k d, es !! k = Some d -> valid d = true -> j <> i + Z.of_nat k) ->
       EntityMap_get ma' j = EntityMap_get ma j) /\
    (forall k d, es !! k = Some d -> valid d = true ->
       EntityMap_get ma' (i + Z.of_nat k)
       = zlen (m_entities wa) + zlen (filter live (take k es)) /\
       new !! length (filter live (take k es))
       = Some (read_back (default no_transform (ts !! k)))).
Proof.
  induction es as [|d es IH]; intros ts i wa ma fuel rest Hi Hmax Hfree Hlen Hfuel.
  - exists wa, ma, []. simpl in *. destruct fuel as [|fuel]; [lia|].
    rewrite app_nil_r. repeat split; try done. by rewrite app_nil_r.
  - assert (Hcons : zlen (d :: es) = 1 + zlen es) by (unfold zlen; simpl; lia).
    rewrite Hcons in Hmax. pose proof (zlen_nonneg es) as Hes.
    cbn [serialize_entities]. destruct (valid d) eqn:Hd.
    + rewrite filter_cons_True in * by done. cbn [length] in *.
      destruct fuel as [|fuel]; [lia|].
      rewrite entity_cells, serialize_entities_app, <- !app_assoc.
      cbn [app]. rewrite (deserialize_entities_round fuel wa ma i _ _ ltac:(lia)).
      rewrite createEntity_appends by done. cbn [fst snd].
      set (fresh := mkEntityData (-1) (-1) (m_active_partition wa) 0 (-1) (-1) true).
      set (t := default no_transform (head ts)).
      set (n0 := zlen (m_entities wa)).
      set (wa1 := alter_transform _ _ _).
      assert (He1 : m_entities wa1 = m_entities wa ++ [fresh]) by done.
      assert (Ht1 : m_transforms wa1 = m_transforms wa ++ [read_back t]).
      { unfold wa1, alter_transform, with_transforms, n0. cbn.
        rewrite <- Hlen. by rewrite zalter_new. }
      destruct (IH (tail ts) (i + 1) wa1 (EntityMap_set ma i n0) fuel rest)
        as (wa' & ma' & new & Hrun & He & Ht & Hn & Hnames & Hh & Hf & Hp & Hold & Hnew).
      { lia. } { lia. } { done. }
      { rewrite He1, Ht1, !zlen_app. unfold zlen at 2 4. simpl. lia. }
      { lia. }
      exists wa', ma', (read_back t :: new). split; [exact Hrun|].
      split; [rewrite He, He1, <- app_assoc; done|].
      split; [rewrite Ht, Ht1, <- app_assoc; done|].
      split; [simpl; lia|]. split; [done|]. split; [done|]. split; [done|]. split; [done|].
      split.
      * intros j Hj. rewrite Hold.
        -- apply EnumFacts.EntityMap_get_other; [lia|].
           specialize (Hj 0%nat d eq_refl Hd). lia.
        -- intros k d' Hk Hd'. specialize (Hj (S k) d' Hk Hd'). lia.
      * intros [|k] d' Hk Hd'.
        -- simpl in Hk. split; [|by unfold t; rewrite head_lookup].
           rewrite Hold.
           ++ rewrite Z.add_0_r, EntityMap_get_same by lia. unfold n0, zlen. simpl. lia.
           ++ intros k d'' _ _. lia.
        -- simpl in Hk. destruct (Hnew k d' Hk Hd') as [Hm Hl].
           cbn [take]. rewrite filter_cons_True by done. cbn [length].
           split.
           ++ replace (i + Z.of_nat (S k)) with (i + 1 + Z.of_nat k) by lia.
              rewrite Hm, He1, zlen_app. unfold n0, zlen. simpl. lia.
           ++ simpl. rewrite Hl. by rewrite lookup_tail.
    + rewrite filter_cons_False in * by (rewrite Hd; done).
      destruct (IH (tail ts) (i + 1) wa ma fuel rest)
        as (wa' & ma' & new & Hrun & He & Ht & Hn & Hnames & Hh & Hf & Hp & Hold & Hnew);
        [lia|lia|done|done|done|].
      exists wa', ma', new. do 8 (split; [done|]). split.
      * intros j Hj. apply Hold. intros k d' Hk Hd'. specialize (Hj (S k) d' Hk Hd'). lia.
      * intros [|k] d' Hk Hd'; simpl in Hk.
        -- congruence.
        -- destruct (Hnew k d' Hk Hd') as [Hm Hl].
           cbn [take]. rewrite filter_cons_False by (rewrite Hd; done).
           split.
           ++ replace (i + Z.of_nat (S k)) with (i + 1 + Z.of_nat k) by lia. done.
           ++ rewrite Hl. by rewrite lookup_tail.
Qed.

Lemma serialize_names_app ns : forall s,
  foldl serialize_name s ns = s ++ foldl serialize_name [] ns.
Proof.
  induction ns as [|n ns IH]; intros s; simpl; [by rewrite app_nil_r|].
  rewrite (IH (serialize_name s n)), (IH (serialize_name [] n)).
  unfold serialize_name, write_string, write_entity. simpl. by rewrite <- !app_assoc.
Qed.

Lemma fmap_const_fmap {A B} (c : B) (f : A -> A) (o : option A) :
  (fun _ => c) <$> (f <$> o) = (fun _ => c) <$> o.
Proof. by destruct o. Qed.

(** The loop of [deserialize] over the names, on what [serialize] wrote:
    the records are appended with their entities mapped, and an entity gets
    the index of the last record that names it. *)
Lemma deserialize_names_loop (m : EntityMap) ns : forall w rest,
  (forall k n, ns !! k = Some n -> is_i32 (name_entity n)) ->
  exists w',
    deserialize_names (length ns) w m (foldl serialize_name [] ns ++ rest) = Some (w', rest) /\
    m_transforms w' = m_transforms w /\ m_hierarchy w' = m_hierarchy w /\
    m_names w' = m_names w ++
      ((fun n => mkEntityName (EntityMap_get_ref m (name_entity n)) (name_str n)) <$> ns) /\
    (forall x, set_name 0 <$> zget (m_entities w') x = set_name 0 <$> zget (m_entities w) x) /\
    (forall e k n, ns !! k = Some n -> EntityMap_get_ref m (name_entity n) = e ->
       (forall k2 n2, (k < k2)%nat -> ns !! k2 = Some n2 ->
          EntityMap_get_ref m (name_entity n2) <> e) ->
       name <$> zget (m_entities w') e
       = (fun _ => zlen (m_names w) + Z.of_nat k) <$> zget (m_entities w) e) /\
    (forall e, (forall k n, ns !! k = Some n -> EntityMap_get_ref m (name_entity n) <> e) ->
       zget (m_entities w') e = zget (m_entities w) e).
Proof.
  induction ns as [|n ns IH]; intros w rest Hi32.
  - exists w. simpl. rewrite app_nil_r. repeat split; try done.
  - cbn [length foldl]. rewrite serialize_names_app.
    unfold serialize_name at 1, write_string, write_entity. cbn [app].
    cbn [deserialize_names]. unfold rbind at 1. cbn [read_entity].
    rewrite i32_of_u32_of by exact (Hi32 0%nat n eq_refl).
    unfold rbind at 1. cbn [read_string].
    set (e0 := EntityMap_get_ref m (name_entity n)).
    set (w1 := alter_entity _ e0 _).
    assert (Hn1 : m_names w1 = m_names w ++ [mkEntityName e0 (name_str n)]) by done.
    assert (He1 : m_entities w1 = zalter (set_name (zlen (m_names w))) e0 (m_entities w)).
    { unfold w1, alter_entity, with_entities, with_names. cbn. f_equal. f_equal.
      rewrite zlen_app. unfold zlen at 2. simpl. lia. }
    destruct (IH w1 rest) as (w' & Hrun & Ht & Hh & Hn & Hcore & Hlast & Hnone).
    { intros k n' Hk. exact (Hi32 (S k) n' Hk). }
    exists w'. split; [exact Hrun|]. split; [done|]. split; [done|].
    split; [rewrite Hn, Hn1, <- app_assoc; done|]. split; [|split].
    + intros x. rewrite Hcore, He1, FreeListFacts.zget_zalter.
      case_decide; [|done]. by destruct (zget (m_entities w) x).
    + intros e [|k] n' Hk Hme Hlater; simpl in Hk.
      * injection Hk as <-. rewrite Hnone.
        -- rewrite He1. fold e0 in Hme. subst e. rewrite zget_zalter_eq.
           rewrite Z.add_0_r. by destruct (zget (m_entities w) e0).
        -- intros k2 n2 Hk2. apply (Hlater (S k2) n2); [lia|done].
      * rewrite (Hlast e k n' Hk Hme).
        -- rewrite He1, Hn1, zlen_app, FreeListFacts.zget_zalter.
           replace (zlen (m_names w) + zlen [mkEntityName e0 (name_str n)] + Z.of_nat k)
             with (zlen (m_names w) + Z.of_nat (S k)) by (unfold zlen; simpl; lia).
           case_decide; [apply fmap_const_fmap|done].
        -- intros k2 n2 Hlt Hk2. apply (Hlater (S k2) n2); [lia|done].
    + intros e Hne. rewrite Hnone.
      * rewrite He1. apply zget_zalter_ne. intros Heq. exact (Hne 0%nat n eq_refl Heq).
      * intros k n' Hk. exact (Hne (S k) n' Hk).
Qed.

(** The cells of one hierarchy record *)
Lemma hierarchy_cells s h :
  serialize_hierarchy s h
  = s ++ CInt (u32_of (entity h)) :: CInt (u32_of (parent h)) ::
         CInt (u32_of (first_child h)) :: CInt (u32_of (next_sibling h)) ::
         CDouble (dx (pos (local_transform h))) :: CDouble (dy (pos (local_transform h))) ::
         CDouble (dz (pos (local_transform h))) ::
         CFloat (qx (rot (local_transform h))) :: CFloat (qy (rot (local_transform h))) ::
         CFloat (qz (rot (local_transform h))) :: CFloat (qw (rot (local_transform h))) ::
         CFloat (v3x (scale (local_transform h))) :: CFloat (v3y (scale (local_transform h))) ::
         CFloat (v3z (scale (local_transform h))) :: [].
Proof.
  unfold serialize_hierarchy, write_vec3, write_quat, write_dvec3, write_entity.
  by rewrite <- !app_assoc.
Qed.

Lemma serialize_hierarchy_app hs : forall s,
  foldl serialize_hierarchy s hs = s ++ foldl serialize_hierarchy [] hs.
Proof.
  induction hs as [|h hs IH]; intros s; simpl; [by rewrite app_nil_r|].
  rewrite (IH (serialize_hierarchy s h)), (IH (serialize_hierarchy [] h)).
  rewrite !hierarchy_cells. by rewrite <- !app_assoc.
Qed.

(** The loop of [deserialize] over the hierarchy records, on what
    [serialize] wrote: the records are appended with their four entities
    mapped and the local transform as written, and an entity gets the index
    of the last record that belongs to it. *)
Lemma deserialize_hierarchy_loop (m : EntityMap) hs : forall w rest,
  (forall k h, hs !! k = Some h ->
     is_i32 (entity h) /\ is_i32 (parent h) /\ is_i32 (first_child h) /\
     is_i32 (next_sibling h)) ->
  exists w',
    deserialize_hierarchy (length hs) (zlen (m_hierarchy w)) true w m
      (foldl serialize_hierarchy [] hs ++ rest) = Some (w', rest) /\
    m_transforms w' = m_transforms w /\ m_names w' = m_names w /\
    m_hierarchy w' = m_hierarchy w ++
      ((fun h => mkHierarchy (EntityMap_get_ref m (entity h)) (EntityMap_get m (parent h))
                   (EntityMap_get m (first_child h)) (EntityMap_get m (next_sibling h))
                   (local_transform h)) <$> hs) /\
    (forall x, core <$> zget (m_entities w') x = core <$> zget (m_entities w) x) /\
    (forall e k h, hs !! k = Some h -> EntityMap_get_ref m (entity h) = e ->
       (forall k2 h2, (k < k2)%nat -> hs !! k2 = Some h2 ->
          EntityMap_get_ref m (entity h2) <> e) ->
       hierarchy <$> zget (m_entities w') e
       = (fun _ => zlen (m_hierarchy w) + Z.of_nat k) <$> zget (m_entities w) e) /\
    (forall e, (forall k h, hs !! k = Some h -> EntityMap_get_ref m (entity h) <> e) ->
       zget (m_entities w') e = zget (m_entities w) e).
Proof.
  induction hs as [|h hs IH]; intros w rest Hi32.
  - exists w. simpl. rewrite app_nil_r. repeat split; try done.
  - cbn [length foldl]. rewrite serialize_hierarchy_app, hierarchy_cells. cbn [app].
    destruct (Hi32 0%nat h eq_refl) as (Hie & Hip & Hif & Hin).
    cbn [deserialize_hierarchy].
    unfold rbind, read_entity, read_dvec3, read_quat, read_vec3, rbind, read_double,
      read_float, rret.
    rewrite !i32_of_u32_of by done. cbn [entity].
    set (e0 := EntityMap_get_ref m (entity h)).
    set (w1 := alter_entity _ e0 _).
    assert (Hh1 : m_hierarchy w1 = m_hierarchy w ++
              [mkHierarchy e0 (EntityMap_get m (parent h)) (EntityMap_get m (first_child h))
                 (EntityMap_get m (next_sibling h)) (local_transform h)]).
    { unfold w1, alter_entity, with_entities, with_hierarchy. cbn. do 3 f_equal.
      by destruct (local_transform h) as [[] [] []]. }
    assert (He1 : m_entities w1 = zalter (set_hierarchy (zlen (m_hierarchy w))) e0 (m_entities w))
      by done.
    assert (Hz1 : zlen (m_hierarchy w1) = zlen (m_hierarchy w) + 1).
    { rewrite Hh1, zlen_app. unfold zlen at 2. simpl. lia. }
    rewrite <- Hz1.
    destruct (IH w1 rest) as (w' & Hrun & Ht & Hn & Hh & Hcore & Hlast & Hnone).
    { intros k h' Hk. exact (Hi32 (S k) h' Hk). }
    exists w'. split; [exact Hrun|]. split; [done|]. split; [done|].
    split; [rewrite Hh, Hh1, <- app_assoc; done|]. split; [|split].
    + intros x. rewrite Hcore, He1, FreeListFacts.zget_zalter.
      case_decide; [|done]. by destruct (zget (m_entities w) x).
    + intros e [|k] h' Hk Hme Hlater; simpl in Hk.
      * injection Hk as <-. rewrite Hnone.
        -- rewrite He1. fold e0 in Hme. subst e. rewrite zget_zalter_eq.
           rewrite Z.add_0_r. by destruct (zget (m_entities w) e0).
        -- intros k2 h2 Hk2. apply (Hlater (S k2) h2); [lia|done].
      * rewrite (Hlast e k h' Hk Hme).
        -- rewrite He1, Hz1, FreeListFacts.zget_zalter.
           replace (zlen (m_hierarchy w) + 1 + Z.of_nat k)
             with (zlen (m_hierarchy w) + Z.of_nat (S k)) by lia.
           case_decide; [apply fmap_const_fmap|done].
        -- intros k2 h2 Hlt Hk2. apply (Hlater (S k2) h2); [lia|done].
    + intros e Hne. rewrite Hnone.
      * rewrite He1. apply zget_zalter_ne. intros Heq. exact (Hne 0%nat h eq_refl Heq).
      * intros k h' Hk. exact (Hne (S k) h' Hk).
Qed.

(** The cells that [serialize] writes *)
Lemma serialize_cells w :
  serialize w []
  = CInt (u32_of (zlen (m_entities w))) ::
    (serialize_entities (m_entities w) (m_transforms w) 0 [] ++
     CInt (u32_of INVALID_ENTITY) :: CInt (u32_of (zlen (m_names w))) ::
     (foldl serialize_name [] (m_names w) ++
      CInt (u32_of (zlen (m_hierarchy w))) ::
      (foldl serialize_hierarchy [] (m_hierarchy w) ++ []))).
Proof.
  unfold serialize, write_u32, write_entity.
  rewrite serialize_hierarchy_app, serialize_names_app, serialize_entities_app.
  rewrite app_nil_r. cbn [app]. by rewrite <- !app_assoc.
Qed.

Lemma live_count_cells es : forall ts i,
  (length (filter live es) <= length (serialize_entities es ts i []))%nat.
Proof.
  induction es as [|d es IH]; intros ts i; [simpl; lia|].
  cbn [serialize_entities]. destruct (valid d) eqn:Hd.
  - rewrite filter_cons_True by done.
    rewrite entity_cells, serialize_entities_app, length_app.
    specialize (IH (tail ts) (i + 1)). simpl. lia.
  - rewrite filter_cons_False by (rewrite Hd; done). apply IH.
Qed.

Lemma hasEntity_live w e :
  hasEntity w e = true ->
  0 <= e < zlen (m_entities w) /\
  exists d, m_entities w !! Z.to_nat e = Some d /\ valid d = true.
Proof.
  unfold hasEntity, ent, zget. intros H.
  apply andb_prop in H as [H Hv]. apply andb_prop in H as [H0 H1].
  apply Z.leb_le in H0. apply Z.ltb_lt in H1. split; [lia|].
  rewrite decide_True in Hv by done.
  destruct (m_entities w !! Z.to_nat e) as [d|] eqn:Hd; [by exists d|done].
Qed.

Lemma live_hasEntity w k d :
  m_entities w !! k = Some d -> valid d = true -> hasEntity w (Z.of_nat k) = true.
Proof.
  intros Hk Hd. rewrite (FreeListFacts.hasEntity_valid w _ d); [done|].
  unfold zget. rewrite decide_True by lia. by rewrite Nat2Z.id.
Qed.

Lemma live_below_lt w e1 e2 :
  hasEntity w e1 = true -> e1 < e2 -> live_below w e1 < live_below w e2.
Proof.
  intros H1 Hlt. apply hasEntity_live in H1 as [Hr (d & Hd & Hv)].
  unfold live_below.
  replace (Z.to_nat e2) with (Z.to_nat e1 + S (Z.to_nat (e2 - e1 - 1)))%nat by lia.
  rewrite <- take_take_drop.
  rewrite (drop_S _ _ _ Hd). cbn [take].
  rewrite filter_app, filter_cons_True by done. unfold zlen.
  rewrite length_app. simpl. lia.
Qed.

Lemma live_below_range w e :
  hasEntity w e = true ->
  0 <= live_below w e < zlen (filter live (m_entities w)).
Proof.
  intros H. pose proof (live_below_lt w e (zlen (m_entities w)) H) as Hlt.
  destruct (hasEntity_live w e H) as [Hr _]. specialize (Hlt ltac:(lia)).
  unfold live_below in Hlt at 2. unfold zlen in Hlt at 2.
  rewrite Nat2Z.id, firstn_all in Hlt. split; [apply zlen_nonneg|done].
Qed.

Lemma live_below_inj w e1 e2 :
  hasEntity w e1 = true -> hasEntity w e2 = true ->
  live_below w e1 = live_below w e2 -> e1 = e2.
Proof.
  intros H1 H2 Heq. destruct (Z.lt_trichotomy e1 e2) as [Hlt|[?|Hlt]]; [|done|].
  - pose proof (live_below_lt w e1 e2 H1 Hlt). lia.
  - pose proof (live_below_lt w e2 e1 H2 Hlt). lia.
Qed.

Lemma EntityMap_get_ref_of (m : EntityMap) e v :
  EntityMap_get m e = v -> v <> INVALID_ENTITY -> EntityMap_get_ref m e = v.
Proof.
  unfold EntityMap_get, EntityMap_get_ref.
  destruct (isValid e && (e <? zlen m)); [done|]. intros <-. done.
Qed.

Lemma EntityMap_get_nil e : EntityMap_get [] e = INVALID_ENTITY.
Proof.
  unfold EntityMap_get.
  assert (zget (@nil Z) e = None) as -> by (apply zget_None; unfold zlen; simpl; lia).
  by destruct (isValid e), (e <? zlen []).
Qed.

(** [deserialize] into a fresh world, on what [serialize] wrote *)
Lemma deserialize_serialize w :
  zlen (m_entities w) <= 2 ^ 31 ->
  zlen (m_names w) < 2 ^ 32 -> zlen (m_hierarchy w) < 2 ^ 32 ->
  (forall k n, m_names w !! k = Some n -> is_i32 (name_entity n)) ->
  (forall k h, m_hierarchy w !! k = Some h ->
     is_i32 (entity h) /\ is_i32 (parent h) /\ is_i32 (first_child h) /\
     is_i32 (next_sibling h)) ->
  exists w' m,
    deserialize empty_world [] true (serialize w []) = Some ((w', m), []) /\
    zlen (m_entities w') = zlen (filter live (m_entities w)) /\
    (forall e, hasEntity w e = false -> EntityMap_get m e = INVALID_ENTITY) /\
    (forall e, hasEntity w e = true ->
       EntityMap_get m e = live_below w e /\
       zget (m_transforms w') (live_below w e) = Some (read_back (getTransform w e))) /\
    (forall x, 0 <= x < zlen (filter live (m_entities w)) ->
       exists d, zget (m_entities w') x = Some d /\ valid d = true) /\
    m_names w' =
      ((fun n => mkEntityName (EntityMap_get_ref m (name_entity n)) (name_str n))
         <$> m_names w) /\
    m_hierarchy w' =
      ((fun h => mkHierarchy (EntityMap_get_ref m (entity h)) (EntityMap_get m (parent h))
                   (EntityMap_get m (first_child h)) (EntityMap_get m (next_sibling h))
                   (local_transform h)) <$> m_hierarchy w) /\
    (forall e k n, m_names w !! k = Some n -> EntityMap_get_ref m (name_entity n) = e ->
       (forall k2 n2, (k < k2)%nat -> m_names w !! k2 = Some n2 ->
          EntityMap_get_ref m (name_entity n2) <> e) ->
       0 <= e < zlen (filter live (m_entities w)) -> name (ent w' e) = Z.of_nat k) /\
    (forall e, (forall k n, m_names w !! k = Some n ->
                  EntityMap_get_ref m (name_entity n) <> e) ->
       name (ent w' e) = -1) /\
    (forall e k h, m_hierarchy w !! k = Some h -> EntityMap_get_ref m (entity h) = e ->
       (forall k2 h2, (k < k2)%nat -> m_hierarchy w !! k2 = Some h2 ->
          EntityMap_get_ref m (entity h2) <> e) ->
       0 <= e < zlen (filter live (m_entities w)) -> hierarchy (ent w' e) = Z.of_nat k) /\
    (forall e, (forall k h, m_hierarchy w !! k = Some h ->
                  EntityMap_get_ref m (entity h) <> e) ->
       hierarchy (ent w' e) = -1).
Proof.
  intros Hmax Hnmax Hhmax Hnames Hlinks.
  pose proof (zlen_nonneg (m_entities w)) as He0.
  pose proof (zlen_nonneg (m_names w)) as Hn0.
  pose proof (zlen_nonneg (m_hierarchy w)) as Hh0.
  unfold deserialize. rewrite serialize_cells.
  unfold rbind at 1. cbn [read_u32].
  unfold rbind at 1.
  match goal with
  | |- context [deserialize_entities ?f true empty_world [] (_ ++ _ :: ?r)] =>
      destruct (deserialize_entities_loop (m_entities w) (m_transforms w) 0
                  empty_world [] f r)
        as (w0 & m & new & Hrun0 & Hes0 & Hts0 & Hnew & Hns0 & Hhs0 & _ & _ & Hold & Hmap)
  end.
  { lia. } { lia. } { simpl. lia. } { done. }
  { pose proof (live_count_cells (m_entities w) (m_transforms w) 0).
    cbn [length]. rewrite length_app. lia. }
  rewrite Hrun0. unfold rbind at 1. cbn [read_u32].
  rewrite u32_of_count by lia. unfold zlen at 1. rewrite Nat2Z.id.
  unfold rbind at 1.
  destruct (deserialize_names_loop m (m_names w) w0
              (CInt (u32_of (zlen (m_hierarchy w))) ::
               (foldl serialize_hierarchy [] (m_hierarchy w) ++ [])) Hnames)
    as (w1 & Hrun1 & Hts1 & Hhs1 & Hns1 & Hcore1 & Hlast1 & Hnone1).
  rewrite Hrun1. unfold rbind at 1. cbn [read_u32].
  rewrite u32_of_count by lia. unfold zlen at 1. rewrite Nat2Z.id.
  unfold rbind at 1.
  destruct (deserialize_hierarchy_loop m (m_hierarchy w) w1 [] Hlinks)
    as (w' & Hrun2 & Hts2 & Hns2 & Hhs2 & Hcore2 & Hlast2 & Hnone2).
  rewrite Hrun2. unfold rret.
  exists w', m. split; [done|].
  set (c := length (filter live (m_entities w))) in *.
  assert (Hc : zlen (filter live (m_entities w)) = Z.of_nat c) by done.
  rewrite Hc.
  assert (Hz0 : forall x, zget (m_entities w0) x
            = if decide (0 <= x < Z.of_nat c)
              then Some (mkEntityData (-1) (-1) 0 0 (-1) (-1) true) else None).
  { intros x. rewrite Hes0. cbn [m_entities empty_world app m_active_partition].
    apply EnumFacts.zget_replicate. }
  assert (Hz1 : forall x, 0 <= x < Z.of_nat c ->
            exists d, zget (m_entities w1) x = Some d /\ valid d = true /\ hierarchy d = -1).
  { intros x Hx. specialize (Hcore1 x). rewrite Hz0, decide_True in Hcore1 by done.
    destruct (zget (m_entities w1) x) as [d|]; [|done].
    exists d. injection Hcore1 as H1 _ _ _ _ H6. done. }
  assert (Hz2 : forall x, 0 <= x < Z.of_nat c ->
            exists d1 d, zget (m_entities w1) x = Some d1 /\ zget (m_entities w') x = Some d /\
                         valid d = true /\ name d = name d1).
  { intros x Hx. destruct (Hz1 x Hx) as (d1 & Hd1 & Hv1 & _).
    specialize (Hcore2 x). rewrite Hd1 in Hcore2.
    destruct (zget (m_entities w') x) as [d|]; [|done].
    exists d1, d. injection Hcore2 as H2 _ _ _ _ H6. split; [done|]. split; [done|].
    split; congruence. }
  assert (Hout1 : forall x, ~ 0 <= x < Z.of_nat c -> zget (m_entities w1) x = None).
  { intros x Hx. specialize (Hcore1 x). rewrite Hz0, decide_False in Hcore1 by done.
    by destruct (zget (m_entities w1) x). }
  assert (Hout2 : forall x, ~ 0 <= x < Z.of_nat c -> zget (m_entities w') x = None).
  { intros x Hx. specialize (Hcore2 x). rewrite (Hout1 x Hx) in Hcore2.
    by destruct (zget (m_entities w') x). }
  split; [|split; [|split; [|split; [|split; [|split; [|split; [|split; [|split]]]]]]]].
  - destruct (Z.lt_trichotomy (zlen (m_entities w')) (Z.of_nat c)) as [Hlt|[?|Hlt]]; [|done|].
    + destruct (Hz2 (zlen (m_entities w'))) as (_ & d & _ & Hd & _);
        [pose proof (zlen_nonneg (m_entities w')); lia|].
      apply zget_Some in Hd. lia.
    + pose proof (Hout2 (Z.of_nat c) ltac:(lia)) as Hn. apply zget_None in Hn. lia.
  - intros e He. rewrite Hold; [apply EntityMap_get_nil|].
    intros k d Hk Hd ->. rewrite Z.add_0_l, (live_hasEntity w k d Hk Hd) in He. done.
  - intros e He. destruct (hasEntity_live w e He) as [Hr (d & Hd & Hv)].
    destruct (Hmap (Z.to_nat e) d Hd Hv) as [Hm Hl].
    rewrite Z.add_0_l, Z2Nat.id in Hm by lia.
    cbn [m_entities empty_world] in Hm. change (zlen []) with 0 in Hm.
    rewrite Z.add_0_l in Hm. split; [exact Hm|].
    rewrite Hts2, Hts1, Hts0. cbn [m_transforms empty_world app].
    unfold zget, live_below. rewrite decide_True by apply zlen_nonneg.
    unfold zlen. rewrite Nat2Z.id, Hl.
    unfold getTransform, zget. by rewrite decide_True by lia.
  - intros x Hx. destruct (Hz2 x Hx) as (_ & d & _ & Hd & Hv & _). by exists d.
  - by rewrite Hns2, Hns1, Hns0.
  - by rewrite Hhs2, Hhs1, Hhs0.
  - intros e k n Hk Hme Hlater Hr.
    destruct (Hz2 e Hr) as (d1 & d & Hd1 & Hd & _ & Hnd).
    unfold ent. rewrite Hd. cbn. rewrite Hnd.
    specialize (Hlast1 e k n Hk Hme Hlater). rewrite Hd1, Hz0, decide_True in Hlast1 by done.
    rewrite Hns0 in Hlast1. cbn in Hlast1. by injection Hlast1.
  - intros e Hne. unfold ent. destruct (decide (0 <= e < Z.of_nat c)) as [Hr|Hr].
    + destruct (Hz2 e Hr) as (d1 & d & Hd1 & Hd & _ & Hnd). rewrite Hd. cbn. rewrite Hnd.
      specialize (Hnone1 e Hne). rewrite Hd1, Hz0, decide_True in Hnone1 by done.
      by injection Hnone1 as ->.
    + by rewrite (Hout2 e Hr).
  - intros e k h Hk Hme Hlater Hr.
    destruct (Hz2 e Hr) as (d1 & d & Hd1 & Hd & _).
    unfold ent. rewrite Hd. cbn.
    specialize (Hlast2 e k h Hk Hme Hlater). rewrite Hd1, Hd, Hhs1, Hhs0 in Hlast2.
    cbn in Hlast2. by injection Hlast2.
  - intros e Hne. unfold ent. destruct (decide (0 <= e < Z.of_nat c)) as [Hr|Hr].
    + destruct (Hz1 e Hr) as (d1 & Hd1 & _ & Hh1).
      specialize (Hnone2 e Hne). by rewrite Hnone2, Hd1.
    + by rewrite (Hout2 e Hr).
Qed.

Lemma zget_of_nat {A} (l : list A) k : zget l (Z.of_nat k) = l !! k.
Proof. unfold zget. rewrite decide_True by lia. by rewrite Nat2Z.id. Qed.

Lemma live_is_i32 w e :
  zlen (m_entities w) <= 2 ^ 31 -> hasEntity w e = true -> is_i32 e.
Proof. intros Hmax He. destruct (hasEntity_live w e He) as [Hr _]. unfold is_i32. lia. Qed.

Lemma names_ok_i32 w :
  zlen (m_entities w) <= 2 ^ 31 -> names_ok w ->
  forall k n, m_names w !! k = Some n -> is_i32 (name_entity n).
Proof.
  intros Hmax (_ & Hrec & _) k n Hk. rewrite <- zget_of_nat in Hk.
  destruct (Hrec _ _ Hk) as [Hlive _]. by apply (live_is_i32 w).
Qed.

Lemma links_ok_i32 w :
  zlen (m_entities w) <= 2 ^ 31 -> links_ok w ->
  forall k h, m_hierarchy w !! k = Some h ->
    is_i32 (entity h) /\ is_i32 (parent h) /\ is_i32 (first_child h) /\
    is_i32 (next_sibling h).
Proof.
  intros Hmax (_ & Hrec & _) k h Hk. rewrite <- zget_of_nat in Hk.
  destruct (Hrec _ _ Hk) as (Hlive & _ & Hp & Hf & Hn).
  split; [by apply (live_is_i32 w)|done].
Qed.

(** The new index of a live entity, as the map gives it to the two later
    loops of [deserialize] *)
Lemma mapped_ref w (m : EntityMap) e :
  hasEntity w e = true -> EntityMap_get m e = live_below w e ->
  EntityMap_get_ref m e = live_below w e.
Proof.
  intros He Hm. apply EntityMap_get_ref_of; [done|].
  pose proof (live_below_range w e He). unfold INVALID_ENTITY. lia.
Qed.

(** X17: a world written by [serialize] is read by [deserialize] into a
    fresh world completely; the live entities come back in their order
    without the dead slots between them, the map sends every live entity to
    its new index and every other one to [INVALID_ENTITY], and the new
    entity has the position, the rotation and, in all three components, the
    x scale of the old one. *)
Theorem deserialize_restores_transforms w :
  zlen (m_entities w) <= 2 ^ 31 -> names_ok w -> links_ok w ->
  exists w' m,
    deserialize empty_world [] true (serialize w []) = Some ((w', m), []) /\
    zlen (m_entities w') = live_below w (zlen (m_entities w)) /\
    forall e,
      (hasEntity w e = false -> EntityMap_get m e = INVALID_ENTITY) /\
      (hasEntity w e = true ->
         EntityMap_get m e = live_below w e /\
         hasEntity w' (EntityMap_get m e) = true /\
         getPosition w' (EntityMap_get m e) = getPosition w e /\
         getRotation w' (EntityMap_get m e) = getRotation w e /\
         getScale w' (EntityMap_get m e)
         = mkVec3 (v3x (getScale w e)) (v3x (getScale w e)) (v3x (getScale w e))).
Proof.
  intros Hmax Hnames Hlinks.
  destruct (deserialize_serialize w Hmax (proj1 Hnames) (proj1 Hlinks)
              (names_ok_i32 w Hmax Hnames) (links_ok_i32 w Hmax Hlinks))
    as (w' & m & Hrun & Hlen & Hdead & Hlive & Hvalid & _).
  exists w', m. split; [exact Hrun|]. split.
  - rewrite Hlen. unfold live_below, zlen. by rewrite Nat2Z.id, firstn_all.
  - intros e. split; [apply Hdead|]. intros He.
    destruct (Hlive e He) as [Hm Ht]. rewrite Hm.
    destruct (Hvalid _ (live_below_range w e He)) as (d & Hd & Hv).
    split; [done|]. split; [by rewrite (FreeListFacts.hasEntity_valid w' _ d Hd)|].
    unfold getPosition, getRotation, getScale. unfold getTransform at 1 3 5.
    by rewrite Ht.
Qed.

(** X18: after the round trip every live entity has the name it had, the
    empty name if it had none. *)
Theorem deserialize_restores_names w :
  zlen (m_entities w) <= 2 ^ 31 -> names_ok w -> links_ok w ->
  exists w' m,
    deserialize empty_world [] true (serialize w []) = Some ((w', m), []) /\
    forall e, hasEntity w e = true ->
      getEntityName w' (EntityMap_get m e) = getEntityName w e.
Proof.
  intros Hmax Hnames Hlinks.
  destruct (deserialize_serialize w Hmax (proj1 Hnames) (proj1 Hlinks)
              (names_ok_i32 w Hmax Hnames) (links_ok_i32 w Hmax Hlinks))
    as (w' & m & Hrun & _ & _ & Hlive & _ & Hns & _ & Hlast & Hnone & _).
  exists w', m. split; [exact Hrun|]. intros e He.
  destruct Hnames as (_ & Hrec & Hback).
  destruct (Hlive e He) as [Hm _]. rewrite Hm.
  assert (Hsame : forall k n, m_names w !! k = Some n ->
            EntityMap_get_ref m (name_entity n) = live_below w e ->
            name (ent w e) = Z.of_nat k).
  { intros k n Hk Hme. rewrite <- zget_of_nat in Hk.
    destruct (Hrec _ _ Hk) as [Hl Hidx].
    rewrite (mapped_ref w m _ Hl (proj1 (Hlive _ Hl))) in Hme.
    by rewrite <- (live_below_inj w _ _ Hl He Hme). }
  unfold getEntityName at 2. destruct (name (ent w e) <? 0) eqn:Hneg.
  - apply Z.ltb_lt in Hneg. unfold getEntityName. rewrite Hnone; [done|].
    intros k n Hk Hme. specialize (Hsame k n Hk Hme). lia.
  - apply Z.ltb_ge in Hneg. destruct (Hback e He Hneg) as (n & Hn & Hne).
    assert (Hk : m_names w !! Z.to_nat (name (ent w e)) = Some n).
    { rewrite <- zget_of_nat. by rewrite Z2Nat.id. }
    unfold getEntityName.
    rewrite (Hlast _ _ n Hk); [| |  |by apply live_below_range].
    + rewrite Z2Nat.id by done.
      assert ((name (ent w e) <? 0) = false) as -> by (apply Z.ltb_ge; lia).
      rewrite Hn, Hns. unfold zget. rewrite decide_True by done.
      rewrite list_lookup_fmap, Hk. done.
    + rewrite Hne. by apply mapped_ref.
    + intros k2 n2 Hlt Hk2 Hme. specialize (Hsame k2 n2 Hk2 Hme). lia.
Qed.

(** X19: after the round trip the parent, the first child and the next
    sibling of every live entity are the mapped ones; an entity with a
    hierarchy record has the local transform it had, scale included, and
    one without has the transform that was read back. *)
Theorem deserialize_restores_hierarchy w :
  zlen (m_entities w) <= 2 ^ 31 -> names_ok w -> links_ok w ->
  exists w' m,
    deserialize empty_world [] true (serialize w []) = Some ((w', m), []) /\
    forall e, hasEntity w e = true ->
      getParent w' (EntityMap_get m e) = EntityMap_get m (getParent w e) /\
      getFirstChild w' (EntityMap_get m e) = EntityMap_get m (getFirstChild w e) /\
      getNextSibling w' (EntityMap_get m e) = EntityMap_get m (getNextSibling w e) /\
      getLocalTransform w' (EntityMap_get m e)
      = if hierarchy (ent w e) <? 0 then read_back (getLocalTransform w e)
        else getLocalTransform w e.
Proof.
  intros Hmax Hnames Hlinks.
  destruct (deserialize_serialize w Hmax (proj1 Hnames) (proj1 Hlinks)
              (names_ok_i32 w Hmax Hnames) (links_ok_i32 w Hmax Hlinks))
    as (w' & m & Hrun & _ & _ & Hlive & _ & _ & Hhs & _ & _ & Hlast & Hnone).
  exists w', m. split; [exact Hrun|]. intros e He.
  destruct Hlinks as (_ & Hrec & Hback).
  destruct (Hlive e He) as [Hm Ht]. rewrite Hm.
  assert (Hsame : forall k h, m_hierarchy w !! k = Some h ->
            EntityMap_get_ref m (entity h) = live_below w e ->
            hierarchy (ent w e) = Z.of_nat k).
  { intros k h Hk Hme. rewrite <- zget_of_nat in Hk.
    destruct (Hrec _ _ Hk) as (Hl & Hidx & _).
    rewrite (mapped_ref w m _ Hl (proj1 (Hlive _ Hl))) in Hme.
    by rewrite <- (live_below_inj w _ _ Hl He Hme). }
  unfold getParent, getFirstChild, getNextSibling, getLocalTransform.
  destruct (hierarchy (ent w e) <? 0) eqn:Hneg.
  - apply Z.ltb_lt in Hneg. rewrite Hnone.
    + simpl. unfold getTransform at 1. rewrite Ht. done.
    + intros k h Hk Hme. specialize (Hsame k h Hk Hme). lia.
  - apply Z.ltb_ge in Hneg. destruct (Hback e He Hneg) as (h & Hh & Hhe).
    assert (Hk : m_hierarchy w !! Z.to_nat (hierarchy (ent w e)) = Some h).
    { rewrite <- zget_of_nat. by rewrite Z2Nat.id. }
    rewrite (Hlast _ _ h Hk); [| |  |by apply live_below_range].
    + rewrite Z2Nat.id by done.
      assert ((hierarchy (ent w e) <? 0) = false) as -> by (apply Z.ltb_ge; lia).
      unfold hier. rewrite Hh, Hhs. unfold zget. rewrite decide_True by done.
      rewrite list_lookup_fmap, Hk. done.
    + rewrite Hhe. by apply mapped_ref.
    + intros k2 h2 Hlt Hk2 Hme. specialize (Hsame k2 h2 Hk2 Hme). lia.
Qed.

End SerializeFacts.

(** ** The round trip of a world with a dead slot *)

Module SerializeExamples.
Import World WorldMore SerializeFacts.

Lemma sparse_world_live (P : Z -> Prop) :
  P 0 -> P 2 -> P 3 ->
  forall e, hasEntity FreeSlotExamples.sparse_world e = true -> P e.
Proof.
  intros P0 P2 P3 e He. destruct (hasEntity_live _ e He) as [Hr (d & Hd & Hv)].
  replace e with (Z.of_nat (Z.to_nat e)) by lia.
  destruct (Z.to_nat e) as [|[|[|[|k]]]]; simpl in Hd; try done.
  injection Hd as <-. done.
Qed.

Lemma sparse_world_names_ok : names_ok FreeSlotExamples.sparse_world.
Proof.
  split; [by vm_compute|]. split.
  - intros k n Hk. pose proof (zget_Some _ _ _ Hk) as Hr.
    replace k with (Z.of_nat (Z.to_nat k)) in * by lia. rewrite zget_of_nat in Hk.
    destruct (Z.to_nat k) as [|[|j]]; simpl in Hk; try done; by injection Hk as <-.
  - apply (sparse_world_live (fun e => 0 <= name (ent _ e) -> exists n, _ /\ _ = e)).
    + intros _. by eexists.
    + vm_compute. intros H. by destruct H.
    + intros _. by eexists.
Qed.

Lemma sparse_world_links_ok : links_ok FreeSlotExamples.sparse_world.
Proof.
  split; [by vm_compute|]. split.
  - intros k h Hk. pose proof (zget_Some _ _ _ Hk) as Hr.
    replace k with (Z.of_nat (Z.to_nat k)) in * by lia. rewrite zget_of_nat in Hk.
    destruct (Z.to_nat k) as [|[|j]]; simpl in Hk; try done; injection Hk as <-;
      (split; [done|]); (split; [done|]); unfold is_i32; simpl; lia.
  - apply (sparse_world_live (fun e => 0 <= hierarchy (ent _ e) -> exists h, _ /\ _ = e)).
    + intros _. by eexists.
    + intros _. by eexists.
    + vm_compute. intros H. by destruct H.
Qed.

(** The entities 0, 2 and 3 come back as 0, 1 and 2. *)
Lemma deserialize_restores_transforms_witness :
  exists w' m,
    deserialize empty_world [] true (serialize FreeSlotExamples.sparse_world [])
    = Some ((w', m), []) /\
    zlen (m_entities w') = 3 /\ EntityMap_get m 1 = INVALID_ENTITY /\
    EntityMap_get m 3 = 2 /\ hasEntity w' 2 = true /\
    getPosition w' 2 = Examples.d_5_0_0 /\
    getScale FreeSlotExamples.sparse_world 3 = mkVec3 F32.one F32.two F32.half /\
    getScale w' 2 = mkVec3 F32.one F32.one F32.one.
Proof.
  destruct (deserialize_restores_transforms FreeSlotExamples.sparse_world)
    as (w' & m & Hrun & Hlen & Hall);
    [unfold zlen; simpl; lia|apply sparse_world_names_ok|apply sparse_world_links_ok|].
  exists w', m. split; [exact Hrun|]. split; [exact Hlen|].
  split; [exact (proj1 (Hall 1) eq_refl)|].
  destruct (proj2 (Hall 3) eq_refl) as (Hm & Hlive & Hp & _ & Hs).
  change (live_below FreeSlotExamples.sparse_world 3) with 2 in Hm. rewrite Hm in *.
  done.
Defined.

(** Entity 3, which comes back as entity 2, is still called "leaf". *)
Lemma deserialize_restores_names_witness :
  exists w' m,
    deserialize empty_world [] true (serialize FreeSlotExamples.sparse_world [])
    = Some ((w', m), []) /\
    forall e, hasEntity FreeSlotExamples.sparse_world e = true ->
      getEntityName w' (EntityMap_get m e) = getEntityName FreeSlotExamples.sparse_world e.
Proof.
  apply (deserialize_restores_names FreeSlotExamples.sparse_world);
    [unfold zlen; simpl; lia|apply sparse_world_names_ok|apply sparse_world_links_ok].
Defined.

(** Entity 2, the child of entity 0, comes back as entity 1, the child of
    entity 0. *)
Lemma deserialize_restores_hierarchy_witness :
  exists w' m,
    deserialize empty_world [] true (serialize FreeSlotExamples.sparse_world [])
    = Some ((w', m), []) /\
    forall e, hasEntity FreeSlotExamples.sparse_world e = true ->
      getParent w' (EntityMap_get m e)
      = EntityMap_get m (getParent FreeSlotExamples.sparse_world e) /\
      getFirstChild w' (EntityMap_get m e)
      = EntityMap_get m (getFirstChild FreeSlotExamples.sparse_world e) /\
      getNextSibling w' (EntityMap_get m e)
      = EntityMap_get m (getNextSibling FreeSlotExamples.sparse_world e) /\
      getLocalTransform w' (EntityMap_get m e)
      = if hierarchy (ent FreeSlotExamples.sparse_world e) <? 0
        then read_back (getLocalTransform FreeSlotExamples.sparse_world e)
        else getLocalTransform FreeSlotExamples.sparse_world e.
Proof.
  apply (deserialize_restores_hierarchy FreeSlotExamples.sparse_world);
    [unfold zlen; simpl; lia|apply sparse_world_names_ok|apply sparse_world_links_ok].
Defined.

End SerializeExamples.

(** * Moving an entity under its children *)

Module KeepChildrenFacts.
Import World WorldMore WorldFacts.

Lemma getLocalTransform_hrec w x :
  index_ok w ->
  getLocalTransform w x = from_option local_transform (getTransform w x) (hrec w x).
Proof.
  intros Hok. unfold getLocalTransform. destruct (hrec w x) as [h|] eqn:Hh.
  - destruct (hrec_idx _ _ _ Hh) as [Hi _]. apply Z.ltb_ge in Hi.
    by rewrite Hi, (hrec_hier _ _ _ Hh).
  - pose proof (hrec_None_idx _ _ Hok Hh) as Hi. apply Z.ltb_lt in Hi. by rewrite Hi.
Qed.

Lemma getNextSibling_hrec w x :
  index_ok w -> getNextSibling w x = from_option next_sibling INVALID_ENTITY (hrec w x).
Proof.
  intros Hok. destruct (hrec w x) as [h|] eqn:Hh.
  - by destruct (hrec_getters _ _ _ Hh) as (_ & _ & ->).
  - by destruct (hrec_None_getters _ _ Hok Hh) as (_ & _ & ->).
Qed.

(** The loop over the children: every child on the sibling list gets the
    local transform that keeps its world transform under the parent at
    [t]; nothing else changes. *)
Lemma keepChildren_spec t : forall cs fuel w c,
  index_ok w -> chain (hrec w) c cs -> NoDup cs -> (length cs < fuel)%nat ->
  exists w', keepChildren fuel w t c = Some w' /\ index_ok w' /\
    m_entities w' = m_entities w /\ m_transforms w' = m_transforms w /\
    m_names w' = m_names w /\ m_first_free_slot w' = m_first_free_slot w /\
    forall x, hrec w' x
      = if decide (x ∈ cs)
        then set_local_transform (Math.compose (Math.inverted t) (getTransform w x))
               <$> hrec w x
        else hrec w x.
Proof.
  induction cs as [|c0 cs IH]; intros fuel w c Hok Hch Hnd Hfuel.
  - inversion Hch as [? Hneg|]; subst. destruct fuel as [|fuel]; [simpl in Hfuel; lia|].
    exists w. cbn [keepChildren]. unfold isValid.
    assert ((0 <=? c) = false) as -> by (apply Z.leb_gt; lia).
    do 6 (split; [done|]). intros x. rewrite decide_False; [done|]. apply not_elem_of_nil.
  - inversion Hch as [|? h ? Hc Hh Hrest]; subst.
    destruct fuel as [|fuel]; [simpl in Hfuel; lia|]. cbn [length] in Hfuel.
    apply NoDup_cons in Hnd as [Hnotin Hnd].
    cbn [keepChildren]. unfold isValid.
    assert ((0 <=? c0) = true) as -> by (apply Z.leb_le; lia).
    set (v := Math.compose (Math.inverted t) (getTransform w c0)).
    destruct (hrec_alter_hier w c0 h (set_local_transform v) Hok Hh ltac:(done))
      as [Hok1 Hrec1].
    set (w1 := alter_hier (set_local_transform v) (hierarchy (ent w c0)) w) in *.
    assert (Hh1 : hrec w1 c0 = Some (set_local_transform v h)).
    { rewrite Hrec1. unfold upd. by rewrite decide_True. }
    assert (Hnext : next_sibling (hier w1 (hierarchy (ent w c0))) = next_sibling h).
    { change (hierarchy (ent w c0)) with (hierarchy (ent w1 c0)).
      by rewrite (hrec_hier _ _ _ Hh1). }
    rewrite Hnext.
    destruct (IH fuel w1 (next_sibling h)) as (w' & Hrun & Hok' & He & Ht & Hn & Hf & Hrec');
      [done| |done|lia|].
    { apply chain_frame with (hrec w); [done|]. intros x Hx. rewrite Hrec1. unfold upd.
      case_decide; [subst x; by rewrite Hh|done]. }
    exists w'. split; [exact Hrun|]. split; [done|]. split; [by rewrite He|].
    split; [by rewrite Ht|]. split; [by rewrite Hn|]. split; [by rewrite Hf|].
    intros x. rewrite Hrec', Hrec1. unfold upd.
    change (getTransform w1 x) with (getTransform w x).
    destruct (decide (x = c0)) as [->|Hne].
    + rewrite decide_False by done. rewrite decide_True by left. by rewrite Hh.
    + destruct (decide (x ∈ cs)) as [Hin|Hout].
      * rewrite decide_True by (by right). done.
      * rewrite decide_False; [done|]. intros [?|?]%elem_of_cons; done.
Qed.

Lemma getTransform_set w e t x :
  0 <= e < zlen (m_transforms w) ->
  getTransform (alter_transform (fun _ => t) e w) x
  = if decide (x = e) then t else getTransform w x.
Proof.
  intros He. unfold getTransform, alter_transform, with_transforms. cbn.
  case_decide as Hx.
  - subst x. rewrite zget_zalter_eq. by destruct (zget_is_Some (m_transforms w) e He) as [t0 ->].
  - by rewrite zget_zalter_ne.
Qed.

(** What [setTransformKeepChildren] does to the records: the record of [e]
    is rewritten if [e] has a parent, then the records of its children. *)
Lemma setTransformKeepChildren_records w e t fuel :
  wf_hierarchy w -> (length (m_hierarchy w) < fuel)%nat ->
  0 <= e < zlen (m_transforms w) ->
  exists w', setTransformKeepChildren fuel w e t = Some w' /\ index_ok w' /\
    m_entities w' = m_entities w /\
    (forall x, getTransform w' x = if decide (x = e) then t else getTransform w x) /\
    (hrec w e = None -> forall x, hrec w' x = hrec w x) /\
    (forall h, hrec w e = Some h ->
       exists cs own,
         chain (hrec w) (first_child h) cs /\
         own = (if isValid (parent h)
                then set_local_transform
                       (Math.compose (Math.inverted (getTransform w' (parent h))) t) h
                else h) /\
         forall x, hrec w' x
           = if decide (x ∈ cs)
             then set_local_transform (Math.compose (Math.inverted t) (getTransform w' x))
                    <$> upd (hrec w) e (Some own) x
             else upd (hrec w) e (Some own) x).
Proof.
  intros [Hok HF] Hfuel He. unfold setTransformKeepChildren.
  set (w0 := notify (EntityMoved e) (alter_transform (fun _ => t) e w)).
  assert (Ht0 : forall x, getTransform w0 x = if decide (x = e) then t else getTransform w x).
  { intros x. apply (getTransform_set w e t x He). }
  change (hierarchy (ent (alter_transform (fun _ => t) e w) e)) with (hierarchy (ent w e)).
  assert (Hte : getTransform w0 e = t) by (by rewrite Ht0, decide_True).
  fold w0. destruct (hrec w e) as [h|] eqn:Hh.
  - destruct (hrec_idx _ _ _ Hh) as [Hi _].
    assert ((0 <=? hierarchy (ent w e)) = true) as -> by (by apply Z.leb_le).
    assert (Hhier : hier w0 (hierarchy (ent w e)) = h) by apply (hrec_hier _ _ _ Hh).
    rewrite Hhier.
    set (own := if isValid (parent h)
                then set_local_transform
                       (Math.compose (Math.inverted (getTransform w0 (parent h)))
                          (getTransform w0 e)) h
                else h).
    set (w1 := if isValid (parent h) then alter_hier _ _ w0 else w0).
    assert (H1 : index_ok w1 /\ (forall x, hrec w1 x = upd (hrec w) e (Some own) x) /\
                 m_entities w1 = m_entities w /\ m_transforms w1 = m_transforms w0).
    { unfold w1, own. destruct (isValid (parent h)).
      - destruct (hrec_alter_hier_at w0 e h
                    (set_local_transform
                       (Math.compose (Math.inverted (getTransform w0 (parent h)))
                          (getTransform w0 e)))
                    (hierarchy (ent w e)) Hok Hh eq_refl ltac:(done)) as [Hok1 Hrec1].
        done.
      - split; [exact Hok|]. split; [|done]. intros x. unfold upd.
        case_decide; [by subst x|done]. }
    destruct H1 as (Hok1 & Hrec1 & He1 & Ht1).
    destruct HF as (_ & HC2 & _). destruct (HC2 _ _ Hh) as (cs & Hcs & Hnd & _).
    destruct (keepChildren_spec (getTransform w0 e) cs fuel w1 (first_child h))
      as (w' & Hrun & Hok' & He' & Ht' & _ & _ & Hrec'); [done| |done| |].
    { apply chain_frame with (hrec w); [done|]. intros x _. rewrite Hrec1. unfold upd, own.
      case_decide; [subst x; rewrite Hh; by destruct (isValid (parent h))|done]. }
    { pose proof (chain_length_le w _ _ Hok Hcs Hnd). lia. }
    assert (Htr : forall x, getTransform w' x = getTransform w0 x).
    { intros x. unfold getTransform. by rewrite Ht', Ht1. }
    exists w'. split; [exact Hrun|]. split; [done|]. split; [by rewrite He'|].
    split; [intros x; by rewrite Htr|]. split; [intros HH; discriminate HH|].
    intros h' [= <-]. exists cs, own. split; [done|]. split.
    + unfold own. by rewrite !Htr, Hte.
    + intros x. rewrite Hrec', Hte.
      assert (getTransform w1 x = getTransform w' x) as ->.
      { rewrite Htr. unfold getTransform. by rewrite Ht1. }
      case_decide; by rewrite Hrec1.
  - pose proof (hrec_None_idx _ _ Hok Hh) as Hi.
    assert ((0 <=? hierarchy (ent w e)) = false) as -> by (apply Z.leb_gt; lia).
    exists w0. split; [done|]. split; [exact Hok|]. split; [done|]. split; [exact Ht0|].
    split; [done|]. done.
Qed.

(** X20: in a well-formed hierarchy [setTransformKeepChildren(e, t)]
    returns; afterwards [e] is at [t], every other entity has the world
    transform and all entities have the parent, first child and next
    sibling they had; the local transform of every child of [e] is its
    world transform seen from [t], the local transform of [e] is [t] seen
    from its parent, and every other local transform is unchanged. *)
Theorem setTransformKeepChildren_keeps_world_transforms w e t fuel :
  wf_hierarchy w -> (length (m_hierarchy w) < fuel)%nat ->
  0 <= e < zlen (m_transforms w) ->
  exists w', setTransformKeepChildren fuel w e t = Some w' /\
    m_entities w' = m_entities w /\
    getTransform w' e = t /\
    (forall x, x <> e -> getTransform w' x = getTransform w x) /\
    (forall x, getParent w' x = getParent w x /\ getFirstChild w' x = getFirstChild w x /\
               getNextSibling w' x = getNextSibling w x) /\
    (forall c, getParent w c = e ->
       getLocalTransform w' c = Math.compose (Math.inverted t) (getTransform w' c)) /\
    (forall x, x <> e -> getParent w x <> e ->
       getLocalTransform w' x = getLocalTransform w x) /\
    (0 <= getParent w e -> getParent w e <> e ->
       getLocalTransform w' e
       = Math.compose (Math.inverted (getTransform w (getParent w e))) t).
Proof.
  intros Hwf Hfuel He.
  destruct (setTransformKeepChildren_records w e t fuel Hwf Hfuel He)
    as (w' & Hrun & Hok' & Hent & Htr & Hnone & Hsome).
  destruct Hwf as [Hok HF]. pose proof HF as (_ & HC2 & HC3).
  exists w'. split; [exact Hrun|]. split; [done|].
  split; [by rewrite Htr, decide_True|].
  split; [intros x Hx; by rewrite Htr, decide_False|].
  assert (Hlinks : forall x,
            parent <$> hrec w' x = parent <$> hrec w x /\
            first_child <$> hrec w' x = first_child <$> hrec w x /\
            next_sibling <$> hrec w' x = next_sibling <$> hrec w x).
  { intros x. destruct (hrec w e) as [h|] eqn:Hh.
    - destruct (Hsome h eq_refl) as (cs & own & _ & Hown & Hrec). rewrite Hrec.
      assert (Hupd : parent <$> upd (hrec w) e (Some own) x = parent <$> hrec w x /\
                     first_child <$> upd (hrec w) e (Some own) x = first_child <$> hrec w x /\
                     next_sibling <$> upd (hrec w) e (Some own) x
                     = next_sibling <$> hrec w x).
      { unfold upd. case_decide; [|done]. subst x own. rewrite Hh.
        by destruct (isValid (parent h)). }
      case_decide; [|done]. destruct (upd (hrec w) e (Some own) x); done.
    - by rewrite (Hnone eq_refl). }
  split; [|split; [|split]].
  - intros x. destruct (Hlinks x) as (Hp & Hf & Hn).
    rewrite !HierarchyFacts.getParent_hrec, !HierarchyFacts.getFirstChild_hrec,
      !getNextSibling_hrec by done.
    destruct (hrec w' x), (hrec w x); simpl in *; try done.
    by injection Hp as ->; injection Hf as ->; injection Hn as ->.
  - intros c Hpc. rewrite HierarchyFacts.getParent_hrec in Hpc by done.
    destruct (hrec w c) as [hc|] eqn:Hc; simpl in Hpc; [|unfold INVALID_ENTITY in Hpc; lia].
    destruct (HC3 c hc Hc ltac:(lia)) as (hp & cs' & Hp & Hcs' & Hin).
    rewrite Hpc in Hp. destruct (Hsome hp Hp) as (cs & own & Hcs & _ & Hrec).
    rewrite (chain_det _ _ _ _ Hcs' Hcs) in Hin.
    rewrite getLocalTransform_hrec, Hrec, decide_True by done.
    unfold upd. case_decide; [done|]. by rewrite Hc.
  - intros x Hx Hpx. rewrite !getLocalTransform_hrec by done.
    rewrite Htr, decide_False by done.
    destruct (hrec w e) as [h|] eqn:Hh; [|by rewrite (Hnone eq_refl)].
    destruct (Hsome h eq_refl) as (cs & own & Hcs & _ & Hrec). rewrite Hrec.
    rewrite decide_False.
    + unfold upd. by rewrite decide_False.
    + intros Hin. destruct (HC2 _ _ Hh) as (cs' & Hcs' & _ & Hmem).
      rewrite (chain_det _ _ _ _ Hcs Hcs') in Hin.
      destruct (Hmem x Hin) as (hx & Hhx & Hpar).
      rewrite HierarchyFacts.getParent_hrec, Hhx in Hpx by done. done.
  - intros Hp Hself. rewrite HierarchyFacts.getParent_hrec in Hp, Hself |- * by done.
    destruct (hrec w e) as [h|] eqn:Hh; simpl in *; [|unfold INVALID_ENTITY in Hp; lia].
    destruct (Hsome h eq_refl) as (cs & own & Hcs & Hown & Hrec).
    rewrite getLocalTransform_hrec, Hrec by done.
    rewrite decide_False.
    + unfold upd. rewrite decide_True by done. simpl. rewrite Hown. unfold isValid.
      assert ((0 <=? parent h) = true) as -> by (by apply Z.leb_le).
      simpl. by rewrite Htr, decide_False.
    + intros Hin. destruct (HC2 _ _ Hh) as (cs' & Hcs' & _ & Hmem).
      rewrite (chain_det _ _ _ _ Hcs Hcs') in Hin.
      destruct (Hmem e Hin) as (he & Hhe & Hpar). congruence.
Qed.

End KeepChildrenFacts.

Module KeepChildrenExamples.
Import World WorldMore KeepChildrenFacts.

(** Entity 0 of [family_world], the parent of entity 1, is moved to
    (5, 0, 0); entity 1 stays where it is. *)
Lemma setTransformKeepChildren_keeps_world_transforms_witness :
  exists w',
    setTransformKeepChildren 4 Examples.family_world 0
      (mkTransform Examples.d_5_0_0 Quat_IDENTITY Vec3_ONE) = Some w' /\
    getPosition w' 0 = Examples.d_5_0_0 /\
    getTransform w' 1 = getTransform Examples.family_world 1 /\
    getParent w' 1 = 0 /\
    getLocalTransform w' 1
    = Math.compose (Math.inverted (mkTransform Examples.d_5_0_0 Quat_IDENTITY Vec3_ONE))
        (getTransform w' 1).
Proof.
  destruct (setTransformKeepChildren_keeps_world_transforms Examples.family_world 0
              (mkTransform Examples.d_5_0_0 Quat_IDENTITY Vec3_ONE) 4)
    as (w' & Hrun & _ & Ht & Hother & Hlinks & Hchild & _);
    [apply WorldExamples.family_world_wf|simpl; lia|unfold zlen; simpl; lia|].
  exists w'. split; [exact Hrun|]. split; [unfold getPosition; by rewrite Ht|].
  split; [by apply Hother|]. split; [by rewrite (proj1 (Hlinks 1))|].
  by apply Hchild.
Defined.

End KeepChildrenExamples.

(** * The life of an entity: created, destroyed, created again *)

Module LifecycleFacts.
Import World WorldMore WorldFacts.

Lemma empty_world_inv : lifecycle_inv empty_world.
Proof.
  assert (Hnone : forall x, hrec empty_world x = None).
  { intros x. unfold hrec.
    assert (zget (m_entities empty_world) x = None) as ->; [|done].
    apply zget_None. unfold zlen. simpl. lia. }
  split; [|split].
  - split; [done|]. exists []. split; [by constructor|]. split; [constructor|].
    intros e d Hd. apply zget_Some in Hd. unfold zlen in Hd. simpl in Hd. lia.
  - split.
    + split.
      * intros i h Hh. apply zget_Some in Hh. unfold zlen in Hh. simpl in Hh. lia.
      * intros e d Hd. apply zget_Some in Hd. unfold zlen in Hd. simpl in Hd. lia.
    + split; [|split]; intros x h Hx; by rewrite Hnone in Hx.
  - intros x _. apply Hnone.
Qed.

(** The slot that [createEntity] returns *)
Lemma createEntity_index w position rotation :
  snd (createEntity w position rotation)
  = if 0 <=? m_first_free_slot w then m_first_free_slot w else zlen (m_entities w).
Proof. unfold createEntity. by destruct (0 <=? m_first_free_slot w). Qed.

(** [createEntity] leaves the hierarchy records and their owners alone. *)
Lemma createEntity_records w position rotation :
  free_list_ok w -> index_ok w -> dead_unlinked w ->
  index_ok (fst (createEntity w position rotation)) /\
  forall x, hrec (fst (createEntity w position rotation)) x = hrec w x.
Proof.
  intros (Hlen & fs & Hch & Hnd & Hall) Hok Hdead. unfold createEntity.
  destruct (0 <=? m_first_free_slot w) eqn:Hslot; cbn [fst].
  - apply Z.leb_le in Hslot. set (e := m_first_free_slot w) in *.
    inversion Hch as [|p e0 d fs' He Hd Hv Hp Hch' E1 E2 E3]; [lia|]. subst p e0 fs.
    assert (Hneg : hierarchy d < 0).
    { assert (Hr : hrec w e = None).
      { apply Hdead. by rewrite (FreeListFacts.hasEntity_valid _ _ _ Hd). }
      pose proof (hrec_None_idx _ _ Hok Hr) as Hi. unfold ent in Hi. by rewrite Hd in Hi. }
    set (w1 := notify _ _).
    assert (Hh : m_hierarchy w1 = m_hierarchy w).
    { unfold w1. simpl. by destruct (0 <=? next (ent w e)). }
    assert (Hk : forall x, (fun d => Z.max (-1) (hierarchy d)) <$> zget (m_entities w1) x
                           = (fun d => Z.max (-1) (hierarchy d)) <$> zget (m_entities w) x).
    { intros x. unfold w1. simpl. rewrite HierarchyFacts.key_zalter.
      - destruct (0 <=? next (ent w e)); [|done]. simpl.
        by rewrite HierarchyFacts.key_zalter.
      - intros d' Hd'. simpl.
        assert (hierarchy d' = hierarchy d) as ->; [|lia].
        destruct (0 <=? next (ent w e)); simpl in Hd'; [|congruence].
        rewrite FreeListFacts.zget_zalter in Hd'. case_decide; [|congruence].
        rewrite Hd in Hd'. by injection Hd' as <-. }
    destruct (HierarchyFacts.hrec_same_records w w1 Hh Hk) as [Hrec Hok1].
    split; [by apply Hok1|done].
  - apply Z.leb_gt in Hslot.
    set (fresh := mkEntityData (-1) (-1) (m_active_partition w) 0 (-1) (-1) true).
    set (w1 := notify _ _).
    assert (He1 : m_entities w1 = m_entities w ++ [fresh]) by done.
    assert (Hh1 : m_hierarchy w1 = m_hierarchy w) by done.
    assert (Hget : forall x d, zget (m_entities w1) x = Some d ->
              zget (m_entities w) x = Some d \/ d = fresh).
    { intros x d Hx. rewrite He1 in Hx.
      destruct (decide (x < zlen (m_entities w))) as [Hlt|Hge].
      - left. by rewrite zget_app_l in Hx.
      - right. pose proof (zget_Some _ _ _ Hx) as Hr. rewrite zlen_app in Hr.
        unfold zlen at 2 in Hr. simpl in Hr.
        assert (x = zlen (m_entities w)) as -> by lia.
        rewrite zget_app_new in Hx. by injection Hx as <-. }
    destruct Hok as [Hok1 Hok2]. split; [split|].
    + intros i h Hi. rewrite Hh1 in Hi. destruct (Hok1 _ _ Hi) as (d & Hd & Hdi).
      exists d. split; [|done]. rewrite He1, zget_app_l; [done|].
      apply zget_Some in Hd. lia.
    + intros x d Hx Hd0. rewrite Hh1. destruct (Hget _ _ Hx) as [Hw| ->].
      * by apply Hok2.
      * simpl in Hd0. lia.
    + intros x. unfold hrec. rewrite Hh1.
      destruct (zget (m_entities w1) x) as [d|] eqn:Hx.
      * destruct (Hget _ _ Hx) as [-> | ->]; [done|]. simpl.
        destruct (zget (m_entities w) x) as [d0|] eqn:Hx0; [|done].
        rewrite He1, zget_app_l in Hx by (apply zget_Some in Hx0; lia).
        rewrite Hx0 in Hx. by injection Hx as ->.
      * rewrite He1 in Hx. apply zget_None in Hx. rewrite zlen_app in Hx.
        pose proof (zlen_nonneg [fresh]).
        assert (zget (m_entities w) x = None) as -> by (apply zget_None; lia). done.
Qed.

(** C9.  [createEntity] returns the head of the free list if there is one
    and the next index of the entity array otherwise; [hasEntity] holds for
    it afterwards wherever the head of the free list lies inside the array,
    so on both paths; where the free list holds exactly the slots that are
    not live, the entity was not live before and no other entity changes
    its liveness.  [destroyEntity] of a live entity, in a well-formed
    hierarchy, returns (given fuel beyond the number of hierarchy records)
    and leaves [hasEntity] false for it, and the liveness of the others as
    it was.  What these ask of the world is [lifecycle_inv], which holds in
    the fresh world and which both operations keep. *)
Theorem entity_lifecycle :
  lifecycle_inv empty_world /\
  (forall w position rotation,
     let w' := fst (createEntity w position rotation) in
     let r := snd (createEntity w position rotation) in
     r = (if 0 <=? m_first_free_slot w then m_first_free_slot w
          else zlen (m_entities w)) /\
     (free_slot_ok w -> hasEntity w' r = true) /\
     (free_list_ok w ->
      hasEntity w r = false /\ forall x, x <> r -> hasEntity w' x = hasEntity w x) /\
     (lifecycle_inv w -> lifecycle_inv w')) /\
  (forall w e fuel, wf_hierarchy w -> hasEntity w e = true ->
     (length (m_hierarchy w) < fuel)%nat ->
     exists w', destroyEntity fuel w e = Some w' /\ hasEntity w' e = false /\
       (free_list_ok w -> forall x, x <> e -> hasEntity w' x = hasEntity w x) /\
       (lifecycle_inv w -> lifecycle_inv w')).
Proof.
  split; [exact empty_world_inv|]. split.
  - intros w position rotation w' r.
    split; [apply createEntity_index|].
    split; [apply createEntity_live|].
    split.
    + intros Hfree.
      destruct (FreeListFacts.createEntity_slots w position rotation Hfree)
        as (Hwas & _ & _ & Hrest & _).
      split; [exact Hwas|]. intros x Hx. by apply Hrest.
    + intros (Hfree & [Hok HF] & Hdead).
      destruct (FreeListFacts.createEntity_slots w position rotation Hfree)
        as (_ & Hlive & _ & Hrest & Hfree').
      destruct (createEntity_records w position rotation Hfree Hok Hdead) as [Hok' Hrec].
      fold w' in Hlive, Hrest, Hfree', Hok', Hrec. fold r in Hlive, Hrest.
      split; [exact Hfree'|]. split.
      * split; [exact Hok'|]. apply forest_ext with (hrec w); [done|exact HF].
      * intros x Hx. rewrite Hrec. apply Hdead.
        destruct (decide (x = r)) as [->|Hne]; [congruence|].
        by rewrite <- (proj1 (Hrest x Hne)).
  - intros w e fuel Hwf He Hfuel.
    destruct (HierarchyFacts.destroyEntity_view w e fuel Hwf He Hfuel)
      as (w' & Hrun & Hwf' & Hgone & Hnone & _).
    exists w'. split; [exact Hrun|]. split.
    { destruct (destroyEntity_dead w e fuel Hwf Hfuel) as (w2 & Hrun2 & Hdead2).
      rewrite Hrun in Hrun2. apply (inj Some) in Hrun2. by subst w2. }
    split.
    + intros Hfree x Hx.
      destruct (FreeListFacts.destroyEntity_slots fuel w e w' Hfree He Hrun)
        as (_ & Hrest & _).
      by apply Hrest.
    + intros (Hfree & _ & Hdead).
      destruct (FreeListFacts.destroyEntity_slots fuel w e w' Hfree He Hrun)
        as (_ & Hrest & Hfree' & _).
      split; [exact Hfree'|]. split; [exact Hwf'|].
      intros x Hx. destruct (decide (x = e)) as [->|Hne]; [exact Hgone|].
      apply Hnone, Hdead. by rewrite <- (proj1 (Hrest x Hne)).
Qed.

End LifecycleFacts.

(** ** The life of an entity on concrete worlds *)

Module LifecycleExamples.
Import World WorldMore LifecycleFacts.

Lemma family_world_inv : lifecycle_inv Examples.family_world.
Proof.
  split; [apply FreeListExamples.family_world_free_list|].
  split; [apply WorldExamples.family_world_wf|].
  intros x Hx. unfold hrec.
  destruct (zget (m_entities Examples.family_world) x) as [d|] eqn:Hd; [|done].
  pose proof (zget_Some _ _ _ Hd) as Hr. unfold zlen in Hr. simpl in Hr.
  assert (x = 0 \/ x = 1 \/ x = 2) as [->|[->| ->]] by lia; discriminate Hx.
Qed.

(** In the fresh world [createEntity] appends slot 0; in [vacated_world],
    which is [family_world] after the entity 0 was destroyed, it takes slot
    0 from the free list. *)
Lemma entity_lifecycle_witness :
  (snd (createEntity empty_world DVec3_ZERO Quat_IDENTITY) = zlen (m_entities empty_world) /\
   hasEntity empty_world 0 = false /\
   hasEntity (fst (createEntity empty_world DVec3_ZERO Quat_IDENTITY)) 0 = true) /\
  (exists w', destroyEntity 3 Examples.family_world 0 = Some w' /\ hasEntity w' 0 = false /\
     lifecycle_inv w' /\
     snd (createEntity w' DVec3_ZERO Quat_IDENTITY) = m_first_free_slot w' /\
     m_first_free_slot w' = 0 /\
     hasEntity (fst (createEntity w' DVec3_ZERO Quat_IDENTITY)) 0 = true).
Proof.
  destruct entity_lifecycle as (Hempty & Hcreate & Hdestroy).
  split.
  - destruct (Hcreate empty_world DVec3_ZERO Quat_IDENTITY) as (Hr & Hlive & Hnew & _).
    split; [exact Hr|]. split; [exact (proj1 (Hnew (proj1 Hempty)))|].
    apply Hlive. unfold free_slot_ok, zlen. simpl. lia.
  - destruct (Hdestroy Examples.family_world 0 3%nat WorldExamples.family_world_wf eq_refl
                ltac:(simpl; lia)) as (w' & Hrun & Hgone & _ & Hinv).
    exists w'. split; [exact Hrun|]. split; [exact Hgone|].
    split; [exact (Hinv family_world_inv)|].
    destruct (Hcreate w' DVec3_ZERO Quat_IDENTITY) as (Hr & Hlive & _).
    rewrite FreeListExamples.vacated_world_destroyed in Hrun.
    apply (inj Some) in Hrun. subst w'.
    split; [exact Hr|]. split; [reflexivity|]. apply Hlive.
    unfold free_slot_ok, zlen. simpl. lia.
Defined.

End LifecycleExamples.

(** * [setParent] with the child as its own parent *)

Module SelfParentFacts.
Import World WorldMore WorldFacts CycleExamples.

(** The guard of [setParent] finds no descendant of an entity without a
    hierarchy record, the entity itself included. *)
Lemma isDescendant_no_record w e x fuel :
  hierarchy (ent w e) < 0 -> isDescendant (S fuel) w e x = Some false.
Proof.
  intros Hneg. unfold isDescendant, getFirstChild.
  assert ((hierarchy (ent w e) <? 0) = true) as -> by (by apply Z.ltb_lt). done.
Qed.

Lemma hier_alter_new f W (l : list Hierarchy) r :
  m_hierarchy W = l ++ [r] -> m_hierarchy (alter_hier f (zlen l) W) = l ++ [f r].
Proof.
  intros H. unfold alter_hier, with_hierarchy. cbn. rewrite H.
  apply SerializeFacts.zalter_new.
Qed.

Lemma hier_new W (l : list Hierarchy) r : m_hierarchy W = l ++ [r] -> hier W (zlen l) = r.
Proof. intros H. unfold hier. by rewrite H, zget_app_new. Qed.

(** [setParent(e, e)] for an entity without a hierarchy record: nothing is
    logged, and [e] gets a record in which it is its own parent and its own
    first child. *)
Lemma setParent_self w e fuel :
  0 <= e < zlen (m_entities w) -> hierarchy (ent w e) < 0 ->
  exists w', setParent (S fuel) w e e = Some w' /\ m_trace w' = m_trace w /\
    m_entities w' = zalter (set_hierarchy (zlen (m_hierarchy w))) e (m_entities w) /\
    m_hierarchy w' = m_hierarchy w ++
      [mkHierarchy e e e INVALID_ENTITY
         (Math.compose (Math.inverted (getTransform w e)) (getTransform w e))].
Proof.
  intros He Hneg. unfold setParent.
  assert (isValid e = true) as Hv by (apply Z.leb_le; lia).
  rewrite Hv, (isDescendant_no_record w e e fuel Hneg).
  unfold detachFromParent.
  assert ((0 <=? hierarchy (ent w e)) = false) as -> by (apply Z.leb_gt; lia).
  rewrite Hv. eexists. split; [reflexivity|].
  pose proof (zlen_nonneg (m_hierarchy w)) as Hn.
  assert (Hidx : hierarchy (ent (emplace_record e w) e) = zlen (m_hierarchy w)).
  { unfold emplace_record, ent. simpl. rewrite zget_zalter_eq.
    by destruct (zget_is_Some (m_entities w) e He) as [d ->]. }
  unfold linkToParent. rewrite Hv, !Hidx.
  assert ((zlen (m_hierarchy w) <? 0) = false) as -> by (apply Z.ltb_ge; lia).
  split; [done|]. split; [done|].
  assert (H0 : m_hierarchy (emplace_record e w) = m_hierarchy w ++ [new_record e]) by done.
  pose proof (hier_alter_new (set_parent e) _ _ _ H0) as H1.
  pose proof (hier_alter_new
                (set_local_transform
                   (Math.compose (Math.inverted (getTransform w e)) (getTransform w e)))
                _ _ _ H1) as H2.
  assert (Htr : forall f i W x, getTransform (alter_hier f i W) x = getTransform W x) by done.
  assert (Htr0 : forall x, getTransform (emplace_record e w) x = getTransform w x) by done.
  rewrite ?Htr, ?Htr0, ?Hidx.
  erewrite hier_alter_new.
  2:{ apply hier_alter_new. exact H2. }
  by rewrite (hier_new _ _ _ H2).
Qed.

(** The guard of [setParent] does not return on an entity that is its own
    first child. *)
Lemma isDescendantFrom_self_child w e x :
  getFirstChild w e = e -> 0 <= e -> x <> e ->
  forall fuel, isDescendantFrom fuel w e x = None.
Proof.
  intros Hfc He Hx. induction fuel as [|fuel IH]; [done|]. cbn [isDescendantFrom].
  assert ((e =? INVALID_ENTITY) = false) as -> by (apply Z.eqb_neq; unfold INVALID_ENTITY; lia).
  assert ((e =? x) = false) as -> by (apply Z.eqb_neq; congruence).
  by rewrite Hfc, IH.
Qed.

(** After [setParent(e, e)] the entity is its own parent and first child,
    and the guard of [setParent] no longer returns for it. *)
Lemma setParent_self_cycle w e fuel :
  0 <= e < zlen (m_entities w) -> hierarchy (ent w e) < 0 ->
  exists w', setParent (S fuel) w e e = Some w' /\ m_trace w' = m_trace w /\
    m_hierarchy w' <> m_hierarchy w /\
    getParent w' e = e /\ getFirstChild w' e = e /\
    forall x fuel', 0 <= x -> x <> e -> setParent fuel' w' x e = None.
Proof.
  intros He Hneg.
  destruct (setParent_self w e fuel He Hneg) as (w' & Hrun & Htrace & Hents & Hrecs).
  exists w'. split; [exact Hrun|]. split; [exact Htrace|].
  pose proof (zlen_nonneg (m_hierarchy w)) as Hn.
  assert (Hidx : hierarchy (ent w' e) = zlen (m_hierarchy w)).
  { unfold ent. rewrite Hents, zget_zalter_eq.
    by destruct (zget_is_Some (m_entities w) e He) as [d ->]. }
  assert (Hp : getParent w' e = e /\ getFirstChild w' e = e).
  { unfold getParent, getFirstChild. rewrite Hidx.
    assert ((zlen (m_hierarchy w) <? 0) = false) as -> by (apply Z.ltb_ge; lia).
    by rewrite (hier_new _ _ _ Hrecs). }
  split.
  { rewrite Hrecs. intros Heq. apply (f_equal length) in Heq.
    rewrite length_app in Heq. simpl in Heq. lia. }
  split; [apply Hp|]. split; [apply Hp|].
  intros x fuel' Hx Hne. unfold setParent, isDescendant.
  assert (isValid x = true) as -> by (by apply Z.leb_le).
  rewrite (proj2 Hp). by rewrite isDescendantFrom_self_child by (apply Hp || lia || done).
Qed.

(** C3 fails on the code.  The guard of [setParent] refuses a parent below
    the child: in [family_world], where entity 1 is the child of entity 0,
    [setParent(1, 0)] logs the error and leaves the records alone.  It does
    not refuse the child itself: for every entity [e] of any world that has
    no hierarchy record, [setParent(e, e)] logs nothing, adds a record and
    makes [e] its own parent and its own first child; from then on
    [isDescendant(e, x)], and with it [setParent(x, e)], returns for no
    other entity [x], whatever the fuel.  [pair_world], two live entities
    without records, shows it with [e = 0] and [x = 1]: after
    [setParent(0, 0)] entity 1 is live and has no parent, so it is no
    descendant of entity 0, and [setParent(1, 0)] does not return. *)
Theorem setParent_self_makes_cycle :
  (exists w', setParent 4 Examples.family_world 1 0 = Some w' /\
     m_trace w' = m_trace Examples.family_world ++ [LogError cycle_message] /\
     m_hierarchy w' = m_hierarchy Examples.family_world) /\
  (forall w e fuel, 0 <= e < zlen (m_entities w) -> hierarchy (ent w e) < 0 ->
     exists w', setParent (S fuel) w e e = Some w' /\ m_trace w' = m_trace w /\
       m_hierarchy w' <> m_hierarchy w /\
       getParent w' e = e /\ getFirstChild w' e = e /\
       forall x fuel', 0 <= x -> x <> e -> setParent fuel' w' x e = None) /\
  hasEntity pair_world 0 = true /\ hasEntity pair_world 1 = true /\
  m_hierarchy pair_world = [] /\
  (forall fuel, setParent (S fuel) pair_world 0 0 = Some self_parent_world) /\
  (LogError cycle_message ∉ m_trace self_parent_world) /\
  m_hierarchy self_parent_world
  = [mkHierarchy 0 0 0 INVALID_ENTITY (local_transform (hier self_parent_world 0))] /\
  getParent self_parent_world 0 = 0 /\
  hasEntity self_parent_world 0 = true /\ hasEntity self_parent_world 1 = true /\
  getParent self_parent_world 1 = INVALID_ENTITY /\
  (forall fuel, isDescendant fuel self_parent_world 0 1 = None) /\
  (forall fuel, setParent fuel self_parent_world 1 0 = None).
Proof.
  split; [eexists; split; [by vm_compute|done]|].
  split; [exact setParent_self_cycle|].
  split; [done|]. split; [done|]. split; [done|].
  assert (Hloop : forall fuel, isDescendant fuel self_parent_world 0 1 = None).
  { intros fuel. unfold isDescendant.
    change (getFirstChild self_parent_world 0) with 0.
    by apply isDescendantFrom_self_child. }
  split; [intros fuel; by vm_compute|].
  split.
  { intros Hin. vm_compute in Hin. repeat (apply elem_of_cons in Hin as [Hin|Hin]; [done|]).
    by apply elem_of_nil in Hin. }
  split; [done|]. split; [done|]. split; [done|]. split; [done|]. split; [done|].
  split; [exact Hloop|].
  intros fuel. unfold setParent. change (isValid 1) with true. cbv iota. by rewrite Hloop.
Qed.

End SelfParentFacts.
